(** * Notion events synchronisation: a shallow embedding

    The repository publishes the events of a Notion database as a static
    JSON file.  Two Node scripts do the work:

    - [fetch-events-from-notion.mjs] queries the database, flattens every
      page into an event object, compares a SHA-256 digest of the result
      with the digest of the published file and rewrites the file when
      they differ.  The repository holds two variants of this script: one
      that also moves events from "Upcoming" to "Past" and hides the venue
      fields, and the one under [scripts/], without either.
    - [check-notion-updates.mjs] decides whether a fetch is needed at all.
      Again there are two variants: the one under [scripts/], which scans
      for events whose date has passed, and one without the scan.

    JavaScript values are embedded as the inductive type [JSValue]; objects
    are association lists kept in the order [Object.keys] enumerates them.
    Everything the scripts obtain from the host is explicit: numbers, [Date]
    and [Intl] through the classes [JSNumber] and [Host]; the Notion client
    as the record [Client] of what each request answers; the two files as
    the record [FS].  [JSON.stringify], [JSON.parse] and SHA-256 are
    written out.

    Whether the host lets a script create the output directory and write
    a file is part of [Host] too: a refused write throws like any other
    call, after what was written before it.

    Left out: the lines written to the console, the [debug] flag of
    [mapEvent] (it only logs) and the check of the credentials at start-up.
    The call stack is explicit for the one function that recurses,
    [extractPropertyValue]: [extractPropertyValue_on] is the call on a stack
    of a given size, and [extractPropertyValue] the value it returns when
    the stack has room. *)

From Stdlib Require Import ZArith NArith List String Ascii Bool Lia Arith.
From Stdlib Require Import Permutation Sorted.
Import ListNotations.

Set Warnings "-register-all".

Local Open Scope list_scope.
Local Open Scope string_scope.

(** ** JavaScript values *)

(** IEEE doubles are kept abstract: the scripts never compute with them,
    they test them for truthiness and hand them to [JSON]. *)
Class JSNumber : Type := {
  number : Type;
  (** [!n] is true: [+0], [-0] and [NaN]. *)
  number_is_falsy : number -> bool;
  (** [Number.isFinite(n)]; [JSON.stringify] prints the others as [null]. *)
  number_is_finite : number -> bool;
  (** [Number.prototype.toString], the text [JSON.stringify] emits. *)
  Number_toString : number -> string;
  (** The number [JSON.parse] builds from a numeric lexeme; [None] when the
      lexeme is not a JSON number. *)
  Number_ofJSON : string -> option number
}.

Inductive JSValue (num : Type) : Type :=
| VUndefined
| VNull
| VBool (b : bool)
| VNum (n : num)
| VStr (s : string)
| VArr (items : list (JSValue num))
| VObj (members : list (string * JSValue num)).
Arguments VUndefined {num}.
Arguments VNull {num}.
Arguments VBool {num} b.
Arguments VNum {num} n.
Arguments VStr {num} s.
Arguments VArr {num} items.
Arguments VObj {num} members.

(** Values over the numbers of the host.  An object is the list of its own
    enumerable properties, in the order of [Object.keys]. *)
Abbreviation value := (JSValue number).
Abbreviation object := (list (string * JSValue number)).

Section Values.
Context {JN : JSNumber}.

(** [ToBoolean]. *)
Definition truthy (v : value) : bool :=
  match v with
  | VUndefined | VNull => false
  | VBool b => b
  | VNum n => negb (number_is_falsy n)
  | VStr s => negb (s =? "")
  | VArr _ | VObj _ => true
  end.

(** [a || b] on values. *)
Definition js_or (a b : value) : value := if truthy a then a else b.

Definition is_null (v : value) : bool :=
  match v with VNull => true | _ => false end.

Definition is_nullish (v : value) : bool :=
  match v with VNull | VUndefined => true | _ => false end.

End Values.

(** ** Objects and property order *)

Section Objects.
Context {A : Type}.

Fixpoint obj_get (o : list (string * A)) (k : string) : option A :=
  match o with
  | [] => None
  | (k', v) :: o' => if k =? k' then Some v else obj_get o' k
  end.

Definition obj_has (o : list (string * A)) (k : string) : bool :=
  match obj_get o k with Some _ => true | None => false end.

Definition obj_keys (o : list (string * A)) : list string := map fst o.

(** [delete o[k]]. *)
Definition obj_delete (o : list (string * A)) (k : string) : list (string * A) :=
  filter (fun kv => negb (k =? fst kv)) o.

Fixpoint obj_replace (o : list (string * A)) (k : string) (v : A) : list (string * A) :=
  match o with
  | [] => []
  | (k', v') :: o' =>
      if k =? k' then (k', v) :: o' else (k', v') :: obj_replace o' k v
  end.

End Objects.

Definition is_digit (c : ascii) : bool :=
  let n := nat_of_ascii c in (48 <=? n)%nat && (n <=? 57)%nat.

Definition digit_value (c : ascii) : N := N.of_nat (nat_of_ascii c - 48).

Fixpoint digits_value (acc : N) (s : string) : N :=
  match s with
  | EmptyString => acc
  | String c s' => digits_value (acc * 10 + digit_value c) s'
  end.

Fixpoint all_chars (f : ascii -> bool) (s : string) : bool :=
  match s with
  | EmptyString => true
  | String c s' => f c && all_chars f s'
  end.

(** [10^n] for a string of [n] characters. *)
Definition pow10 (s : string) : N := (10 ^ N.of_nat (String.length s))%N.

(** An array index is the canonical decimal text of an integer in
    [0, 2^32 - 2]; such keys are enumerated first, in numeric order. *)
Definition array_index (k : string) : option N :=
  match k with
  | EmptyString => None
  | String c rest =>
      if all_chars is_digit k
         && (negb (Ascii.eqb c "0") || (rest =? ""))
         && (String.length k <=? 10)%nat
         && (digits_value 0 k <=? 4294967294)%N
      then Some (digits_value 0 k)
      else None
  end.

Section ObjectSet.
Context {A : Type}.

(** Insert a fresh array-index key after the smaller array indices and
    before everything else. *)
Fixpoint obj_insert_index (o : list (string * A)) (i : N) (k : string) (v : A)
  : list (string * A) :=
  match o with
  | [] => [(k, v)]
  | (k', v') :: o' =>
      match array_index k' with
      | Some j =>
          if (j <? i)%N then (k', v') :: obj_insert_index o' i k v
          else (k, v) :: o
      | None => (k, v) :: o
      end
  end.

(** [CreateDataProperty(o, k, v)]: an existing key keeps its place, a new
    array index is sorted in, any other new key goes last. *)
Definition obj_set (o : list (string * A)) (k : string) (v : A) : list (string * A) :=
  if obj_has o k then obj_replace o k v
  else match array_index k with
       | Some i => obj_insert_index o i k v
       | None => (o ++ [(k, v)])%list
       end.

(** [o[k] = v] on an ordinary object.  The key [__proto__] reaches the
    accessor of [Object.prototype] and creates no own property. *)
Definition js_assign (o : list (string * A)) (k : string) (v : A) : list (string * A) :=
  if k =? "__proto__" then o else obj_set o k v.

End ObjectSet.

Section ValueAccess.
Context {JN : JSNumber}.

(** [o.k] for the keys the scripts read; an absent key reads [undefined]. *)
Definition js_get (o : object) (k : string) : value :=
  match obj_get o k with Some v => v | None => VUndefined end.

End ValueAccess.

(** ** Exceptions *)

Inductive exn : Type :=
| FsError (code : string)     (* fs error, "ENOENT" when the file is missing *)
| SyntaxError                 (* JSON.parse *)
| RangeError                  (* Intl.DateTimeFormat.format on an invalid date;
                                 a call when the call stack is full *)
| TypeError                   (* hashing or writing [undefined] *)
| APIError (code : string).   (* rejected Notion request *)

(** [err.code === "ENOENT"]. *)
Definition is_ENOENT (err : exn) : bool :=
  match err with
  | FsError code | APIError code => code =? "ENOENT"
  | _ => false
  end.

(** How a piece of script ends: with a value, with an exception, or not
    at all ([Diverge]: the model ran out of fuel). *)
Inductive result (A : Type) : Type :=
| Ok (a : A)
| Throw (e : exn)
| Diverge.
Arguments Ok {A} a.
Arguments Throw {A} e.
Arguments Diverge {A}.

Definition bind {A B : Type} (r : result A) (k : A -> result B) : result B :=
  match r with
  | Ok a => k a
  | Throw e => Throw e
  | Diverge => Diverge
  end.

Notation "x <- r ;; k" := (bind r (fun x => k))
  (at level 61, r at next level, right associativity).

(** [l.map(f)], where [f] may throw: the first exception ends the loop. *)
Fixpoint map_result {A B : Type} (f : A -> result B) (l : list A) : result (list B) :=
  match l with
  | [] => Ok []
  | a :: l' => b <- f a ;; bs <- map_result f l' ;; Ok (b :: bs)
  end.

(** ** Files *)

(** What reading a file gives: [File content] when
    [readFile(path, "utf-8")] returns the text [content]. *)
Inductive file : Type :=
| NoFile
| Unreadable (code : string)   (* reading fails with another error code *)
| File (content : string).

(** ** The host: [Date], [Intl] and the right to write *)

Class Host {JN : JSNumber} : Type := {
  (** [new Date(v).getTime()], [None] for an invalid date. *)
  Date_new : value -> option Z;
  (** Effect of [d.setHours(0, 0, 0, 0)] on a valid time value: midnight
      of the same day in the local zone. *)
  Date_startOfDay : Z -> Z;
  (** [Intl.DateTimeFormat("en-GB", {day: "numeric", month: "short",
      year: "numeric", hour: "2-digit", minute: "2-digit", hour12: false})
      .format] on a valid time value. *)
  DateTimeFormat_format : Z -> string;
  (** [mkdir(path, { recursive: true })]: the code of the error the call
      is rejected with, [None] when it is not. *)
  mkdir_rejected : string -> option string;
  (** [writeFile(path, data, "utf-8")]: the code of the error the call
      is rejected with ([EACCES], [EROFS], [EISDIR], [ENOSPC], ...),
      [None] when the data is written. *)
  writeFile_rejected : string -> option string;
  (** What a [writeFile(path, data, "utf-8")] that is rejected leaves of
      the file: the file as it was when it could not be opened, what got
      written of the data when the write broke off. *)
  writeFile_leaves : string -> string -> file -> file
}.

(** ** Notion records *)

Record date_value : Type := {
  date_start : string;
  date_end : option string
}.

Record file_item : Type := {
  file_name : string;
  file_file_url : option string;       (* file.file?.url *)
  file_external_url : option string    (* file.external?.url *)
}.

(** The result object of a formula property, by its own [type]. *)
Inductive Formula (num : Type) : Type :=
| FString (s : option string)
| FNumber (n : option num)
| FBoolean (b : option bool)
| FDate (d : option date_value)
| FOther.                               (* absent, or any other result type *)
Arguments FString {num} s.
Arguments FNumber {num} n.
Arguments FBoolean {num} b.
Arguments FDate {num} d.
Arguments FOther {num}.

(** A property of a page, tagged by [property.type].  An optional payload
    is [None] when the API sends [null]; the fields the extractor reaches
    through [?.] or [||] may as well be left out. *)
Inductive TypedField (num : Type) : Type :=
| PTitle (title : option (list string))             (* plain_text of each span *)
| PRichText (rich_text : option (list string))
| PNumber (n : option num)
| PSelect (select : option string)                  (* select?.name *)
| PMultiSelect (multi_select : option (list string))
| PDate (date : option date_value)
| PCheckbox (checkbox : bool)
| PUrl (url : option string)
| PEmail (email : option string)
| PPhoneNumber (phone_number : option string)
| PStatus (status : option string)                  (* status?.name *)
| PRelation (relation : option (list string))       (* ids *)
| PRollup (array : option (list (TypedField num))) (n : option num)
| PFormula (formula : Formula num)
| PCreatedTime (created_time : option string)
| PLastEditedTime (last_edited_time : option string)
| PCreatedBy (created_by : option string)           (* created_by?.id *)
| PLastEditedBy (last_edited_by : option string)
| PPeople (people : option (list string))           (* ids *)
| PFiles (files : option (list file_item))
| POther (type : string)                            (* any other tag *)
| PUntyped.                                         (* no [type] at all *)
Arguments PTitle {num} title.
Arguments PRichText {num} rich_text.
Arguments PNumber {num} n.
Arguments PSelect {num} select.
Arguments PMultiSelect {num} multi_select.
Arguments PDate {num} date.
Arguments PCheckbox {num} checkbox.
Arguments PUrl {num} url.
Arguments PEmail {num} email.
Arguments PPhoneNumber {num} phone_number.
Arguments PStatus {num} status.
Arguments PRelation {num} relation.
Arguments PRollup {num} array n.
Arguments PFormula {num} formula.
Arguments PCreatedTime {num} created_time.
Arguments PLastEditedTime {num} last_edited_time.
Arguments PCreatedBy {num} created_by.
Arguments PLastEditedBy {num} last_edited_by.
Arguments PPeople {num} people.
Arguments PFiles {num} files.
Arguments POther {num} type.
Arguments PUntyped {num}.

Record RemoteRecord (num : Type) : Type := {
  page_id : string;
  page_properties : list (string * TypedField num)
}.
Arguments Build_RemoteRecord {num} page_id page_properties.
Arguments page_id {num} r.
Arguments page_properties {num} r.

Abbreviation formula_value := (Formula number).
Abbreviation property := (TypedField number).
Abbreviation page := (RemoteRecord number).

(** ** The property extractor

    [extractPropertyValue], [formatDatePretty] and the digest functions are
    the same text in both variants of the fetch script. *)

Section Extract.
Context {JN : JSNumber}.

(** [s || null]. *)
Definition str_or_null (s : string) : value :=
  if s =? "" then VNull else VStr s.

(** [o?.field || null] for a string field. *)
Definition opt_str_or_null (o : option string) : value :=
  match o with
  | Some s => str_or_null s
  | None => VNull
  end.

(** [spans?.map((text) => text.plain_text).join("") || null]. *)
Definition plain_text_or_null (spans : option (list string)) : value :=
  match spans with
  | Some l => str_or_null (String.concat "" l)
  | None => VNull
  end.

(** [items?.map(f) || []]. *)
Definition strings_or_empty (items : option (list string)) : value :=
  match items with
  | Some l => VArr (map VStr l)
  | None => VArr []
  end.

Definition num_or_null (n : option number) : value :=
  match n with
  | Some x => VNum x
  | None => VNull
  end.

(** [date?.start || null]. *)
Definition date_start_or_null (d : option date_value) : value :=
  match d with
  | Some dv => str_or_null (date_start dv)
  | None => VNull
  end.

(** [{ name: file.name, url: file.file?.url || file.external?.url || null }]. *)
Definition file_entry (f : file_item) : value :=
  let opt (o : option string) : value :=
    match o with Some s => VStr s | None => VUndefined end in
  VObj [("name", VStr (file_name f));
        ("url", js_or (js_or (opt (file_file_url f)) (opt (file_external_url f))) VNull)].

Definition extractFormula (f : formula_value) : value :=
  match f with
  | FString s => opt_str_or_null s
  | FNumber n => num_or_null n
  | FBoolean (Some b) => VBool b
  | FBoolean None => VNull
  | FDate d => date_start_or_null d
  | FOther => VNull
  end.

Fixpoint extractPropertyValue (property : property) : value :=
  match property with
  | PUntyped => VNull
  | PTitle title => plain_text_or_null title
  | PRichText rich_text => plain_text_or_null rich_text
  | PNumber n => num_or_null n
  | PSelect select => opt_str_or_null select
  | PMultiSelect multi_select => strings_or_empty multi_select
  | PDate date => date_start_or_null date
  | PCheckbox checkbox => VBool checkbox
  | PUrl url => opt_str_or_null url
  | PEmail email => opt_str_or_null email
  | PPhoneNumber phone_number => opt_str_or_null phone_number
  | PStatus status => opt_str_or_null status
  | PRelation relation => strings_or_empty relation
  | PRollup (Some array) _ =>
      VArr (filter (fun v => negb (is_null v))
              (map (fun item =>
                      match item with
                      | PTitle title => plain_text_or_null title
                      | _ => extractPropertyValue item
                      end) array))
  | PRollup None (Some n) => js_or (VNum n) VNull
  | PRollup None None => VNull
  | PFormula formula => extractFormula formula
  | PCreatedTime created_time => opt_str_or_null created_time
  | PLastEditedTime last_edited_time => opt_str_or_null last_edited_time
  | PCreatedBy created_by => opt_str_or_null created_by
  | PLastEditedBy last_edited_by => opt_str_or_null last_edited_by
  | PPeople people => strings_or_empty people
  | PFiles (Some files) => VArr (map file_entry files)
  | PFiles None => VArr []
  | POther _ => VNull
  end.

(** The call on a stack of a given size.  [extractPropertyValue] calls
    itself from the callback of [Array.prototype.map], and nothing in it
    bounds how deep.  An engine has room for finitely many activations and
    throws a [RangeError] (maximum call stack size exceeded) on the call
    that does not fit.  [frames] is the number of activations of
    [extractPropertyValue] the stack still has room for, one inside the
    other; a title in a rollup array is read in the callback and takes
    none. *)
Fixpoint extractPropertyValue_on (frames : nat) (property : property) : result value :=
  match frames with
  | O => Throw RangeError
  | S frames' =>
      match property with
      | PRollup (Some array) _ =>
          items <- map_result
                     (fun item =>
                        match item with
                        | PTitle title => Ok (plain_text_or_null title)
                        | _ => extractPropertyValue_on frames' item
                        end) array ;;
          Ok (VArr (filter (fun v => negb (is_null v)) items))
      | _ => Ok (extractPropertyValue property)
      end
  end.

(** The activations of [extractPropertyValue] that are on the stack at
    once, at most, during a call on [property]. *)
Fixpoint activations (property : property) : nat :=
  match property with
  | PRollup (Some array) _ =>
      S (fold_right
           (fun item d =>
              Nat.max (match item with
                       | PTitle _ => 0%nat
                       | _ => activations item
                       end) d) 0%nat array)
  | _ => 1%nat
  end.

(** Nesting depth of rollup arrays. *)
Fixpoint depth (property : property) : nat :=
  match property with
  | PRollup (Some array) _ => S (fold_right (fun item d => Nat.max (depth item) d) 0%nat array)
  | _ => 0%nat
  end.

(** What the spec calls a scalar: a string, a number or a boolean. *)
Definition is_scalar (v : value) : bool :=
  match v with
  | VBool _ | VNum _ | VStr _ => true
  | _ => false
  end.

Definition is_array (v : value) : bool :=
  match v with
  | VArr _ => true
  | _ => false
  end.

(** A rollup whose array holds a rollup whose array holds ... [leaf],
    [n] levels deep. *)
Fixpoint nested_rollup (n : nat) (leaf : property) : property :=
  match n with
  | O => leaf
  | S n' => PRollup (Some [nested_rollup n' leaf]) None
  end.

End Extract.

(** ** Pretty dates *)

Fixpoint remove_first_comma (s : string) : string :=
  match s with
  | EmptyString => EmptyString
  | String c s' => if Ascii.eqb c "," then s' else String c (remove_first_comma s')
  end.

Section FormatDate.
Context {JN : JSNumber} {H : Host}.

(** [formatter.format] throws a [RangeError] on an invalid date. *)
Definition formatDatePretty (dateString : value) : result value :=
  if negb (truthy dateString) then Ok VNull
  else match Date_new dateString with
       | None => Throw RangeError
       | Some date => Ok (VStr (remove_first_comma (DateTimeFormat_format date)))
       end.

End FormatDate.

(** ** The record mapper

    The parts of [mapEvent] that its two variants share. *)

Section MapEvent.
Context {JN : JSNumber} {H : Host}.

(** [props[key]]. *)
Definition props_get (props : list (string * property)) (key : string) : property :=
  match obj_get props key with
  | Some p => p
  | None => PUntyped
  end.

(** The loop [Object.keys(props).forEach((key) => ...)], shared by both
    variants of [mapEvent]. *)
Definition extract_all (excludedProperties : list string)
    (props : list (string * property)) : object :=
  fold_left
    (fun event key =>
       if existsb (String.eqb key) excludedProperties then event
       else
         let value := extractPropertyValue (props_get props key) in
         if is_nullish value then event
         else js_assign event key value)
    (obj_keys props) [].

(** The two [if] statements that add [datePretty]. *)
Definition add_datePretty (event : object) : result object :=
  event1 <-
    (if truthy (js_get event "Date")
     then pretty <- formatDatePretty (js_get event "Date") ;;
          Ok (js_assign event "datePretty" pretty)
     else Ok event) ;;
  if negb (truthy (js_get event1 "datePretty")) && truthy (js_get event1 "date")
  then pretty <- formatDatePretty (js_get event1 "date") ;;
       Ok (js_assign event1 "datePretty" pretty)
  else Ok event1.

End MapEvent.


(** ** JSON

    [JSON.stringify] follows SerializeJSONProperty of ECMA-262; the same
    function gives the compact text (empty gap) that is hashed and the
    indented text (gap of two spaces) that is written to the file.

    Strings are UTF-8 byte strings, so that writing a file and reading it
    back is the identity; a lone surrogate has no place in this model. *)

Definition dquote : ascii := "034"%char.
Definition backslash : ascii := "\"%char.
Definition newline : string := String "010"%char "".

Definition hex_char (n : N) : ascii :=
  match n with
  | 0 => "0" | 1 => "1" | 2 => "2" | 3 => "3" | 4 => "4" | 5 => "5"
  | 6 => "6" | 7 => "7" | 8 => "8" | 9 => "9" | 10 => "a" | 11 => "b"
  | 12 => "c" | 13 => "d" | 14 => "e" | _ => "f"
  end%N%char.

(** One character of QuoteJSONString. *)
Definition quote_char (c : ascii) : string :=
  let n := N_of_ascii c in
  if Ascii.eqb c dquote then String backslash (String dquote "")
  else if Ascii.eqb c backslash then String backslash (String backslash "")
  else if (n =? 8)%N then String backslash "b"
  else if (n =? 12)%N then String backslash "f"
  else if (n =? 10)%N then String backslash "n"
  else if (n =? 13)%N then String backslash "r"
  else if (n =? 9)%N then String backslash "t"
  else if (n <? 32)%N then
    String backslash
      (String "u" (String "0" (String "0"
        (String (hex_char (n / 16)) (String (hex_char (n mod 16)) "")))))
  else String c "".

Fixpoint quote_chars (s : string) : string :=
  match s with
  | EmptyString => EmptyString
  | String c s' => quote_char c ++ quote_chars s'
  end.

Definition QuoteJSONString (s : string) : string :=
  String dquote (quote_chars s ++ String dquote "").

Section Stringify.
Context {JN : JSNumber}.

Fixpoint SerializeJSONProperty (gap indent : string) (v : value) : option string :=
  match v with
  | VUndefined => None
  | VNull => Some "null"
  | VBool true => Some "true"
  | VBool false => Some "false"
  | VNum n => Some (if number_is_finite n then Number_toString n else "null")
  | VStr s => Some (QuoteJSONString s)
  | VArr items =>
      let stepback := indent in
      let indent := indent ++ gap in
      let partial :=
        map (fun item =>
               match SerializeJSONProperty gap indent item with
               | Some strP => strP
               | None => "null"
               end) items in
      Some (match partial with
            | [] => "[]"
            | _ =>
                if gap =? "" then "[" ++ String.concat "," partial ++ "]"
                else "[" ++ newline ++ indent
                     ++ String.concat ("," ++ newline ++ indent) partial
                     ++ newline ++ stepback ++ "]"
            end)
  | VObj members =>
      let stepback := indent in
      let indent := indent ++ gap in
      let partial :=
        flat_map (fun kv =>
                    match SerializeJSONProperty gap indent (snd kv) with
                    | Some strP =>
                        [QuoteJSONString (fst kv) ++ ":"
                         ++ (if gap =? "" then "" else " ") ++ strP]
                    | None => []
                    end) members in
      Some (match partial with
            | [] => "{}"
            | _ =>
                if gap =? "" then "{" ++ String.concat "," partial ++ "}"
                else "{" ++ newline ++ indent
                     ++ String.concat ("," ++ newline ++ indent) partial
                     ++ newline ++ stepback ++ "}"
            end)
  end.

(** [JSON.stringify(v)]; [None] is [undefined]. *)
Definition JSON_stringify (v : value) : option string :=
  SerializeJSONProperty "" "" v.

(** [JSON.stringify(v, null, 2)]. *)
Definition JSON_stringify_pretty (v : value) : option string :=
  SerializeJSONProperty "  " "" v.

End Stringify.

(** *** Parsing *)

Inductive parse_result (A : Type) : Type :=
| Parsed (a : A) (rest : string)
| Invalid
| OutOfFuel.
Arguments Parsed {A} a rest.
Arguments Invalid {A}.
Arguments OutOfFuel {A}.

Definition is_ws (c : ascii) : bool :=
  let n := N_of_ascii c in
  ((n =? 32) || (n =? 9) || (n =? 10) || (n =? 13))%N.

Fixpoint skip_ws (s : string) : string :=
  match s with
  | String c s' => if is_ws c then skip_ws s' else s
  | EmptyString => EmptyString
  end.

Fixpoint strip_prefix (p s : string) : option string :=
  match p, s with
  | EmptyString, _ => Some s
  | String a p', String b s' => if Ascii.eqb a b then strip_prefix p' s' else None
  | String _ _, EmptyString => None
  end.

(** Characters a JSON number is made of. *)
Definition is_num_char (c : ascii) : bool :=
  is_digit c || Ascii.eqb c "-" || Ascii.eqb c "+" || Ascii.eqb c "."
  || Ascii.eqb c "e" || Ascii.eqb c "E".

Fixpoint span_num (s : string) : string * string :=
  match s with
  | String c s' =>
      if is_num_char c then let (l, r) := span_num s' in (String c l, r)
      else (EmptyString, s)
  | EmptyString => (EmptyString, EmptyString)
  end.

Definition hex_value (c : ascii) : option N :=
  let n := N_of_ascii c in
  if ((48 <=? n) && (n <=? 57))%N then Some (n - 48)%N
  else if ((97 <=? n) && (n <=? 102))%N then Some (n - 87)%N
  else if ((65 <=? n) && (n <=? 70))%N then Some (n - 55)%N
  else None.

Definition hex4 (a b c d : ascii) : option N :=
  match hex_value a, hex_value b, hex_value c, hex_value d with
  | Some x, Some y, Some z, Some w => Some (((x * 16 + y) * 16 + z) * 16 + w)%N
  | _, _, _, _ => None
  end.

(** What stands between the quotes of a JSON string: bytes taken as they
    are, and UTF-16 code units written [\uXXXX]. *)
Inductive string_unit : Type :=
| Raw (c : ascii)
| Esc (u : N).

(** Reads up to the closing quote. *)
Fixpoint parse_string_units (s : string) : parse_result (list string_unit) :=
  match s with
  | EmptyString => Invalid
  | String c s1 =>
      if Ascii.eqb c dquote then Parsed [] s1
      else if Ascii.eqb c backslash then
        match s1 with
        | EmptyString => Invalid
        | String e s2 =>
            let continue (u : string_unit) :=
              match parse_string_units s2 with
              | Parsed us rest => Parsed (u :: us) rest
              | other => other
              end in
            if Ascii.eqb e dquote then continue (Raw dquote)
            else if Ascii.eqb e backslash then continue (Raw backslash)
            else if Ascii.eqb e "/" then continue (Raw "/"%char)
            else if Ascii.eqb e "b" then continue (Raw "008"%char)
            else if Ascii.eqb e "f" then continue (Raw "012"%char)
            else if Ascii.eqb e "n" then continue (Raw "010"%char)
            else if Ascii.eqb e "r" then continue (Raw "013"%char)
            else if Ascii.eqb e "t" then continue (Raw "009"%char)
            else if Ascii.eqb e "u" then
              match s2 with
              | String h1 (String h2 (String h3 (String h4 s3))) =>
                  match hex4 h1 h2 h3 h4 with
                  | Some u =>
                      match parse_string_units s3 with
                      | Parsed us rest => Parsed (Esc u :: us) rest
                      | other => other
                      end
                  | None => Invalid
                  end
              | _ => Invalid
              end
            else Invalid
        end
      else if (N_of_ascii c <? 32)%N then Invalid
      else
        match parse_string_units s1 with
        | Parsed us rest => Parsed (Raw c :: us) rest
        | other => other
        end
  end.

Definition byte (n : N) : string := String (ascii_of_N n) "".

(** UTF-8 of a code point. *)
Definition utf8_encode (cp : N) : string :=
  (if cp <? 128 then byte cp
   else if cp <? 2048 then byte (192 + cp / 64) ++ byte (128 + cp mod 64)
   else if cp <? 65536 then
     byte (224 + cp / 4096) ++ byte (128 + (cp / 64) mod 64)
     ++ byte (128 + cp mod 64)
   else
     byte (240 + cp / 262144) ++ byte (128 + (cp / 4096) mod 64)
     ++ byte (128 + (cp / 64) mod 64) ++ byte (128 + cp mod 64))%N.

Definition is_high_surrogate (u : N) : bool := ((55296 <=? u) && (u <? 56320))%N.
Definition is_low_surrogate (u : N) : bool := ((56320 <=? u) && (u <? 57344))%N.

(** The string the units denote; a surrogate pair is one code point. *)
Fixpoint decode_units (us : list string_unit) : string :=
  match us with
  | [] => EmptyString
  | Raw c :: tl => String c (decode_units tl)
  | Esc u :: tl =>
      match tl with
      | Esc lo :: tl' =>
          if is_high_surrogate u && is_low_surrogate lo
          then utf8_encode (65536 + (u - 55296) * 1024 + (lo - 56320))%N
               ++ decode_units tl'
          else utf8_encode u ++ decode_units tl
      | _ => utf8_encode u ++ decode_units tl
      end
  end.

(** Reads a string after its opening quote. *)
Definition parse_string (s : string) : parse_result string :=
  match parse_string_units s with
  | Parsed us rest => Parsed (decode_units us) rest
  | Invalid => Invalid
  | OutOfFuel => OutOfFuel
  end.

Section Parse.
Context {JN : JSNumber}.

Definition parse_literal (s : string) : parse_result value :=
  match strip_prefix "true" s with
  | Some rest => Parsed (VBool true) rest
  | None =>
  match strip_prefix "false" s with
  | Some rest => Parsed (VBool false) rest
  | None =>
  match strip_prefix "null" s with
  | Some rest => Parsed VNull rest
  | None =>
      let (lexeme, rest) := span_num s in
      match lexeme with
      | EmptyString => Invalid
      | String c _ =>
          if Ascii.eqb c "-" || is_digit c then
            match Number_ofJSON lexeme with
            | Some n => Parsed (VNum n) rest
            | None => Invalid
            end
          else Invalid
      end
  end end end.

(** Recursive descent; every call takes one unit of [fuel].  Members are
    added with [obj_set], as [JSON.parse] defines properties one by one. *)
Fixpoint parse_value (fuel : nat) (s : string) {struct fuel} : parse_result value :=
  match fuel with
  | O => OutOfFuel
  | S fuel' =>
      match skip_ws s with
      | EmptyString => Invalid
      | String c s1 =>
          if Ascii.eqb c "[" then
            match skip_ws s1 with
            | String c2 s2 =>
                if Ascii.eqb c2 "]" then Parsed (VArr []) s2
                else parse_elements fuel' [] s1
            | EmptyString => Invalid
            end
          else if Ascii.eqb c "{" then
            match skip_ws s1 with
            | String c2 s2 =>
                if Ascii.eqb c2 "}" then Parsed (VObj []) s2
                else parse_members fuel' [] s1
            | EmptyString => Invalid
            end
          else if Ascii.eqb c dquote then
            match parse_string s1 with
            | Parsed str rest => Parsed (VStr str) rest
            | Invalid => Invalid
            | OutOfFuel => OutOfFuel
            end
          else parse_literal (String c s1)
      end
  end

with parse_elements (fuel : nat) (acc : list value) (s : string) {struct fuel}
  : parse_result value :=
  match fuel with
  | O => OutOfFuel
  | S fuel' =>
      match parse_value fuel' s with
      | Parsed v s1 =>
          match skip_ws s1 with
          | String c s2 =>
              if Ascii.eqb c "," then parse_elements fuel' (v :: acc) s2
              else if Ascii.eqb c "]" then Parsed (VArr (rev (v :: acc))) s2
              else Invalid
          | EmptyString => Invalid
          end
      | other => other
      end
  end

with parse_members (fuel : nat) (acc : object) (s : string) {struct fuel}
  : parse_result value :=
  match fuel with
  | O => OutOfFuel
  | S fuel' =>
      match skip_ws s with
      | String q s1 =>
          if Ascii.eqb q dquote then
            match parse_string s1 with
            | Parsed key s2 =>
                match skip_ws s2 with
                | String c s3 =>
                    if Ascii.eqb c ":" then
                      match parse_value fuel' s3 with
                      | Parsed v s4 =>
                          match skip_ws s4 with
                          | String d s5 =>
                              if Ascii.eqb d "," then
                                parse_members fuel' (obj_set acc key v) s5
                              else if Ascii.eqb d "}" then
                                Parsed (VObj (obj_set acc key v)) s5
                              else Invalid
                          | EmptyString => Invalid
                          end
                      | other => other
                      end
                    else Invalid
                | EmptyString => Invalid
                end
            | Invalid => Invalid
            | OutOfFuel => OutOfFuel
            end
          else Invalid
      | EmptyString => Invalid
      end
  end.

(** [JSON.parse(text)]: one value, then nothing but white space. *)
Definition JSON_parse_with (fuel : nat) (text : string) : parse_result value :=
  match parse_value fuel text with
  | Parsed v rest =>
      match skip_ws rest with
      | EmptyString => Parsed v EmptyString
      | String _ _ => Invalid
      end
  | other => other
  end.

End Parse.

(** *** Values that survive a round trip

    [JSON.parse] gives back an object with its keys in the order of
    [Object.keys]: array indices first, in ascending order, then the other
    keys as they were added.  The objects of a JavaScript program are
    always so, and [keys_in_order] says it of an association list.
    Numbers are taken to print as a JSON number that parses to a number
    printing the same, as ECMA-262 has it for finite doubles. *)

Definition key_before (k1 k2 : string) : bool :=
  match array_index k1, array_index k2 with
  | Some i, Some j => (i <? j)%N
  | Some _, None => true
  | None, Some _ => false
  | None, None => negb (k1 =? k2)
  end.

Fixpoint keys_in_order (keys : list string) : bool :=
  match keys with
  | [] => true
  | k :: rest => forallb (key_before k) rest && keys_in_order rest
  end.

Definition is_space (c : ascii) : bool := Ascii.eqb c " ".

(** The text is followed by something that cannot continue a number. *)
Definition delimited (rest : string) : bool :=
  match rest with
  | String c _ => negb (is_num_char c)
  | EmptyString => true
  end.

(** First character of the text of a value: no white space, no closing
    bracket. *)
Definition starts_value (text : string) : bool :=
  match text with
  | String c _ => negb (is_ws c) && negb (Ascii.eqb c "]") && negb (Ascii.eqb c "}")
  | EmptyString => false
  end.

Section RoundTrip.
Context {JN : JSNumber}.

Definition number_prints_back (n : number) : bool :=
  if number_is_finite n then
    let text := Number_toString n in
    match text with
    | EmptyString => false
    | String c _ =>
        (Ascii.eqb c "-" || is_digit c)
        && all_chars is_num_char text
        && match Number_ofJSON text with
           | Some n' => number_is_finite n' && (Number_toString n' =? text)
           | None => false
           end
    end
  else true.

Fixpoint json_safe (v : value) : bool :=
  match v with
  | VNum n => number_prints_back n
  | VArr items => forallb json_safe items
  | VObj members =>
      keys_in_order (map fst members)
      && forallb (fun kv => json_safe (snd kv)) members
  | _ => true
  end.

(** Two values that [JSON.stringify] cannot tell apart. *)
Definition same_json (a b : value) : Prop :=
  forall gap indent,
    SerializeJSONProperty gap indent a = SerializeJSONProperty gap indent b.

(** The parser reads [text] as [v], after any white space, whatever comes
    next, with fuel for every character of the text. *)
Definition reads_back (text : string) (v : value) : Prop :=
  forall fuel ws rest,
    all_chars is_ws ws = true ->
    delimited rest = true ->
    (String.length text <= fuel)%nat ->
    parse_value fuel (ws ++ text ++ rest) = Parsed v rest.

(** The numbers of a property that reach the event print back. *)
Fixpoint property_numbers_print_back (p : property) : bool :=
  match p with
  | PNumber (Some n) => number_prints_back n
  | PRollup (Some array) _ => forallb property_numbers_print_back array
  | PRollup None (Some n) => number_prints_back n
  | PFormula (FNumber (Some n)) => number_prints_back n
  | _ => true
  end.

Definition page_numbers_print_back (pg : page) : bool :=
  forallb (fun kp => property_numbers_print_back (snd kp)) (page_properties pg).

(** What an array element contributes to the text. *)
Definition element_text (gap indent : string) (v : value) : string :=
  match SerializeJSONProperty gap indent v with
  | Some strP => strP
  | None => "null"
  end.

(** The members of an object that are written, each with its text. *)
Definition printed_members (gap indent : string) (members : object)
  : list (string * string) :=
  flat_map (fun kv =>
              match SerializeJSONProperty gap indent (snd kv) with
              | Some strP => [(fst kv, strP)]
              | None => []
              end) members.

Definition member_text (gap : string) (kt : string * string) : string :=
  QuoteJSONString (fst kt) ++ ":" ++ (if gap =? "" then "" else " ") ++ snd kt.

(** The indented text of [v], at any depth, reads back as a value that
    [JSON.stringify] cannot tell from [v]. *)
Definition round_trips (v : value) : Prop :=
  forall indent text,
    all_chars is_space indent = true ->
    SerializeJSONProperty "  " indent v = Some text ->
    starts_value text = true
    /\ exists v', reads_back text v' /\ same_json v' v.

End RoundTrip.

(** ** SHA-256

    [createHash("sha256").update(content).digest("hex")] on the UTF-8
    bytes of [content] (FIPS 180-4).  Words are naturals below [2^32]. *)

Module SHA256.
Local Open Scope N_scope.

Definition w32 (x : N) : N := x mod 4294967296.
Definition add32 (x y : N) : N := w32 (x + y).
Definition rotr (n x : N) : N := w32 (N.lor (N.shiftr x n) (N.shiftl x (32 - n))).
Definition not32 (x : N) : N := 4294967295 - x.

Definition Ch (x y z : N) : N := N.lxor (N.land x y) (N.land (not32 x) z).
Definition Maj (x y z : N) : N :=
  N.lxor (N.lxor (N.land x y) (N.land x z)) (N.land y z).
Definition Sigma0 (x : N) : N := N.lxor (N.lxor (rotr 2 x) (rotr 13 x)) (rotr 22 x).
Definition Sigma1 (x : N) : N := N.lxor (N.lxor (rotr 6 x) (rotr 11 x)) (rotr 25 x).
Definition sigma0 (x : N) : N := N.lxor (N.lxor (rotr 7 x) (rotr 18 x)) (N.shiftr x 3).
Definition sigma1 (x : N) : N := N.lxor (N.lxor (rotr 17 x) (rotr 19 x)) (N.shiftr x 10).

Definition K : list N :=
  [1116352408; 1899447441; 3049323471; 3921009573; 961987163; 1508970993;
   2453635748; 2870763221; 3624381080; 310598401; 607225278; 1426881987;
   1925078388; 2162078206; 2614888103; 3248222580; 3835390401; 4022224774;
   264347078; 604807628; 770255983; 1249150122; 1555081692; 1996064986;
   2554220882; 2821834349; 2952996808; 3210313671; 3336571891; 3584528711;
   113926993; 338241895; 666307205; 773529912; 1294757372; 1396182291;
   1695183700; 1986661051; 2177026350; 2456956037; 2730485921; 2820302411;
   3259730800; 3345764771; 3516065817; 3600352804; 4094571909; 275423344;
   430227734; 506948616; 659060556; 883997877; 958139571; 1322822218;
   1537002063; 1747873779; 1955562222; 2024104815; 2227730452; 2361852424;
   2428436474; 2756734187; 3204031479; 3329325298].

Record state : Type := {
  ha : N; hb : N; hc : N; hd : N; he : N; hf : N; hg : N; hh : N
}.

Definition H0 : state :=
  {| ha := 1779033703; hb := 3144134277; hc := 1013904242; hd := 2773480762;
     he := 1359893119; hf := 2600822924; hg := 528734635; hh := 1541459225 |}.

Fixpoint bytes_of (s : string) : list N :=
  match s with
  | EmptyString => []
  | String c s' => N_of_ascii c :: bytes_of s'
  end.

Definition be64 (n : N) : list N :=
  map (fun i => (n / 2 ^ (8 * i)) mod 256) [7; 6; 5; 4; 3; 2; 1; 0].

(** Message, the byte 0x80, zeros up to 56 modulo 64, the bit length. *)
Definition pad (msg : list N) : list N :=
  let len := N.of_nat (List.length msg) in
  let zeros := N.to_nat ((119 - len mod 64) mod 64) in
  (msg ++ 128 :: repeat 0 zeros ++ be64 (8 * len))%list.

Fixpoint words (fuel : nat) (bytes : list N) : list N :=
  match fuel, bytes with
  | S fuel', a :: b :: c :: d :: rest =>
      (((a * 256 + b) * 256 + c) * 256 + d) :: words fuel' rest
  | _, _ => []
  end.

(** The message schedule, latest word first. *)
Fixpoint extend (n : nat) (w : list N) : list N :=
  match n with
  | O => w
  | S n' =>
      let next :=
        add32 (add32 (sigma1 (nth 1 w 0)) (nth 6 w 0))
              (add32 (sigma0 (nth 14 w 0)) (nth 15 w 0)) in
      extend n' (next :: w)
  end.

Definition round (s : state) (kw : N * N) : state :=
  let (k, w) := kw in
  let t1 := add32 (add32 (add32 (hh s) (Sigma1 (he s)))
                         (add32 (Ch (he s) (hf s) (hg s)) k)) w in
  let t2 := add32 (Sigma0 (ha s)) (Maj (ha s) (hb s) (hc s)) in
  {| ha := add32 t1 t2; hb := ha s; hc := hb s; hd := hc s;
     he := add32 (hd s) t1; hf := he s; hg := hf s; hh := hg s |}.

Definition compress (s : state) (block : list N) : state :=
  let w := rev (extend 48 (rev (words 16 block))) in
  let r := fold_left round (combine K w) s in
  {| ha := add32 (ha s) (ha r); hb := add32 (hb s) (hb r);
     hc := add32 (hc s) (hc r); hd := add32 (hd s) (hd r);
     he := add32 (he s) (he r); hf := add32 (hf s) (hf r);
     hg := add32 (hg s) (hg r); hh := add32 (hh s) (hh r) |}.

Fixpoint blocks (fuel : nat) (s : state) (bytes : list N) : state :=
  match fuel, bytes with
  | S fuel', _ :: _ => blocks fuel' (compress s (firstn 64 bytes)) (skipn 64 bytes)
  | _, _ => s
  end.

Definition hex8 (x : N) : string :=
  String (hex_char ((x / 268435456) mod 16))
 (String (hex_char ((x / 16777216) mod 16))
 (String (hex_char ((x / 1048576) mod 16))
 (String (hex_char ((x / 65536) mod 16))
 (String (hex_char ((x / 4096) mod 16))
 (String (hex_char ((x / 256) mod 16))
 (String (hex_char ((x / 16) mod 16))
 (String (hex_char (x mod 16)) ""))))))).

Definition hex_of_state (s : state) : string :=
  (hex8 (ha s) ++ hex8 (hb s) ++ hex8 (hc s) ++ hex8 (hd s)
   ++ hex8 (he s) ++ hex8 (hf s) ++ hex8 (hg s) ++ hex8 (hh s))%string.

Definition digest_hex (content : string) : string :=
  let bytes := pad (bytes_of content) in
  hex_of_state (blocks (List.length bytes) H0 bytes).

End SHA256.

(** ** The Notion client and the file system *)

Inductive query_filter : Type :=
| VisibleOnSite                (* "Visible on site" is checked *)
| VisibleUpcoming.             (* ... and "Status" equals "Upcoming" *)

(** The argument of [notion.databases.query], as the scripts build it. *)
Record query : Type := {
  q_filter : query_filter;
  q_sort_by_date : bool;               (* sorts: Date, ascending *)
  q_start_cursor : option string;
  q_page_size : option nat
}.

Record QueryResponse (num : Type) : Type := {
  results : list (RemoteRecord num);
  has_more : bool;
  next_cursor : option string
}.
Arguments Build_QueryResponse {num} results has_more next_cursor.
Arguments results {num} q.
Arguments has_more {num} q.
Arguments next_cursor {num} q.

(** The remote store as the scripts see it: what each request answers. *)
Record Client (num : Type) : Type := {
  (** [databases.retrieve(...)]: the [last_edited_time] of the database. *)
  databases_retrieve : result string;
  databases_query : query -> result (QueryResponse num);
  (** [pages.update] setting [Status] of a page to the given name. *)
  pages_update : string -> string -> result unit
}.
Arguments Build_Client {num} databases_retrieve databases_query pages_update.
Arguments databases_retrieve {num} c.
Arguments databases_query {num} c q.
Arguments pages_update {num} c id status.

Abbreviation query_response := (QueryResponse number).
Abbreviation Notion := (Client number).

Record FS : Type := {
  last_sync : file;            (* .last-sync *)
  events_json : file           (* public/events.json *)
}.

Definition readFile (f : file) : result string :=
  match f with
  | NoFile => Throw (FsError "ENOENT")
  | Unreadable code => Throw (FsError code)
  | File content => Ok content
  end.

(** An update request: the page and the status name sent. *)
Definition update_call : Type := (string * string)%type.

(** What a run of a script leaves behind. *)
Record outcome : Type := {
  exit_code : nat;
  files : FS;
  written : list string;       (* paths written, in order *)
  updates : list update_call;
  waited : bool                (* the one second pause was taken *)
}.

(** [String.prototype.trim].  It strips the code points ECMAScript calls
    WhiteSpace (tab, vertical tab, form feed, U+FEFF and the space
    separators of Unicode) and LineTerminator (line feed, carriage return,
    U+2028, U+2029).  Strings hold their text in UTF-8, so a code point
    above U+007F is two or three bytes here. *)
Definition white_space_code_points : list N :=
  [9; 10; 11; 12; 13; 32; 160; 5760;
   8192; 8193; 8194; 8195; 8196; 8197; 8198; 8199; 8200; 8201; 8202;
   8232; 8233; 8239; 8287; 12288; 65279]%N.

(** The text of a list of code points. *)
Definition utf8_text (cps : list N) : string :=
  fold_right (fun cp s => utf8_encode cp ++ s) "" cps.

(** The white space of one byte: the space and U+0009 to U+000D. *)
Definition is_js_space (c : ascii) : bool :=
  let n := N_of_ascii c in
  ((n =? 32) || ((9 <=? n) && (n <=? 13)))%N.

(** The white space of two bytes: U+00A0. *)
Definition is_js_space2 (c1 c2 : ascii) : bool :=
  ((N_of_ascii c1 =? 194) && (N_of_ascii c2 =? 160))%N.

(** The white space of three bytes: U+1680, U+2000 to U+200A, U+2028,
    U+2029, U+202F, U+205F, U+3000 and U+FEFF. *)
Definition is_js_space3 (c1 c2 c3 : ascii) : bool :=
  let n1 := N_of_ascii c1 in
  let n2 := N_of_ascii c2 in
  let n3 := N_of_ascii c3 in
  (((n1 =? 225) && (n2 =? 154) && (n3 =? 128))
   || ((n1 =? 226) && (n2 =? 128)
       && (((128 <=? n3) && (n3 <=? 138)) || (n3 =? 168) || (n3 =? 169) || (n3 =? 175)))
   || ((n1 =? 226) && (n2 =? 129) && (n3 =? 159))
   || ((n1 =? 227) && (n2 =? 128) && (n3 =? 128))
   || ((n1 =? 239) && (n2 =? 187) && (n3 =? 191)))%N.

Fixpoint trim_start (s : string) : string :=
  match s with
  | String c1 s1 =>
      if is_js_space c1 then trim_start s1
      else
        match s1 with
        | String c2 s2 =>
            if is_js_space2 c1 c2 then trim_start s2
            else
              match s2 with
              | String c3 s3 => if is_js_space3 c1 c2 c3 then trim_start s3 else s
              | EmptyString => s
              end
        | EmptyString => s
        end
  | EmptyString => EmptyString
  end.

(** What is left is cut where nothing but white space follows. *)
Fixpoint trim_end (s : string) : string :=
  match s with
  | String c s' =>
      match trim_start s with
      | EmptyString => EmptyString
      | _ => String c (trim_end s')
      end
  | EmptyString => EmptyString
  end.

Definition trim (s : string) : string := trim_end (trim_start s).

(** [if (s)] for a string or [null]. *)
Definition nonempty (o : option string) : bool :=
  match o with
  | Some s => negb (s =? "")
  | None => false
  end.

(** [a < b] on two [Date]s; [None] is an invalid date. *)
Definition date_lt (a b : option Z) : bool :=
  match a, b with
  | Some x, Some y => (x <? y)%Z
  | _, _ => false
  end.

(** [a <= b] on two [Date]s. *)
Definition date_le (a b : option Z) : bool :=
  match a, b with
  | Some x, Some y => (x <=? y)%Z
  | _, _ => false
  end.

(** ** Functions shared by the scripts *)

Section Shared.
Context {JN : JSNumber} {H : Host}.

Definition readLastSyncTimestamp (fs : FS) : result (option string) :=
  match readFile (last_sync fs) with
  | Ok content => Ok (Some (trim content))
  | Throw err => if is_ENOENT err then Ok None else Throw err
  | Diverge => Diverge
  end.

(** The file can be read, or is not there. *)
Definition readable_or_missing (f : file) : bool :=
  match f with
  | Unreadable code => code =? "ENOENT"
  | _ => true
  end.

(** What reading gives once [data] was written to the file: [data],
    unless the file is one the script may write and not read, which it
    stays. *)
Definition written_over (f : file) (data : string) : file :=
  match f with
  | Unreadable code => if code =? "ENOENT" then File data else Unreadable code
  | _ => File data
  end.

(** [writeFile(path, data, "utf-8")] on one file: what reading the file
    gives afterwards and how the call ends. *)
Definition writeFile (path data : string) (f : file) : file * result unit :=
  match writeFile_rejected path with
  | None => (written_over f data, Ok tt)
  | Some code => (writeFile_leaves path data f, Throw (FsError code))
  end.

(** The paths the scripts write to. *)
Definition path_last_sync : string := ".last-sync".
Definition path_public : string := "public".
Definition path_events_json : string := "public/events.json".

Definition writeLastSyncTimestamp (fs : FS) (timestamp : string) : FS * result unit :=
  let (f, r) := writeFile path_last_sync timestamp (last_sync fs) in
  ({| last_sync := f; events_json := events_json fs |}, r).

Definition getDatabaseLastEditedTime (notion : Notion) : option string :=
  match databases_retrieve notion with
  | Ok last_edited_time => Some last_edited_time
  | _ => None
  end.

Definition computeEventsHash (events : value) : result string :=
  match JSON_stringify events with
  | Some content => Ok (SHA256.digest_hex content)
  | None => Throw TypeError
  end.

(** [JSON.parse]; two units of fuel for every character of the text are
    more than the parser uses. *)
Definition JSON_parse (text : string) : result value :=
  match JSON_parse_with (S (2 * String.length text)) text with
  | Parsed v _ => Ok v
  | Invalid => Throw SyntaxError
  | OutOfFuel => Diverge
  end.

Definition getExistingEventsHash (fs : FS) : result (option string) :=
  match (content <- readFile (events_json fs) ;;
         events <- JSON_parse content ;;
         computeEventsHash events) with
  | Ok hash => Ok (Some hash)
  | Throw err => if is_ENOENT err then Ok None else Throw err
  | Diverge => Diverge
  end.

(** [new Date(start)] followed by [setHours(0, 0, 0, 0)]. *)
Definition start_of_day_of (start : string) : option Z :=
  option_map Date_startOfDay (Date_new (VStr start)).

(** [page.properties.Date || page.properties.date]. *)
Definition date_property (page : page) : option property :=
  match obj_get (page_properties page) "Date" with
  | Some p => Some p
  | None => obj_get (page_properties page) "date"
  end.

(** The test both scripts apply to a page: it has a date property of type
    date with a value, and that day is before the day of [now]. *)
Definition date_has_passed (now : Z) (page : page) : bool :=
  match date_property page with
  | Some (PDate (Some date)) =>
      date_lt (start_of_day_of (date_start date)) (Some (Date_startOfDay now))
  | _ => false
  end.

(** The filter of [fetchAndWriteEvents]:
    [(event.Name || event.name) && (event.Date || event.date)]. *)
Definition is_valid_event (event : object) : bool :=
  truthy (js_or (js_get event "Name") (js_get event "name"))
  && truthy (js_or (js_get event "Date") (js_get event "date")).

(** The event has a name field, a date field. *)
Definition has_name_field (event : object) : bool :=
  obj_has event "Name" || obj_has event "name".

Definition has_date_field (event : object) : bool :=
  obj_has event "Date" || obj_has event "date".

Definition events_value (events : list object) : value := VArr (map VObj events).

(** [if (databaseLastEdited) await writeLastSyncTimestamp(databaseLastEdited)]
    on the files [fst st]; [snd st] lists the files written so far. *)
Definition record_checkpoint (databaseLastEdited : option string)
    (st : FS * list string) : (FS * list string) * result unit :=
  if nonempty databaseLastEdited then
    match databaseLastEdited with
    | Some ts =>
        match writeLastSyncTimestamp (fst st) ts with
        | (fs', Ok _) => ((fs', (snd st ++ [path_last_sync])%list), Ok tt)
        | (fs', r) => ((fs', snd st), r)
        end
    | None => (st, Ok tt)
    end
  else (st, Ok tt).

(** [existingHash && newHash === existingHash]. *)
Definition unchanged (newHash : string) (existingHash : option string) : bool :=
  nonempty existingHash
  && match existingHash with
     | Some h => newHash =? h
     | None => false
     end.

Definition main_query : query :=
  {| q_filter := VisibleOnSite; q_sort_by_date := true;
     q_start_cursor := None; q_page_size := None |}.

(** [try { await mkdir(publicDir, { recursive: true }) } catch (err)
    { if (err.code !== "EEXIST") throw err }]. *)
Definition mkdir_public : result unit :=
  match mkdir_rejected path_public with
  | None => Ok tt
  | Some code => if code =? "EEXIST" then Ok tt else Throw (FsError code)
  end.

(** The host lets the fetch script write: the output directory can be
    made or is there, and neither file is refused. *)
Definition writes_accepted : Prop :=
  mkdir_public = Ok tt
  /\ writeFile_rejected path_events_json = None
  /\ writeFile_rejected path_last_sync = None.

(** The last step of a run: the checkpoint, then the end with code 0. *)
Definition finish (databaseLastEdited : option string) (st : FS * list string)
  : (FS * list string) * result nat :=
  let (st', r) := record_checkpoint databaseLastEdited st in
  (st', _ <- r ;; Ok 0%nat).

(** The steps from [mkdir] on, for a collection that is to be published. *)
Definition publish (databaseLastEdited : option string) (validEvents : list object)
    (fs : FS) : (FS * list string) * result nat :=
  match mkdir_public with
  | Ok _ =>
      match JSON_stringify_pretty (events_value validEvents) with
      | None => ((fs, []), Throw TypeError)
      | Some text =>
          match writeFile path_events_json text (events_json fs) with
          | (f, Ok _) =>
              finish databaseLastEdited
                ({| last_sync := last_sync fs; events_json := f |}, [path_events_json])
          | (f, Throw e) =>
              (({| last_sync := last_sync fs; events_json := f |}, []), Throw e)
          | (f, Diverge) =>
              (({| last_sync := last_sync fs; events_json := f |}, []), Diverge)
          end
      end
  | Throw e => ((fs, []), Throw e)
  | Diverge => ((fs, []), Diverge)
  end.

(** The [try] block of [fetchAndWriteEvents] from the database metadata
    on; the text is the same in both variants but for the [mapEvent] it
    calls.  The result is what the block leaves behind (the two files, and
    the paths it wrote, in order) and how it ends: with an exit code, or
    with the exception that the [catch] of the caller turns into exit
    code 1. *)
Definition fetch_and_write_try (mapEvent : page -> result object)
    (notion : Notion) (fs : FS) : (FS * list string) * result nat :=
  let databaseLastEdited := getDatabaseLastEditedTime notion in
  match
    (response <- databases_query notion main_query ;;
     events <- map_result mapEvent (results response) ;;
     let validEvents := filter is_valid_event events in
     newHash <- computeEventsHash (events_value validEvents) ;;
     existingHash <- getExistingEventsHash fs ;;
     Ok (validEvents, unchanged newHash existingHash))
  with
  | Ok (validEvents, true) =>
      finish databaseLastEdited (fs, [])                       (* process.exit(0) *)
  | Ok (validEvents, false) => publish databaseLastEdited validEvents fs
  | Throw e => ((fs, []), Throw e)
  | Diverge => ((fs, []), Diverge)
  end.

(** The same block for a caller that asks for the run that got to its
    end: the files, the paths written and the exit code; the exception
    otherwise. *)
Definition fetch_and_write (mapEvent : page -> result object)
    (notion : Notion) (fs : FS) : result (FS * list string * nat) :=
  let (st, r) := fetch_and_write_try mapEvent notion fs in
  code <- r ;; Ok (st, code).

(** The [catch] at the end of [fetchAndWriteEvents]: [process.exit(1)],
    with the files as the block left them. *)
Definition end_of_run (run : (FS * list string) * result nat)
    (updates : list update_call) (waited : bool) : result outcome :=
  match run with
  | (st, Ok code) =>
      Ok {| exit_code := code; files := fst st; written := snd st;
            updates := updates; waited := waited |}
  | (st, Throw _) =>
      Ok {| exit_code := 1; files := fst st; written := snd st;
            updates := updates; waited := waited |}
  | (_, Diverge) => Diverge
  end.

End Shared.

(** ** [scripts/fetch-events-from-notion.mjs] *)

Module FetchEvents.
Section Defs.
Context {JN : JSNumber} {H : Host}.

Definition excludedProperties : list string :=
  ["Location"; "Visible on site"].

Definition mapEvent (page : page) : result object :=
  let props := page_properties page in
  let event := extract_all excludedProperties props in
  add_datePretty event.

Definition fetchAndWriteEvents (notion : Notion) (fs : FS) : result outcome :=
  end_of_run (fetch_and_write_try mapEvent notion fs) [] false.

End Defs.
End FetchEvents.

(** ** The fetch script that also reconciles statuses *)

Module FetchEventsWithStatus.
Section Defs.
Context {JN : JSNumber} {H : Host}.

Definition excludedProperties : list string :=
  ["Location"; "Place Name"; "Place Link"; "Visible on site"].

Definition mapEvent (page : page) : result object :=
  let props := page_properties page in
  let event := extract_all excludedProperties props in
  let event := obj_delete event "Place Name" in
  let event := obj_delete event "Place Link" in
  let event := obj_delete event "Place" in
  add_datePretty event.

(** The [while (hasMore)] loop. *)
Fixpoint query_all (fuel : nat) (notion : Notion) (startCursor : option string)
    (allPages : list page) : result (list page) :=
  match fuel with
  | O => Diverge
  | S fuel' =>
      response <-
        databases_query notion
          {| q_filter := VisibleUpcoming; q_sort_by_date := false;
             q_start_cursor := startCursor; q_page_size := None |} ;;
      let allPages := (allPages ++ results response)%list in
      if has_more response
      then query_all fuel' notion (next_cursor response) allPages
      else Ok allPages
  end.

(** The pages the [for] loop pushes an update for, in order. *)
Definition pages_to_update (now : Z) (allPages : list page) : list page :=
  filter (date_has_passed now) allPages.

Definition update_request (page : page) : update_call := (page_id page, "Past").

(** [.then(() => { updatedCount++; return true; }).catch(() => false)]. *)
Definition update_succeeds (notion : Notion) (call : update_call) : bool :=
  match pages_update notion (fst call) (snd call) with
  | Ok _ => true
  | _ => false
  end.

Record status_result : Type := {
  returned : bool;
  calls : list update_call;
  updatedCount : nat
}.

Definition updateEventStatusesInNotion (fuel : nat) (notion : Notion) (now : Z)
  : result status_result :=
  match query_all fuel notion None [] with
  | Ok allPages =>
      let updatePromises := map update_request (pages_to_update now allPages) in
      let updatedCount := List.length (filter (update_succeeds notion) updatePromises) in
      Ok {| returned := (0 <? updatedCount)%nat;
            calls := updatePromises;
            updatedCount := updatedCount |}
  | Throw _ => Ok {| returned := false; calls := []; updatedCount := 0 |}
  | Diverge => Diverge
  end.

Definition fetchAndWriteEvents (fuel : nat) (notion : Notion) (fs : FS) (now : Z)
  : result outcome :=
  status <- updateEventStatusesInNotion fuel notion now ;;
  let statusUpdated := returned status in
  end_of_run (fetch_and_write_try mapEvent notion fs) (calls status) statusUpdated.

End Defs.
End FetchEventsWithStatus.

(** ** [scripts/check-notion-updates.mjs] *)

Module CheckUpdates.
Section Defs.
Context {JN : JSNumber} {H : Host}.

Definition checkForDateBasedStatusChanges (notion : Notion) (now : Z) : bool :=
  match databases_query notion
          {| q_filter := VisibleUpcoming; q_sort_by_date := false;
             q_start_cursor := None; q_page_size := Some 10%nat |} with
  | Ok response => existsb (date_has_passed now) (results response)
  | _ => true
  end.

Definition checkIfFetchNeeded (notion : Notion) (fs : FS) (now : Z) : result bool :=
  lastSyncTimestamp <- readLastSyncTimestamp fs ;;
  let databaseLastEdited := getDatabaseLastEditedTime notion in
  if negb (nonempty lastSyncTimestamp) then Ok true
  else
    let lastSyncDate :=
      match lastSyncTimestamp with
      | Some ts => start_of_day_of ts
      | None => None
      end in
    if negb (nonempty databaseLastEdited) then Ok true
    else
      let dbEditedDate :=
        match databaseLastEdited with
        | Some ts => Date_new (VStr ts)
        | None => None
        end in
      let dbWasUpdated := date_lt lastSyncDate dbEditedDate in
      let hasDateBasedChanges := checkForDateBasedStatusChanges notion now in
      if negb dbWasUpdated && negb hasDateBasedChanges then Ok false
      else Ok true.

(** The exit code: 0 to fetch, 1 to skip; an error of the check itself
    also fetches. *)
Definition main (notion : Notion) (fs : FS) (now : Z) : nat :=
  match checkIfFetchNeeded notion fs now with
  | Ok shouldFetch => if shouldFetch then 0%nat else 1%nat
  | _ => 0%nat
  end.

End Defs.
End CheckUpdates.

(** ** The check script without the date scan *)

Module CheckUpdatesPlain.
Section Defs.
Context {JN : JSNumber} {H : Host}.

Definition checkIfFetchNeeded (notion : Notion) (fs : FS) : result bool :=
  lastSyncTimestamp <- readLastSyncTimestamp fs ;;
  let databaseLastEdited := getDatabaseLastEditedTime notion in
  if negb (nonempty lastSyncTimestamp) then Ok true
  else if negb (nonempty databaseLastEdited) then Ok true
  else
    let lastSyncDate :=
      match lastSyncTimestamp with
      | Some ts => Date_new (VStr ts)
      | None => None
      end in
    let dbEditedDate :=
      match databaseLastEdited with
      | Some ts => Date_new (VStr ts)
      | None => None
      end in
    if date_le dbEditedDate lastSyncDate then Ok false
    else Ok true.

Definition main (notion : Notion) (fs : FS) : nat :=
  match checkIfFetchNeeded notion fs with
  | Ok shouldFetch => if shouldFetch then 0%nat else 1%nat
  | _ => 0%nat
  end.

End Defs.
End CheckUpdatesPlain.

(** ** A concrete host

    Numbers are the integers among the doubles, printed in decimal; the
    clock runs in UTC.  The examples below are evaluated on this host. *)

Module UTC.

Definition is_json_integer (s : string) : bool :=
  let unsigned (t : string) :=
    match t with
    | EmptyString => false
    | String c rest => all_chars is_digit t && (negb (Ascii.eqb c "0") || (rest =? ""))
    end in
  match s with
  | String c rest => if Ascii.eqb c "-" then unsigned rest else unsigned s
  | EmptyString => false
  end.

Definition Z_of_json (s : string) : option Z :=
  if is_json_integer s then
    match s with
    | String c rest =>
        if Ascii.eqb c "-" then Some (- Z.of_N (digits_value 0 rest))%Z
        else Some (Z.of_N (digits_value 0 s))
    | EmptyString => None
    end
  else None.

Fixpoint digits_of (fuel : nat) (n : N) (acc : string) : string :=
  match fuel with
  | O => acc
  | S fuel' =>
      let acc' := String (ascii_of_N (48 + n mod 10)) acc in
      if (n <? 10)%N then acc' else digits_of fuel' (n / 10)%N acc'
  end.

Definition N_to_string (n : N) : string := digits_of (S (N.to_nat (N.log2 n))) n "".

Definition Z_to_string (z : Z) : string :=
  match z with
  | Z0 => "0"
  | Zpos p => N_to_string (Npos p)
  | Zneg p => String "-" (N_to_string (Npos p))
  end.

#[export] Instance numbers : JSNumber := {|
  number := Z;
  number_is_falsy := fun z => (z =? 0)%Z;
  number_is_finite := fun _ => true;
  Number_toString := Z_to_string;
  Number_ofJSON := Z_of_json
|}.

(** Days from 1970-01-01 to a date of the proleptic Gregorian calendar. *)
Definition days_from_civil (y m d : Z) : Z :=
  (let y' := if m <=? 2 then y - 1 else y in
   let era := y' / 400 in
   let yoe := y' mod 400 in
   let mp := if m <=? 2 then m + 9 else m - 3 in
   let doy := (153 * mp + 2) / 5 + d - 1 in
   let doe := yoe * 365 + yoe / 4 - yoe / 100 + doy in
   era * 146097 + doe - 719468)%Z.

(** Year, month and day of a number of days since 1970-01-01. *)
Definition civil_from_days (days : Z) : Z * Z * Z :=
  (let z := days + 719468 in
   let era := z / 146097 in
   let doe := z mod 146097 in
   let yoe := (doe - doe / 1460 + doe / 36524 - doe / 146096) / 365 in
   let doy := doe - (365 * yoe + yoe / 4 - yoe / 100) in
   let mp := (5 * doy + 2) / 153 in
   let d := doy - (153 * mp + 2) / 5 + 1 in
   let m := if mp <? 10 then mp + 3 else mp - 9 in
   let y := yoe + era * 400 + (if m <=? 2 then 1 else 0) in
   (y, m, d))%Z.

(** [n] decimal digits at the head of a string. *)
Fixpoint take_digits (n : nat) (s : string) : option (N * string) :=
  match n with
  | O => Some (0%N, s)
  | S n' =>
      match s with
      | String c s' =>
          if is_digit c then
            match take_digits n' s' with
            | Some (v, rest) => Some ((digit_value c * 10 ^ N.of_nat n' + v)%N, rest)
            | None => None
            end
          else None
      | EmptyString => None
      end
  end.

Definition expect (c : ascii) (s : string) : option string :=
  match s with
  | String c' s' => if Ascii.eqb c c' then Some s' else None
  | EmptyString => None
  end.

(** Milliseconds of [HH:MM], [HH:MM:SS] or [HH:MM:SS.sss]. *)
Definition parse_clock (s : string) : option (Z * string) :=
  match take_digits 2 s with
  | Some (hh, s1) =>
      match expect ":" s1 with
      | Some s2 =>
          match take_digits 2 s2 with
          | Some (mm, s3) =>
              let base := (Z.of_N hh * 3600000 + Z.of_N mm * 60000)%Z in
              if ((hh <? 24) && (mm <? 60))%N then
                match expect ":" s3 with
                | Some s4 =>
                    match take_digits 2 s4 with
                    | Some (ss, s5) =>
                        if (ss <? 60)%N then
                          match expect "." s5 with
                          | Some s6 =>
                              match take_digits 3 s6 with
                              | Some (ms, s7) =>
                                  Some ((base + Z.of_N ss * 1000 + Z.of_N ms)%Z, s7)
                              | None => None
                              end
                          | None => Some ((base + Z.of_N ss * 1000)%Z, s5)
                          end
                        else None
                    | None => None
                    end
                | None => Some (base, s3)
                end
              else None
          | None => None
          end
      | None => None
      end
  | None => None
  end.

(** Offset of the zone designator, in milliseconds east of UTC. *)
Definition parse_zone (s : string) : option Z :=
  match s with
  | EmptyString => Some 0%Z                 (* local time, which is UTC here *)
  | String c rest =>
      if Ascii.eqb c "Z" then (if rest =? "" then Some 0%Z else None)
      else if Ascii.eqb c "+" || Ascii.eqb c "-" then
        match take_digits 2 rest with
        | Some (hh, s1) =>
            match expect ":" s1 with
            | Some s2 =>
                match take_digits 2 s2 with
                | Some (mm, EmptyString) =>
                    let off := (Z.of_N hh * 3600000 + Z.of_N mm * 60000)%Z in
                    Some (if Ascii.eqb c "+" then off else (- off)%Z)
                | _ => None
                end
            | None => None
            end
        | None => None
        end
      else None
  end.

(** [Date.parse] on the ISO 8601 forms Notion sends: [YYYY-MM-DD], and a
    date followed by [T], a time and an optional zone. *)
Definition parse_iso (s : string) : option Z :=
  match take_digits 4 s with
  | Some (y, s1) =>
      match expect "-" s1 with
      | Some s2 =>
          match take_digits 2 s2 with
          | Some (m, s3) =>
              match expect "-" s3 with
              | Some s4 =>
                  match take_digits 2 s4 with
                  | Some (d, s5) =>
                      if ((1 <=? m) && (m <=? 12) && (1 <=? d) && (d <=? 31))%N then
                        let day := (days_from_civil (Z.of_N y) (Z.of_N m) (Z.of_N d)
                                    * 86400000)%Z in
                        match s5 with
                        | EmptyString => Some day
                        | String t s6 =>
                            if Ascii.eqb t "T" then
                              match parse_clock s6 with
                              | Some (ms, s7) =>
                                  match parse_zone s7 with
                                  | Some off => Some (day + ms - off)%Z
                                  | None => None
                                  end
                              | None => None
                              end
                            else None
                        end
                      else None
                  | None => None
                  end
              | None => None
              end
          | None => None
          end
      | None => None
      end
  | None => None
  end.

Definition date_of_value (v : value) : option Z :=
  match v with
  | VStr s => parse_iso s
  | VNum n => Some n
  | VBool b => Some (if b then 1 else 0)%Z
  | VNull => Some 0%Z
  | VArr [VStr s] => parse_iso s
  | _ => None
  end.

Definition utc_midnight (t : Z) : Z := (t - t mod 86400000)%Z.

Definition month_name (m : Z) : string :=
  nth (Z.to_nat (m - 1))
    ["Jan"; "Feb"; "Mar"; "Apr"; "May"; "Jun"; "Jul"; "Aug"; "Sept"; "Oct"; "Nov"; "Dec"]
    "".

Definition two_digits (n : Z) : string :=
  (if (n <? 10)%Z then "0" else "") ++ Z_to_string n.

(** For instance [12 Nov 2025, 19:00]. *)
Definition format_en_GB (t : Z) : string :=
  let '(y, m, d) := civil_from_days (t / 86400000) in
  let ms := (t mod 86400000)%Z in
  Z_to_string d ++ " " ++ month_name m ++ " " ++ Z_to_string y ++ ", "
  ++ two_digits (ms / 3600000) ++ ":" ++ two_digits ((ms / 60000) mod 60).

(** The host refuses no write. *)
#[export] Instance host : Host := {|
  Date_new := date_of_value;
  Date_startOfDay := utc_midnight;
  DateTimeFormat_format := format_en_GB;
  mkdir_rejected := fun _ => None;
  writeFile_rejected := fun _ => None;
  writeFile_leaves := fun _ _ f => f
|}.

End UTC.

(** ** The staleness decision in the words of the specification

    [needsSync(checkpoint, remoteLastEdited, extraSignal)]: true without a
    checkpoint, true without a remote timestamp, true when the remote
    timestamp is strictly newer than the checkpoint, true when the extra
    signal is, and false otherwise. *)

Section NeedsSync.
Context {JN : JSNumber} {H : Host}.

Definition needsSync (checkpoint remoteLastEdited : option string)
    (extraSignal : bool) : bool :=
  negb (nonempty checkpoint)
  || negb (nonempty remoteLastEdited)
  || match checkpoint, remoteLastEdited with
     | Some c, Some r => date_lt (Date_new (VStr c)) (Date_new (VStr r))
     | _, _ => false
     end
  || extraSignal.

End NeedsSync.

(** ** Pages of results and calls *)

Section Paging.
Context {JN : JSNumber}.

Definition upcoming_query (cursor : option string) : query :=
  {| q_filter := VisibleUpcoming; q_sort_by_date := false;
     q_start_cursor := cursor; q_page_size := None |}.

(** The store answers the query for upcoming events, from [cursor] on, with
    the given pages of results, each but the last naming the next cursor. *)
Inductive serves (notion : Notion) : option string -> list (list page) -> Prop :=
| serves_last cursor chunk next :
    databases_query notion (upcoming_query cursor)
    = Ok {| results := chunk; has_more := false; next_cursor := next |} ->
    serves notion cursor [chunk]
| serves_more cursor chunk next chunks :
    databases_query notion (upcoming_query cursor)
    = Ok {| results := chunk; has_more := true; next_cursor := next |} ->
    serves notion next chunks ->
    serves notion cursor (chunk :: chunks).

(** The same client with another answer to update requests. *)
Definition with_updates (notion : Notion) (update : string -> string -> result unit)
  : Notion :=
  {| databases_retrieve := databases_retrieve notion;
     databases_query := databases_query notion;
     pages_update := update |}.

End Paging.

(** Calls aimed at one page. *)
Definition calls_to (id : string) (calls : list (string * string))
  : list (string * string) :=
  filter (fun call => fst call =? id) calls.

(** ** Scenarios on the concrete host *)

Module Scenario.
Import UTC.

Definition evening : date_value :=
  {| date_start := "2025-11-12T19:00:00.000+00:00"; date_end := None |}.

(** A visible event with its venue. *)
Definition venue_page : page :=
  {| page_id := "page-1";
     page_properties :=
       [("Name", PTitle (Some ["Afterhours"]));
        ("Date", PDate (Some evening));
        ("Status", PStatus (Some "Upcoming"));
        ("Capacity", PNumber (Some 40%Z));
        ("Location", PRelation (Some ["place-1"]));
        ("Place Name", PRollup (Some [PTitle (Some ["Secret Bar"])]) None);
        ("Place Link", PRollup (Some [PUrl (Some "https://maps.example/bar")]) None);
        ("Visible on site", PCheckbox true)] |}.

(** A database that answers every query with the given pages, in one
    response, and accepts every update. *)
Definition single_page_store (pages : list page) : Notion :=
  {| databases_retrieve := Ok "2025-11-10T08:00:00.000Z";
     databases_query := fun _ =>
       Ok {| results := pages; has_more := false; next_cursor := None |};
     pages_update := fun _ _ => Ok tt |}.

Definition no_files : FS := {| last_sync := NoFile; events_json := NoFile |}.

(** A page whose property called Name is an unticked checkbox. *)
Definition unticked_page : page :=
  {| page_id := "page-2";
     page_properties :=
       [("Name", PCheckbox false);
        ("Date", PDate (Some evening))] |}.


Definition dated_page (id name start : string) : page :=
  {| page_id := id;
     page_properties :=
       [("Name", PTitle (Some [name]));
        ("Date", PDate (Some {| date_start := start; date_end := None |}));
        ("Status", PStatus (Some "Upcoming"));
        ("Visible on site", PCheckbox true)] |}.

Definition past_a : page := dated_page "page-a" "A" "2000-01-01".
Definition past_b : page := dated_page "page-b" "B" "2025-11-12T19:00:00.000+00:00".
Definition future_c : page := dated_page "page-c" "C" "2099-01-01".

(** 2025-11-13T08:00:00Z. *)
Definition morning_after : Z := 1763020800000%Z.

(** A store that answers in two pages of results. *)
Definition two_page_store : Notion :=
  {| databases_retrieve := Ok "2025-11-12T19:00:00.000Z";
     databases_query := fun q =>
       match q_start_cursor q with
       | None => Ok {| results := [past_a]; has_more := true;
                       next_cursor := Some "cursor-2" |}
       | Some _ => Ok {| results := [future_c]; has_more := false;
                         next_cursor := None |}
       end;
     pages_update := fun _ _ => Ok tt |}.

(** A store holding the given upcoming pages, where updating the pages
    listed in [failing] is rejected. *)
Definition store_rejecting (pages : list page) (failing : list string) : Notion :=
  {| databases_retrieve := Ok "2025-11-12T19:00:00.000Z";
     databases_query := fun _ =>
       Ok {| results := pages; has_more := false; next_cursor := None |};
     pages_update := fun id _ =>
       if existsb (String.eqb id) failing then Throw (APIError "conflict_error")
       else Ok tt |}.

(** The checkpoint of a sync that saw the last edit of the database. *)
Definition synced_files : FS :=
  {| last_sync := File "2025-11-12T19:00:00.000Z"; events_json := NoFile |}.

(** Nothing was edited since, and the only upcoming event lies ahead. *)
Definition quiet_store : Notion := store_rejecting [future_c] [].


(** The output file cut short, as an interrupted write leaves it. *)
Definition broken_files : FS :=
  {| last_sync := NoFile; events_json := File "[" |}.

(** The event [venue_page] is mapped to by the script without the status
    updater. *)
Definition venue_event : object :=
  Eval vm_compute in
    match FetchEvents.mapEvent venue_page with
    | Ok event => event
    | _ => []
    end.

(** The files a first run over [venue_page] leaves behind. *)
Definition published_files : FS :=
  Eval vm_compute in
    match FetchEvents.fetchAndWriteEvents (single_page_store [venue_page]) no_files with
    | Ok o => files o
    | _ => no_files
    end.

End Scenario.

(** ** What an event keeps of a page *)

Section Kept.
Context {JN : JSNumber}.

(** What the loop of [mapEvent] leaves under a key: the value extracted
    from the page property of that name, unless the key is excluded or the
    value is [null]. *)
Definition kept (excludedProperties : list string)
    (props : list (string * property)) (k : string) : option value :=
  match obj_get props k with
  | Some p =>
      if existsb (String.eqb k) excludedProperties then None
      else if is_nullish (extractPropertyValue p) then None
           else Some (extractPropertyValue p)
  | None => None
  end.

End Kept.

(** ** [scripts/test-sync.mjs]

    The local rehearsal of the workflow: the checker runs first, and its
    exit code decides whether the fetch script runs. *)

Module TestSync.

Definition check_script : string := "scripts/check-notion-updates.mjs".
Definition fetch_script : string := "scripts/fetch-events-from-notion.mjs".

(** How a rehearsal ends: its own exit code, the world the scripts left,
    and the scripts it started, in order. *)
Record rehearsal (World : Type) : Type := {
  exit : nat;
  after : World;
  started : list string
}.
Arguments Build_rehearsal {World} exit after started.
Arguments exit {World} r.
Arguments after {World} r.
Arguments started {World} r.

Section Main.
Context {World : Type}.

(** [runScript(scriptPath)]: the promise resolves with the exit code of
    the child, [null] when a signal ended it, and rejects when the child
    could not be started. *)
Context (runScript : string -> World -> result (option nat * World)).

(** [main], with the [catch] that follows it: a rejection ends the
    rehearsal with code 1. *)
Definition main (w : World) : result (rehearsal World) :=
  match runScript check_script w with
  | Ok (checkExitCode, w1) =>
      match checkExitCode with
      | Some 0%nat =>
          match runScript fetch_script w1 with
          | Ok (fetchExitCode, w2) =>
              match fetchExitCode with
              | Some 0%nat =>
                  Ok {| exit := 0; after := w2;
                        started := [check_script; fetch_script] |}
              | _ =>
                  Ok {| exit := 1; after := w2;
                        started := [check_script; fetch_script] |}
              end
          | Throw _ =>
              Ok {| exit := 1; after := w1;
                    started := [check_script; fetch_script] |}
          | Diverge => Diverge
          end
      | Some 1%nat => Ok {| exit := 0; after := w1; started := [check_script] |}
      | _ => Ok {| exit := 1; after := w1; started := [check_script] |}
      end
  | Throw _ => Ok {| exit := 1; after := w; started := [check_script] |}
  | Diverge => Diverge
  end.

End Main.

Section Scripts.
Context {JN : JSNumber} {H : Host}.

(** [node scriptPath] for the two scripts of [scripts/], with the
    credentials set, over the files they share; any other path is a module
    [node] cannot find. *)
Definition node (notion : Notion) (now : Z) (scriptPath : string) (fs : FS)
  : result (option nat * FS) :=
  if scriptPath =? check_script then
    Ok (Some (CheckUpdates.main notion fs now), fs)
  else if scriptPath =? fetch_script then
    o <- FetchEvents.fetchAndWriteEvents notion fs ;;
    Ok (Some (exit_code o), files o)
  else Ok (Some 1%nat, fs).

Definition rehearse (notion : Notion) (now : Z) (fs : FS) : result (rehearsal FS) :=
  main (node notion now) fs.

End Scripts.
End TestSync.

(** ** [assets/js/events.js]

    The page script reads the published file and lists the events.  The
    functions that compute what is shown are embedded; the markup of a row
    ([createEventRow]) and the DOM calls around them are not. *)

(** The two calendar readings [groupByYearMonth] takes of a valid date. *)
Class Calendar : Type := {
  (** [date.getFullYear()]. *)
  Date_getFullYear : Z -> Z;
  (** [date.toLocaleString('en-US', { month: 'short' })]. *)
  Date_toLocaleString_month : Z -> string
}.

(** Stable sorting by insertion: the one order [Array.prototype.sort] may
    give when the comparison is consistent. *)
Section Sorting.
Context {A : Type} (le : A -> A -> bool).

Fixpoint insert_sorted (x : A) (l : list A) : list A :=
  match l with
  | [] => [x]
  | y :: rest => if le x y then x :: l else y :: insert_sorted x rest
  end.

Definition stable_sort (l : list A) : list A := fold_right insert_sorted [] l.

(** The comparison is total and transitive on the elements of [l]. *)
Definition orders (l : list A) : Prop :=
  (forall a b, In a l -> In b l -> le a b = true \/ le b a = true)
  /\ (forall a b c, In a l -> In b l -> In c l ->
                    le a b = true -> le b c = true -> le a c = true).

End Sorting.

Module EventsJS.

Definition MAX_HOME_EVENTS : nat := 3.

(** The object [formatEvent] returns. *)
Record FormattedEvent (num : Type) : Type := {
  name : JSValue num;
  type : JSValue num;
  status : JSValue num;
  dateISO : JSValue num;
  datePretty : JSValue num;
  lang : list (JSValue num);
  link : JSValue num
}.
Arguments Build_FormattedEvent {num} name type status dateISO datePretty lang link.
Arguments name {num} f.
Arguments type {num} f.
Arguments status {num} f.
Arguments dateISO {num} f.
Arguments datePretty {num} f.
Arguments lang {num} f.
Arguments link {num} f.

Abbreviation formatted := (FormattedEvent number).

(** What [fetch] resolves with: the [ok] flag and the text of the body. *)
Record Response : Type := {
  ok : bool;
  body : string
}.

Section Page.
Context {JN : JSNumber} {H : Host} {C : Calendar}.

(** [firstOrNull]. *)
Definition firstOrNull (arr : value) : value :=
  match arr with
  | VArr (first :: _) => first
  | _ => VNull
  end.

(** [event.key] on a value that [JSON.parse] built: the own member of an
    object, [undefined] on an array, a string, a number or a boolean (none
    of the keys read below is inherited). *)
Definition member (event : value) (key : string) : value :=
  match event with
  | VObj members => js_get members key
  | _ => VUndefined
  end.

(** [formatEvent]; reading a property of [null] throws. *)
Definition formatEvent (event : value) : result formatted :=
  if is_nullish event then Throw TypeError
  else
    Ok {| name := js_or (member event "Name") (VStr "");
          type := js_or (member event "Type") (VStr "");
          status := js_or (member event "Status") (VStr "");
          dateISO := js_or (member event "Date") (VStr "");
          datePretty := js_or (member event "datePretty") (VStr "");
          lang := match member event "Language" with
                  | VArr items => items
                  | _ => []
                  end;
          link := js_or (member event "Link") VNull |}.

(** [fetchEvents]: whatever is thrown on the way, by [fetch], by the test
    of [response.ok], by [response.json()] or by [formatEvent], is caught
    and answered with the empty list. *)
Definition fetchEvents (fetched : result Response) : result (list formatted) :=
  match fetched with
  | Ok response =>
      if negb (ok response) then Ok []
      else
        match JSON_parse (body response) with
        | Ok (VArr data) =>
            match map_result formatEvent data with
            | Ok events => Ok events
            | Throw _ => Ok []
            | Diverge => Diverge
            end
        | Ok _ => Ok []
        | Throw _ => Ok []
        | Diverge => Diverge
        end
  | Throw _ => Ok []
  | Diverge => Diverge
  end.

(** [e.status === 'Upcoming'], [e.status === 'Past']. *)
Definition has_status (s : string) (e : formatted) : bool :=
  match status e with
  | VStr t => t =? s
  | _ => false
  end.

(** [new Date(e.dateISO)], as a time value. *)
Definition time_of (e : formatted) : option Z := Date_new (dateISO e).

Definition has_time (e : formatted) : bool :=
  match time_of e with
  | Some _ => true
  | None => false
  end.

(** [new Date(a.dateISO) - new Date(b.dateISO) <= 0]; the difference is
    [NaN] when either date is invalid, which sorting reads as zero. *)
Definition ascending (a b : formatted) : bool :=
  match time_of a, time_of b with
  | Some x, Some y => (x - y <=? 0)%Z
  | _, _ => true
  end.

(** The same with the arguments swapped, as for the past events. *)
Definition descending (a b : formatted) : bool := ascending b a.

(** The comparison is consistent when every date is valid or none is.
    Otherwise the order [sort] leaves is up to the engine: [None]. *)
Definition Array_sort (le : formatted -> formatted -> bool) (events : list formatted)
  : option (list formatted) :=
  if forallb has_time events || forallb (fun e => negb (has_time e)) events
  then Some (stable_sort le events)
  else None.

(** [events.filter(e => e.status === 'Upcoming').sort(...)]. *)
Definition upcoming (events : list formatted) : option (list formatted) :=
  Array_sort ascending (filter (has_status "Upcoming") events).

(** [events.filter(e => e.status === 'Past').sort(...)]. *)
Definition past (events : list formatted) : option (list formatted) :=
  Array_sort descending (filter (has_status "Past") events).

(** [upcoming.slice(0, CONFIG.MAX_HOME_EVENTS)], the rows of the home page. *)
Definition homeEvents (events : list formatted) : option (list formatted) :=
  option_map (firstn MAX_HOME_EVENTS) (upcoming events).

(** The template [`${year} / ${month}`]; an invalid date reads [NaN] and
    [Invalid Date]. *)
Definition group_key (dateISO : value) : string :=
  match Date_new dateISO with
  | Some t => UTC.Z_to_string (Date_getFullYear t) ++ " / " ++ Date_toLocaleString_month t
  | None => "NaN / Invalid Date"
  end.

(** [groupByYearMonth]. *)
Definition groupByYearMonth (events : list formatted)
  : result (list (string * list formatted)) :=
  fold_left
    (fun acc event =>
       groups <- acc ;;
       if negb (truthy (dateISO event)) then Ok groups
       else
         let key := group_key (dateISO event) in
         let groups :=
           match obj_get groups key with
           | Some _ => groups
           | None => js_assign groups key []
           end in
         match obj_get groups key with
         | Some items => Ok (obj_replace groups key (items ++ [event])%list)
         | None => Throw TypeError
         end)
    events (Ok []).

(** [Object.keys(groups).sort().reverse()]: the keys in descending order
    of their text, compared character by character as [sort] does for the
    ASCII texts the keys are made of. *)
Definition archive_order (groups : list (string * list formatted)) : list string :=
  rev (stable_sort String.leb (obj_keys groups)).

(** The groups of the archive as [renderEventsPage] lays them out, from
    the sorted past events. *)
Definition archive (pastEvents : list formatted)
  : result (list (string * list formatted)) :=
  groups <- groupByYearMonth pastEvents ;;
  Ok (map (fun groupKey =>
             (groupKey,
              match obj_get groups groupKey with
              | Some items => items
              | None => []
              end))
          (archive_order groups)).

(** One entry of the JSON-LD block; a formatted event has no [date]. *)
Definition jsonld (ev : formatted) : value :=
  VObj [("@context", VStr "https://schema.org");
        ("@type", VStr "Event");
        ("name", name ev);
        ("eventStatus", VStr "https://schema.org/EventScheduled");
        ("eventAttendanceMode", VStr "https://schema.org/OfflineEventAttendanceMode");
        ("startDate", js_or (js_or (dateISO ev) VUndefined) (VStr ""));
        ("location",
         VObj [("@type", VStr "Place");
               ("name", VStr "Coimbra");
               ("address",
                VObj [("@type", VStr "PostalAddress");
                      ("addressLocality", VStr "Coimbra");
                      ("addressCountry", VStr "PT")])]);
        ("organizer",
         VObj [("@type", VStr "Organization");
               ("name", VStr "Coimbra Tech Afterhours");
               ("url", VStr "https://coimbratech.org")]);
        ("inLanguage", VArr [VStr "pt-PT"; VStr "en"]);
        ("url", VStr "https://coimbratech.org/events");
        ("isAccessibleForFree", VBool true)].

(** [injectEventJsonLd], on the texts of the scripts the head holds. *)
Definition injectEventJsonLd (events : list formatted) (head : list string)
  : list string :=
  match events with
  | [] => head
  | _ :: _ =>
      match JSON_stringify (VArr (map jsonld events)) with
      | Some text => (head ++ [text])%list
      | None => head
      end
  end.

End Page.
End EventsJS.

(** ** Reading the lists of the page *)

Section Listings.
Context {JN : JSNumber} {H : Host} {C : Calendar}.

(** Both events have a valid date, and [a] does not start after [b]. *)
Definition starts_no_later (a b : EventsJS.formatted) : Prop :=
  match EventsJS.time_of a, EventsJS.time_of b with
  | Some x, Some y => (x <= y)%Z
  | _, _ => False
  end.

(** The event has a date, and [groupByYearMonth] files it under [key]. *)
Definition filed_under (key : string) (e : EventsJS.formatted) : bool :=
  truthy (EventsJS.dateISO e) && (EventsJS.group_key (EventsJS.dateISO e) =? key).

(** What [groupByYearMonth] holds under a key once it has gone through
    [events]. *)
Definition filed (events : list EventsJS.formatted) (key : string)
  : option (list EventsJS.formatted) :=
  match filter (filed_under key) events with
  | [] => None
  | items => Some items
  end.

(** No blank in the text. *)
Definition no_space (c : ascii) : bool := negb (Ascii.eqb c " ").

End Listings.

(** The calendar of the concrete host. *)
Module UTCCalendar.
Import UTC.

#[export] Instance calendar : Calendar := {|
  Date_getFullYear := fun t => fst (fst (civil_from_days (t / 86400000)));
  Date_toLocaleString_month := fun t =>
    nth (Z.to_nat (snd (fst (civil_from_days (t / 86400000))) - 1))
      ["Jan"; "Feb"; "Mar"; "Apr"; "May"; "Jun"; "Jul"; "Aug"; "Sep"; "Oct"; "Nov"; "Dec"]
      ""
|}.

End UTCCalendar.

(** ** More scenarios on the concrete host *)

Module Cases.
Import UTC Scenario UTCCalendar.

(** A page whose property called Date is a text, not a date. *)
Definition rumour_page : page :=
  {| page_id := "page-r";
     page_properties :=
       [("Name", PTitle (Some ["Sometime"]));
        ("Date", PRichText (Some ["soon"]));
        ("Status", PStatus (Some "Upcoming"));
        ("Visible on site", PCheckbox true)] |}.

(** A store that answers the first request and rejects the second. *)
Definition half_served_store : Notion :=
  {| databases_retrieve := Ok "2025-11-12T19:00:00.000Z";
     databases_query := fun q =>
       match q_start_cursor q with
       | None => Ok {| results := [past_a]; has_more := true;
                       next_cursor := Some "cursor-2" |}
       | Some _ => Throw (APIError "rate_limited")
       end;
     pages_update := fun _ _ => Ok tt |}.

(** A store that always has more to give. *)
Definition endless_store : Notion :=
  {| databases_retrieve := Ok "2025-11-12T19:00:00.000Z";
     databases_query := fun _ =>
       Ok {| results := [past_a]; has_more := true; next_cursor := Some "again" |};
     pages_update := fun _ _ => Ok tt |}.

(** A checkpoint someone wrote by hand. *)
Definition unreadable_checkpoint : FS :=
  {| last_sync := File "yesterday"; events_json := NoFile |}.

(** A checkpoint of white space: a space, a no-break space, a byte order
    mark, a line separator and a line feed. *)
Definition blank_checkpoint : FS :=
  {| last_sync := File (utf8_text [32; 160; 65279; 8232; 10]%N); events_json := NoFile |}.

(** The host of the scenarios with a checkpoint that cannot be written
    (a [.last-sync] of mode 0000, say). *)
Definition checkpoint_refused : Host :=
  {| Date_new := date_of_value;
     Date_startOfDay := utc_midnight;
     DateTimeFormat_format := format_en_GB;
     mkdir_rejected := fun _ => None;
     writeFile_rejected := fun path =>
       if path =? path_last_sync then Some "EACCES" else None;
     writeFile_leaves := fun _ _ f => f |}.

(** The text of the file the first run over [venue_page] publishes, and
    the response that serves it. *)
Definition published_text : string :=
  Eval vm_compute in
    match events_json published_files with
    | File text => text
    | _ => ""
    end.

Definition served : result EventsJS.Response :=
  Ok {| EventsJS.ok := true; EventsJS.body := published_text |}.

(** The event the page script makes of the published one. *)
Definition venue_row : EventsJS.formatted :=
  {| EventsJS.name := VStr "Afterhours";
     EventsJS.type := VStr "";
     EventsJS.status := VStr "Upcoming";
     EventsJS.dateISO := VStr "2025-11-12T19:00:00.000+00:00";
     EventsJS.datePretty := VStr "12 Nov 2025 19:00";
     EventsJS.lang := [];
     EventsJS.link := VNull |}.

Definition listed (name status date : string) : EventsJS.formatted :=
  {| EventsJS.name := VStr name;
     EventsJS.type := VStr "Afterhours";
     EventsJS.status := VStr status;
     EventsJS.dateISO := VStr date;
     EventsJS.datePretty := VStr "";
     EventsJS.lang := [];
     EventsJS.link := VNull |}.

(** Four events ahead, two behind and a cancelled one, in no order. *)
Definition programme : list EventsJS.formatted :=
  [listed "April" "Upcoming" "2026-04-01";
   listed "February" "Upcoming" "2026-02-01";
   listed "Last January" "Past" "2025-01-15";
   listed "January" "Upcoming" "2026-01-01";
   listed "March" "Upcoming" "2026-03-01";
   listed "Last February" "Past" "2025-02-20";
   listed "Cancelled" "Cancelled" "2026-05-01"].

End Cases.

(** * Properties *)


(** ** The property extractor *)

Section ExtractFacts.
Context {JN : JSNumber}.

(** Induction on properties that reaches into rollup arrays. *)
Lemma property_rollup_ind (P : property -> Prop) :
  (forall array n, Forall P array -> P (PRollup (Some array) n)) ->
  (forall p, depth p = 0%nat -> P p) ->
  forall p, P p.
Proof.
  intros Hroll Hleaf.
  fix IH 1.
  intros p.
  destruct p as [| | | | | | | | | | | | [array|] n | | | | | | | | |];
    try (apply Hleaf; reflexivity).
  apply Hroll.
  induction array as [|item array IHarray]; constructor.
  - apply IH.
  - exact IHarray.
Qed.

(** A loop whose steps either return or throw [e], by the largest step. *)
Lemma map_result_by_max {A B : Type} (F : A -> result B) (g : A -> B)
    (m : A -> nat) (e : exn) (f : nat) (l : list A) :
  Forall (fun a => F a = if (m a <=? f)%nat then Ok (g a) else Throw e) l ->
  map_result F l
  = if (fold_right (fun a d => Nat.max (m a) d) 0 l <=? f)%nat
    then Ok (map g l) else Throw e.
Proof.
  induction 1 as [|a l Ha _ IH]; cbn [map_result fold_right map].
  - reflexivity.
  - rewrite Ha, IH.
    destruct (m a <=? f)%nat eqn:Hm; cbn [bind].
    + destruct (fold_right (fun a d => Nat.max (m a) d) 0 l <=? f)%nat eqn:Hl;
        cbn [bind].
      * apply Nat.leb_le in Hm, Hl.
        rewrite (proj2 (Nat.leb_le _ _)) by (apply Nat.max_lub; assumption).
        reflexivity.
      * apply Nat.leb_gt in Hl.
        rewrite (proj2 (Nat.leb_gt _ _)) by lia. reflexivity.
    + apply Nat.leb_gt in Hm.
      rewrite (proj2 (Nat.leb_gt _ _)) by lia. reflexivity.
Qed.

(** The call returns the value of [extractPropertyValue] when its
    activations fit on the stack, and throws when they do not. *)
Lemma extractPropertyValue_on_stack (p : property) :
  forall frames,
    extractPropertyValue_on frames p
    = if (activations p <=? frames)%nat then Ok (extractPropertyValue p)
      else Throw RangeError.
Proof.
  induction p as [array n IH | p Hp] using property_rollup_ind; intros frames.
  - destruct frames as [|frames]; [reflexivity|].
    cbn [extractPropertyValue_on activations extractPropertyValue].
    rewrite (map_result_by_max _
               (fun item => match item with
                            | PTitle title => plain_text_or_null title
                            | _ => extractPropertyValue item
                            end)
               (fun item => match item with
                            | PTitle _ => 0%nat
                            | _ => activations item
                            end) RangeError frames).
    + change (S ?a <=? S frames)%nat with (a <=? frames)%nat.
      destruct (_ <=? frames)%nat; reflexivity.
    + rewrite Forall_forall in IH |- *.
      intros item Hin. specialize (IH item Hin frames).
      destruct item; try exact IH; reflexivity.
  - destruct frames as [|frames].
    + destruct p as [| | | | | | | | | | | | [array|] n | | | | | | | | |];
        try reflexivity; discriminate Hp.
    + destruct p as [| | | | | | | | | | | | [array|] n | | | | | | | | |];
        try reflexivity; discriminate Hp.
Qed.

Lemma activations_nested (n : nat) (b : bool) :
  activations (nested_rollup n (PCheckbox b)) = S n.
Proof.
  induction n as [|n IH]; [reflexivity|].
  cbn [nested_rollup activations fold_right].
  destruct n as [|n]; cbn [nested_rollup] in *; rewrite IH; lia.
Qed.

Lemma str_or_null_kind (s : string) :
  is_scalar (str_or_null s) || is_null (str_or_null s) = true.
Proof. unfold str_or_null. destruct (s =? ""); reflexivity. Qed.

Lemma extractPropertyValue_kind (p : property) :
  is_scalar (extractPropertyValue p) || is_array (extractPropertyValue p)
  || is_null (extractPropertyValue p) = true.
Proof.
  destruct p as [t|t|n|o|o|d|b|o|o|o|o|o|[array|] [n|]|f|o|o|o|o|o|[files|]|t|];
    simpl; try reflexivity;
    repeat match goal with
           | o : option _ |- _ => destruct o
           | f : formula_value |- _ => destruct f
           | b : bool |- _ => destruct b
           end; simpl; try reflexivity;
    unfold str_or_null, js_or; simpl;
    repeat match goal with
           | |- context [if ?c then _ else _] => destruct c; simpl
           end; reflexivity.
Qed.

End ExtractFacts.

(** C10, as the code has it.  [extractPropertyValue] follows the
    structure of the property: on every property the call ends, with the
    value when the activations it nests fit on the call stack and with a
    [RangeError] when they do not, and nothing in the function bounds how
    deep rollup arrays may be nested.  So on a stack with room for [frames]
    activations, rollup arrays nested less than [frames] deep give their
    value and rollup arrays nested [frames] deep throw.  A value that is
    returned is a scalar, an array or [null], and a property with an
    unrecognised tag gives [null]. *)
Theorem extractPropertyValue_returns_within_stack {JN : JSNumber}
    (frames : nat) (property : property) :
  extractPropertyValue_on frames property
  = (if (activations property <=? frames)%nat
     then Ok (extractPropertyValue property)
     else Throw RangeError)
  /\ (is_scalar (extractPropertyValue property)
      || is_array (extractPropertyValue property)
      || is_null (extractPropertyValue property) = true)
  /\ (forall type, extractPropertyValue_on (S frames) (POther type) = Ok VNull)
  /\ (forall n b,
        (n < frames)%nat ->
        extractPropertyValue_on frames (nested_rollup n (PCheckbox b))
        = Ok (extractPropertyValue (nested_rollup n (PCheckbox b))))
  /\ (forall b,
        extractPropertyValue_on frames (nested_rollup frames (PCheckbox b))
        = Throw RangeError).
Proof.
  split; [|split; [|split; [|split]]].
  - apply extractPropertyValue_on_stack.
  - apply extractPropertyValue_kind.
  - reflexivity.
  - intros n b Hn. rewrite extractPropertyValue_on_stack, activations_nested.
    rewrite (proj2 (Nat.leb_le _ _)) by lia. reflexivity.
  - intros b. rewrite extractPropertyValue_on_stack, activations_nested.
    rewrite (proj2 (Nat.leb_gt _ _)) by lia. reflexivity.
Qed.


(** ** Objects *)

Section ObjectFacts.
Context {A : Type}.
Implicit Types (o : list (string * A)) (k : string) (v : A).

Lemma obj_get_replace_other o k v k' :
  (k' =? k) = false -> obj_get (obj_replace o k v) k' = obj_get o k'.
Proof.
  intros Hne. induction o as [|[k0 v0] o IH]; simpl.
  - reflexivity.
  - destruct (k =? k0) eqn:Hk; simpl.
    + apply String.eqb_eq in Hk. subst k0. rewrite Hne. reflexivity.
    + rewrite IH. reflexivity.
Qed.

Lemma obj_get_insert_index_other o i k v k' :
  (k' =? k) = false -> obj_get (obj_insert_index o i k v) k' = obj_get o k'.
Proof.
  intros Hne. induction o as [|[k0 v0] o IH]; simpl.
  - rewrite Hne. reflexivity.
  - destruct (array_index k0) as [j|].
    + destruct (j <? i)%N; simpl.
      * rewrite IH. reflexivity.
      * rewrite Hne. reflexivity.
    + simpl. rewrite Hne. reflexivity.
Qed.

Lemma obj_get_app_other o k v k' :
  (k' =? k) = false -> obj_get (o ++ [(k, v)])%list k' = obj_get o k'.
Proof.
  intros Hne. induction o as [|[k0 v0] o IH]; simpl.
  - rewrite Hne. reflexivity.
  - rewrite IH. reflexivity.
Qed.

Lemma obj_get_set_other o k v k' :
  (k' =? k) = false -> obj_get (obj_set o k v) k' = obj_get o k'.
Proof.
  intros Hne. unfold obj_set.
  destruct (obj_has o k).
  - apply obj_get_replace_other, Hne.
  - destruct (array_index k).
    + apply obj_get_insert_index_other, Hne.
    + apply obj_get_app_other, Hne.
Qed.

Lemma obj_get_assign_other o k v k' :
  (k' =? k) = false -> obj_get (js_assign o k v) k' = obj_get o k'.
Proof.
  intros Hne. unfold js_assign.
  destruct (k =? "__proto__"); [reflexivity | apply obj_get_set_other, Hne].
Qed.

Lemma obj_get_delete o k k' :
  obj_get (obj_delete o k) k' = if k =? k' then None else obj_get o k'.
Proof.
  unfold obj_delete. induction o as [|[k0 v0] o IH]; simpl.
  - destruct (k =? k'); reflexivity.
  - destruct (k =? k0) eqn:Hk; simpl.
    + rewrite IH. apply String.eqb_eq in Hk. subst k0.
      destruct (k =? k') eqn:Hk'; [reflexivity|].
      rewrite String.eqb_sym, Hk'. reflexivity.
    + destruct (k' =? k0) eqn:Hk0.
      * apply String.eqb_eq in Hk0. subst k0. rewrite Hk. reflexivity.
      * exact IH.
Qed.

Lemma obj_get_delete_None o k k' :
  obj_get o k' = None -> obj_get (obj_delete o k) k' = None.
Proof.
  intros Hnone. rewrite obj_get_delete, Hnone. destruct (k =? k'); reflexivity.
Qed.

End ObjectFacts.

(** ** The record mapper *)

Section MapEventFacts.
Context {JN : JSNumber} {H : Host}.

(** The loop over the properties never stores an excluded key. *)
Lemma extract_all_excluded (excludedProperties : list string)
    (props : list (string * property)) (k : string) :
  existsb (String.eqb k) excludedProperties = true ->
  obj_get (extract_all excludedProperties props) k = None.
Proof.
  intros Hex. unfold extract_all.
  assert (Hinv : forall keys (event : object),
            obj_get event k = None ->
            obj_get
              (fold_left
                 (fun event key =>
                    if existsb (String.eqb key) excludedProperties then event
                    else
                      let value := extractPropertyValue (props_get props key) in
                      if is_nullish value then event else js_assign event key value)
                 keys event) k = None).
  { induction keys as [|key keys IH]; simpl; intros event Hev.
    - exact Hev.
    - apply IH.
      destruct (existsb (String.eqb key) excludedProperties) eqn:Hkey; [exact Hev|].
      destruct (is_nullish _); [exact Hev|].
      rewrite obj_get_assign_other; [exact Hev|].
      destruct (k =? key) eqn:Hk; [|reflexivity].
      apply String.eqb_eq in Hk. subst key. congruence. }
  apply Hinv. reflexivity.
Qed.

(** [add_datePretty] touches no key but [datePretty]. *)
Lemma add_datePretty_other (event event' : object) (k : string) :
  add_datePretty event = Ok event' ->
  (k =? "datePretty") = false ->
  obj_get event' k = obj_get event k.
Proof.
  unfold add_datePretty. intros Hadd Hk.
  destruct (truthy (js_get event "Date")).
  - destruct (formatDatePretty (js_get event "Date")) as [pretty| |]; simpl in Hadd;
      try discriminate.
    destruct (negb (truthy (js_get (js_assign event "datePretty" pretty) "datePretty"))
              && truthy (js_get (js_assign event "datePretty" pretty) "date")).
    + destruct (formatDatePretty _) as [pretty2| |]; simpl in Hadd; try discriminate.
      injection Hadd as <-.
      rewrite !obj_get_assign_other by exact Hk. reflexivity.
    + injection Hadd as <-. rewrite obj_get_assign_other by exact Hk. reflexivity.
  - simpl in Hadd.
    destruct (negb (truthy (js_get event "datePretty")) && truthy (js_get event "date")).
    + destruct (formatDatePretty _) as [pretty2| |]; simpl in Hadd; try discriminate.
      injection Hadd as <-. rewrite obj_get_assign_other by exact Hk. reflexivity.
    + injection Hadd as <-. reflexivity.
Qed.

(** The variant with the status updater keeps the venue and the filter
    flag out of every event it maps. *)
Lemma mapEvent_with_status_hides (page : page) (event : object) (k : string) :
  FetchEventsWithStatus.mapEvent page = Ok event ->
  In k ["Location"; "Place Name"; "Place Link"; "Visible on site"; "Place"] ->
  obj_has event k = false.
Proof.
  unfold FetchEventsWithStatus.mapEvent. intros Hmap Hin.
  unfold obj_has.
  assert (Hk : (k =? "datePretty") = false).
  { simpl in Hin. repeat destruct Hin as [<- | Hin]; try reflexivity. contradiction. }
  rewrite (add_datePretty_other _ _ _ Hmap Hk).
  simpl in Hin.
  destruct Hin as [<- | [<- | [<- | [<- | [<- | []]]]]];
    rewrite ?obj_get_delete; simpl;
    try rewrite extract_all_excluded by reflexivity; reflexivity.
Qed.

(** The other variant still keeps its two excluded keys out. *)
Lemma mapEvent_plain_hides (page : page) (event : object) (k : string) :
  FetchEvents.mapEvent page = Ok event ->
  In k ["Location"; "Visible on site"] ->
  obj_has event k = false.
Proof.
  unfold FetchEvents.mapEvent. intros Hmap Hin.
  unfold obj_has.
  assert (Hk : (k =? "datePretty") = false).
  { simpl in Hin. repeat destruct Hin as [<- | Hin]; try reflexivity. contradiction. }
  rewrite (add_datePretty_other _ _ _ Hmap Hk).
  simpl in Hin.
  destruct Hin as [<- | [<- | []]];
    rewrite extract_all_excluded by reflexivity; reflexivity.
Qed.

End MapEventFacts.

(** ** The filter and the digests *)

Lemma digest_hex_nonempty (content : string) :
  (SHA256.digest_hex content =? "") = false.
Proof.
  unfold SHA256.digest_hex, SHA256.hex_of_state.
  destruct (SHA256.blocks _ _ _) as [a b c d e f g h].
  reflexivity.
Qed.

Lemma digest_hex_length (content : string) :
  String.length (SHA256.digest_hex content) = 64%nat.
Proof.
  unfold SHA256.digest_hex, SHA256.hex_of_state.
  destruct (SHA256.blocks _ _ _) as [a b c d e f g h].
  reflexivity.
Qed.

Section RunFacts.
Context {JN : JSNumber} {H : Host}.

Lemma stringify_array_Some (gap indent : string) (items : list value) :
  exists text, SerializeJSONProperty gap indent (VArr items) = Some text.
Proof. simpl. eexists. reflexivity. Qed.

Lemma computeEventsHash_array (items : list value) :
  exists content,
    JSON_stringify (VArr items) = Some content
    /\ computeEventsHash (VArr items) = Ok (SHA256.digest_hex content).
Proof.
  unfold computeEventsHash.
  destruct (stringify_array_Some "" "" items) as [content Hc].
  exists content. unfold JSON_stringify. rewrite Hc. split; reflexivity.
Qed.

Lemma getExistingEventsHash_nonempty (fs : FS) (h : string) :
  getExistingEventsHash fs = Ok (Some h) -> (h =? "") = false.
Proof.
  unfold getExistingEventsHash.
  destruct (readFile (events_json fs)) as [content|e|]; simpl.
  - destruct (JSON_parse content) as [events|e|]; simpl.
    + unfold computeEventsHash.
      destruct (JSON_stringify events); simpl.
      * intros [= <-]. apply digest_hex_nonempty.
      * discriminate.
    + destruct (is_ENOENT e); discriminate.
    + discriminate.
  - destruct (is_ENOENT e); discriminate.
  - discriminate.
Qed.

Lemma unchanged_true_iff (newHash : string) (existingHash : option string) :
  (newHash =? "") = false ->
  (unchanged newHash existingHash = true <-> existingHash = Some newHash).
Proof.
  intros Hne. unfold unchanged, nonempty.
  destruct existingHash as [h|]; simpl.
  - split.
    + intros Hand. apply andb_true_iff in Hand as [_ Heq].
      apply String.eqb_eq in Heq. congruence.
    + intros [= ->]. rewrite Hne, String.eqb_refl. reflexivity.
  - split; discriminate.
Qed.

(** The checkpoint step touches neither the output file nor its place
    among the files written. *)
Lemma record_checkpoint_events (d : option string) (st : FS * list string) :
  events_json (fst (fst (record_checkpoint d st))) = events_json (fst st)
  /\ (In path_events_json (snd (fst (record_checkpoint d st)))
      <-> In path_events_json (snd st)).
Proof.
  unfold record_checkpoint, writeLastSyncTimestamp, writeFile.
  destruct (nonempty d); [|tauto].
  destruct d as [ts|]; [|tauto].
  destruct (writeFile_rejected path_last_sync); cbn [fst snd events_json];
    [tauto|].
  split; [reflexivity|].
  rewrite in_app_iff. simpl. split; [|tauto].
  intros [Hin | [Hbad | []]]; [exact Hin | discriminate Hbad].
Qed.

(** The checkpoint step ends well on a host that does not refuse the
    file, and only with a refusal otherwise; a refusal leaves everything
    as it was. *)
Lemma record_checkpoint_accepted (d : option string) (st : FS * list string) :
  writeFile_rejected path_last_sync = None ->
  snd (record_checkpoint d st) = Ok tt.
Proof.
  intros Hw. unfold record_checkpoint, writeLastSyncTimestamp, writeFile.
  rewrite Hw. destruct (nonempty d); [|reflexivity].
  destruct d; reflexivity.
Qed.

Lemma record_checkpoint_ends (d : option string) (st : FS * list string) :
  snd (record_checkpoint d st) = Ok tt
  \/ exists code ts,
       writeFile_rejected path_last_sync = Some code
       /\ d = Some ts
       /\ record_checkpoint d st
          = (({| last_sync := writeFile_leaves path_last_sync ts (last_sync (fst st));
                 events_json := events_json (fst st) |}, snd st),
             Throw (FsError code)).
Proof.
  unfold record_checkpoint, writeLastSyncTimestamp, writeFile.
  destruct (nonempty d); [|left; reflexivity].
  destruct d as [ts|]; [|left; reflexivity].
  destruct (writeFile_rejected path_last_sync) as [code|]; [|left; reflexivity].
  right. exists code, ts. repeat split; reflexivity.
Qed.

(** Whether the checkpoint step ends well does not depend on the files. *)
Lemma record_checkpoint_again_ends (d : option string) (st st' : FS * list string) :
  snd (record_checkpoint d st) = Ok tt ->
  snd (record_checkpoint d st') = Ok tt.
Proof.
  unfold record_checkpoint, writeLastSyncTimestamp, writeFile.
  destruct (nonempty d); [|reflexivity].
  destruct d as [ts|]; [|reflexivity].
  destruct (writeFile_rejected path_last_sync); [discriminate | reflexivity].
Qed.

Lemma finish_by_checkpoint (d : option string) (st : FS * list string) :
  finish d st
  = (fst (record_checkpoint d st),
     match snd (record_checkpoint d st) with
     | Ok _ => Ok 0%nat
     | Throw e => Throw e
     | Diverge => Diverge
     end).
Proof.
  unfold finish. destruct (record_checkpoint d st) as [st' [u|e|]]; reflexivity.
Qed.

(** A file whose digest could be taken, or that was missing, reads as
    what is written to it. *)
Lemma written_over_read (fs : FS) (existingHash : option string) (data : string) :
  getExistingEventsHash fs = Ok existingHash ->
  written_over (events_json fs) data = File data.
Proof.
  unfold getExistingEventsHash, written_over.
  destruct (events_json fs) as [|code|content]; cbn [readFile bind is_ENOENT];
    [reflexivity | | reflexivity].
  destruct (code =? "ENOENT"); [reflexivity | discriminate].
Qed.

(** The steps from [mkdir] on, when neither is refused. *)
Lemma publish_accepted (d : option string) (validEvents : list object)
    (fs : FS) (text : string) (existingHash : option string) :
  getExistingEventsHash fs = Ok existingHash ->
  mkdir_public = Ok tt ->
  writeFile_rejected path_events_json = None ->
  JSON_stringify_pretty (events_value validEvents) = Some text ->
  publish d validEvents fs
  = finish d ({| last_sync := last_sync fs; events_json := File text |},
              [path_events_json]).
Proof.
  intros Hex Hdir Hw Ht. unfold publish, writeFile.
  rewrite Hdir, Ht, Hw, (written_over_read fs existingHash text Hex). reflexivity.
Qed.

(** The steps from [mkdir] on, when one of the two is refused: the run
    ends there, and only what the refused write left of the output file
    may have changed. *)
Lemma publish_refused (d : option string) (validEvents : list object) (fs : FS) :
  mkdir_public <> Ok tt \/ writeFile_rejected path_events_json <> None ->
  exists code,
    (mkdir_rejected path_public = Some code
     /\ publish d validEvents fs = ((fs, []), Throw (FsError code)))
    \/ (writeFile_rejected path_events_json = Some code
        /\ exists text,
             JSON_stringify_pretty (events_value validEvents) = Some text
             /\ publish d validEvents fs
                = (({| last_sync := last_sync fs;
                       events_json :=
                         writeFile_leaves path_events_json text (events_json fs) |}, []),
                   Throw (FsError code))).
Proof.
  intros Hrefused. unfold publish, mkdir_public in *.
  destruct (stringify_array_Some "  " "" (map VObj validEvents)) as [text Ht].
  change (JSON_stringify_pretty (events_value validEvents) = Some text) in Ht.
  assert (Hwrite : writeFile_rejected path_events_json <> None ->
            exists code,
              writeFile_rejected path_events_json = Some code
              /\ match writeFile path_events_json text (events_json fs) with
                 | (f, Ok _) =>
                     finish d ({| last_sync := last_sync fs; events_json := f |},
                               [path_events_json])
                 | (f, Throw e) =>
                     (({| last_sync := last_sync fs; events_json := f |}, []), Throw e)
                 | (f, Diverge) =>
                     (({| last_sync := last_sync fs; events_json := f |}, []), Diverge)
                 end
                 = (({| last_sync := last_sync fs;
                        events_json :=
                          writeFile_leaves path_events_json text (events_json fs) |}, []),
                    Throw (FsError code))).
  { intros Hw. unfold writeFile.
    destruct (writeFile_rejected path_events_json) as [code|]; [|congruence].
    exists code. split; reflexivity. }
  destruct (mkdir_rejected path_public) as [code|] eqn:Hdir.
  - destruct (code =? "EEXIST") eqn:Hcode.
    + destruct Hrefused as [Hbad | Hw]; [congruence|].
      destruct (Hwrite Hw) as [code' [Hcode' Heq]].
      exists code'. right. split; [exact Hcode'|].
      exists text. split; [exact Ht|]. rewrite Ht. exact Heq.
    + exists code. left. split; reflexivity.
  - destruct Hrefused as [Hbad | Hw]; [congruence|].
    destruct (Hwrite Hw) as [code' [Hcode' Heq]].
    exists code'. right. split; [exact Hcode'|].
    exists text. split; [exact Ht|]. rewrite Ht. exact Heq.
Qed.

(** What the [try] block does once the query and the mapping went well. *)
Lemma fetch_and_write_reached (mapEvent : page -> result object)
    (notion : Notion) (fs : FS) (response : query_response) (events : list object) :
  databases_query notion main_query = Ok response ->
  map_result mapEvent (results response) = Ok events ->
  exists content text,
    JSON_stringify (events_value (filter is_valid_event events)) = Some content
    /\ JSON_stringify_pretty (events_value (filter is_valid_event events)) = Some text
    /\ fetch_and_write_try mapEvent notion fs =
       match getExistingEventsHash fs with
       | Ok existingHash =>
           if unchanged (SHA256.digest_hex content) existingHash
           then finish (getDatabaseLastEditedTime notion) (fs, [])
           else publish (getDatabaseLastEditedTime notion)
                  (filter is_valid_event events) fs
       | Throw e => ((fs, []), Throw e)
       | Diverge => ((fs, []), Diverge)
       end.
Proof.
  intros Hq Hm.
  destruct (computeEventsHash_array (map VObj (filter is_valid_event events)))
    as [content [Hc Hh]].
  destruct (stringify_array_Some "  " "" (map VObj (filter is_valid_event events)))
    as [text Ht].
  exists content, text.
  split; [exact Hc|]. split; [exact Ht|].
  unfold fetch_and_write_try. rewrite Hq. cbn [bind]. rewrite Hm. cbn [bind].
  unfold events_value in *. rewrite Hh. cbn [bind].
  destruct (getExistingEventsHash fs) as [existingHash|e|]; cbn [bind]; reflexivity.
Qed.

(** A run that got to its end: every write it came to was accepted. *)
Lemma fetch_and_write_ended (mapEvent : page -> result object)
    (notion : Notion) (fs fs' : FS) (paths : list string) (code : nat)
    (response : query_response) (events : list object) :
  databases_query notion main_query = Ok response ->
  map_result mapEvent (results response) = Ok events ->
  fetch_and_write mapEvent notion fs = Ok (fs', paths, code) ->
  exists content text existingHash,
    JSON_stringify (events_value (filter is_valid_event events)) = Some content
    /\ JSON_stringify_pretty (events_value (filter is_valid_event events)) = Some text
    /\ getExistingEventsHash fs = Ok existingHash
    /\ code = 0%nat
    /\ ((unchanged (SHA256.digest_hex content) existingHash = true
         /\ record_checkpoint (getDatabaseLastEditedTime notion) (fs, [])
            = ((fs', paths), Ok tt))
        \/ (unchanged (SHA256.digest_hex content) existingHash = false
            /\ record_checkpoint (getDatabaseLastEditedTime notion)
                 ({| last_sync := last_sync fs; events_json := File text |},
                  [path_events_json])
               = ((fs', paths), Ok tt))).
Proof.
  intros Hq Hm Hrun.
  destruct (fetch_and_write_reached mapEvent notion fs response events Hq Hm)
    as [content [text [Hc [Ht Heq]]]].
  exists content, text.
  unfold fetch_and_write in Hrun. rewrite Heq in Hrun. clear Heq.
  destruct (getExistingEventsHash fs) as [existingHash|e|] eqn:Hex;
    [|discriminate Hrun ..].
  exists existingHash.
  split; [exact Hc|]. split; [exact Ht|]. split; [reflexivity|].
  destruct (unchanged (SHA256.digest_hex content) existingHash).
  - rewrite finish_by_checkpoint in Hrun.
    destruct (record_checkpoint _ (fs, [])) as [st [[]|e|]]; cbn in Hrun;
      try discriminate Hrun.
    injection Hrun as -> <-. split; [reflexivity|]. left. split; reflexivity.
  - unfold publish in Hrun.
    destruct mkdir_public as [[]|e|]; [|discriminate Hrun ..].
    rewrite Ht in Hrun. unfold writeFile in Hrun.
    destruct (writeFile_rejected path_events_json); [discriminate Hrun|].
    rewrite (written_over_read fs existingHash text Hex) in Hrun.
    rewrite finish_by_checkpoint in Hrun.
    destruct (record_checkpoint _ _) as [st [[]|e|]]; cbn in Hrun;
      try discriminate Hrun.
    injection Hrun as -> <-. split; [reflexivity|]. right. split; reflexivity.
Qed.

(** A run that fails ended before it tried to write, or over a write
    that was refused: the output file, or the checkpoint, with or without
    the output file written before it. *)
Lemma fetch_and_write_try_failed (mapEvent : page -> result object)
    (notion : Notion) (fs : FS) (st : FS * list string) (e : exn) :
  fetch_and_write_try mapEvent notion fs = (st, Throw e) ->
  st = (fs, [])
  \/ exists code text response events,
       e = FsError code
       /\ databases_query notion main_query = Ok response
       /\ map_result mapEvent (results response) = Ok events
       /\ JSON_stringify_pretty (events_value (filter is_valid_event events)) = Some text
       /\ ((writeFile_rejected path_events_json = Some code
            /\ st = ({| last_sync := last_sync fs;
                        events_json :=
                          writeFile_leaves path_events_json text (events_json fs) |}, []))
           \/ exists timestamp,
                writeFile_rejected path_last_sync = Some code
                /\ getDatabaseLastEditedTime notion = Some timestamp
                /\ (st = ({| last_sync :=
                               writeFile_leaves path_last_sync timestamp (last_sync fs);
                             events_json := events_json fs |}, [])
                    \/ (mkdir_public = Ok tt
                        /\ writeFile_rejected path_events_json = None
                        /\ st = ({| last_sync :=
                                      writeFile_leaves path_last_sync timestamp
                                        (last_sync fs);
                                    events_json := File text |},
                                 [path_events_json])))).
Proof.
  unfold fetch_and_write_try.
  destruct (databases_query notion main_query) as [response|e0|] eqn:Hq; cbn [bind];
    [|intros [= <- _]; left; reflexivity | discriminate].
  destruct (map_result mapEvent (results response)) as [events|e0|] eqn:Hm; cbn [bind];
    [|intros [= <- _]; left; reflexivity | discriminate].
  destruct (computeEventsHash _) as [newHash|e0|]; cbn [bind];
    [|intros [= <- _]; left; reflexivity | discriminate].
  destruct (getExistingEventsHash fs) as [existingHash|e0|] eqn:Hex; cbn [bind];
    [|intros [= <- _]; left; reflexivity | discriminate].
  destruct (stringify_array_Some "  " "" (map VObj (filter is_valid_event events)))
    as [text Ht].
  change (JSON_stringify_pretty (events_value (filter is_valid_event events)) = Some text)
    in Ht.
  destruct (unchanged newHash existingHash).
  - rewrite finish_by_checkpoint.
    destruct (record_checkpoint_ends (getDatabaseLastEditedTime notion) (fs, []))
      as [Hok | [code [ts [Hcode [Hd Hrc]]]]].
    + rewrite Hok. discriminate.
    + rewrite Hrc. cbn [fst snd]. intros [= <- <-]. right.
      exists code, text, response, events.
      split; [reflexivity|]. split; [reflexivity|]. split; [exact Hm|].
      split; [exact Ht|]. right. exists ts.
      split; [exact Hcode|]. split; [exact Hd|]. left. reflexivity.
  - assert (Hcases : (mkdir_public = Ok tt /\ writeFile_rejected path_events_json = None)
                     \/ (mkdir_public <> Ok tt
                         \/ writeFile_rejected path_events_json <> None)).
    { destruct mkdir_public as [[]|e'|]; [|right; left; discriminate ..].
      destruct (writeFile_rejected path_events_json);
        [right; right; discriminate | left; split; reflexivity]. }
    destruct Hcases as [[Hdir Hw] | Href].
    + rewrite (publish_accepted _ _ _ text _ Hex Hdir Hw Ht), finish_by_checkpoint.
      destruct (record_checkpoint_ends (getDatabaseLastEditedTime notion)
                  ({| last_sync := last_sync fs; events_json := File text |},
                   [path_events_json])) as [Hok | [code [ts [Hcode [Hd Hrc]]]]].
      * rewrite Hok. discriminate.
      * rewrite Hrc. cbn [fst snd]. intros [= <- <-]. right.
        exists code, text, response, events.
        split; [reflexivity|]. split; [reflexivity|]. split; [exact Hm|].
        split; [exact Ht|]. right. exists ts.
        split; [exact Hcode|]. split; [exact Hd|]. right.
        repeat split; assumption.
    + destruct (publish_refused (getDatabaseLastEditedTime notion)
                  (filter is_valid_event events) fs Href)
        as [code [[_ Hpub] | [Hcode [text' [Ht' Hpub]]]]].
      * rewrite Hpub. intros [= <- _]. left. reflexivity.
      * rewrite Hpub. intros [= <- <-]. right.
        rewrite Ht in Ht'. injection Ht' as <-.
        exists code, text, response, events.
        split; [reflexivity|]. split; [reflexivity|]. split; [exact Hm|].
        split; [exact Ht|]. left. split; [exact Hcode | reflexivity].
Qed.

(** On a host that refuses no write, a run that fails has written
    nothing. *)
Lemma end_of_run_accepted (mapEvent : page -> result object)
    (notion : Notion) (fs : FS) (updates : list update_call) (waited : bool) :
  writes_accepted ->
  end_of_run (fetch_and_write_try mapEvent notion fs) updates waited
  = match fetch_and_write mapEvent notion fs with
    | Ok (fs', paths, code) =>
        Ok {| exit_code := code; files := fs'; written := paths;
              updates := updates; waited := waited |}
    | Throw _ =>
        Ok {| exit_code := 1; files := fs; written := [];
              updates := updates; waited := waited |}
    | Diverge => Diverge
    end.
Proof.
  intros [_ [Hw Hl]]. unfold fetch_and_write, end_of_run.
  destruct (fetch_and_write_try mapEvent notion fs) as [st [code|e|]] eqn:Hrun;
    cbn [bind].
  - destruct st; reflexivity.
  - destruct (fetch_and_write_try_failed _ _ _ _ _ Hrun)
      as [-> | [code [text [response [events
                  [_ [_ [_ [_ [[Hcode _] | [ts [Hcode _]]]]]]]]]]]];
      [reflexivity | congruence | congruence].
  - reflexivity.
Qed.

Lemma js_get_absent (event : object) (k : string) :
  obj_has event k = false -> js_get event k = VUndefined.
Proof.
  unfold obj_has, js_get. destruct (obj_get event k); [discriminate | reflexivity].
Qed.

Lemma invalid_without_name (event : object) :
  has_name_field event = false -> is_valid_event event = false.
Proof.
  unfold has_name_field, is_valid_event. intros Hno.
  apply orb_false_iff in Hno as [H1 H2].
  rewrite (js_get_absent _ _ H1), (js_get_absent _ _ H2). reflexivity.
Qed.

Lemma invalid_without_date (event : object) :
  has_date_field event = false -> is_valid_event event = false.
Proof.
  unfold has_date_field, is_valid_event. intros Hno.
  apply orb_false_iff in Hno as [H1 H2].
  rewrite (js_get_absent _ _ H1), (js_get_absent _ _ H2).
  apply andb_false_r.
Qed.

End RunFacts.

(** C2, as the code has it.  A mapped event is in the published collection
    exactly when the value of its name field ([Name], or else [name]) and
    the value of its date field ([Date], or else [date]) are both truthy;
    an event that lacks either field is never published.  The collection
    written to the file is that filtered list. *)
Theorem published_iff_truthy {JN : JSNumber} {H : Host}
    (mapEvent : page -> result object) (notion : Notion) (fs : FS)
    (response : query_response) (events : list object) (fs' : FS) (paths : list string) :
  databases_query notion main_query = Ok response ->
  map_result mapEvent (results response) = Ok events ->
  fetch_and_write mapEvent notion fs = Ok (fs', paths, 0%nat) ->
  In path_events_json paths ->
  exists text,
    events_json fs' = File text
    /\ JSON_stringify_pretty (events_value (filter is_valid_event events)) = Some text
    /\ forall event,
         (In event (filter is_valid_event events) <->
          In event events
          /\ truthy (js_or (js_get event "Name") (js_get event "name")) = true
          /\ truthy (js_or (js_get event "Date") (js_get event "date")) = true)
         /\ (has_name_field event = false \/ has_date_field event = false ->
             ~ In event (filter is_valid_event events)).
Proof.
  intros Hq Hm Hrun Hin.
  destruct (fetch_and_write_ended mapEvent notion fs fs' paths 0 response events
              Hq Hm Hrun)
    as [content [text [existingHash [Hc [Ht [Hex [_ Hcase]]]]]]].
  exists text.
  assert (Hfile : events_json fs' = File text).
  { destruct Hcase as [[_ Hst] | [_ Hst]].
    - pose proof (record_checkpoint_events (getDatabaseLastEditedTime notion) (fs, []))
        as [_ Hpaths].
      rewrite Hst in Hpaths. cbn [fst snd] in Hpaths. apply Hpaths in Hin.
      contradiction.
    - pose proof (record_checkpoint_events (getDatabaseLastEditedTime notion)
                    ({| last_sync := last_sync fs; events_json := File text |},
                     [path_events_json])) as [Hev _].
      rewrite Hst in Hev. exact Hev. }
  split; [exact Hfile|]. split; [exact Ht|].
  intros event. split.
  - rewrite filter_In. unfold is_valid_event. rewrite andb_true_iff. tauto.
  - intros Hlack Hpub. apply filter_In in Hpub as [_ Hvalid].
    destruct Hlack as [Hl | Hl];
      [rewrite (invalid_without_name _ Hl) in Hvalid
      |rewrite (invalid_without_date _ Hl) in Hvalid]; discriminate.
Qed.

(** C3.  Once the query and the mapping went well and the digest of the
    published file was obtained, a digest equal to the new one leaves the
    output file as it was, on any host; any other previous digest, or
    none, has the run write the indented text of the collection to the
    file, unless the host refuses the directory or the file, and then the
    file is as it was or as the refused write left it.  On a host that
    refuses nothing, the run ends with code 0, and the output file is
    among the files written exactly when there is no previous digest or
    the two digests differ; with no published file it always is. *)
Theorem publish_iff_digest_differs {JN : JSNumber} {H : Host}
    (mapEvent : page -> result object) (notion : Notion) (fs : FS)
    (response : query_response) (events : list object)
    (existingHash : option string) :
  databases_query notion main_query = Ok response ->
  map_result mapEvent (results response) = Ok events ->
  getExistingEventsHash fs = Ok existingHash ->
  exists newHash text after paths r,
    computeEventsHash (events_value (filter is_valid_event events)) = Ok newHash
    /\ JSON_stringify_pretty (events_value (filter is_valid_event events)) = Some text
    /\ fetch_and_write_try mapEvent notion fs = (after, paths, r)
    /\ (existingHash = Some newHash ->
        events_json after = events_json fs /\ ~ In path_events_json paths)
    /\ (existingHash <> Some newHash ->
        mkdir_public = Ok tt ->
        writeFile_rejected path_events_json = None ->
        events_json after = File text /\ In path_events_json paths)
    /\ (In path_events_json paths ->
        (existingHash = None \/ existingHash <> Some newHash)
        /\ events_json after = File text)
    /\ (~ In path_events_json paths ->
        events_json after = events_json fs
        \/ exists code,
             writeFile_rejected path_events_json = Some code
             /\ events_json after
                = writeFile_leaves path_events_json text (events_json fs))
    /\ (events_json fs = NoFile -> existingHash = None)
    /\ (writes_accepted ->
        r = Ok 0%nat
        /\ fetch_and_write mapEvent notion fs = Ok (after, paths, 0%nat)
        /\ (In path_events_json paths <->
            existingHash = None \/ existingHash <> Some newHash)
        /\ (events_json fs = NoFile ->
            events_json after = File text /\ In path_events_json paths)).
Proof.
  intros Hq Hm Hex.
  destruct (fetch_and_write_reached mapEvent notion fs response events Hq Hm)
    as [content [text [Hc [Ht Heq]]]].
  rewrite Hex in Heq.
  pose proof (unchanged_true_iff (SHA256.digest_hex content) existingHash
                (digest_hex_nonempty content)) as Hun.
  assert (Hnofile : events_json fs = NoFile -> existingHash = None).
  { intros Hno. unfold getExistingEventsHash in Hex. rewrite Hno in Hex.
    simpl in Hex. congruence. }
  assert (Hhash : computeEventsHash (events_value (filter is_valid_event events))
                  = Ok (SHA256.digest_hex content)).
  { unfold computeEventsHash. rewrite Hc. reflexivity. }
  destruct (unchanged (SHA256.digest_hex content) existingHash) eqn:Hu.
  - assert (Hsame : existingHash = Some (SHA256.digest_hex content))
      by (apply Hun; reflexivity).
    rewrite finish_by_checkpoint in Heq.
    pose proof (record_checkpoint_events (getDatabaseLastEditedTime notion) (fs, []))
      as [Hev Hpaths].
    pose proof (record_checkpoint_accepted (getDatabaseLastEditedTime notion) (fs, []))
      as Hacc.
    destruct (record_checkpoint (getDatabaseLastEditedTime notion) (fs, []))
      as [[after paths] end_] eqn:Hrc.
    cbn [fst snd] in Hev, Hpaths, Hacc, Heq.
    exists (SHA256.digest_hex content), text, after, paths.
    eexists. split; [exact Hhash|]. split; [exact Ht|]. split; [exact Heq|].
    assert (Hout : ~ In path_events_json paths) by (rewrite Hpaths; intros []).
    split; [intros _; split; assumption|].
    split; [intros Hdiff; contradiction|].
    split; [intros Hin; contradiction|].
    split; [intros _; left; exact Hev|].
    split; [exact Hnofile|].
    intros [_ [_ Hw]]. rewrite (Hacc Hw).
    split; [reflexivity|].
    split; [unfold fetch_and_write; rewrite Heq, (Hacc Hw); reflexivity|].
    split.
    + split; [intros Hin; contradiction|].
      intros [Hnone | Hdiff]; congruence.
    + intros Hno. apply Hnofile in Hno. congruence.
  - assert (Hdiff : existingHash <> Some (SHA256.digest_hex content)).
    { intros Hsame. apply Hun in Hsame. congruence. }
    destruct (publish (getDatabaseLastEditedTime notion)
                (filter is_valid_event events) fs) as [[after paths] end_] eqn:Hpub.
    exists (SHA256.digest_hex content), text, after, paths, end_.
    split; [exact Hhash|]. split; [exact Ht|]. split; [exact Heq|].
    assert (Hwritten : mkdir_public = Ok tt ->
                       writeFile_rejected path_events_json = None ->
                       events_json after = File text /\ In path_events_json paths
                       /\ (writeFile_rejected path_last_sync = None -> end_ = Ok 0%nat)).
    { intros Hdir Hw.
      rewrite (publish_accepted _ _ _ text _ Hex Hdir Hw Ht), finish_by_checkpoint
        in Hpub.
      pose proof (record_checkpoint_events (getDatabaseLastEditedTime notion)
                    ({| last_sync := last_sync fs; events_json := File text |},
                     [path_events_json])) as [Hev Hpaths].
      pose proof (record_checkpoint_accepted (getDatabaseLastEditedTime notion)
                    ({| last_sync := last_sync fs; events_json := File text |},
                     [path_events_json])) as Hacc.
      destruct (record_checkpoint _ _) as [st end0].
      cbn [fst snd] in Hev, Hpaths, Hacc, Hpub.
      injection Hpub as -> <-. cbn [fst snd] in Hev, Hpaths.
      split; [exact Hev|]. split; [apply Hpaths; left; reflexivity|].
      intros Hl. rewrite (Hacc Hl). reflexivity. }
    assert (Hrefused : mkdir_public <> Ok tt \/ writeFile_rejected path_events_json <> None ->
                       paths = []
                       /\ (events_json after = events_json fs
                           \/ exists code,
                                writeFile_rejected path_events_json = Some code
                                /\ events_json after
                                   = writeFile_leaves path_events_json text
                                       (events_json fs))).
    { intros Href.
      destruct (publish_refused (getDatabaseLastEditedTime notion)
                  (filter is_valid_event events) fs Href)
        as [code [[_ Hthrow] | [Hcode [text' [Ht' Hthrow]]]]];
        rewrite Hthrow in Hpub; injection Hpub as <- <- _.
      - split; [reflexivity | left; reflexivity].
      - rewrite Ht in Ht'. injection Ht' as <-.
        split; [reflexivity|]. right. exists code. split; [exact Hcode | reflexivity]. }
    assert (Hcases : (mkdir_public = Ok tt /\ writeFile_rejected path_events_json = None)
                     \/ (mkdir_public <> Ok tt
                         \/ writeFile_rejected path_events_json <> None)).
    { destruct mkdir_public as [[]|e|]; [|right; left; discriminate ..].
      destruct (writeFile_rejected path_events_json);
        [right; right; discriminate | left; split; reflexivity]. }
    split; [intros Hsame; contradiction|].
    split; [intros _ Hdir Hw; destruct (Hwritten Hdir Hw) as [Hf [Hin _]];
            split; assumption|].
    split.
    { intros Hin. split; [right; exact Hdiff|].
      destruct Hcases as [[Hdir Hw] | Href].
      - apply (Hwritten Hdir Hw).
      - destruct (Hrefused Href) as [-> _]. contradiction. }
    split.
    { intros Hout. destruct Hcases as [[Hdir Hw] | Href].
      - destruct (Hwritten Hdir Hw) as [_ [Hin _]]. contradiction.
      - apply (Hrefused Href). }
    split; [exact Hnofile|].
    intros [Hdir [Hw Hl]].
    destruct (Hwritten Hdir Hw) as [Hf [Hin Hend]].
    specialize (Hend Hl). subst end_.
    split; [reflexivity|].
    split; [unfold fetch_and_write; rewrite Heq; reflexivity|].
    split; [split; [intros _; right; exact Hdiff | intros _; exact Hin]|].
    intros _. split; assumption.
Qed.

(** C4, as the code has it.  A missing output file counts as no previous
    digest: the run goes on to write the file, and it ends with code 0 and
    the file written, or else over a write the host refused; on a host
    that refuses no write it is the first.  A file that does not parse (or
    cannot be read for another reason) is an error: it is thrown again,
    the run ends with code 1 and writes nothing. *)
Theorem existing_hash_missing_or_broken {JN : JSNumber} {H : Host}
    (mapEvent : page -> result object) (notion : Notion) (fs : FS)
    (response : query_response) (events : list object) :
  databases_query notion main_query = Ok response ->
  map_result mapEvent (results response) = Ok events ->
  (events_json fs = NoFile ->
     getExistingEventsHash fs = Ok None
     /\ ((exists fs' paths,
            fetch_and_write mapEvent notion fs = Ok (fs', paths, 0%nat)
            /\ In path_events_json paths)
         \/ exists code,
              fetch_and_write mapEvent notion fs = Throw (FsError code)
              /\ (mkdir_rejected path_public = Some code
                  \/ writeFile_rejected path_events_json = Some code
                  \/ writeFile_rejected path_last_sync = Some code))
     /\ (writes_accepted ->
         exists fs' paths,
           fetch_and_write mapEvent notion fs = Ok (fs', paths, 0%nat)
           /\ In path_events_json paths))
  /\ (forall content,
        events_json fs = File content ->
        JSON_parse content = Throw SyntaxError ->
        getExistingEventsHash fs = Throw SyntaxError
        /\ fetch_and_write mapEvent notion fs = Throw SyntaxError
        /\ fetch_and_write_try mapEvent notion fs = ((fs, []), Throw SyntaxError))
  /\ (forall code,
        events_json fs = Unreadable code ->
        (code =? "ENOENT") = false ->
        getExistingEventsHash fs = Throw (FsError code)
        /\ fetch_and_write mapEvent notion fs = Throw (FsError code)
        /\ fetch_and_write_try mapEvent notion fs = ((fs, []), Throw (FsError code))).
Proof.
  intros Hq Hm.
  destruct (fetch_and_write_reached mapEvent notion fs response events Hq Hm)
    as [content0 [text [Hc [Ht Heq]]]].
  unfold fetch_and_write. rewrite Heq. clear Heq.
  split; [|split].
  - intros Hno.
    assert (Hex : getExistingEventsHash fs = Ok None).
    { unfold getExistingEventsHash. rewrite Hno. reflexivity. }
    split; [exact Hex|].
    rewrite Hex. cbn [unchanged nonempty andb].
    assert (Hwritten : mkdir_public = Ok tt ->
                       writeFile_rejected path_events_json = None ->
                       writeFile_rejected path_last_sync = None ->
                       exists fs' paths,
                         (let (st, r) := publish (getDatabaseLastEditedTime notion)
                                           (filter is_valid_event events) fs in
                          code <- r ;; Ok (st, code)) = Ok (fs', paths, 0%nat)
                         /\ In path_events_json paths).
    { intros Hdir Hw Hl.
      rewrite (publish_accepted _ _ _ text _ Hex Hdir Hw Ht), finish_by_checkpoint.
      pose proof (record_checkpoint_events (getDatabaseLastEditedTime notion)
                    ({| last_sync := last_sync fs; events_json := File text |},
                     [path_events_json])) as [_ Hpaths].
      rewrite (record_checkpoint_accepted _ _ Hl).
      destruct (record_checkpoint _ _) as [[fs' paths] end_].
      exists fs', paths. split; [reflexivity|].
      apply Hpaths. left. reflexivity. }
    split; [|intros [Hdir [Hw Hl]]; apply Hwritten; assumption].
    assert (Hcases : (mkdir_public = Ok tt /\ writeFile_rejected path_events_json = None)
                     \/ (mkdir_public <> Ok tt
                         \/ writeFile_rejected path_events_json <> None)).
    { destruct mkdir_public as [[]|e'|]; [|right; left; discriminate ..].
      destruct (writeFile_rejected path_events_json);
        [right; right; discriminate | left; split; reflexivity]. }
    destruct Hcases as [[Hdir Hw] | Href].
    + rewrite (publish_accepted _ _ _ text _ Hex Hdir Hw Ht), finish_by_checkpoint.
      pose proof (record_checkpoint_events (getDatabaseLastEditedTime notion)
                    ({| last_sync := last_sync fs; events_json := File text |},
                     [path_events_json])) as [_ Hpaths].
      destruct (record_checkpoint_ends (getDatabaseLastEditedTime notion)
                  ({| last_sync := last_sync fs; events_json := File text |},
                   [path_events_json])) as [Hok | [code [ts [Hcode [_ Hrc]]]]].
      * left. rewrite Hok.
        destruct (record_checkpoint _ _) as [[fs' paths] end_].
        exists fs', paths. split; [reflexivity|].
        apply Hpaths. left. reflexivity.
      * right. exists code. rewrite Hrc. cbn [fst snd bind].
        split; [reflexivity | right; right; exact Hcode].
    + right.
      destruct (publish_refused (getDatabaseLastEditedTime notion)
                  (filter is_valid_event events) fs Href)
        as [code [[Hcode Hpub] | [Hcode [text' [_ Hpub]]]]];
        rewrite Hpub; cbn [bind]; exists code; (split; [reflexivity | tauto]).
  - intros content Hfile Hparse.
    assert (Hex : getExistingEventsHash fs = Throw SyntaxError).
    { unfold getExistingEventsHash. rewrite Hfile. simpl. rewrite Hparse. reflexivity. }
    rewrite Hex. repeat split; reflexivity.
  - intros code Hfile Hcode.
    assert (Hex : getExistingEventsHash fs = Throw (FsError code)).
    { unfold getExistingEventsHash. rewrite Hfile. simpl. rewrite Hcode. reflexivity. }
    rewrite Hex. repeat split; reflexivity.
Qed.


Section StatusFacts.
Context {JN : JSNumber} {H : Host}.

Lemma query_all_serves (notion : Notion) (chunks : list (list page)) :
  forall cursor, serves notion cursor chunks ->
  forall fuel acc, (List.length chunks <= fuel)%nat ->
    FetchEventsWithStatus.query_all fuel notion cursor acc = Ok (acc ++ List.concat chunks)%list.
Proof.
  induction 1 as [cursor chunk next Hq | cursor chunk next chunks Hq Hrest IH];
    intros fuel acc Hfuel; (destruct fuel as [|fuel]; [simpl in Hfuel; lia|]).
  - simpl. unfold upcoming_query in Hq. rewrite Hq. simpl.
    rewrite app_nil_r. reflexivity.
  - simpl. unfold upcoming_query in Hq. rewrite Hq. simpl.
    rewrite IH by (simpl in Hfuel; lia).
    rewrite <- app_assoc. reflexivity.
Qed.

Lemma updateEventStatuses_calls (fuel : nat) (notion : Notion) (now : Z)
    (allPages : list page) :
  FetchEventsWithStatus.query_all fuel notion None [] = Ok allPages ->
  FetchEventsWithStatus.updateEventStatusesInNotion fuel notion now =
  Ok {| FetchEventsWithStatus.returned :=
          (0 <? List.length
                  (filter (FetchEventsWithStatus.update_succeeds notion)
                     (map FetchEventsWithStatus.update_request
                        (FetchEventsWithStatus.pages_to_update now allPages))))%nat;
        FetchEventsWithStatus.calls :=
          map FetchEventsWithStatus.update_request (FetchEventsWithStatus.pages_to_update now allPages);
        FetchEventsWithStatus.updatedCount :=
          List.length
            (filter (FetchEventsWithStatus.update_succeeds notion)
               (map FetchEventsWithStatus.update_request
                  (FetchEventsWithStatus.pages_to_update now allPages))) |}.
Proof.
  intros Hq. unfold FetchEventsWithStatus.updateEventStatusesInNotion. rewrite Hq. reflexivity.
Qed.

Lemma calls_to_absent (id : string) (pages : list page) :
  ~ In id (map page_id pages) ->
  calls_to id (map FetchEventsWithStatus.update_request pages) = [].
Proof.
  induction pages as [|p pages IH]; simpl; intros Hnot.
  - reflexivity.
  - destruct (page_id p =? id) eqn:Hid.
    + apply String.eqb_eq in Hid. exfalso. apply Hnot. left. exact Hid.
    + apply IH. intros Hin. apply Hnot. right. exact Hin.
Qed.

Lemma calls_to_filter (now : Z) (pg : page) (allPages : list page) :
  In pg allPages ->
  NoDup (map page_id allPages) ->
  calls_to (page_id pg)
    (map FetchEventsWithStatus.update_request (FetchEventsWithStatus.pages_to_update now allPages))
  = if date_has_passed now pg then [(page_id pg, "Past")] else [].
Proof.
  unfold FetchEventsWithStatus.pages_to_update.
  induction allPages as [|p pages IH]; simpl; intros Hin Hnd.
  - contradiction.
  - inversion Hnd as [|? ? Hfresh Hnd']; subst.
    destruct Hin as [-> | Hin].
    + assert (Hrest : calls_to (page_id pg)
                (map FetchEventsWithStatus.update_request
                   (filter (date_has_passed now) pages)) = []).
      { apply calls_to_absent. intros Hin. apply Hfresh.
        apply in_map_iff in Hin as [q [Hq Hqin]].
        apply filter_In in Hqin as [Hqin _].
        apply in_map_iff. exists q. split; assumption. }
      destruct (date_has_passed now pg); simpl.
      * rewrite String.eqb_refl. fold (calls_to (page_id pg)). rewrite Hrest. reflexivity.
      * exact Hrest.
    + assert (Hne : (page_id p =? page_id pg) = false).
      { destruct (page_id p =? page_id pg) eqn:Hid; [|reflexivity].
        apply String.eqb_eq in Hid. exfalso. apply Hfresh. rewrite Hid.
        apply in_map. exact Hin. }
      destruct (date_has_passed now p); simpl.
      * rewrite Hne. apply IH; assumption.
      * apply IH; assumption.
Qed.

Lemma date_has_passed_dated (now : Z) (pg : page) (date : date_value) (t : Z) :
  date_property pg = Some (PDate (Some date)) ->
  Date_new (VStr (date_start date)) = Some t ->
  date_has_passed now pg = (Date_startOfDay t <? Date_startOfDay now)%Z.
Proof.
  intros Hprop Hdate. unfold date_has_passed, start_of_day_of.
  rewrite Hprop, Hdate. reflexivity.
Qed.

End StatusFacts.

(** C6.  Take a record among those the query for visible, upcoming events
    returned, with a date that parses.  If its day is before today, the
    calls aimed at it are exactly one, setting its status to [Past]; if its
    day is today or later, no call is aimed at it. *)
Theorem one_update_per_past_record {JN : JSNumber} {H : Host}
    (fuel : nat) (notion : Notion) (now : Z) (allPages : list page)
    (pg : page) (date : date_value) (t : Z) :
  FetchEventsWithStatus.query_all fuel notion None [] = Ok allPages ->
  NoDup (map page_id allPages) ->
  In pg allPages ->
  date_property pg = Some (PDate (Some date)) ->
  Date_new (VStr (date_start date)) = Some t ->
  exists r,
    FetchEventsWithStatus.updateEventStatusesInNotion fuel notion now = Ok r
    /\ ((Date_startOfDay t < Date_startOfDay now)%Z ->
        calls_to (page_id pg) (FetchEventsWithStatus.calls r) = [(page_id pg, "Past")])
    /\ ((Date_startOfDay now <= Date_startOfDay t)%Z ->
        calls_to (page_id pg) (FetchEventsWithStatus.calls r) = []).
Proof.
  intros Hq Hnd Hin Hprop Hdate.
  eexists. split; [apply updateEventStatuses_calls, Hq|].
  cbn [FetchEventsWithStatus.calls].
  rewrite (calls_to_filter now pg allPages Hin Hnd).
  rewrite (date_has_passed_dated now pg date t Hprop Hdate).
  split; intros Hcmp.
  - apply Z.ltb_lt in Hcmp. rewrite Hcmp. reflexivity.
  - apply Z.ltb_ge in Hcmp. rewrite Hcmp. reflexivity.
Qed.

(** The queries never look at the answers to update requests. *)
Lemma query_all_with_updates {JN : JSNumber} {H : Host}
    (notion : Notion) (update : string -> string -> result unit) :
  forall fuel cursor acc,
    FetchEventsWithStatus.query_all fuel (with_updates notion update) cursor acc
    = FetchEventsWithStatus.query_all fuel notion cursor acc.
Proof.
  induction fuel as [|fuel IH]; intros cursor acc; [reflexivity|].
  cbn [FetchEventsWithStatus.query_all with_updates databases_query].
  destruct (databases_query notion _) as [response | e |]; cbn [bind];
    [|reflexivity|reflexivity].
  destruct (has_more response); [apply IH | reflexivity].
Qed.

Lemma fetch_and_write_with_updates {JN : JSNumber} {H : Host}
    (mapEvent : page -> result object) (notion : Notion)
    (update : string -> string -> result unit) (fs : FS) :
  fetch_and_write_try mapEvent (with_updates notion update) fs
  = fetch_and_write_try mapEvent notion fs.
Proof. reflexivity. Qed.

(** C7, as the code has it.  [updateEventStatusesInNotion] returns whether
    at least one update went through, not how many did; the count is kept
    in [updatedCount] and only logged.  Every record whose date has passed
    gets its call whether or not other calls fail, the count is the number
    of calls that went through, and the rest of the run does not depend on
    how the calls ended: with any other answers to the update requests the
    same calls are issued and the fetch and the write go the same way.
    A run that fails ends with code 1 and the files as the fetch left
    them, which is as they were on a host that refuses no write.  When the
    query itself fails, no call is issued and the value returned is
    [false]. *)
Theorem status_update_tolerates_failures {JN : JSNumber} {H : Host}
    (fuel : nat) (notion : Notion) (fs : FS) (now : Z) (allPages : list page) :
  FetchEventsWithStatus.query_all fuel notion None [] = Ok allPages ->
  exists r,
    FetchEventsWithStatus.updateEventStatusesInNotion fuel notion now = Ok r
    /\ FetchEventsWithStatus.returned r = (0 <? FetchEventsWithStatus.updatedCount r)%nat
    /\ FetchEventsWithStatus.calls r
       = map FetchEventsWithStatus.update_request (filter (date_has_passed now) allPages)
    /\ FetchEventsWithStatus.updatedCount r
       = List.length (filter (FetchEventsWithStatus.update_succeeds notion) (FetchEventsWithStatus.calls r))
    /\ (FetchEventsWithStatus.updatedCount r <= List.length (FetchEventsWithStatus.calls r))%nat
    /\ FetchEventsWithStatus.fetchAndWriteEvents fuel notion fs now
       = match fetch_and_write_try FetchEventsWithStatus.mapEvent notion fs with
         | (fs', paths, Ok code) =>
             Ok {| exit_code := code; files := fs'; written := paths;
                   updates := FetchEventsWithStatus.calls r;
                   waited := FetchEventsWithStatus.returned r |}
         | (fs', paths, Throw _) =>
             Ok {| exit_code := 1; files := fs'; written := paths;
                   updates := FetchEventsWithStatus.calls r;
                   waited := FetchEventsWithStatus.returned r |}
         | (_, _, Diverge) => Diverge
         end
    /\ (writes_accepted ->
        FetchEventsWithStatus.fetchAndWriteEvents fuel notion fs now
        = match fetch_and_write FetchEventsWithStatus.mapEvent notion fs with
          | Ok (fs', paths, code) =>
              Ok {| exit_code := code; files := fs'; written := paths;
                    updates := FetchEventsWithStatus.calls r;
                    waited := FetchEventsWithStatus.returned r |}
          | Throw _ =>
              Ok {| exit_code := 1; files := fs; written := [];
                    updates := FetchEventsWithStatus.calls r;
                    waited := FetchEventsWithStatus.returned r |}
          | Diverge => Diverge
          end)
    /\ (forall update,
          (exists r',
             FetchEventsWithStatus.updateEventStatusesInNotion fuel
               (with_updates notion update) now = Ok r'
             /\ FetchEventsWithStatus.calls r' = FetchEventsWithStatus.calls r)
          /\ fetch_and_write_try FetchEventsWithStatus.mapEvent
               (with_updates notion update) fs
             = fetch_and_write_try FetchEventsWithStatus.mapEvent notion fs
          /\ fetch_and_write FetchEventsWithStatus.mapEvent (with_updates notion update) fs
             = fetch_and_write FetchEventsWithStatus.mapEvent notion fs)
    /\ (forall fuel' (notion' : Notion) e,
          FetchEventsWithStatus.query_all fuel' notion' None [] = Throw e ->
          FetchEventsWithStatus.updateEventStatusesInNotion fuel' notion' now
          = Ok {| FetchEventsWithStatus.returned := false;
                  FetchEventsWithStatus.calls := [];
                  FetchEventsWithStatus.updatedCount := 0 |}).
Proof.
  intros Hq.
  eexists. split; [apply updateEventStatuses_calls, Hq|].
  cbn [FetchEventsWithStatus.returned FetchEventsWithStatus.calls FetchEventsWithStatus.updatedCount].
  split; [reflexivity|]. split; [reflexivity|]. split; [reflexivity|].
  split; [apply filter_length_le|].
  split; [|split; [|split]].
  4:{ intros fuel' notion' e Hfail.
      unfold FetchEventsWithStatus.updateEventStatusesInNotion. rewrite Hfail.
      reflexivity. }
  - unfold FetchEventsWithStatus.fetchAndWriteEvents.
    rewrite (updateEventStatuses_calls fuel notion now allPages Hq).
    cbn [bind]. unfold end_of_run.
    destruct (fetch_and_write_try FetchEventsWithStatus.mapEvent notion fs)
      as [[fs' paths] [code|e|]]; reflexivity.
  - intros Hacc. unfold FetchEventsWithStatus.fetchAndWriteEvents.
    rewrite (updateEventStatuses_calls fuel notion now allPages Hq).
    cbn [bind]. apply end_of_run_accepted, Hacc.
  - intros update. split; [|split].
    + eexists. split.
      * apply updateEventStatuses_calls.
        rewrite query_all_with_updates. exact Hq.
      * reflexivity.
    + apply fetch_and_write_with_updates.
    + unfold fetch_and_write. rewrite fetch_and_write_with_updates. reflexivity.
Qed.

(** ** The staleness checker *)

Section CheckFacts.
Context {JN : JSNumber} {H : Host}.

(** The script without the scan decides as the specification says, as
    long as both timestamps are valid dates. *)
Lemma checkIfFetchNeeded_plain_needsSync (notion : Notion) (fs : FS)
    (checkpoint remote : string) (c r : Z) :
  readLastSyncTimestamp fs = Ok (Some checkpoint) ->
  getDatabaseLastEditedTime notion = Some remote ->
  Date_new (VStr checkpoint) = Some c ->
  Date_new (VStr remote) = Some r ->
  CheckUpdatesPlain.checkIfFetchNeeded notion fs
  = Ok (needsSync (Some checkpoint) (Some remote) false).
Proof.
  intros Hcp Hdb Hc Hr.
  unfold CheckUpdatesPlain.checkIfFetchNeeded, needsSync.
  rewrite Hcp. cbn [bind]. rewrite Hdb, Hc, Hr.
  unfold date_le, date_lt.
  destruct (nonempty (Some checkpoint)); [|reflexivity].
  destruct (nonempty (Some remote)); [|reflexivity].
  cbn [negb orb].
  rewrite Z.leb_antisym, orb_false_r.
  destruct (c <? r)%Z; reflexivity.
Qed.

(** The script with the scan compares the remote timestamp with the
    midnight before the checkpoint. *)
Lemma checkIfFetchNeeded_scan_decides (notion : Notion) (fs : FS) (now : Z)
    (checkpoint remote : string) :
  readLastSyncTimestamp fs = Ok (Some checkpoint) ->
  getDatabaseLastEditedTime notion = Some remote ->
  CheckUpdates.checkIfFetchNeeded notion fs now
  = Ok (negb (nonempty (Some checkpoint)) || negb (nonempty (Some remote))
        || date_lt (start_of_day_of checkpoint) (Date_new (VStr remote))
        || CheckUpdates.checkForDateBasedStatusChanges notion now).
Proof.
  intros Hcp Hdb.
  unfold CheckUpdates.checkIfFetchNeeded.
  rewrite Hcp. cbn [bind]. rewrite Hdb.
  destruct (nonempty (Some checkpoint)); [|reflexivity].
  destruct (nonempty (Some remote)); [|reflexivity].
  cbn [negb orb].
  destruct (date_lt _ _); [reflexivity|].
  destruct (CheckUpdates.checkForDateBasedStatusChanges notion now); reflexivity.
Qed.

(** Without a checkpoint, or without a remote timestamp, both scripts
    ask for a fetch. *)
Lemma checkIfFetchNeeded_first_run (notion : Notion) (fs : FS) (now : Z) :
  last_sync fs = NoFile ->
  CheckUpdates.main notion fs now = 0%nat /\ CheckUpdatesPlain.main notion fs = 0%nat.
Proof.
  intros Hno.
  unfold CheckUpdates.main, CheckUpdates.checkIfFetchNeeded,
    CheckUpdatesPlain.main, CheckUpdatesPlain.checkIfFetchNeeded,
    readLastSyncTimestamp.
  rewrite Hno. split; reflexivity.
Qed.

Lemma checkIfFetchNeeded_no_metadata (notion : Notion) (fs : FS) (now : Z) :
  getDatabaseLastEditedTime notion = None ->
  CheckUpdates.main notion fs now = 0%nat /\ CheckUpdatesPlain.main notion fs = 0%nat.
Proof.
  intros Hno.
  unfold CheckUpdates.main, CheckUpdates.checkIfFetchNeeded,
    CheckUpdatesPlain.main, CheckUpdatesPlain.checkIfFetchNeeded.
  rewrite Hno.
  destruct (readLastSyncTimestamp fs) as [[ts|]| |]; cbn [bind];
    try (split; reflexivity).
  destruct (nonempty (Some ts)); split; reflexivity.
Qed.

End CheckFacts.

(** ** Strings *)

Lemma append_assoc (s t u : string) : (s ++ t) ++ u = s ++ (t ++ u).
Proof. induction s as [|c s IH]; simpl; [reflexivity | rewrite IH; reflexivity]. Qed.

Lemma append_nil_r (s : string) : s ++ "" = s.
Proof. induction s as [|c s IH]; simpl; [reflexivity | rewrite IH; reflexivity]. Qed.

Lemma length_append (s t : string) :
  String.length (s ++ t) = (String.length s + String.length t)%nat.
Proof. induction s as [|c s IH]; simpl; [reflexivity | rewrite IH; reflexivity]. Qed.

(** ** Reading back a quoted string *)

(** One character: what [QuoteJSONString] writes for it is read as one
    unit, and that unit decodes to the character. *)
Lemma parse_quote_char (c : ascii) :
  exists u : string_unit,
    (forall tail,
       parse_string_units (quote_char c ++ tail)
       = match parse_string_units tail with
         | Parsed us rest => Parsed (u :: us) rest
         | other => other
         end)
    /\ (forall us, decode_units (u :: us) = String c (decode_units us)).
Proof.
  destruct c as [[] [] [] [] [] [] [] []];
    (eexists; split;
     [ intros tail; cbn; reflexivity
     | intros us; try reflexivity; destruct us as [|[c'|lo] tl]; reflexivity ]).
Qed.

Lemma parse_quote_chars (s : string) :
  exists us : list string_unit,
    (forall rest,
       parse_string_units (quote_chars s ++ String dquote rest) = Parsed us rest)
    /\ decode_units us = s.
Proof.
  induction s as [|c s [us [Hparse Hdecode]]].
  - exists []. split; [intros rest; reflexivity | reflexivity].
  - destruct (parse_quote_char c) as [u [Hu Hdu]].
    exists (u :: us). split.
    + intros rest. simpl quote_chars. rewrite append_assoc, Hu, Hparse. reflexivity.
    + rewrite Hdu, Hdecode. reflexivity.
Qed.

(** [parse_string] undoes [QuoteJSONString]. *)
Lemma parse_string_quote (s rest : string) :
  parse_string (quote_chars s ++ String dquote rest) = Parsed s rest.
Proof.
  destruct (parse_quote_chars s) as [us [Hparse Hdecode]].
  unfold parse_string. rewrite Hparse, Hdecode. reflexivity.
Qed.

(** ** Reading back scalars *)

Lemma skip_ws_app (ws s : string) :
  all_chars is_ws ws = true -> skip_ws (ws ++ s) = skip_ws s.
Proof.
  induction ws as [|c ws IH]; simpl; intros Hws.
  - reflexivity.
  - apply andb_true_iff in Hws as [Hc Hws]. rewrite Hc. apply IH, Hws.
Qed.

Lemma skip_ws_start (c : ascii) (s : string) :
  is_ws c = false -> skip_ws (String c s) = String c s.
Proof. intros Hc. simpl. rewrite Hc. reflexivity. Qed.

Lemma spaces_are_ws (indent : string) :
  all_chars is_space indent = true -> all_chars is_ws indent = true.
Proof.
  induction indent as [|c indent IH]; simpl; intros Hsp.
  - reflexivity.
  - apply andb_true_iff in Hsp as [Hc Hsp].
    unfold is_space in Hc. apply Ascii.eqb_eq in Hc. subst c.
    rewrite (IH Hsp). reflexivity.
Qed.

Lemma all_chars_app (f : ascii -> bool) (s t : string) :
  all_chars f (s ++ t) = all_chars f s && all_chars f t.
Proof.
  induction s as [|c s IH]; simpl.
  - reflexivity.
  - rewrite IH, andb_assoc. reflexivity.
Qed.

Lemma newline_indent_ws (indent : string) :
  all_chars is_space indent = true ->
  all_chars is_ws (newline ++ indent) = true.
Proof. intros Hsp. simpl. apply spaces_are_ws, Hsp. Qed.

(** What the first character of a number rules out. *)
Lemma number_start (c : ascii) :
  Ascii.eqb c "-" || is_digit c = true ->
  is_ws c = false
  /\ Ascii.eqb c "[" = false /\ Ascii.eqb c "{" = false
  /\ Ascii.eqb c dquote = false
  /\ Ascii.eqb "t" c = false /\ Ascii.eqb "f" c = false /\ Ascii.eqb "n" c = false
  /\ Ascii.eqb c "]" = false /\ Ascii.eqb c "}" = false.
Proof.
  destruct c as [[] [] [] [] [] [] [] []]; intros Hc;
    try discriminate Hc; repeat split; reflexivity.
Qed.

Lemma span_num_app (text rest : string) :
  all_chars is_num_char text = true ->
  delimited rest = true ->
  span_num (text ++ rest) = (text, rest).
Proof.
  induction text as [|c text IH]; simpl; intros Hnum Hrest.
  - destruct rest as [|r rest]; simpl in *; [reflexivity|].
    apply negb_true_iff in Hrest. rewrite Hrest. reflexivity.
  - apply andb_true_iff in Hnum as [Hc Hnum].
    rewrite Hc, (IH Hnum Hrest). reflexivity.
Qed.

Section ScalarFacts.
Context {JN : JSNumber}.

Lemma reads_back_null : reads_back "null" VNull.
Proof.
  intros fuel ws rest Hws Hrest Hlen.
  destruct fuel as [|fuel]; [simpl in Hlen; lia|].
  cbn [parse_value]. rewrite skip_ws_app by exact Hws. reflexivity.
Qed.

Lemma reads_back_true : reads_back "true" (VBool true).
Proof.
  intros fuel ws rest Hws Hrest Hlen.
  destruct fuel as [|fuel]; [simpl in Hlen; lia|].
  cbn [parse_value]. rewrite skip_ws_app by exact Hws. reflexivity.
Qed.

Lemma reads_back_false : reads_back "false" (VBool false).
Proof.
  intros fuel ws rest Hws Hrest Hlen.
  destruct fuel as [|fuel]; [simpl in Hlen; lia|].
  cbn [parse_value]. rewrite skip_ws_app by exact Hws. reflexivity.
Qed.

Lemma reads_back_string (s : string) : reads_back (QuoteJSONString s) (VStr s).
Proof.
  intros fuel ws rest Hws Hrest Hlen.
  destruct fuel as [|fuel]; [simpl in Hlen; lia|].
  cbn [parse_value]. rewrite skip_ws_app by exact Hws.
  unfold QuoteJSONString. cbn [append skip_ws]. 
  rewrite append_assoc. cbn [append].
  change (is_ws dquote) with false. cbv iota.
  change (Ascii.eqb dquote "[") with false.
  change (Ascii.eqb dquote "{") with false.
  change (Ascii.eqb dquote dquote) with true. cbv iota.
  rewrite parse_string_quote. reflexivity.
Qed.

Lemma reads_back_number (n : number) :
  number_is_finite n = true ->
  number_prints_back n = true ->
  starts_value (Number_toString n) = true
  /\ exists n',
       reads_back (Number_toString n) (VNum n')
       /\ number_is_finite n' = true
       /\ Number_toString n' = Number_toString n.
Proof.
  unfold number_prints_back. intros Hfin Hback. rewrite Hfin in Hback.
  destruct (Number_toString n) as [|c text] eqn:Htext; [discriminate|].
  apply andb_true_iff in Hback as [Hback Hparse].
  apply andb_true_iff in Hback as [Hstart Hchars].
  destruct (Number_ofJSON (String c text)) as [n'|] eqn:Hof; [|discriminate].
  apply andb_true_iff in Hparse as [Hfin' Hsame].
  apply String.eqb_eq in Hsame.
  destruct (number_start c Hstart)
    as [Hws [Hb1 [Hb2 [Hq [Ht [Hf [Hn [Hc1 Hc2]]]]]]]].
  split.
  - simpl. rewrite Hws, Hc1, Hc2. reflexivity.
  - exists n'. split; [|split; assumption].
    intros fuel ws rest Hwsp Hrest Hlen.
    destruct fuel as [|fuel]; [simpl in Hlen; lia|].
    cbn [parse_value]. rewrite skip_ws_app by exact Hwsp.
    cbn [append]. rewrite (skip_ws_start c _ Hws).
    rewrite Hb1, Hb2, Hq.
    unfold parse_literal. cbn [strip_prefix]. rewrite Ht, Hf, Hn.
    change (String c (text ++ rest)) with (String c text ++ rest).
    rewrite (span_num_app _ _ Hchars Hrest).
    rewrite Hstart, Hof. reflexivity.
Qed.

Lemma same_json_refl (v : value) : same_json v v.
Proof. intros gap indent. reflexivity. Qed.

Lemma serialize_None (gap indent : string) (v : value) :
  SerializeJSONProperty gap indent v = None -> v = VUndefined.
Proof. destruct v as [| |[]| | | |]; simpl; intros Hs; try discriminate; reflexivity. Qed.

End ScalarFacts.

(** ** Keys in order *)

Lemma key_before_irrefl (k : string) : key_before k k = false.
Proof.
  unfold key_before. destruct (array_index k).
  - apply N.ltb_irrefl.
  - rewrite String.eqb_refl. reflexivity.
Qed.

Section KeyOrder.
Context {A : Type}.
Implicit Types (o : list (string * A)) (k : string) (v : A).

Lemma obj_get_after o k :
  forallb (fun k' => key_before k' k) (map fst o) = true ->
  obj_get o k = None.
Proof.
  induction o as [|[k0 v0] o IH]; simpl; intros Hall.
  - reflexivity.
  - apply andb_true_iff in Hall as [Hk Hall].
    destruct (k =? k0) eqn:Heq.
    + apply String.eqb_eq in Heq. subst k0.
      rewrite key_before_irrefl in Hk. discriminate.
    + apply IH, Hall.
Qed.

Lemma obj_insert_index_last o i k v :
  array_index k = Some i ->
  forallb (fun k' => key_before k' k) (map fst o) = true ->
  obj_insert_index o i k v = (o ++ [(k, v)])%list.
Proof.
  intros Hi. induction o as [|[k0 v0] o IH]; simpl; intros Hall.
  - reflexivity.
  - apply andb_true_iff in Hall as [Hk Hall].
    unfold key_before in Hk. rewrite Hi in Hk.
    destruct (array_index k0) as [j|]; [|discriminate].
    rewrite Hk, (IH Hall). reflexivity.
Qed.

(** A key that comes after all the keys of an object is added last. *)
Lemma obj_set_last o k v :
  forallb (fun k' => key_before k' k) (map fst o) = true ->
  obj_set o k v = (o ++ [(k, v)])%list.
Proof.
  intros Hall. unfold obj_set, obj_has.
  rewrite (obj_get_after o k Hall).
  destruct (array_index k) as [i|] eqn:Hi.
  - apply obj_insert_index_last; assumption.
  - reflexivity.
Qed.

End KeyOrder.

Lemma keys_in_order_app (ks : list string) (k : string) :
  keys_in_order (ks ++ [k])%list
  = keys_in_order ks && forallb (fun k' => key_before k' k) ks.
Proof.
  induction ks as [|k0 ks IH]; simpl.
  - reflexivity.
  - rewrite forallb_app, IH. simpl.
    destruct (forallb (key_before k0) ks), (key_before k0 k),
      (keys_in_order ks), (forallb (fun k' => key_before k' k) ks); reflexivity.
Qed.

(** ** Reading back arrays and objects *)

Section ContainerFacts.
Context {JN : JSNumber}.

Lemma concat_one (sep t : string) : String.concat sep [t] = t.
Proof. reflexivity. Qed.

Lemma concat_more (sep t t2 : string) (ts : list string) :
  String.concat sep (t :: t2 :: ts) = t ++ sep ++ String.concat sep (t2 :: ts).
Proof. reflexivity. Qed.

Lemma length_newline (s : string) :
  String.length (newline ++ s) = S (String.length s).
Proof. reflexivity. Qed.

(** The elements of an array, after the opening bracket. *)
Lemma parse_elements_texts (ind stepback : string)
    (ts : list string) (vs : list value) :
  all_chars is_space ind = true ->
  all_chars is_space stepback = true ->
  Forall2 (fun t v => starts_value t = true /\ reads_back t v) ts vs ->
  ts <> [] ->
  forall fuel acc rest,
    (String.length
       (newline ++ ind ++ String.concat ("," ++ newline ++ ind) ts
        ++ newline ++ stepback ++ "]") <= fuel)%nat ->
    parse_elements fuel acc
      (newline ++ ind ++ String.concat ("," ++ newline ++ ind) ts
       ++ newline ++ stepback ++ "]" ++ rest)
    = Parsed (VArr (rev acc ++ vs)) rest.
Proof.
  intros Hind Hstep Hall.
  induction Hall as [|t v ts vs [Hstart Hread] Hall IH]; intros Hne; [congruence|].
  intros fuel acc rest Hlen.
  destruct fuel as [|fuel]; [rewrite length_newline in Hlen; lia|].
  assert (Hws : all_chars is_ws (newline ++ ind) = true)
    by (apply newline_indent_ws, Hind).
  destruct ts as [|t2 ts].
  - inversion Hall; subst. clear IH Hall.
    rewrite concat_one in *.
    cbn [parse_elements].
    rewrite <- (append_assoc newline ind).
    rewrite (Hread fuel (newline ++ ind) (newline ++ stepback ++ "]" ++ rest) Hws).
    + rewrite <- (append_assoc newline stepback).
      rewrite skip_ws_app by (apply newline_indent_ws, Hstep).
      cbn. reflexivity.
    + reflexivity.
    + rewrite length_newline, !length_append in Hlen. lia.
  - rewrite concat_more in Hlen |- *.
    cbn [parse_elements].
    rewrite <- (append_assoc newline ind).
    rewrite !(append_assoc t).
    rewrite (append_assoc ("," ++ newline ++ ind)).
    rewrite (Hread fuel (newline ++ ind)
               (("," ++ newline ++ ind) ++ String.concat ("," ++ newline ++ ind) (t2 :: ts)
                ++ newline ++ stepback ++ "]" ++ rest) Hws).
    + cbn [append skip_ws]. change (is_ws ",") with false. cbv iota.
      change (Ascii.eqb "," ",") with true. cbv iota.
      transitivity (Parsed (VArr (rev (v :: acc) ++ vs)) rest).
      * apply IH; [discriminate|].
        rewrite length_newline, !length_append in Hlen.
        rewrite length_newline, !length_append. cbn [String.length] in *. lia.
      * cbn [rev]. rewrite <- app_assoc. reflexivity.
    + reflexivity.
    + rewrite length_newline, !length_append in Hlen. lia.
Qed.


Lemma keys_in_order_middle (l1 l2 : list string) (k : string) :
  keys_in_order (l1 ++ k :: l2)%list = true ->
  forallb (fun k' => key_before k' k) l1 = true.
Proof.
  induction l1 as [|k0 l1 IH]; simpl; intros Hord.
  - reflexivity.
  - apply andb_true_iff in Hord as [Hk0 Hord].
    rewrite forallb_app in Hk0. apply andb_true_iff in Hk0 as [_ Hk0].
    simpl in Hk0. apply andb_true_iff in Hk0 as [Hk0 _].
    rewrite Hk0, (IH Hord). reflexivity.
Qed.

(** One member of an object: the key, the colon, the value. *)
Lemma parse_member_step (fuel : nat) (acc : object) (ind k t more : string)
    (v : value) :
  all_chars is_space ind = true ->
  reads_back t v ->
  delimited more = true ->
  (String.length t <= fuel)%nat ->
  parse_members (S fuel) acc
    (newline ++ ind ++ (QuoteJSONString k ++ ":" ++ " " ++ t) ++ more)
  = match skip_ws more with
    | String d s5 =>
        if Ascii.eqb d "," then parse_members fuel (obj_set acc k v) s5
        else if Ascii.eqb d "}" then Parsed (VObj (obj_set acc k v)) s5
        else Invalid
    | EmptyString => Invalid
    end.
Proof.
  intros Hind Hread Hmore Hlen.
  cbn [parse_members].
  rewrite <- (append_assoc newline ind).
  rewrite skip_ws_app by (apply newline_indent_ws, Hind).
  unfold QuoteJSONString.
  cbn [append].
  change (skip_ws (String dquote ?x)) with (String dquote x).
  change (Ascii.eqb dquote dquote) with true. cbv iota.
  rewrite !append_assoc. cbn [append].
  rewrite parse_string_quote.
  change (skip_ws (String ":" ?x)) with (String ":" x).
  change (Ascii.eqb ":" ":") with true. cbv iota.
  change (String " " (t ++ more)) with (" " ++ t ++ more).
  rewrite (Hread fuel " " more eq_refl Hmore Hlen).
  reflexivity.
Qed.

(** The members of an object, after the opening brace. *)
Lemma parse_members_texts (ind stepback : string)
    (kts : list (string * string)) (kvs : list (string * value)) :
  all_chars is_space ind = true ->
  all_chars is_space stepback = true ->
  Forall2 (fun kt kv =>
             fst kt = fst kv
             /\ starts_value (snd kt) = true
             /\ reads_back (snd kt) (snd kv)) kts kvs ->
  kts <> [] ->
  forall fuel acc rest,
    keys_in_order (map fst acc ++ map fst kvs)%list = true ->
    (String.length
       (newline ++ ind
        ++ String.concat ("," ++ newline ++ ind)
             (map (fun kt => QuoteJSONString (fst kt) ++ ":" ++ " " ++ snd kt) kts)
        ++ newline ++ stepback ++ "}") <= fuel)%nat ->
    parse_members fuel acc
      (newline ++ ind
       ++ String.concat ("," ++ newline ++ ind)
            (map (fun kt => QuoteJSONString (fst kt) ++ ":" ++ " " ++ snd kt) kts)
       ++ newline ++ stepback ++ "}" ++ rest)
    = Parsed (VObj (acc ++ kvs)%list) rest.
Proof.
  intros Hind Hstep Hall.
  induction Hall as [|[k t] [k' v] kts kvs [Hkey [Hstart Hread]] Hall IH];
    intros Hne; [congruence|].
  simpl in Hkey, Hstart, Hread. subst k'.
  intros fuel acc rest Hord Hlen.
  destruct fuel as [|fuel]; [rewrite length_newline in Hlen; lia|].
  assert (Hset : obj_set acc k v = (acc ++ [(k, v)])%list).
  { apply obj_set_last. simpl in Hord. apply (keys_in_order_middle _ _ _ Hord). }
  destruct kts as [|kt2 kts].
  - inversion Hall; subst. clear IH Hall.
    cbn [map] in *. rewrite concat_one in *. cbn [fst snd] in *.
    rewrite (parse_member_step fuel acc ind k t
               (newline ++ stepback ++ "}" ++ rest) v Hind Hread eq_refl).
    + rewrite <- (append_assoc newline stepback).
      rewrite skip_ws_app by (apply newline_indent_ws, Hstep).
      cbn. rewrite Hset. reflexivity.
    + rewrite length_newline, !length_append in Hlen. lia.
  - cbn [map] in Hlen |- *. rewrite concat_more in Hlen |- *. cbn [fst snd] in *.
    rewrite !(append_assoc (QuoteJSONString k ++ ":" ++ " " ++ t)).
    rewrite (append_assoc ("," ++ newline ++ ind)).
    rewrite (parse_member_step fuel acc ind k t _ v Hind Hread).
    + cbn [append skip_ws]. change (is_ws ",") with false. cbv iota.
      change (Ascii.eqb "," ",") with true. cbv iota.
      rewrite Hset.
      transitivity (Parsed (VObj ((acc ++ [(k, v)]) ++ kvs)%list) rest).
      * apply IH; [discriminate| |].
        -- rewrite map_app, <- app_assoc. exact Hord.
        -- rewrite length_newline, !length_append in Hlen.
           rewrite length_newline, !length_append. cbn [String.length map] in *. lia.
      * rewrite <- app_assoc. reflexivity.
    + reflexivity.
    + rewrite length_newline, !length_append in Hlen. lia.
Qed.

End ContainerFacts.

(** ** Reading back what [JSON.stringify] wrote *)

Section RoundTripFacts.
Context {JN : JSNumber}.

(** Induction on values that reaches into arrays and objects. *)
Lemma value_nested_ind (P : value -> Prop) :
  P VUndefined -> P VNull -> (forall b, P (VBool b)) -> (forall n, P (VNum n)) ->
  (forall s, P (VStr s)) ->
  (forall items, Forall P items -> P (VArr items)) ->
  (forall members, Forall (fun kv => P (snd kv)) members -> P (VObj members)) ->
  forall v, P v.
Proof.
  intros Hu Hn Hb Hnum Hs Harr Hobj.
  fix IH 1.
  intros [| | b | n | s | items | members].
  - exact Hu.
  - exact Hn.
  - apply Hb.
  - apply Hnum.
  - apply Hs.
  - apply Harr. induction items as [|item items IHitems]; constructor.
    + apply IH.
    + exact IHitems.
  - apply Hobj. induction members as [|[k v] members IHmembers]; constructor.
    + apply IH.
    + exact IHmembers.
Qed.

Lemma starts_value_split (t : string) :
  starts_value t = true ->
  exists c t', t = String c t' /\ is_ws c = false
               /\ Ascii.eqb c "]" = false /\ Ascii.eqb c "}" = false.
Proof.
  destruct t as [|c t']; simpl; [discriminate|].
  intros Hs. apply andb_true_iff in Hs as [Hs H2].
  apply andb_true_iff in Hs as [H0 H1].
  apply negb_true_iff in H0, H1, H2.
  exists c, t'. repeat split; assumption.
Qed.

Lemma reads_back_empty_array : reads_back "[]" (VArr []).
Proof.
  intros fuel ws rest Hws Hrest Hlen.
  destruct fuel as [|fuel]; [simpl in Hlen; lia|].
  cbn [parse_value]. rewrite skip_ws_app by exact Hws. reflexivity.
Qed.

Lemma reads_back_empty_object : reads_back "{}" (VObj []).
Proof.
  intros fuel ws rest Hws Hrest Hlen.
  destruct fuel as [|fuel]; [simpl in Hlen; lia|].
  cbn [parse_value]. rewrite skip_ws_app by exact Hws. reflexivity.
Qed.

(** A bracket, the elements one per line, a bracket. *)
Lemma reads_back_array (ind stepback : string) (ts : list string) (vs : list value) :
  all_chars is_space ind = true ->
  all_chars is_space stepback = true ->
  Forall2 (fun t v => starts_value t = true /\ reads_back t v) ts vs ->
  ts <> [] ->
  reads_back
    ("[" ++ newline ++ ind ++ String.concat ("," ++ newline ++ ind) ts
     ++ newline ++ stepback ++ "]")
    (VArr vs).
Proof.
  intros Hind Hstep Hall Hne fuel ws rest Hws Hrest Hlen.
  destruct fuel as [|fuel]; [simpl in Hlen; lia|].
  cbn [parse_value]. rewrite skip_ws_app by exact Hws.
  change (("[" ++ ?a) ++ ?b) with (String "[" (a ++ b)). rewrite !append_assoc.
  change (skip_ws (String "[" ?x)) with (String "[" x). cbv iota.
  change (Ascii.eqb "[" "[") with true. cbv iota.
  assert (Hfirst : exists c s2,
            skip_ws (newline ++ ind ++ String.concat ("," ++ newline ++ ind) ts
                     ++ newline ++ stepback ++ "]" ++ rest) = String c s2
            /\ Ascii.eqb c "]" = false).
  { rewrite <- (append_assoc newline ind).
    rewrite skip_ws_app by (apply newline_indent_ws, Hind).
    destruct Hall as [|t v ts vs [Hstart _] Hall]; [congruence|].
    destruct (starts_value_split t Hstart) as [c [t' [-> [Hc [Hb _]]]]].
    exists c. destruct ts as [|t2 ts].
    - rewrite concat_one. cbn [append]. eexists. split; [apply skip_ws_start, Hc | exact Hb].
    - rewrite concat_more. cbn [append]. eexists. split; [apply skip_ws_start, Hc | exact Hb]. }
  destruct Hfirst as [c [s2 [Hskip Hc]]].
  rewrite Hskip, Hc.
  apply (parse_elements_texts ind stepback ts vs Hind Hstep Hall Hne fuel [] rest).
  change ("[" ++ ?a) with (String "[" a) in Hlen.
  cbn [String.length] in Hlen. lia.
Qed.

(** A brace, the members one per line, a brace. *)
Lemma reads_back_object (ind stepback : string)
    (kts : list (string * string)) (kvs : list (string * value)) :
  all_chars is_space ind = true ->
  all_chars is_space stepback = true ->
  Forall2 (fun kt kv =>
             fst kt = fst kv
             /\ starts_value (snd kt) = true
             /\ reads_back (snd kt) (snd kv)) kts kvs ->
  kts <> [] ->
  keys_in_order (map fst kvs) = true ->
  reads_back
    ("{" ++ newline ++ ind
     ++ String.concat ("," ++ newline ++ ind)
          (map (fun kt => QuoteJSONString (fst kt) ++ ":" ++ " " ++ snd kt) kts)
     ++ newline ++ stepback ++ "}")
    (VObj kvs).
Proof.
  intros Hind Hstep Hall Hne Hord fuel ws rest Hws Hrest Hlen.
  destruct fuel as [|fuel]; [simpl in Hlen; lia|].
  cbn [parse_value]. rewrite skip_ws_app by exact Hws.
  change (("{" ++ ?a) ++ ?b) with (String "{" (a ++ b)). rewrite !append_assoc.
  change (skip_ws (String "{" ?x)) with (String "{" x). cbv iota.
  change (Ascii.eqb "{" "[") with false.
  change (Ascii.eqb "{" "{") with true. cbv iota.
  assert (Hfirst : exists c s2,
            skip_ws (newline ++ ind
                     ++ String.concat ("," ++ newline ++ ind)
                          (map (fun kt => QuoteJSONString (fst kt) ++ ":" ++ " " ++ snd kt)
                             kts)
                     ++ newline ++ stepback ++ "}" ++ rest) = String c s2
            /\ Ascii.eqb c "}" = false).
  { rewrite <- (append_assoc newline ind).
    rewrite skip_ws_app by (apply newline_indent_ws, Hind).
    destruct kts as [|[k t] kts]; [congruence|].
    exists dquote. cbn [map fst snd]. destruct kts as [|kt2 kts].
    - cbn [map]. rewrite concat_one. unfold QuoteJSONString. cbn [append].
      eexists. split; reflexivity.
    - cbn [map]. rewrite concat_more. unfold QuoteJSONString. cbn [append].
      eexists. split; reflexivity. }
  destruct Hfirst as [c [s2 [Hskip Hc]]].
  rewrite Hskip, Hc.
  apply (parse_members_texts ind stepback kts kvs Hind Hstep Hall Hne fuel [] rest).
  - exact Hord.
  - change ("{" ++ ?a) with (String "{" a) in Hlen.
    cbn [String.length] in Hlen. lia.
Qed.

End RoundTripFacts.

Section RoundTripValues.
Context {JN : JSNumber}.

Lemma serialize_array (gap indent : string) (items : list value) :
  SerializeJSONProperty gap indent (VArr items)
  = Some (let partial := map (element_text gap (indent ++ gap)) items in
          match partial with
          | [] => "[]"
          | _ :: _ =>
              if gap =? "" then "[" ++ String.concat "," partial ++ "]"
              else "[" ++ newline ++ (indent ++ gap)
                   ++ String.concat ("," ++ newline ++ (indent ++ gap)) partial
                   ++ newline ++ indent ++ "]"
          end).
Proof. reflexivity. Qed.

Lemma serialize_object (gap indent : string) (members : object) :
  SerializeJSONProperty gap indent (VObj members)
  = Some (let partial :=
            map (member_text gap) (printed_members gap (indent ++ gap) members) in
          match partial with
          | [] => "{}"
          | _ :: _ =>
              if gap =? "" then "{" ++ String.concat "," partial ++ "}"
              else "{" ++ newline ++ (indent ++ gap)
                   ++ String.concat ("," ++ newline ++ (indent ++ gap)) partial
                   ++ newline ++ indent ++ "}"
          end).
Proof.
  cbn [SerializeJSONProperty].
  replace (map (member_text gap) (printed_members gap (indent ++ gap) members))
    with (flat_map
            (fun kv : string * value =>
               match SerializeJSONProperty gap (indent ++ gap) (snd kv) with
               | Some strP =>
                   [QuoteJSONString (fst kv) ++ ":"
                    ++ (if gap =? "" then "" else " ") ++ strP]
               | None => []
               end) members); [reflexivity|].
  unfold printed_members.
  induction members as [|[k v] members IH]; [reflexivity|].
  cbn [flat_map fst snd]. rewrite map_app, <- IH.
  destruct (SerializeJSONProperty gap (indent ++ gap) v); reflexivity.
Qed.

Lemma same_json_array (vs items : list value) :
  Forall2 (fun v' item =>
             forall gap indent,
               element_text gap indent v' = element_text gap indent item) vs items ->
  same_json (VArr vs) (VArr items).
Proof.
  intros Hall gap indent. rewrite !serialize_array. cbv zeta.
  replace (map (element_text gap (indent ++ gap)) vs)
    with (map (element_text gap (indent ++ gap)) items); [reflexivity|].
  induction Hall as [|v' item vs items Hv Hall IH]; [reflexivity|].
  cbn [map]. rewrite IH, Hv. reflexivity.
Qed.

Lemma same_json_object (kvs members : object) :
  (forall gap indent,
     printed_members gap indent kvs = printed_members gap indent members) ->
  same_json (VObj kvs) (VObj members).
Proof.
  intros Hsame gap indent. rewrite !serialize_object, Hsame. reflexivity.
Qed.

(** The elements of an array, one by one. *)
Lemma elements_read_back (ind : string) (items : list value) :
  all_chars is_space ind = true ->
  Forall (fun item => json_safe item = true -> round_trips item) items ->
  forallb json_safe items = true ->
  exists vs,
    Forall2 (fun t v => starts_value t = true /\ reads_back t v)
      (map (element_text "  " ind) items) vs
    /\ Forall2 (fun v' item =>
                  forall gap indent,
                    element_text gap indent v' = element_text gap indent item) vs items.
Proof.
  intros Hind Hall. induction Hall as [|item items Hitem Hall IH]; intros Hsafe.
  - exists []. split; constructor.
  - cbn [forallb] in Hsafe. apply andb_true_iff in Hsafe as [Hsafe1 Hsafe].
    destruct (IH Hsafe) as [vs [Hread Hsame]].
    destruct (SerializeJSONProperty "  " ind item) as [t|] eqn:Ht.
    + destruct (Hitem Hsafe1 ind t Hind Ht) as [Hstart [v' [Hv' Hjson]]].
      exists (v' :: vs). split.
      * cbn [map]. unfold element_text at 1. rewrite Ht.
        constructor; [split; assumption | exact Hread].
      * constructor; [|exact Hsame].
        intros gap indent. unfold element_text. rewrite (Hjson gap indent). reflexivity.
    + apply serialize_None in Ht. subst item.
      exists (VNull :: vs). split.
      * cbn [map]. constructor; [|exact Hread].
        split; [reflexivity | apply reads_back_null].
      * constructor; [|exact Hsame]. intros gap indent. reflexivity.
Qed.

(** The members of an object, one by one. *)
Lemma members_read_back (ind : string) (members : object) :
  all_chars is_space ind = true ->
  Forall (fun kv => json_safe (snd kv) = true -> round_trips (snd kv)) members ->
  forallb (fun kv => json_safe (snd kv)) members = true ->
  exists kvs : object,
    Forall2 (fun kt kv =>
               fst kt = fst kv
               /\ starts_value (snd kt) = true
               /\ reads_back (snd kt) (snd kv))
      (printed_members "  " ind members) kvs
    /\ (forall gap indent,
          printed_members gap indent kvs = printed_members gap indent members)
    /\ (forall k0,
          forallb (key_before k0) (map fst members) = true ->
          forallb (key_before k0) (map fst kvs) = true)
    /\ (keys_in_order (map fst members) = true ->
        keys_in_order (map fst kvs) = true).
Proof.
  intros Hind Hall. induction Hall as [|[k v] members Hmember Hall IH]; intros Hsafe.
  - exists []. split; [constructor|]. split; [reflexivity|]. split; intros; assumption.
  - cbn [forallb snd] in Hsafe. apply andb_true_iff in Hsafe as [Hsafe1 Hsafe].
    cbn [snd] in Hmember.
    destruct (IH Hsafe) as [kvs [Hread [Hsame [Hbefore Horder]]]].
    destruct (SerializeJSONProperty "  " ind v) as [t|] eqn:Ht.
    + destruct (Hmember Hsafe1 ind t Hind Ht) as [Hstart [v' [Hv' Hjson]]].
      exists ((k, v') :: kvs). split; [|split; [|split]].
      * unfold printed_members. cbn [flat_map fst snd]. rewrite Ht.
        cbn [app]. constructor; [|exact Hread].
        cbn [fst snd]. repeat split; assumption.
      * intros gap indent. unfold printed_members in *. cbn [flat_map fst snd].
        rewrite (Hjson gap indent), (Hsame gap indent). reflexivity.
      * intros k0. cbn [map fst forallb]. intros Hk0.
        apply andb_true_iff in Hk0 as [Hk Hk0].
        rewrite Hk, (Hbefore k0 Hk0). reflexivity.
      * cbn [map fst keys_in_order]. intros Hord.
        apply andb_true_iff in Hord as [Hk Hord].
        rewrite (Hbefore k Hk), (Horder Hord). reflexivity.
    + apply serialize_None in Ht. subst v.
      exists kvs. split; [|split; [|split]].
      * exact Hread.
      * intros gap indent. rewrite (Hsame gap indent). reflexivity.
      * intros k0. cbn [map fst forallb]. intros Hk0.
        apply andb_true_iff in Hk0 as [_ Hk0]. apply Hbefore, Hk0.
      * cbn [map fst keys_in_order]. intros Hord.
        apply andb_true_iff in Hord as [_ Hord]. apply Horder, Hord.
Qed.

Lemma indent_deeper (indent : string) :
  all_chars is_space indent = true ->
  all_chars is_space (indent ++ "  ") = true.
Proof. intros Hind. rewrite all_chars_app, Hind. reflexivity. Qed.

(** Every value with its keys in order and its numbers printing back
    survives the indented text. *)
Lemma json_safe_round_trips (v : value) :
  json_safe v = true -> round_trips v.
Proof.
  induction v as [| | b | n | s | items IH | members IH] using value_nested_ind;
    intros Hsafe indent text Hind Htext.
  - discriminate.
  - injection Htext as <-. split; [reflexivity|].
    exists VNull. split; [apply reads_back_null | apply same_json_refl].
  - destruct b; injection Htext as <-; (split; [reflexivity|]).
    + exists (VBool true). split; [apply reads_back_true | apply same_json_refl].
    + exists (VBool false). split; [apply reads_back_false | apply same_json_refl].
  - cbn [SerializeJSONProperty json_safe] in *.
    destruct (number_is_finite n) eqn:Hfin; injection Htext as <-.
    + destruct (reads_back_number n Hfin Hsafe) as [Hstart [n' [Hread [Hfin' Hsame]]]].
      split; [exact Hstart|].
      exists (VNum n'). split; [exact Hread|].
      intros gap ind. cbn [SerializeJSONProperty]. rewrite Hfin, Hfin', Hsame.
      reflexivity.
    + split; [reflexivity|].
      exists VNull. split; [apply reads_back_null|].
      intros gap ind. cbn [SerializeJSONProperty]. rewrite Hfin. reflexivity.
  - injection Htext as <-. split; [reflexivity|].
    exists (VStr s). split; [apply reads_back_string | apply same_json_refl].
  - cbn [json_safe] in Hsafe.
    rewrite serialize_array in Htext. cbv zeta in Htext. injection Htext as <-.
    destruct (elements_read_back (indent ++ "  ") items (indent_deeper _ Hind) IH Hsafe)
      as [vs [Hread Hsame]].
    destruct (map (element_text "  " (indent ++ "  ")) items) as [|t ts] eqn:Hmap.
    + inversion Hread; subst. split; [reflexivity|].
      exists (VArr []). split; [apply reads_back_empty_array|].
      apply same_json_array. exact Hsame.
    + split; [reflexivity|].
      exists (VArr vs). split; [|apply same_json_array; exact Hsame].
      apply (reads_back_array (indent ++ "  ") indent (t :: ts) vs
               (indent_deeper _ Hind) Hind Hread).
      discriminate.
  - cbn [json_safe] in Hsafe. apply andb_true_iff in Hsafe as [Hord Hsafe].
    rewrite serialize_object in Htext. cbv zeta in Htext. injection Htext as <-.
    destruct (members_read_back (indent ++ "  ") members (indent_deeper _ Hind) IH Hsafe)
      as [kvs [Hread [Hsame [_ Horder]]]].
    destruct (printed_members "  " (indent ++ "  ") members) as [|kt kts] eqn:Hprinted.
    + inversion Hread; subst. split; [reflexivity|].
      exists (VObj []). split; [apply reads_back_empty_object|].
      apply same_json_object. exact Hsame.
    + split; [reflexivity|].
      exists (VObj kvs). split; [|apply same_json_object; exact Hsame].
      apply (reads_back_object (indent ++ "  ") indent (kt :: kts) kvs
               (indent_deeper _ Hind) Hind Hread).
      * discriminate.
      * apply Horder, Hord.
Qed.

End RoundTripValues.

Section DigestFacts.
Context {JN : JSNumber} {H : Host}.

(** [JSON.parse] of the indented text of a value. *)
Lemma JSON_parse_pretty (v : value) (text : string) :
  json_safe v = true ->
  JSON_stringify_pretty v = Some text ->
  exists v', JSON_parse text = Ok v' /\ same_json v' v.
Proof.
  intros Hsafe Htext.
  destruct (json_safe_round_trips v Hsafe "" text eq_refl Htext)
    as [_ [v' [Hread Hsame]]].
  exists v'. split; [|exact Hsame].
  unfold JSON_parse, JSON_parse_with.
  pose proof (Hread (S (2 * String.length text)) "" "" eq_refl eq_refl) as Hparse.
  cbn [append] in Hparse. rewrite append_nil_r in Hparse.
  rewrite Hparse by lia. reflexivity.
Qed.

Lemma computeEventsHash_same_json (a b : value) :
  same_json a b -> computeEventsHash a = computeEventsHash b.
Proof.
  intros Hsame. unfold computeEventsHash, JSON_stringify.
  rewrite (Hsame "" ""). reflexivity.
Qed.

(** The digest read from a file holding the indented text of a value is
    the digest of the value. *)
Lemma existing_hash_after_write (v : value) (text hash : string) (fs : FS) :
  json_safe v = true ->
  JSON_stringify_pretty v = Some text ->
  computeEventsHash v = Ok hash ->
  getExistingEventsHash {| last_sync := last_sync fs; events_json := File text |}
  = Ok (Some hash).
Proof.
  intros Hsafe Htext Hhash.
  destruct (JSON_parse_pretty v text Hsafe Htext) as [v' [Hparse Hsame]].
  unfold getExistingEventsHash. cbn [events_json readFile bind].
  rewrite Hparse. cbn [bind].
  rewrite (computeEventsHash_same_json v' v Hsame), Hhash. reflexivity.
Qed.

End DigestFacts.

(** C9.  Write an event collection as indented JSON, read the file, parse
    it and hash the compact text of what was parsed: the digest is the one
    of the collection in memory.  The collection is any list of objects
    whose keys stand in the order of [Object.keys] and whose numbers print
    as JSON numbers that parse back. *)
Theorem digest_survives_publication {JN : JSNumber} {H : Host}
    (events : list object) (fs : FS) :
  json_safe (events_value events) = true ->
  exists text hash,
    JSON_stringify_pretty (events_value events) = Some text
    /\ computeEventsHash (events_value events) = Ok hash
    /\ getExistingEventsHash {| last_sync := last_sync fs; events_json := File text |}
       = Ok (Some hash).
Proof.
  intros Hsafe.
  destruct (stringify_array_Some "  " "" (map VObj events)) as [text Htext].
  destruct (computeEventsHash_array (map VObj events)) as [content [_ Hhash]].
  exists text, (SHA256.digest_hex content).
  split; [exact Htext|]. split; [exact Hhash|].
  apply (existing_hash_after_write (events_value events)); assumption.
Qed.

(** ** Array indices name their key *)

Lemma pow10_cons (c : ascii) (s : string) : pow10 (String c s) = (10 * pow10 s)%N.
Proof.
  unfold pow10. cbn [String.length]. rewrite Nat2N.inj_succ, N.pow_succ_r'. reflexivity.
Qed.

Lemma pow10_pos (s : string) : (0 < pow10 s)%N.
Proof. unfold pow10. apply N.neq_0_lt_0, N.pow_nonzero. discriminate. Qed.

Lemma digits_value_acc (s : string) :
  forall acc, digits_value acc s = (acc * pow10 s + digits_value 0 s)%N.
Proof.
  induction s as [|c s IH]; intros acc.
  - unfold pow10. simpl. lia.
  - cbn [digits_value]. rewrite IH, (IH (0 * 10 + digit_value c)%N), pow10_cons. lia.
Qed.

Lemma digit_value_le (c : ascii) : is_digit c = true -> (digit_value c <= 9)%N.
Proof.
  unfold is_digit, digit_value. intros Hd.
  apply andb_true_iff in Hd as [H1 H2].
  apply Nat.leb_le in H1, H2. lia.
Qed.

Lemma digit_value_inj (c c' : ascii) :
  is_digit c = true -> is_digit c' = true ->
  digit_value c = digit_value c' -> c = c'.
Proof.
  unfold is_digit, digit_value. intros Hd Hd' Heq.
  apply andb_true_iff in Hd as [H1 H2]. apply andb_true_iff in Hd' as [H1' H2'].
  apply Nat.leb_le in H1, H2, H1', H2'.
  assert (Hn : nat_of_ascii c = nat_of_ascii c') by lia.
  rewrite <- (ascii_nat_embedding c), <- (ascii_nat_embedding c'), Hn. reflexivity.
Qed.

Lemma digit_value_zero (c : ascii) :
  is_digit c = true -> digit_value c = 0%N -> c = "0"%char.
Proof.
  intros Hd Hz. apply digit_value_inj; [exact Hd | reflexivity | exact Hz].
Qed.

Lemma digits_value_lt (s : string) :
  all_chars is_digit s = true -> (digits_value 0 s < pow10 s)%N.
Proof.
  induction s as [|c s IH]; cbn [all_chars digits_value]; intros Hall.
  - unfold pow10. simpl. lia.
  - apply andb_true_iff in Hall as [Hc Hall].
    rewrite digits_value_acc, pow10_cons.
    pose proof (digit_value_le c Hc). pose proof (IH Hall). nia.
Qed.

Lemma digits_value_same_length (s : string) :
  forall s',
    String.length s = String.length s' ->
    all_chars is_digit s = true -> all_chars is_digit s' = true ->
    digits_value 0 s = digits_value 0 s' -> s = s'.
Proof.
  induction s as [|c s IH]; intros [|c' s'] Hlen Hall Hall' Heq;
    try discriminate Hlen; [reflexivity|].
  cbn [all_chars digits_value String.length] in *.
  injection Hlen as Hlen.
  apply andb_true_iff in Hall as [Hc Hall]. apply andb_true_iff in Hall' as [Hc' Hall'].
  rewrite (digits_value_acc s), (digits_value_acc s') in Heq.
  assert (Hpow : pow10 s = pow10 s') by (unfold pow10; rewrite Hlen; reflexivity).
  rewrite <- Hpow in Heq.
  pose proof (digits_value_lt s Hall) as Hlt.
  pose proof (digits_value_lt s' Hall') as Hlt'. rewrite <- Hpow in Hlt'.
  pose proof (pow10_pos s) as Hpos.
  assert (Hd : digit_value c = digit_value c') by nia.
  assert (Hv : digits_value 0 s = digits_value 0 s') by nia.
  rewrite (digit_value_inj c c' Hc Hc' Hd), (IH s' Hlen Hall Hall' Hv). reflexivity.
Qed.

(** A digit string without a leading zero is at least [10^(length - 1)]. *)
Lemma digits_value_ge (c : ascii) (s : string) :
  is_digit c = true -> Ascii.eqb c "0" = false ->
  (pow10 s <= digits_value 0 (String c s))%N.
Proof.
  intros Hc Hnz. cbn [digits_value]. rewrite digits_value_acc.
  assert (Hd : digit_value c <> 0%N).
  { intros Hz. apply (digit_value_zero c Hc) in Hz. subst c. discriminate. }
  pose proof (pow10_pos s). nia.
Qed.

Lemma pow10_le (s s' : string) :
  (String.length s <= String.length s')%nat -> (pow10 s <= pow10 s')%N.
Proof. intros Hle. unfold pow10. apply N.pow_le_mono_r; lia. Qed.

Lemma array_index_inv (k : string) (i : N) :
  array_index k = Some i ->
  exists c rest,
    k = String c rest
    /\ all_chars is_digit k = true
    /\ (Ascii.eqb c "0" = false \/ rest = "")
    /\ i = digits_value 0 k.
Proof.
  unfold array_index. destruct k as [|c rest]; [discriminate|].
  destruct (all_chars is_digit (String c rest)) eqn:Hall; [|discriminate].
  destruct (negb (Ascii.eqb c "0") || (rest =? "")) eqn:Hlead; [|discriminate].
  cbn [andb].
  destruct ((String.length (String c rest) <=? 10)%nat
            && (digits_value 0 (String c rest) <=? 4294967294)%N); [|discriminate].
  intros [= <-]. exists c, rest. repeat split.
  apply orb_true_iff in Hlead as [Hl | Hl].
  - left. apply negb_true_iff, Hl.
  - right. apply String.eqb_eq, Hl.
Qed.

(** Among digit strings in canonical form, the longer has the larger
    value. *)
Lemma canonical_shorter (c c' : ascii) (rest rest' : string) :
  all_chars is_digit (String c rest) = true ->
  all_chars is_digit (String c' rest') = true ->
  (Ascii.eqb c' "0" = false \/ rest' = "") ->
  (String.length rest < String.length rest')%nat ->
  (digits_value 0 (String c rest) < digits_value 0 (String c' rest'))%N.
Proof.
  intros Hall Hall' Hlead Hlen.
  destruct Hlead as [Hnz | ->]; [|simpl in Hlen; lia].
  pose proof (digits_value_lt _ Hall) as Hlt.
  cbn [all_chars] in Hall'. apply andb_true_iff in Hall' as [Hc' _].
  pose proof (digits_value_ge c' rest' Hc' Hnz) as Hge.
  assert (Hpow : (pow10 (String c rest) <= pow10 rest')%N).
  { apply pow10_le. cbn [String.length]. lia. }
  lia.
Qed.

Lemma array_index_inj (k k' : string) (i : N) :
  array_index k = Some i -> array_index k' = Some i -> k = k'.
Proof.
  intros Hk Hk'.
  destruct (array_index_inv k i Hk) as [c [rest [-> [Hall [Hlead ->]]]]].
  destruct (array_index_inv k' _ Hk') as [c' [rest' [-> [Hall' [Hlead' Heq]]]]].
  destruct (Nat.lt_trichotomy (String.length rest) (String.length rest'))
    as [Hlt | [Hlen | Hgt]].
  - pose proof (canonical_shorter c c' rest rest' Hall Hall' Hlead' Hlt). lia.
  - apply digits_value_same_length; try assumption.
    cbn [String.length]. rewrite Hlen. reflexivity.
  - pose proof (canonical_shorter c' c rest' rest Hall' Hall Hlead Hgt). lia.
Qed.

(** ** Objects built by assignment keep their keys in order *)

Lemma forallb_impl {A : Type} (P Q : A -> bool) (l : list A) :
  (forall a, P a = true -> Q a = true) ->
  forallb P l = true -> forallb Q l = true.
Proof.
  intros Himp. induction l as [|a l IH]; simpl; intros Hall.
  - reflexivity.
  - apply andb_true_iff in Hall as [Ha Hall]. rewrite (Himp a Ha), (IH Hall). reflexivity.
Qed.

Lemma forallb_filter {A : Type} (P Q : A -> bool) (l : list A) :
  forallb P l = true -> forallb P (filter Q l) = true.
Proof.
  induction l as [|a l IH]; simpl; intros Hall.
  - reflexivity.
  - apply andb_true_iff in Hall as [Ha Hall].
    destruct (Q a); simpl; [rewrite Ha|]; apply IH, Hall.
Qed.

Section AssignFacts.
Context {A : Type}.
Implicit Types (o : list (string * A)) (k : string) (v : A).

Lemma obj_replace_keys o k v : map fst (obj_replace o k v) = map fst o.
Proof.
  induction o as [|[k0 v0] o IH]; simpl; [reflexivity|].
  destruct (k =? k0); simpl; [reflexivity | rewrite IH; reflexivity].
Qed.

Lemma obj_replace_forallb (P : string * A -> bool) o k v :
  (forall k0, P (k0, v) = true) ->
  forallb P o = true -> forallb P (obj_replace o k v) = true.
Proof.
  intros Hv. induction o as [|[k0 v0] o IH]; simpl; intros Hall; [reflexivity|].
  apply andb_true_iff in Hall as [H0 Hall].
  destruct (k =? k0); simpl.
  - rewrite Hv, Hall. reflexivity.
  - rewrite H0, (IH Hall). reflexivity.
Qed.

Lemma obj_insert_index_forallb (P : string * A -> bool) o i k v :
  forallb P (obj_insert_index o i k v) = P (k, v) && forallb P o.
Proof.
  induction o as [|[k0 v0] o IH]; simpl.
  - reflexivity.
  - destruct (array_index k0) as [j|]; [destruct (j <? i)%N|]; simpl;
      try reflexivity.
    rewrite IH. destruct (P (k0, v0)), (P (k, v)); reflexivity.
Qed.

Lemma obj_insert_index_keys_forallb (P : string -> bool) o i k v :
  forallb P (map fst (obj_insert_index o i k v)) = P k && forallb P (map fst o).
Proof.
  induction o as [|[k0 v0] o IH]; simpl.
  - reflexivity.
  - destruct (array_index k0) as [j|]; [destruct (j <? i)%N|]; simpl;
      try reflexivity.
    rewrite IH. destruct (P k0), (P k); reflexivity.
Qed.

Lemma obj_get_None_keys o k :
  obj_get o k = None -> forallb (fun k' => negb (k' =? k)) (map fst o) = true.
Proof.
  induction o as [|[k0 v0] o IH]; simpl; intros Hget; [reflexivity|].
  destruct (k =? k0) eqn:Hk; [discriminate|].
  rewrite String.eqb_sym, Hk, (IH Hget). reflexivity.
Qed.

Lemma keys_in_order_insert_index o i k v :
  keys_in_order (map fst o) = true ->
  obj_get o k = None ->
  array_index k = Some i ->
  keys_in_order (map fst (obj_insert_index o i k v)) = true.
Proof.
  intros Hord Hget Hi. induction o as [|[k0 v0] o IH]; [reflexivity|].
  cbn [map fst keys_in_order] in Hord. apply andb_true_iff in Hord as [Hk0 Hord].
  cbn [obj_get] in Hget. destruct (k =? k0) eqn:Hk; [discriminate|].
  assert (Hstop :
            (forall j, array_index k0 = Some j -> (i < j)%N) ->
            keys_in_order (map fst ((k, v) :: (k0, v0) :: o)) = true).
  { intros Hafter. cbn [map fst keys_in_order forallb].
    rewrite Hk0, Hord, !andb_true_r.
    assert (Hkk0 : key_before k k0 = true).
    { unfold key_before. rewrite Hi. destruct (array_index k0) as [j|]; [|reflexivity].
      apply N.ltb_lt, Hafter. reflexivity. }
    rewrite Hkk0. cbn [andb].
    apply (forallb_impl (key_before k0)); [|exact Hk0].
    intros k' Hk'. unfold key_before in *. rewrite Hi.
    destruct (array_index k') as [j'|]; [|reflexivity].
    destruct (array_index k0) as [j|]; [|discriminate].
    specialize (Hafter j eq_refl). apply N.ltb_lt in Hk'. apply N.ltb_lt. lia. }
  cbn [obj_insert_index].
  destruct (array_index k0) as [j|] eqn:Hj.
  - destruct (j <? i)%N eqn:Hlt.
    + cbn [map fst keys_in_order].
      rewrite obj_insert_index_keys_forallb, Hk0, (IH Hord Hget), !andb_true_r.
      unfold key_before. rewrite Hj, Hi. exact Hlt.
    + apply Hstop. intros j' [= <-]. apply N.ltb_ge in Hlt.
      assert (Hne : j <> i).
      { intros ->. apply String.eqb_neq in Hk. apply Hk.
        apply (array_index_inj k k0 i Hi Hj). }
      lia.
  - apply Hstop. discriminate.
Qed.

Lemma keys_in_order_append o k v :
  keys_in_order (map fst o) = true ->
  obj_get o k = None ->
  array_index k = None ->
  keys_in_order (map fst (o ++ [(k, v)])%list) = true.
Proof.
  intros Hord Hget Hi.
  rewrite map_app. cbn [map fst]. rewrite keys_in_order_app, Hord. cbn [andb].
  apply (forallb_impl (fun k' => negb (k' =? k))); [|apply obj_get_None_keys, Hget].
  intros k' Hk'. unfold key_before. rewrite Hi.
  destruct (array_index k'); [reflexivity | exact Hk'].
Qed.

Lemma keys_in_order_set o k v :
  keys_in_order (map fst o) = true ->
  keys_in_order (map fst (obj_set o k v)) = true.
Proof.
  intros Hord. unfold obj_set, obj_has.
  destruct (obj_get o k) eqn:Hget.
  - rewrite obj_replace_keys. exact Hord.
  - destruct (array_index k) as [i|] eqn:Hi.
    + apply keys_in_order_insert_index; assumption.
    + apply keys_in_order_append; assumption.
Qed.

Lemma keys_in_order_sub (keys : list string) (Q : string -> bool) :
  keys_in_order keys = true -> keys_in_order (filter Q keys) = true.
Proof.
  induction keys as [|k keys IH]; simpl; intros Hord; [reflexivity|].
  apply andb_true_iff in Hord as [Hk Hord].
  destruct (Q k); simpl.
  - rewrite (forallb_filter _ Q _ Hk), (IH Hord). reflexivity.
  - apply IH, Hord.
Qed.

Lemma obj_delete_keys o k :
  map fst (obj_delete o k) = filter (fun k' => negb (k =? k')) (map fst o).
Proof.
  unfold obj_delete. induction o as [|[k0 v0] o IH]; simpl; [reflexivity|].
  destruct (negb (k =? k0)); simpl; rewrite IH; reflexivity.
Qed.

Lemma keys_in_order_delete o k :
  keys_in_order (map fst o) = true ->
  keys_in_order (map fst (obj_delete o k)) = true.
Proof. intros Hord. rewrite obj_delete_keys. apply keys_in_order_sub, Hord. Qed.

Lemma obj_set_forallb (P : string * A -> bool) o k v :
  (forall k0, P (k0, v) = true) ->
  forallb P o = true -> forallb P (obj_set o k v) = true.
Proof.
  intros Hv Hall. unfold obj_set.
  destruct (obj_has o k).
  - apply obj_replace_forallb; assumption.
  - destruct (array_index k).
    + rewrite obj_insert_index_forallb, Hv, Hall. reflexivity.
    + rewrite forallb_app, Hall. simpl. rewrite Hv. reflexivity.
Qed.

End AssignFacts.

Section SafeEvents.
Context {JN : JSNumber} {H : Host}.

Lemma json_safe_object (o : object) :
  json_safe (VObj o) = true
  <-> keys_in_order (map fst o) = true
      /\ forallb (fun kv => json_safe (snd kv)) o = true.
Proof. cbn [json_safe]. apply andb_true_iff. Qed.

Lemma json_safe_assign (o : object) (k : string) (v : value) :
  json_safe (VObj o) = true -> json_safe v = true ->
  json_safe (VObj (js_assign o k v)) = true.
Proof.
  rewrite !json_safe_object. intros [Hord Hall] Hv.
  unfold js_assign. destruct (k =? "__proto__"); [split; assumption|].
  split.
  - apply keys_in_order_set, Hord.
  - apply obj_set_forallb; [intros k0; exact Hv | exact Hall].
Qed.

Lemma json_safe_delete (o : object) (k : string) :
  json_safe (VObj o) = true -> json_safe (VObj (obj_delete o k)) = true.
Proof.
  rewrite !json_safe_object. intros [Hord Hall]. split.
  - apply keys_in_order_delete, Hord.
  - unfold obj_delete. apply forallb_filter, Hall.
Qed.

End SafeEvents.

(** ** The events of the scripts survive the round trip *)

Section SafeExtract.
Context {JN : JSNumber}.

Lemma json_safe_str_or_null (s : string) : json_safe (str_or_null s) = true.
Proof. unfold str_or_null. destruct (s =? ""); reflexivity. Qed.

Lemma json_safe_strings (l : list string) : forallb json_safe (map VStr l) = true.
Proof. induction l as [|s l IH]; simpl; [reflexivity | exact IH]. Qed.

Lemma json_safe_file_entry (f : file_item) : json_safe (file_entry f) = true.
Proof.
  unfold file_entry.
  destruct (file_file_url f) as [u|], (file_external_url f) as [e|];
    unfold js_or; cbn [truthy];
    repeat (match goal with
            | |- context [negb (?s =? "")] => destruct (s =? "")
            end; cbn [negb truthy]); reflexivity.
Qed.

Lemma json_safe_files (l : list file_item) :
  forallb json_safe (map file_entry l) = true.
Proof.
  induction l as [|f l IH]; cbn [map forallb]; [reflexivity|].
  rewrite json_safe_file_entry, IH. reflexivity.
Qed.

Lemma extract_json_safe (p : property) :
  property_numbers_print_back p = true ->
  json_safe (extractPropertyValue p) = true.
Proof.
  induction p as [array n IH | p Hleaf] using property_rollup_ind; intros Hnum.
  - cbn [extractPropertyValue json_safe property_numbers_print_back] in *.
    apply forallb_filter.
    induction IH as [|item array Hitem _ IHarray]; [reflexivity|].
    cbn [forallb map] in *. apply andb_true_iff in Hnum as [Hnum1 Hnum].
    rewrite (IHarray Hnum), andb_true_r.
    destruct item; apply Hitem, Hnum1.
  - destruct p as [t|t|n|o|o|d|b|o|o|o|o|o|[array|] [n|]|f|o|o|o|o|o|[files|]|t|];
      try discriminate Hleaf;
      cbn [extractPropertyValue property_numbers_print_back] in *;
      try reflexivity;
      repeat match goal with
             | o : option _ |- _ => destruct o
             | f : formula_value |- _ => destruct f
             end;
      cbn [plain_text_or_null opt_str_or_null strings_or_empty num_or_null
             date_start_or_null extractFormula json_safe] in *;
      try reflexivity; try assumption;
      try apply json_safe_str_or_null;
      try apply json_safe_strings;
      try apply json_safe_files.
    unfold js_or. destruct (truthy (VNum n)); [exact Hnum | reflexivity].
Qed.

End SafeExtract.

Section SafeMapping.
Context {JN : JSNumber} {H : Host}.

Lemma props_get_numbers (props : list (string * property)) (key : string) :
  forallb (fun kp => property_numbers_print_back (snd kp)) props = true ->
  property_numbers_print_back (props_get props key) = true.
Proof.
  unfold props_get. induction props as [|[k p] props IH]; simpl; intros Hall.
  - reflexivity.
  - apply andb_true_iff in Hall as [Hp Hall].
    destruct (key =? k); [exact Hp | apply IH, Hall].
Qed.

Lemma extract_all_json_safe (excludedProperties : list string)
    (props : list (string * property)) :
  forallb (fun kp => property_numbers_print_back (snd kp)) props = true ->
  json_safe (VObj (extract_all excludedProperties props)) = true.
Proof.
  intros Hnum. unfold extract_all.
  assert (Hinv : forall keys (event : object),
            json_safe (VObj event) = true ->
            json_safe
              (VObj
                 (fold_left
                    (fun event key =>
                       if existsb (String.eqb key) excludedProperties then event
                       else
                         let value := extractPropertyValue (props_get props key) in
                         if is_nullish value then event else js_assign event key value)
                    keys event)) = true).
  { induction keys as [|key keys IH]; cbn [fold_left]; intros event Hev.
    - exact Hev.
    - apply IH.
      destruct (existsb (String.eqb key) excludedProperties); [exact Hev|].
      cbv zeta. destruct (is_nullish _); [exact Hev|].
      apply json_safe_assign; [exact Hev|].
      apply extract_json_safe, props_get_numbers, Hnum. }
  apply Hinv. reflexivity.
Qed.

Lemma formatDatePretty_json_safe (dateString pretty : value) :
  formatDatePretty dateString = Ok pretty -> json_safe pretty = true.
Proof.
  unfold formatDatePretty.
  destruct (negb (truthy dateString)); [intros [= <-]; reflexivity|].
  destruct (Date_new dateString); [intros [= <-]; reflexivity | discriminate].
Qed.

Lemma add_datePretty_json_safe (event event' : object) :
  json_safe (VObj event) = true ->
  add_datePretty event = Ok event' ->
  json_safe (VObj event') = true.
Proof.
  unfold add_datePretty. intros Hsafe Hadd.
  assert (Hfirst : forall event1,
            (if truthy (js_get event "Date")
             then pretty <- formatDatePretty (js_get event "Date") ;;
                  Ok (js_assign event "datePretty" pretty)
             else Ok event) = Ok event1 ->
            json_safe (VObj event1) = true).
  { intros event1. destruct (truthy (js_get event "Date")).
    - destruct (formatDatePretty (js_get event "Date")) as [pretty| |] eqn:Hfmt;
        cbn [bind]; try discriminate.
      intros [= <-]. apply json_safe_assign; [exact Hsafe|].
      apply (formatDatePretty_json_safe _ _ Hfmt).
    - intros [= <-]. exact Hsafe. }
  destruct (if truthy (js_get event "Date")
            then pretty <- formatDatePretty (js_get event "Date") ;;
                 Ok (js_assign event "datePretty" pretty)
            else Ok event) as [event1| |]; cbn [bind] in Hadd; try discriminate.
  specialize (Hfirst event1 eq_refl).
  destruct (negb (truthy (js_get event1 "datePretty")) && truthy (js_get event1 "date")).
  - destruct (formatDatePretty (js_get event1 "date")) as [pretty| |] eqn:Hfmt;
      cbn [bind] in Hadd; try discriminate.
    injection Hadd as <-. apply json_safe_assign; [exact Hfirst|].
    apply (formatDatePretty_json_safe _ _ Hfmt).
  - injection Hadd as <-. exact Hfirst.
Qed.

(** Both variants of [mapEvent] build objects that survive the round
    trip. *)
Lemma mapEvent_json_safe (pg : page) (event : object) :
  page_numbers_print_back pg = true ->
  FetchEvents.mapEvent pg = Ok event \/ FetchEventsWithStatus.mapEvent pg = Ok event ->
  json_safe (VObj event) = true.
Proof.
  unfold page_numbers_print_back. intros Hnum [Hmap | Hmap].
  - unfold FetchEvents.mapEvent in Hmap.
    apply (add_datePretty_json_safe _ _ (extract_all_json_safe _ _ Hnum) Hmap).
  - unfold FetchEventsWithStatus.mapEvent in Hmap.
    refine (add_datePretty_json_safe _ _ _ Hmap).
    repeat apply json_safe_delete. apply extract_all_json_safe, Hnum.
Qed.

Lemma map_result_json_safe (mapEvent : page -> result object) (pages : list page)
    (events : list object) :
  (forall pg event, In pg pages -> mapEvent pg = Ok event ->
                    json_safe (VObj event) = true) ->
  map_result mapEvent pages = Ok events ->
  json_safe (events_value events) = true.
Proof.
  intros Hsafe. revert events.
  induction pages as [|pg pages IH]; cbn [map_result]; intros events Hmap.
  - injection Hmap as <-. reflexivity.
  - destruct (mapEvent pg) as [event| |] eqn:Hev; cbn [bind] in Hmap; try discriminate.
    destruct (map_result mapEvent pages) as [rest| |]; cbn [bind] in Hmap;
      try discriminate.
    injection Hmap as <-.
    unfold events_value in *. cbn [map json_safe forallb] in *.
    rewrite (Hsafe pg event (or_introl eq_refl) Hev).
    apply (IH (fun pg' event' Hin => Hsafe pg' event' (or_intror Hin)) rest eq_refl).
Qed.

Lemma filter_json_safe (events : list object) :
  json_safe (events_value events) = true ->
  json_safe (events_value (filter is_valid_event events)) = true.
Proof.
  unfold events_value. cbn [json_safe].
  induction events as [|event events IH]; cbn [map forallb filter]; intros Hsafe.
  - reflexivity.
  - apply andb_true_iff in Hsafe as [He Hsafe].
    destruct (is_valid_event event); cbn [map forallb].
    + rewrite He. apply IH, Hsafe.
    + apply IH, Hsafe.
Qed.

(** After a run that wrote the output file, the digest read back from the
    file is the digest the run computed, so that a second run over the
    same answers of the store leaves the file alone. *)
Lemma publication_is_stable (mapEvent : page -> result object)
    (notion : Notion) (fs fs' : FS) (paths : list string)
    (response : query_response) (events : list object) :
  (forall pg event, In pg (results response) -> mapEvent pg = Ok event ->
                    json_safe (VObj event) = true) ->
  databases_query notion main_query = Ok response ->
  map_result mapEvent (results response) = Ok events ->
  fetch_and_write mapEvent notion fs = Ok (fs', paths, 0%nat) ->
  In path_events_json paths ->
  exists newHash fs'' paths'',
    computeEventsHash (events_value (filter is_valid_event events)) = Ok newHash
    /\ getExistingEventsHash fs' = Ok (Some newHash)
    /\ fetch_and_write mapEvent notion fs' = Ok (fs'', paths'', 0%nat)
    /\ ~ In path_events_json paths''
    /\ events_json fs'' = events_json fs'.
Proof.
  intros Hsafe Hq Hm Hrun Hin.
  pose proof (filter_json_safe events
                (map_result_json_safe mapEvent _ events Hsafe Hm)) as Hvalid.
  destruct (fetch_and_write_reached mapEvent notion fs response events Hq Hm)
    as [content [text [Hc [Ht Heq]]]].
  assert (Hread : getExistingEventsHash
                    {| last_sync := last_sync fs; events_json := File text |}
                  = Ok (Some (SHA256.digest_hex content))).
  { apply (existing_hash_after_write (events_value (filter is_valid_event events)));
      [exact Hvalid | exact Ht |].
    unfold computeEventsHash. rewrite Hc. reflexivity. }
  destruct (fetch_and_write_ended mapEvent notion fs fs' paths 0 response events
              Hq Hm Hrun)
    as [content0 [text0 [existingHash [Hc0 [Ht0 [_ [_ Hcase]]]]]]].
  rewrite Hc in Hc0. injection Hc0 as <-.
  rewrite Ht in Ht0. injection Ht0 as <-.
  assert (Hwritten : record_checkpoint (getDatabaseLastEditedTime notion)
                       ({| last_sync := last_sync fs; events_json := File text |},
                        [path_events_json]) = ((fs', paths), Ok tt)).
  { destruct Hcase as [[_ Hst] | [_ Hst]]; [|exact Hst].
    pose proof (record_checkpoint_events (getDatabaseLastEditedTime notion) (fs, []))
      as [_ Hpaths].
    rewrite Hst in Hpaths. cbn [fst snd] in Hpaths. apply Hpaths in Hin.
    contradiction. }
  assert (Hfiles : events_json fs' = File text).
  { pose proof (record_checkpoint_events (getDatabaseLastEditedTime notion)
                  ({| last_sync := last_sync fs; events_json := File text |},
                   [path_events_json])) as [Hev _].
    rewrite Hwritten in Hev. exact Hev. }
  assert (Hexisting : getExistingEventsHash fs' = Ok (Some (SHA256.digest_hex content))).
  { unfold getExistingEventsHash in *. rewrite Hfiles. exact Hread. }
  destruct (fetch_and_write_reached mapEvent notion fs' response events Hq Hm)
    as [content' [text' [Hc' [_ Heq']]]].
  rewrite Hc in Hc'. injection Hc' as <-.
  rewrite Hexisting in Heq'.
  assert (Hun : unchanged (SHA256.digest_hex content)
                  (Some (SHA256.digest_hex content)) = true).
  { apply unchanged_true_iff; [apply digest_hex_nonempty | reflexivity]. }
  rewrite Hun, finish_by_checkpoint in Heq'.
  pose proof (record_checkpoint_events (getDatabaseLastEditedTime notion) (fs', []))
    as [Hev Hpaths].
  assert (Hend : snd (record_checkpoint (getDatabaseLastEditedTime notion) (fs', []))
                 = Ok tt).
  { apply (record_checkpoint_again_ends _
             ({| last_sync := last_sync fs; events_json := File text |},
              [path_events_json])).
    rewrite Hwritten. reflexivity. }
  rewrite Hend in Heq'.
  destruct (record_checkpoint (getDatabaseLastEditedTime notion) (fs', []))
    as [[fs'' paths''] end_].
  cbn [fst snd] in Hev, Hpaths, Heq'.
  exists (SHA256.digest_hex content), fs'', paths''.
  split; [unfold computeEventsHash; rewrite Hc; reflexivity|].
  split; [exact Hexisting|].
  split; [unfold fetch_and_write; rewrite Heq'; reflexivity|].
  split; [rewrite Hpaths; intros []| exact Hev].
Qed.

End SafeMapping.

(** ** The parser never runs out of fuel *)

Lemma skip_ws_length (s : string) : (String.length (skip_ws s) <= String.length s)%nat.
Proof.
  induction s as [|c s IH]; simpl; [lia|].
  destruct (is_ws c); simpl; lia.
Qed.

Lemma strip_prefix_length (p s rest : string) :
  strip_prefix p s = Some rest ->
  (String.length rest + String.length p = String.length s)%nat.
Proof.
  revert s. induction p as [|a p IH]; intros [|b s]; simpl; intros Hs;
    try discriminate.
  - injection Hs as <-. reflexivity.
  - injection Hs as <-. simpl. lia.
  - destruct (Ascii.eqb a b); [|discriminate]. apply IH in Hs. lia.
Qed.

Lemma span_num_length (s : string) :
  (String.length (fst (span_num s)) + String.length (snd (span_num s))
   = String.length s)%nat.
Proof.
  induction s as [|c s IH]; simpl; [reflexivity|].
  destruct (is_num_char c); simpl; [|reflexivity].
  destruct (span_num s) as [l r]. simpl in *. lia.
Qed.

Lemma parse_string_units_total (s : string) :
  parse_string_units s <> OutOfFuel
  /\ forall us rest, parse_string_units s = Parsed us rest ->
                     (String.length rest < String.length s)%nat.
Proof.
  induction s as [s IH] using (well_founded_induction
                                 (Wf_nat.well_founded_ltof _ String.length)).
  assert (Hrec : forall s' (u : string_unit),
            (String.length s' < String.length s)%nat ->
            match parse_string_units s' with
            | Parsed us rest => Parsed (u :: us) rest
            | other => other
            end <> OutOfFuel
            /\ forall us rest,
                 match parse_string_units s' with
                 | Parsed us rest => Parsed (u :: us) rest
                 | other => other
                 end = Parsed us rest ->
                 (String.length rest < String.length s)%nat).
  { intros s' u Hlt. destruct (IH s' Hlt) as [Hne Hlen].
    destruct (parse_string_units s') as [us rest| |]; split; try congruence.
    intros us' rest' [= <- <-]. specialize (Hlen us rest eq_refl). lia. }
  destruct s as [|c s1]; [split; [discriminate | discriminate]|].
  cbn [parse_string_units].
  destruct (Ascii.eqb c dquote).
  { split; [discriminate|]. intros us rest [= <- <-]. simpl. lia. }
  destruct (Ascii.eqb c backslash).
  - destruct s1 as [|e s2]; [split; discriminate|].
    repeat match goal with
           | |- context [if Ascii.eqb e ?x then _ else _] =>
               destruct (Ascii.eqb e x);
               [apply Hrec; simpl; lia|]
           end.
    destruct (Ascii.eqb e "u"); [|split; discriminate].
    destruct s2 as [|h1 [|h2 [|h3 [|h4 s3]]]]; try (split; discriminate).
    destruct (hex4 h1 h2 h3 h4); [|split; discriminate].
    apply Hrec. simpl. lia.
  - destruct (N_of_ascii c <? 32)%N; [split; discriminate|].
    apply Hrec. simpl. lia.
Qed.

Lemma parse_string_total (s : string) :
  parse_string s <> OutOfFuel
  /\ forall str rest, parse_string s = Parsed str rest ->
                      (String.length rest < String.length s)%nat.
Proof.
  unfold parse_string. destruct (parse_string_units_total s) as [Hne Hlen].
  destruct (parse_string_units s) as [us rest| |]; split; try congruence.
  intros str rest' [= <- <-]. apply (Hlen us rest eq_refl).
Qed.

Section ParseTotal.
Context {JN : JSNumber}.

Lemma parse_literal_total (s : string) :
  parse_literal s <> OutOfFuel
  /\ forall v rest, parse_literal s = Parsed v rest ->
                    (String.length rest < String.length s)%nat.
Proof.
  unfold parse_literal.
  destruct (strip_prefix "true" s) as [r|] eqn:Ht.
  { split; [discriminate|]. intros v rest [= <- <-].
    apply strip_prefix_length in Ht. simpl in Ht. lia. }
  destruct (strip_prefix "false" s) as [r|] eqn:Hf.
  { split; [discriminate|]. intros v rest [= <- <-].
    apply strip_prefix_length in Hf. simpl in Hf. lia. }
  destruct (strip_prefix "null" s) as [r|] eqn:Hn.
  { split; [discriminate|]. intros v rest [= <- <-].
    apply strip_prefix_length in Hn. simpl in Hn. lia. }
  pose proof (span_num_length s) as Hspan.
  destruct (span_num s) as [lexeme rest]. cbn [fst snd] in Hspan.
  destruct lexeme as [|c lexeme]; [split; discriminate|].
  destruct (Ascii.eqb c "-" || is_digit c); [|split; discriminate].
  destruct (Number_ofJSON (String c lexeme)); split; try discriminate.
  intros v rest' [= <- <-]. simpl in Hspan. lia.
Qed.

(** With two units of fuel for every character, no call of the three
    parsing functions runs out, and what is left after a value is shorter
    than what was there. *)
Lemma parse_total (fuel : nat) :
  (forall s, (2 * String.length s < fuel)%nat ->
     parse_value fuel s <> OutOfFuel
     /\ forall v rest, parse_value fuel s = Parsed v rest ->
                       (String.length rest < String.length s)%nat)
  /\ (forall acc s, (2 * String.length s + 2 <= fuel)%nat ->
        parse_elements fuel acc s <> OutOfFuel
        /\ forall v rest, parse_elements fuel acc s = Parsed v rest ->
                          (String.length rest < String.length s)%nat)
  /\ (forall acc s, (2 * String.length s + 2 <= fuel)%nat ->
        parse_members fuel acc s <> OutOfFuel
        /\ forall v rest, parse_members fuel acc s = Parsed v rest ->
                          (String.length rest < String.length s)%nat).
Proof.
  induction fuel as [|fuel [IHv [IHe IHm]]].
  - split; [|split]; intros; lia.
  - split; [|split].
    + intros s Hfuel. cbn [parse_value].
      pose proof (skip_ws_length s) as Hskip.
      destruct (skip_ws s) as [|c s1]; [split; discriminate|].
      cbn [String.length] in Hskip.
      destruct (Ascii.eqb c "[").
      { pose proof (skip_ws_length s1) as Hskip1.
        destruct (skip_ws s1) as [|c2 s2]; [split; discriminate|].
        cbn [String.length] in Hskip1.
        destruct (Ascii.eqb c2 "]").
        - split; [discriminate|]. intros v rest [= <- <-]. lia.
        - destruct (IHe [] s1 ltac:(lia)) as [Hne Hlen].
          split; [exact Hne|]. intros v rest Hp. specialize (Hlen v rest Hp). lia. }
      destruct (Ascii.eqb c "{").
      { pose proof (skip_ws_length s1) as Hskip1.
        destruct (skip_ws s1) as [|c2 s2]; [split; discriminate|].
        cbn [String.length] in Hskip1.
        destruct (Ascii.eqb c2 "}").
        - split; [discriminate|]. intros v rest [= <- <-]. lia.
        - destruct (IHm [] s1 ltac:(lia)) as [Hne Hlen].
          split; [exact Hne|]. intros v rest Hp. specialize (Hlen v rest Hp). lia. }
      destruct (Ascii.eqb c dquote).
      { destruct (parse_string_total s1) as [Hne Hlen].
        destruct (parse_string s1) as [str rest| |]; split; try congruence.
        intros v rest' [= <- <-]. specialize (Hlen str rest eq_refl). lia. }
      destruct (parse_literal_total (String c s1)) as [Hne Hlen].
      split; [exact Hne|]. intros v rest Hp. specialize (Hlen v rest Hp).
      cbn [String.length] in Hlen. lia.
    + intros acc s Hfuel. cbn [parse_elements].
      destruct (IHv s ltac:(lia)) as [Hne Hlen].
      destruct (parse_value fuel s) as [v s1| |]; [|split; discriminate | congruence].
      specialize (Hlen v s1 eq_refl).
      pose proof (skip_ws_length s1) as Hskip.
      destruct (skip_ws s1) as [|c s2]; [split; discriminate|].
      cbn [String.length] in Hskip.
      destruct (Ascii.eqb c ",").
      * destruct (IHe (v :: acc) s2 ltac:(lia)) as [Hne' Hlen'].
        split; [exact Hne'|]. intros v' rest Hp. specialize (Hlen' v' rest Hp). lia.
      * destruct (Ascii.eqb c "]"); split; try discriminate.
        intros v' rest [= <- <-]. lia.
    + intros acc s Hfuel. cbn [parse_members].
      pose proof (skip_ws_length s) as Hskip.
      destruct (skip_ws s) as [|q s1]; [split; discriminate|].
      cbn [String.length] in Hskip.
      destruct (Ascii.eqb q dquote); [|split; discriminate].
      destruct (parse_string_total s1) as [Hnes Hlens].
      destruct (parse_string s1) as [key s2| |]; [|split; discriminate | congruence].
      specialize (Hlens key s2 eq_refl).
      pose proof (skip_ws_length s2) as Hskip2.
      destruct (skip_ws s2) as [|c s3]; [split; discriminate|].
      cbn [String.length] in Hskip2.
      destruct (Ascii.eqb c ":"); [|split; discriminate].
      destruct (IHv s3 ltac:(lia)) as [Hne Hlen].
      destruct (parse_value fuel s3) as [v s4| |]; [|split; discriminate | congruence].
      specialize (Hlen v s4 eq_refl).
      pose proof (skip_ws_length s4) as Hskip4.
      destruct (skip_ws s4) as [|d s5]; [split; discriminate|].
      cbn [String.length] in Hskip4.
      destruct (Ascii.eqb d ",").
      * destruct (IHm (obj_set acc key v) s5 ltac:(lia)) as [Hne' Hlen'].
        split; [exact Hne'|]. intros v' rest Hp. specialize (Hlen' v' rest Hp). lia.
      * destruct (Ascii.eqb d "}"); split; try discriminate.
        intros v' rest [= <- <-]. lia.
Qed.

(** [JSON.parse] gives a value or throws. *)
Lemma JSON_parse_total {H : Host} (text : string) : JSON_parse text <> Diverge.
Proof.
  unfold JSON_parse, JSON_parse_with.
  destruct (parse_total (S (2 * String.length text))) as [Hv _].
  destruct (Hv text ltac:(lia)) as [Hne _].
  destruct (parse_value (S (2 * String.length text)) text) as [v rest| |];
    [|discriminate | congruence].
  destruct (skip_ws rest); discriminate.
Qed.

End ParseTotal.

(** ** What the extractor and the mapper keep *)

Section KeepFacts.
Context {A : Type}.
Implicit Types (o : list (string * A)) (k : string) (v : A).

Lemma obj_get_replace_same o k v :
  obj_has o k = true -> obj_get (obj_replace o k v) k = Some v.
Proof.
  unfold obj_has. induction o as [|[k0 v0] o IH]; simpl.
  - discriminate.
  - destruct (k =? k0) eqn:Hk; simpl.
    + rewrite Hk. reflexivity.
    + rewrite Hk. exact IH.
Qed.

Lemma obj_get_insert_index_same o i k v :
  obj_get o k = None -> obj_get (obj_insert_index o i k v) k = Some v.
Proof.
  induction o as [|[k0 v0] o IH]; simpl; intros Hnone.
  - rewrite String.eqb_refl. reflexivity.
  - destruct (k =? k0) eqn:Hk; [discriminate|].
    destruct (array_index k0) as [j|].
    + destruct (j <? i)%N; simpl.
      * rewrite Hk. apply IH, Hnone.
      * rewrite String.eqb_refl. reflexivity.
    + simpl. rewrite String.eqb_refl. reflexivity.
Qed.

Lemma obj_get_app_same o k v :
  obj_get o k = None -> obj_get (o ++ [(k, v)]) k = Some v.
Proof.
  induction o as [|[k0 v0] o IH]; simpl; intros Hnone.
  - rewrite String.eqb_refl. reflexivity.
  - destruct (k =? k0); [discriminate | apply IH, Hnone].
Qed.

Lemma obj_get_set_same o k v : obj_get (obj_set o k v) k = Some v.
Proof.
  unfold obj_set. destruct (obj_has o k) eqn:Hhas.
  - apply obj_get_replace_same, Hhas.
  - assert (Hnone : obj_get o k = None).
    { unfold obj_has in Hhas. destruct (obj_get o k); [discriminate | reflexivity]. }
    destruct (array_index k).
    + apply obj_get_insert_index_same, Hnone.
    + apply obj_get_app_same, Hnone.
Qed.

Lemma obj_get_assign_same o k v :
  (k =? "__proto__") = false -> obj_get (js_assign o k v) k = Some v.
Proof.
  intros Hk. unfold js_assign. rewrite Hk. apply obj_get_set_same.
Qed.

Lemma obj_get_keys o k :
  In k (obj_keys o) <-> obj_get o k <> None.
Proof.
  unfold obj_keys. induction o as [|[k0 v0] o IH]; simpl.
  - split; [contradiction | congruence].
  - destruct (k =? k0) eqn:Hk.
    + apply String.eqb_eq in Hk. subst k0. split; [discriminate | auto].
    + apply String.eqb_neq in Hk. rewrite <- IH. split.
      * intros [Heq | Hin]; [congruence | exact Hin].
      * auto.
Qed.

End KeepFacts.

Section MapperFacts.
Context {JN : JSNumber} {H : Host}.

Lemma extract_all_get (excludedProperties : list string)
    (props : list (string * property)) (k : string) :
  (k =? "__proto__") = false ->
  obj_get (extract_all excludedProperties props) k = kept excludedProperties props k.
Proof.
  intros Hproto. unfold extract_all.
  set (step := fun (event : object) key =>
                 if existsb (String.eqb key) excludedProperties then event
                 else
                   let value := extractPropertyValue (props_get props key) in
                   if is_nullish value then event else js_assign event key value).
  assert (Hinv : forall keys (event : object),
            (forall key, In key keys -> In key (obj_keys props)) ->
            obj_get (fold_left step keys event) k
            = if existsb (String.eqb k) keys
              then match kept excludedProperties props k with
                   | Some v => Some v
                   | None => obj_get event k
                   end
              else obj_get event k).
  { induction keys as [|key keys IH]; intros event Hsub; cbn [fold_left existsb].
    - reflexivity.
    - rewrite IH by (intros key' Hin; apply Hsub; right; exact Hin).
      assert (Hkey : In key (obj_keys props)) by (apply Hsub; left; reflexivity).
      destruct (k =? key) eqn:Hk.
      + apply String.eqb_eq in Hk. subst key. cbn [orb].
        assert (Hstep : obj_get (step event k) k
                        = match kept excludedProperties props k with
                          | Some v => Some v
                          | None => obj_get event k
                          end).
        { unfold step, kept, props_get.
          apply obj_get_keys in Hkey.
          destruct (obj_get props k) as [p|]; [|congruence].
          destruct (existsb (String.eqb k) excludedProperties); [reflexivity|].
          cbv zeta.
          destruct (is_nullish (extractPropertyValue p)); [reflexivity|].
          apply obj_get_assign_same, Hproto. }
        rewrite Hstep.
        destruct (existsb (String.eqb k) keys); [|reflexivity].
        destruct (kept excludedProperties props k); reflexivity.
      + cbn [orb].
        assert (Hstep : obj_get (step event key) k = obj_get event k).
        { unfold step.
          destruct (existsb (String.eqb key) excludedProperties); [reflexivity|].
          cbv zeta.
          destruct (is_nullish _); [reflexivity|].
          apply obj_get_assign_other, Hk. }
        rewrite Hstep. reflexivity. }
  rewrite Hinv by auto.
  cbn [obj_get].
  destruct (existsb (String.eqb k) (obj_keys props)) eqn:Hin.
  - destruct (kept excludedProperties props k); reflexivity.
  - unfold kept.
    destruct (obj_get props k) as [p|] eqn:Hget; [|reflexivity].
    assert (Hk : In k (obj_keys props)) by (apply obj_get_keys; congruence).
    assert (Hex : existsb (String.eqb k) (obj_keys props) = true).
    { apply existsb_exists. exists k. split; [exact Hk | apply String.eqb_refl]. }
    congruence.
Qed.

Lemma formatDatePretty_returns (dateString : value) :
  formatDatePretty dateString <> Diverge.
Proof.
  unfold formatDatePretty.
  destruct (negb (truthy dateString)); [discriminate|].
  destruct (Date_new dateString); discriminate.
Qed.

Lemma add_datePretty_returns (event : object) : add_datePretty event <> Diverge.
Proof.
  unfold add_datePretty.
  destruct (truthy (js_get event "Date")).
  - pose proof (formatDatePretty_returns (js_get event "Date")) as Hf.
    destruct (formatDatePretty (js_get event "Date")) as [pretty| |];
      cbn [bind]; [|discriminate | congruence].
    destruct (negb _ && _); [|discriminate].
    pose proof (formatDatePretty_returns
                  (js_get (js_assign event "datePretty" pretty) "date")) as Hg.
    destruct (formatDatePretty _) as [pretty2| |]; cbn [bind];
      [discriminate | discriminate | congruence].
  - cbn [bind].
    destruct (negb _ && _); [|discriminate].
    pose proof (formatDatePretty_returns (js_get event "date")) as Hg.
    destruct (formatDatePretty _) as [pretty2| |]; cbn [bind];
      [discriminate | discriminate | congruence].
Qed.

Lemma mapEvent_returns (pg : page) :
  FetchEvents.mapEvent pg <> Diverge /\ FetchEventsWithStatus.mapEvent pg <> Diverge.
Proof.
  split; apply add_datePretty_returns.
Qed.

Lemma map_result_returns {X Y : Type} (f : X -> result Y) (l : list X) :
  (forall x, In x l -> f x <> Diverge) -> map_result f l <> Diverge.
Proof.
  induction l as [|x l IH]; cbn [map_result]; intros Hf.
  - discriminate.
  - pose proof (Hf x (or_introl eq_refl)) as Hx.
    destruct (f x) as [y| |]; cbn [bind]; [|discriminate | congruence].
    assert (Hl : map_result f l <> Diverge)
      by (apply IH; intros x' Hin; apply Hf; right; exact Hin).
    destruct (map_result f l) as [ys| |]; cbn [bind];
      [discriminate | discriminate | congruence].
Qed.

Lemma map_result_throws {X Y : Type} (f : X -> result Y) (l : list X) (x : X) (e : exn) :
  (forall x', In x' l -> f x' <> Diverge) ->
  In x l -> f x = Throw e ->
  exists e', map_result f l = Throw e'.
Proof.
  induction l as [|x0 l IH]; cbn [map_result]; intros Hf Hin Hx.
  - contradiction.
  - pose proof (Hf x0 (or_introl eq_refl)) as Hx0.
    destruct (f x0) as [y| |] eqn:Hfx0; cbn [bind].
    + destruct Hin as [-> | Hin]; [congruence|].
      destruct (IH (fun x' Hin' => Hf x' (or_intror Hin')) Hin Hx) as [e' He'].
      rewrite He'. cbn [bind]. exists e'. reflexivity.
    + eexists. reflexivity.
    + congruence.
Qed.

Lemma map_result_length {X Y : Type} (f : X -> result Y) (l : list X) (ys : list Y) :
  map_result f l = Ok ys -> List.length ys = List.length l.
Proof.
  revert ys. induction l as [|x l IH]; cbn [map_result]; intros ys Hmap.
  - injection Hmap as <-. reflexivity.
  - destruct (f x) as [y| |]; cbn [bind] in Hmap; try discriminate.
    destruct (map_result f l) as [rest| |]; cbn [bind] in Hmap; try discriminate.
    injection Hmap as <-. cbn [List.length]. rewrite (IH rest eq_refl). reflexivity.
Qed.

End MapperFacts.

(** X1.  Whatever the property, [extractPropertyValue] never answers with
    [undefined] nor with the empty string (empty text is turned into
    [null]), and an array it answers with holds no [null]. *)
Theorem extractPropertyValue_never_blank {JN : JSNumber} (p : property) :
  extractPropertyValue p <> VUndefined
  /\ extractPropertyValue p <> VStr ""
  /\ forall items, extractPropertyValue p = VArr items -> ~ In VNull items.
Proof.
  assert (Hstr : forall s, str_or_null s <> VUndefined /\ str_or_null s <> VStr ""
                           /\ forall items, str_or_null s = VArr items -> ~ In VNull items).
  { intros s. unfold str_or_null. destruct (s =? "") eqn:Hs.
    - repeat split; try discriminate.
    - repeat split; try discriminate.
      intros [= ->]. rewrite String.eqb_refl in Hs. discriminate. }
  assert (Hopt : forall o, opt_str_or_null o <> VUndefined /\ opt_str_or_null o <> VStr ""
                           /\ forall items, opt_str_or_null o = VArr items -> ~ In VNull items).
  { intros [s|]; [apply Hstr|]. repeat split; discriminate. }
  assert (Hplain : forall o, plain_text_or_null o <> VUndefined
                             /\ plain_text_or_null o <> VStr ""
                             /\ forall items, plain_text_or_null o = VArr items ->
                                              ~ In VNull items).
  { intros [l|]; [apply Hstr|]. repeat split; discriminate. }
  assert (Hdate : forall o, date_start_or_null o <> VUndefined
                            /\ date_start_or_null o <> VStr ""
                            /\ forall items, date_start_or_null o = VArr items ->
                                             ~ In VNull items).
  { intros [d|]; [apply Hstr|]. repeat split; discriminate. }
  assert (Hstrings : forall o, strings_or_empty o <> VUndefined
                               /\ strings_or_empty o <> VStr ""
                               /\ forall items, strings_or_empty o = VArr items ->
                                                ~ In VNull items).
  { intros [l|]; cbn [strings_or_empty]; (split; [discriminate|]);
      (split; [discriminate|]); intros items [= <-]; [|intros []].
    intros Hin. apply in_map_iff in Hin as [s [Hs _]]. discriminate. }
  assert (Hnum : forall o, num_or_null o <> VUndefined /\ num_or_null o <> VStr ""
                           /\ forall items, num_or_null o = VArr items -> ~ In VNull items).
  { intros [n|]; repeat split; discriminate. }
  destruct p as [t|t|n|o|o|d|b|o|o|o|o|o|[array|] [n|]|f|o|o|o|o|o|[files|]|t|];
    cbn [extractPropertyValue]; auto.
  - repeat split; discriminate.
  - split; [discriminate|]. split; [discriminate|].
    intros items [= <-] Hin. apply filter_In in Hin as [_ Hnull]. discriminate.
  - split; [discriminate|]. split; [discriminate|].
    intros items [= <-] Hin. apply filter_In in Hin as [_ Hnull]. discriminate.
  - unfold js_or. cbn [truthy]. destruct (negb (number_is_falsy n));
      repeat split; discriminate.
  - repeat split; discriminate.
  - destruct f as [s|n|[b|]|d|]; cbn [extractFormula]; auto;
      repeat split; discriminate.
  - split; [discriminate|]. split; [discriminate|].
    intros items [= <-] Hin. apply in_map_iff in Hin as [f [Hf _]].
    unfold file_entry in Hf. discriminate.
  - split; [discriminate|]. split; [discriminate|].
    intros items [= <-] [].
  - repeat split; discriminate.
  - repeat split; discriminate.
Qed.

(** X2.  An event holds under a key exactly what the extractor made of the
    page property of that name: nothing when the page has no such
    property, when the key is excluded, or when the value is [null];
    the extracted value otherwise.  So [false] and [0] are kept, no key
    is invented, and the variant with the status updater keeps [Place]
    out as well. *)
Theorem mapEvent_keeps_extracted_values {JN : JSNumber} {H : Host}
    (pg : page) (event : object) (k : string) :
  k <> "datePretty" -> k <> "__proto__" ->
  (FetchEvents.mapEvent pg = Ok event ->
   obj_get event k = kept FetchEvents.excludedProperties (page_properties pg) k)
  /\ (FetchEventsWithStatus.mapEvent pg = Ok event ->
      obj_get event k
      = if existsb (String.eqb k) ["Place Name"; "Place Link"; "Place"] then None
        else kept FetchEventsWithStatus.excludedProperties (page_properties pg) k).
Proof.
  intros Hpretty Hproto.
  apply String.eqb_neq in Hpretty. apply String.eqb_neq in Hproto.
  split; intros Hmap.
  - unfold FetchEvents.mapEvent in Hmap.
    rewrite (add_datePretty_other _ _ _ Hmap Hpretty).
    apply extract_all_get, Hproto.
  - unfold FetchEventsWithStatus.mapEvent in Hmap.
    rewrite (add_datePretty_other _ _ _ Hmap Hpretty).
    rewrite !obj_get_delete.
    rewrite (extract_all_get _ _ _ Hproto).
    cbn [existsb].
    rewrite (String.eqb_sym k "Place Name"), (String.eqb_sym k "Place Link"),
      (String.eqb_sym k "Place").
    destruct ("Place" =? k); [rewrite !orb_true_r; reflexivity|].
    destruct ("Place Link" =? k); [rewrite !orb_true_r; reflexivity|].
    destruct ("Place Name" =? k); reflexivity.
Qed.

(** ** How a run of the fetch script ends *)

Section EndFacts.
Context {JN : JSNumber} {H : Host}.

Lemma js_get_assign_same (event : object) (k : string) (v : value) :
  (k =? "__proto__") = false -> js_get (js_assign event k v) k = v.
Proof.
  intros Hk. unfold js_get. rewrite obj_get_assign_same by exact Hk. reflexivity.
Qed.

Lemma js_get_assign_other (event : object) (k k' : string) (v : value) :
  (k' =? k) = false -> js_get (js_assign event k v) k' = js_get event k'.
Proof.
  intros Hk. unfold js_get. rewrite obj_get_assign_other by exact Hk. reflexivity.
Qed.

(** The first [if] of the two that add [datePretty]. *)
Lemma add_datePretty_dated (event event' : object) :
  truthy (js_get event "Date") = true ->
  add_datePretty event = Ok event' ->
  exists t,
    Date_new (js_get event "Date") = Some t
    /\ (truthy (js_get event "date") = false ->
        js_get event' "datePretty"
        = VStr (remove_first_comma (DateTimeFormat_format t))).
Proof.
  intros Hdate Hadd. unfold add_datePretty in Hadd. rewrite Hdate in Hadd.
  unfold formatDatePretty at 1 in Hadd. rewrite Hdate in Hadd. cbn [negb] in Hadd.
  destruct (Date_new (js_get event "Date")) as [t|]; cbn [bind] in Hadd;
    [|discriminate].
  exists t. split; [reflexivity|].
  intros Hlower.
  rewrite (js_get_assign_other event "datePretty" "date") in Hadd by reflexivity.
  rewrite Hlower, andb_false_r in Hadd.
  injection Hadd as <-. apply js_get_assign_same. reflexivity.
Qed.

Lemma add_datePretty_invalid (event : object) :
  truthy (js_get event "Date") = true ->
  Date_new (js_get event "Date") = None ->
  add_datePretty event = Throw RangeError.
Proof.
  intros Hdate Hnew. unfold add_datePretty. rewrite Hdate.
  unfold formatDatePretty at 1. rewrite Hdate, Hnew. reflexivity.
Qed.

Lemma getExistingEventsHash_returns (fs : FS) : getExistingEventsHash fs <> Diverge.
Proof.
  unfold getExistingEventsHash.
  destruct (readFile (events_json fs)) as [content|e|] eqn:Hread; cbn [bind].
  - pose proof (JSON_parse_total content) as Hp.
    destruct (JSON_parse content) as [events|e|]; cbn [bind]; [| |congruence].
    + unfold computeEventsHash. destruct (JSON_stringify events); [discriminate|].
      cbn [is_ENOENT]. discriminate.
    + destruct (is_ENOENT e); discriminate.
  - destruct (is_ENOENT e); discriminate.
  - destruct (events_json fs); discriminate Hread.
Qed.

Lemma getDatabaseLastEditedTime_retrieved (notion : Notion) (timestamp : string) :
  getDatabaseLastEditedTime notion = Some timestamp ->
  databases_retrieve notion = Ok timestamp.
Proof.
  unfold getDatabaseLastEditedTime.
  destruct (databases_retrieve notion); congruence.
Qed.

Lemma fetch_and_write_try_returns (mapEvent : page -> result object)
    (notion : Notion) (fs : FS) :
  databases_query notion main_query <> Diverge ->
  (forall pg, mapEvent pg <> Diverge) ->
  snd (fetch_and_write_try mapEvent notion fs) <> Diverge.
Proof.
  intros Hq Hm. unfold fetch_and_write_try.
  destruct (databases_query notion main_query) as [response|e|]; cbn [bind];
    [|discriminate | congruence].
  pose proof (map_result_returns mapEvent (results response) (fun pg _ => Hm pg)) as Hmap.
  destruct (map_result mapEvent (results response)) as [events|e|]; cbn [bind];
    [|discriminate | congruence].
  destruct (computeEventsHash_array (map VObj (filter is_valid_event events)))
    as [content [Hc Hh]].
  unfold events_value. rewrite Hh. cbn [bind].
  pose proof (getExistingEventsHash_returns fs) as Hex.
  destruct (getExistingEventsHash fs) as [existingHash|e|]; cbn [bind];
    [|discriminate | congruence].
  assert (Hfinish : forall st, snd (finish (getDatabaseLastEditedTime notion) st)
                               <> Diverge).
  { intros st. rewrite finish_by_checkpoint. cbn [snd].
    destruct (record_checkpoint_ends (getDatabaseLastEditedTime notion) st)
      as [-> | [code [ts [_ [_ ->]]]]]; discriminate. }
  destruct (unchanged _ _); [apply Hfinish|].
  unfold publish, writeFile.
  destruct mkdir_public as [[]|e|] eqn:Hdir; [|discriminate|].
  - destruct (JSON_stringify_pretty _); [|discriminate].
    destruct (writeFile_rejected path_events_json); [discriminate | apply Hfinish].
  - unfold mkdir_public in Hdir. destruct (mkdir_rejected path_public) as [code|];
      [destruct (code =? "EEXIST")|]; discriminate Hdir.
Qed.

Lemma fetch_and_write_returns (mapEvent : page -> result object)
    (notion : Notion) (fs : FS) :
  databases_query notion main_query <> Diverge ->
  (forall pg, mapEvent pg <> Diverge) ->
  fetch_and_write mapEvent notion fs <> Diverge.
Proof.
  intros Hq Hm. pose proof (fetch_and_write_try_returns mapEvent notion fs Hq Hm) as Hret.
  unfold fetch_and_write.
  destruct (fetch_and_write_try mapEvent notion fs) as [st [code|e|]]; cbn [bind snd] in *;
    [discriminate | discriminate | congruence].
Qed.

(** What the checkpoint step has done when it ended well. *)
Lemma record_checkpoint_done (d : option string) (st st' : FS * list string) :
  record_checkpoint d st = (st', Ok tt) ->
  match d with
  | Some ts =>
      if ts =? "" then st' = st
      else st' = ({| last_sync := written_over (last_sync (fst st)) ts;
                     events_json := events_json (fst st) |},
                  (snd st ++ [path_last_sync])%list)
  | None => st' = st
  end.
Proof.
  unfold record_checkpoint, writeLastSyncTimestamp, writeFile, nonempty.
  destruct d as [ts|]; [|intros [= <-]; reflexivity].
  destruct (ts =? ""); cbn [negb]; [intros [= <-]; reflexivity|].
  destruct (writeFile_rejected path_last_sync); [discriminate|].
  intros [= <-]. reflexivity.
Qed.

Lemma written_over_readable (f : file) (data : string) :
  readable_or_missing f = true -> written_over f data = File data.
Proof.
  destruct f as [|code|content]; cbn [readable_or_missing written_over];
    [reflexivity | | reflexivity].
  intros ->. reflexivity.
Qed.

Lemma fetch_and_write_code (mapEvent : page -> result object)
    (notion : Notion) (fs fs' : FS) (paths : list string) (code : nat) :
  fetch_and_write mapEvent notion fs = Ok (fs', paths, code) ->
  code = 0%nat
  /\ exists st,
       record_checkpoint (getDatabaseLastEditedTime notion) st = ((fs', paths), Ok tt)
       /\ last_sync (fst st) = last_sync fs
       /\ ~ In path_last_sync (snd st).
Proof.
  unfold fetch_and_write, fetch_and_write_try. intros Hrun.
  destruct (databases_query notion main_query) as [response|e|]; cbn [bind] in Hrun;
    try discriminate.
  destruct (map_result mapEvent (results response)) as [events|e|]; cbn [bind] in Hrun;
    try discriminate.
  destruct (computeEventsHash _) as [newHash|e|]; cbn [bind] in Hrun; try discriminate.
  destruct (getExistingEventsHash fs) as [existingHash|e|]; cbn [bind] in Hrun;
    try discriminate.
  destruct (unchanged newHash existingHash).
  - rewrite finish_by_checkpoint in Hrun.
    destruct (record_checkpoint _ (fs, [])) as [st [[]|e|]] eqn:Hrc; cbn in Hrun;
      try discriminate Hrun.
    injection Hrun as -> <-. split; [reflexivity|].
    exists (fs, []). split; [exact Hrc|]. split; [reflexivity|]. intros [].
  - unfold publish, writeFile in Hrun.
    destruct mkdir_public as [[]|e|]; [|discriminate Hrun ..].
    destruct (JSON_stringify_pretty _) as [text|]; [|discriminate Hrun].
    destruct (writeFile_rejected path_events_json); [discriminate Hrun|].
    rewrite finish_by_checkpoint in Hrun.
    destruct (record_checkpoint _ _) as [st [[]|e|]] eqn:Hrc; cbn in Hrun;
      try discriminate Hrun.
    injection Hrun as -> <-. split; [reflexivity|].
    eexists. split; [exact Hrc|]. split; [reflexivity|].
    cbn [snd]. intros [Hbad | []]. discriminate Hbad.
Qed.

End EndFacts.

(** X3.  When the [Date] of a mapped event is truthy, the mapping only
    succeeds if that value is a valid date, and then, unless a lower-case
    [date] is there as well, [datePretty] is the [en-GB] text of the date
    with its first comma taken out. *)
Theorem mapEvent_adds_datePretty {JN : JSNumber} {H : Host}
    (pg : page) (event : object) :
  FetchEvents.mapEvent pg = Ok event \/ FetchEventsWithStatus.mapEvent pg = Ok event ->
  truthy (js_get event "Date") = true ->
  exists t,
    Date_new (js_get event "Date") = Some t
    /\ (truthy (js_get event "date") = false ->
        js_get event "datePretty"
        = VStr (remove_first_comma (DateTimeFormat_format t))).
Proof.
  intros Hmap Hdate.
  assert (Hadd : exists before,
             add_datePretty before = Ok event).
  { destruct Hmap as [Hmap | Hmap]; eexists; exact Hmap. }
  destruct Hadd as [before Hadd].
  assert (Hsame : forall k, (k =? "datePretty") = false ->
                            js_get event k = js_get before k).
  { intros k Hk. unfold js_get. rewrite (add_datePretty_other _ _ _ Hadd Hk).
    reflexivity. }
  rewrite (Hsame "Date" eq_refl) in Hdate.
  destruct (add_datePretty_dated before event Hdate Hadd) as [t [Ht Hpretty]].
  exists t. rewrite (Hsame "Date" eq_refl), (Hsame "date" eq_refl).
  split; assumption.
Qed.

(** X4.  One visible page whose [Date] property extracts to a truthy value
    that is not a valid date (a text property named [Date], say) makes
    [formatDatePretty] throw, and the whole run with it: the fetch script
    exits with 1 and writes neither file, whatever the other pages hold. *)
Theorem unparseable_date_aborts_run {JN : JSNumber} {H : Host}
    (notion : Notion) (fs : FS) (response : query_response)
    (pg : page) (p : property) :
  databases_query notion main_query = Ok response ->
  In pg (results response) ->
  obj_get (page_properties pg) "Date" = Some p ->
  truthy (extractPropertyValue p) = true ->
  Date_new (extractPropertyValue p) = None ->
  FetchEvents.mapEvent pg = Throw RangeError
  /\ FetchEvents.fetchAndWriteEvents notion fs
     = Ok {| exit_code := 1; files := fs; written := [];
             updates := []; waited := false |}.
Proof.
  intros Hq Hin Hprop Htruthy Hnew.
  assert (Hget : js_get (extract_all FetchEvents.excludedProperties (page_properties pg))
                   "Date" = extractPropertyValue p).
  { unfold js_get. rewrite extract_all_get by reflexivity.
    unfold kept. rewrite Hprop. cbn [existsb FetchEvents.excludedProperties].
    cbn [String.eqb Ascii.eqb Bool.eqb orb].
    destruct (extractPropertyValue p); try reflexivity; discriminate Htruthy. }
  assert (Hthrow : FetchEvents.mapEvent pg = Throw RangeError).
  { unfold FetchEvents.mapEvent. cbv zeta.
    apply add_datePretty_invalid; rewrite Hget; assumption. }
  split; [exact Hthrow|].
  destruct (map_result_throws FetchEvents.mapEvent (results response) pg RangeError
              (fun pg' _ => proj1 (mapEvent_returns pg')) Hin Hthrow) as [e He].
  unfold FetchEvents.fetchAndWriteEvents, fetch_and_write_try.
  rewrite Hq. cbn [bind]. rewrite He. reflexivity.
Qed.

(** X5.  Whenever the fetch succeeds, with or without a change of the
    events, the [last_edited_time] of the database has been written to
    [.last-sync], last of all, and the file reads as that time unless it
    is a file the script may write and not read; when the metadata request
    failed, or gave nothing, the file is left as it was and is not among
    the files written.  The exit code of such a run is 0. *)
Theorem checkpoint_follows_metadata {JN : JSNumber} {H : Host}
    (mapEvent : page -> result object) (notion : Notion)
    (fs fs' : FS) (paths : list string) (code : nat) :
  fetch_and_write mapEvent notion fs = Ok (fs', paths, code) ->
  code = 0%nat
  /\ match databases_retrieve notion with
     | Ok timestamp =>
         if timestamp =? "" then
           last_sync fs' = last_sync fs /\ ~ In path_last_sync paths
         else
           last_sync fs' = written_over (last_sync fs) timestamp
           /\ (readable_or_missing (last_sync fs) = true ->
               last_sync fs' = File timestamp)
           /\ exists before, paths = (before ++ [path_last_sync])%list
                             /\ ~ In path_last_sync before
     | _ => last_sync fs' = last_sync fs /\ ~ In path_last_sync paths
     end.
Proof.
  intros Hrun.
  destruct (fetch_and_write_code mapEvent notion fs fs' paths code Hrun)
    as [Hcode [[fs0 paths0] [Hst [Hlast Hfresh]]]].
  split; [exact Hcode|].
  cbn [fst snd] in Hlast, Hfresh.
  apply record_checkpoint_done in Hst.
  unfold getDatabaseLastEditedTime in Hst.
  destruct (databases_retrieve notion) as [timestamp|e|].
  - destruct (timestamp =? ""); cbn [fst snd] in Hst.
    + injection Hst as -> ->. split; assumption.
    + injection Hst as -> ->. cbn [last_sync]. rewrite Hlast.
      split; [reflexivity|].
      split; [intros Hread; apply written_over_readable, Hread|].
      exists paths0. split; [reflexivity | exact Hfresh].
  - injection Hst as -> ->. split; assumption.
  - injection Hst as -> ->. split; assumption.
Qed.

(** X6.  As long as the query is answered, the fetch script ends, with
    code 0 or 1, and it never sends an update to Notion.  A run that ends
    with 1 has either written nothing, both files being as they were, or
    it ended over a write that was refused: the output file (nothing is
    written, and the file is what the refused write left of it), or the
    checkpoint, after the output file was left alone or after it was
    replaced by the new collection.  The files are not rolled back.  On a
    host that refuses no write only the first is left. *)
Theorem failed_fetch_wrote_nothing_or_lost_checkpoint {JN : JSNumber} {H : Host}
    (notion : Notion) (fs : FS) :
  databases_query notion main_query <> Diverge ->
  exists o,
    FetchEvents.fetchAndWriteEvents notion fs = Ok o
    /\ (exit_code o = 0%nat \/ exit_code o = 1%nat)
    /\ updates o = []
    /\ (exit_code o = 1%nat ->
        (files o = fs /\ written o = [])
        \/ exists code text response events,
             databases_query notion main_query = Ok response
             /\ map_result FetchEvents.mapEvent (results response) = Ok events
             /\ JSON_stringify_pretty (events_value (filter is_valid_event events))
                = Some text
             /\ ((writeFile_rejected path_events_json = Some code
                  /\ files o
                     = {| last_sync := last_sync fs;
                          events_json :=
                            writeFile_leaves path_events_json text (events_json fs) |}
                  /\ written o = [])
                 \/ exists timestamp,
                      writeFile_rejected path_last_sync = Some code
                      /\ databases_retrieve notion = Ok timestamp
                      /\ last_sync (files o)
                         = writeFile_leaves path_last_sync timestamp (last_sync fs)
                      /\ ((events_json (files o) = events_json fs /\ written o = [])
                          \/ (events_json (files o) = File text
                              /\ written o = [path_events_json]))))
    /\ (writes_accepted -> exit_code o = 1%nat -> files o = fs /\ written o = []).
Proof.
  intros Hq.
  pose proof (fetch_and_write_try_returns FetchEvents.mapEvent notion fs Hq
                (fun pg => proj1 (mapEvent_returns pg))) as Hret.
  unfold FetchEvents.fetchAndWriteEvents, end_of_run.
  destruct (fetch_and_write_try FetchEvents.mapEvent notion fs) as [st [code|e|]]
    eqn:Hrun; cbn [snd] in Hret; [| |congruence].
  - assert (Hcode : code = 0%nat).
    { destruct st as [fs' paths].
      apply (fetch_and_write_code FetchEvents.mapEvent notion fs fs' paths code).
      unfold fetch_and_write. rewrite Hrun. reflexivity. }
    subst code.
    eexists. split; [reflexivity|]. cbn [exit_code files written updates].
    split; [left; reflexivity|]. split; [reflexivity|].
    split; discriminate.
  - eexists. split; [reflexivity|]. cbn [exit_code files written updates].
    split; [right; reflexivity|]. split; [reflexivity|].
    destruct (fetch_and_write_try_failed _ _ _ _ _ Hrun)
      as [-> | [code [text [response [events
                  [_ [Hquery [Hmap [Htext Hwhich]]]]]]]]].
    + split; [intros _; left; split; reflexivity|].
      intros _ _. split; reflexivity.
    + split.
      * intros _. right. exists code, text, response, events.
        split; [exact Hquery|]. split; [exact Hmap|]. split; [exact Htext|].
        destruct Hwhich as [[Hcode ->] | [ts [Hcode [Hd Hst]]]].
        -- left. repeat split; assumption.
        -- right. exists ts. split; [exact Hcode|].
           split; [apply getDatabaseLastEditedTime_retrieved, Hd|].
           destruct Hst as [-> | [_ [_ ->]]]; cbn [fst snd last_sync events_json].
           ++ split; [reflexivity|]. left. split; reflexivity.
           ++ split; [reflexivity|]. right. split; reflexivity.
      * intros [_ [Hw Hl]].
        destruct Hwhich as [[Hcode _] | [ts [Hcode _]]]; congruence.
Qed.

(** ** The status updater at its edges *)

Section UpdaterFacts.
Context {JN : JSNumber} {H : Host}.

Lemma date_has_passed_undated (now : Z) (pg : page) :
  match date_property pg with
  | Some (PDate (Some date)) => Date_new (VStr (date_start date)) = None
  | _ => True
  end ->
  date_has_passed now pg = false.
Proof.
  unfold date_has_passed, start_of_day_of.
  destruct (date_property pg) as [[]|]; try reflexivity.
  destruct date as [date|]; [|reflexivity].
  intros ->. reflexivity.
Qed.

End UpdaterFacts.

(** X7.  If a request of the paginated query fails, be it the second one,
    the status updater gives up as a whole: the pages it had already
    received get no update, it answers [false], and the fetch goes on as
    if there had been nothing to update: it ends with the files as its
    [try] block left them, which on a host that refuses no write is as
    they were when it fails. *)
Theorem failed_page_request_drops_all_updates {JN : JSNumber} {H : Host}
    (fuel : nat) (notion : Notion) (fs : FS) (now : Z)
    (chunk : list page) (next : option string) (e : exn) :
  databases_query notion (upcoming_query None)
  = Ok {| results := chunk; has_more := true; next_cursor := next |} ->
  databases_query notion (upcoming_query next) = Throw e ->
  (2 <= fuel)%nat ->
  FetchEventsWithStatus.updateEventStatusesInNotion fuel notion now
  = Ok {| FetchEventsWithStatus.returned := false;
          FetchEventsWithStatus.calls := [];
          FetchEventsWithStatus.updatedCount := 0 |}
  /\ FetchEventsWithStatus.fetchAndWriteEvents fuel notion fs now
     = match fetch_and_write_try FetchEventsWithStatus.mapEvent notion fs with
       | (fs', paths, Ok code) =>
           Ok {| exit_code := code; files := fs'; written := paths;
                 updates := []; waited := false |}
       | (fs', paths, Throw _) =>
           Ok {| exit_code := 1; files := fs'; written := paths;
                 updates := []; waited := false |}
       | (_, _, Diverge) => Diverge
       end
  /\ (writes_accepted ->
      FetchEventsWithStatus.fetchAndWriteEvents fuel notion fs now
      = match fetch_and_write FetchEventsWithStatus.mapEvent notion fs with
        | Ok (fs', paths, code) =>
            Ok {| exit_code := code; files := fs'; written := paths;
                  updates := []; waited := false |}
        | Throw _ =>
            Ok {| exit_code := 1; files := fs; written := [];
                  updates := []; waited := false |}
        | Diverge => Diverge
        end).
Proof.
  intros Hfirst Hsecond Hfuel.
  destruct fuel as [|[|fuel]]; try lia.
  assert (Hq : FetchEventsWithStatus.query_all (S (S fuel)) notion None [] = Throw e).
  { cbn [FetchEventsWithStatus.query_all].
    unfold upcoming_query in Hfirst, Hsecond.
    rewrite Hfirst. cbn [bind has_more next_cursor results].
    rewrite Hsecond. reflexivity. }
  assert (Hrun : FetchEventsWithStatus.updateEventStatusesInNotion (S (S fuel)) notion now
                 = Ok {| FetchEventsWithStatus.returned := false;
                         FetchEventsWithStatus.calls := [];
                         FetchEventsWithStatus.updatedCount := 0 |}).
  { unfold FetchEventsWithStatus.updateEventStatusesInNotion. rewrite Hq. reflexivity. }
  split; [exact Hrun|].
  unfold FetchEventsWithStatus.fetchAndWriteEvents. rewrite Hrun.
  cbn [bind FetchEventsWithStatus.returned FetchEventsWithStatus.calls].
  split.
  - unfold end_of_run.
    destruct (fetch_and_write_try FetchEventsWithStatus.mapEvent notion fs)
      as [[fs' paths] [code|e'|]]; reflexivity.
  - intros Hacc. apply end_of_run_accepted, Hacc.
Qed.

(** X8.  A page among those the query returned whose [Date] (or [date])
    property is missing, is not of type date, is empty, or holds a start
    that is not a valid date, is never sent an update, whatever the day. *)
Theorem undated_pages_are_left_alone {JN : JSNumber} {H : Host}
    (fuel : nat) (notion : Notion) (now : Z) (allPages : list page) (pg : page) :
  FetchEventsWithStatus.query_all fuel notion None [] = Ok allPages ->
  NoDup (map page_id allPages) ->
  In pg allPages ->
  match date_property pg with
  | Some (PDate (Some date)) => Date_new (VStr (date_start date)) = None
  | _ => True
  end ->
  exists r,
    FetchEventsWithStatus.updateEventStatusesInNotion fuel notion now = Ok r
    /\ calls_to (page_id pg) (FetchEventsWithStatus.calls r) = [].
Proof.
  intros Hq Hnd Hin Hdate.
  eexists. split; [apply updateEventStatuses_calls, Hq|].
  cbn [FetchEventsWithStatus.calls].
  rewrite (calls_to_filter now pg allPages Hin Hnd).
  rewrite (date_has_passed_undated now pg Hdate). reflexivity.
Qed.

(** X9.  When the store answers the query for upcoming events in several
    pages of results, the loop of the status updater follows the cursors
    to the end: it works on all the records of all the pages, in order,
    and the calls it makes are those for the records whose day has
    passed. *)
Theorem status_updater_reads_every_page {JN : JSNumber} {H : Host}
    (fuel : nat) (notion : Notion) (now : Z) (chunks : list (list page)) :
  serves notion None chunks ->
  (List.length chunks <= fuel)%nat ->
  FetchEventsWithStatus.query_all fuel notion None [] = Ok (List.concat chunks)
  /\ exists r,
       FetchEventsWithStatus.updateEventStatusesInNotion fuel notion now = Ok r
       /\ FetchEventsWithStatus.calls r
          = map (fun pg => (page_id pg, "Past"))
              (filter (date_has_passed now) (List.concat chunks)).
Proof.
  intros Hserves Hfuel.
  pose proof (query_all_serves notion chunks None Hserves fuel [] Hfuel) as Hq.
  cbn [app] in Hq.
  split; [exact Hq|].
  eexists. split; [apply updateEventStatuses_calls, Hq|]. reflexivity.
Qed.

(** X10.  The loop has no bound of its own: against a store that answers
    every request with [has_more] set, it never ends, however many
    requests it is allowed. *)
Theorem status_query_never_ends_on_endless_store {JN : JSNumber} {H : Host}
    (notion : Notion) :
  (forall q, exists response,
      databases_query notion q = Ok response /\ has_more response = true) ->
  forall fuel cursor acc,
    FetchEventsWithStatus.query_all fuel notion cursor acc = Diverge.
Proof.
  intros Hendless.
  induction fuel as [|fuel IH]; intros cursor acc; cbn [FetchEventsWithStatus.query_all].
  - reflexivity.
  - destruct (Hendless {| q_filter := VisibleUpcoming; q_sort_by_date := false;
                          q_start_cursor := cursor; q_page_size := None |})
      as [response [Hq Hmore]].
    rewrite Hq. cbn [bind]. rewrite Hmore. apply IH.
Qed.

(** ** When the checkers skip *)

Section SkipFacts.
Context {JN : JSNumber} {H : Host}.

Lemma nonempty_Some (s : string) : nonempty (Some s) = true <-> s <> "".
Proof.
  unfold nonempty. destruct (s =? "") eqn:Hs; cbn [negb].
  - apply String.eqb_eq in Hs. split; [discriminate | congruence].
  - apply String.eqb_neq in Hs. split; [intros _; exact Hs | reflexivity].
Qed.

Lemma getDatabaseLastEditedTime_Some (notion : Notion) (remote : string) :
  getDatabaseLastEditedTime notion = Some remote <-> databases_retrieve notion = Ok remote.
Proof.
  unfold getDatabaseLastEditedTime.
  destruct (databases_retrieve notion); split; congruence.
Qed.

(** White space at the start is stripped, one code point after another. *)
Lemma trim_start_white_space (cp : N) (s : string) :
  In cp white_space_code_points ->
  trim_start (utf8_encode cp ++ s) = trim_start s.
Proof.
  unfold white_space_code_points. intros Hin.
  repeat (destruct Hin as [<- | Hin]; [reflexivity|]).
  contradiction.
Qed.

Lemma trim_start_blank (cps : list N) :
  Forall (fun cp => In cp white_space_code_points) cps ->
  trim_start (utf8_text cps) = "".
Proof.
  induction 1 as [|cp cps Hcp _ IH]; cbn [utf8_text fold_right]; [reflexivity|].
  rewrite (trim_start_white_space cp _ Hcp). exact IH.
Qed.

Lemma trim_blank (cps : list N) :
  Forall (fun cp => In cp white_space_code_points) cps ->
  trim (utf8_text cps) = "".
Proof.
  intros Hall. unfold trim. rewrite (trim_start_blank cps Hall). reflexivity.
Qed.

Lemma all_chars_weaken (f g : ascii -> bool) (s : string) :
  (forall c, f c = true -> g c = true) ->
  all_chars f s = true -> all_chars g s = true.
Proof.
  intros Himp. induction s as [|c s IH]; cbn [all_chars]; [reflexivity|].
  intros Hall. apply andb_true_iff in Hall as [Hc Hs].
  rewrite (Himp c Hc), (IH Hs). reflexivity.
Qed.

(** A text that starts with an ASCII character other than white space
    has nothing to strip at its start. *)
Lemma trim_start_plain (c : ascii) (s : string) :
  negb (is_js_space c) && (N_of_ascii c <? 128)%N = true ->
  trim_start (String c s) = String c s.
Proof.
  intros Hc. apply andb_true_iff in Hc as [Hspace Hascii].
  apply negb_true_iff in Hspace. apply N.ltb_lt in Hascii.
  cbn [trim_start]. rewrite Hspace.
  destruct s as [|c2 s2]; [reflexivity|].
  assert (H2 : is_js_space2 c c2 = false).
  { unfold is_js_space2. rewrite (proj2 (N.eqb_neq _ _)) by lia. reflexivity. }
  rewrite H2.
  destruct s2 as [|c3 s3]; [reflexivity|].
  assert (H3 : is_js_space3 c c2 c3 = false).
  { unfold is_js_space3. cbv zeta.
    rewrite !(proj2 (N.eqb_neq (N_of_ascii c) _)) by lia. reflexivity. }
  rewrite H3. reflexivity.
Qed.

Lemma trim_end_plain (s : string) :
  all_chars (fun c => negb (is_js_space c) && (N_of_ascii c <? 128)%N) s = true ->
  trim_end s = s.
Proof.
  induction s as [|c s IH]; cbn [all_chars]; [reflexivity|].
  intros Hall. apply andb_true_iff in Hall as [Hc Hs].
  cbn [trim_end]. rewrite (trim_start_plain c s Hc), (IH Hs). reflexivity.
Qed.

Lemma trim_plain (s : string) :
  all_chars (fun c => negb (is_js_space c) && (N_of_ascii c <? 128)%N) s = true ->
  trim s = s.
Proof.
  intros Hall. unfold trim.
  assert (Hstart : trim_start s = s).
  { destruct s as [|c s]; [reflexivity|].
    cbn [all_chars] in Hall. apply andb_true_iff in Hall as [Hc _].
    apply trim_start_plain, Hc. }
  rewrite Hstart. apply trim_end_plain, Hall.
Qed.

(** The scan of the checker, as one query. *)
Lemma checkForDateBasedStatusChanges_false (notion : Notion) (now : Z) :
  CheckUpdates.checkForDateBasedStatusChanges notion now = false <->
  exists response,
    databases_query notion
      {| q_filter := VisibleUpcoming; q_sort_by_date := false;
         q_start_cursor := None; q_page_size := Some 10%nat |} = Ok response
    /\ forall pg, In pg (results response) -> date_has_passed now pg = false.
Proof.
  unfold CheckUpdates.checkForDateBasedStatusChanges.
  destruct (databases_query notion _) as [response|e|].
  - split.
    + intros Hnone. exists response. split; [reflexivity|].
      intros pg Hin. destruct (date_has_passed now pg) eqn:Hp; [|reflexivity].
      assert (Hex : existsb (date_has_passed now) (results response) = true)
        by (apply existsb_exists; exists pg; split; assumption).
      congruence.
    + intros [response' [[= <-] Hall]].
      destruct (existsb (date_has_passed now) (results response)) eqn:Hex; [|reflexivity].
      apply existsb_exists in Hex as [pg [Hin Hp]].
      rewrite (Hall pg Hin) in Hp. discriminate.
  - split; [discriminate | intros [response [Hbad _]]; discriminate].
  - split; [discriminate | intros [response [Hbad _]]; discriminate].
Qed.

End SkipFacts.

(** X11.  The checker without the date scan ends with 0 or 1, and it ends
    with 1, the code for skipping the fetch, in one case only: the
    checkpoint file holds a non-empty text, the database answered with a
    non-empty timestamp, both are valid dates, and the database was not
    edited after the checkpoint.  Anything missing or unreadable makes it
    ask for a fetch. *)
Theorem plain_check_skips_iff {JN : JSNumber} {H : Host} (notion : Notion) (fs : FS) :
  (CheckUpdatesPlain.main notion fs = 0%nat \/ CheckUpdatesPlain.main notion fs = 1%nat)
  /\ (CheckUpdatesPlain.main notion fs = 1%nat <->
      exists checkpoint remote c r,
        readLastSyncTimestamp fs = Ok (Some checkpoint) /\ checkpoint <> ""
        /\ databases_retrieve notion = Ok remote /\ remote <> ""
        /\ Date_new (VStr checkpoint) = Some c
        /\ Date_new (VStr remote) = Some r
        /\ (r <= c)%Z).
Proof.
  unfold CheckUpdatesPlain.main, CheckUpdatesPlain.checkIfFetchNeeded.
  destruct (readLastSyncTimestamp fs) as [[checkpoint|]| |] eqn:Hread; cbn [bind];
    try (split; [left; reflexivity|];
         split; [discriminate | intros (cp & rm & c & r & Hbad & _); discriminate]).
  pose proof (nonempty_Some checkpoint) as Hcp.
  destruct (nonempty (Some checkpoint)); cbn [negb];
    [|split; [left; reflexivity|];
      split; [discriminate|];
      intros (cp & rm & c & r & [= <-] & Hne & _);
      destruct Hcp as [_ Hcp]; specialize (Hcp Hne); discriminate].
  pose proof (getDatabaseLastEditedTime_Some notion) as Hdb.
  destruct (getDatabaseLastEditedTime notion) as [remote|]; cbn [negb nonempty].
  - assert (Hremote : databases_retrieve notion = Ok remote) by (apply Hdb; reflexivity).
    destruct (remote =? "") eqn:Hr; cbn [negb].
    + apply String.eqb_eq in Hr. split; [left; reflexivity|].
      split; [discriminate|].
      intros (cp & rm & c & r & _ & _ & Hrm & Hne & _). congruence.
    + apply String.eqb_neq in Hr.
      unfold date_le.
      destruct (Date_new (VStr remote)) as [r|] eqn:Hdr;
        [destruct (Date_new (VStr checkpoint)) as [c|] eqn:Hdc|].
      * destruct (r <=? c)%Z eqn:Hle.
        -- split; [right; reflexivity|]. split; [|reflexivity].
           intros _. exists checkpoint, remote, c, r.
           apply Z.leb_le in Hle.
           repeat (split; [first [reflexivity | assumption | apply Hcp; reflexivity]|]).
           exact Hle.
        -- split; [left; reflexivity|]. split; [discriminate|].
           intros (cp & rm & c' & r' & [= <-] & _ & Hrm & _ & Hc' & Hr' & Hle').
           assert (rm = remote) by congruence. subst rm.
           apply Z.leb_gt in Hle. rewrite Hdr in Hr'. rewrite Hdc in Hc'.
           injection Hr' as <-. injection Hc' as <-. lia.
      * split; [left; reflexivity|]. split; [discriminate|].
        intros (cp & rm & c' & r' & [= <-] & _ & _ & _ & Hc' & _). congruence.
      * split; [left; reflexivity|]. split; [discriminate|].
        intros (cp & rm & c' & r' & _ & _ & Hrm & _ & _ & Hr' & _).
        assert (rm = remote) by congruence. subst rm. congruence.
  - split; [left; reflexivity|]. split; [discriminate|].
    intros (cp & rm & c & r & _ & _ & Hrm & _).
    apply Hdb in Hrm. discriminate.
Qed.

(** X12.  The checker with the date scan ends with 1 in one case only: a
    non-empty checkpoint, a non-empty database timestamp that is not after
    the midnight before the checkpoint, and a scan whose query succeeded
    and returned no page with a passed date.  So an upcoming event of
    yesterday, or a failing scan query, makes it ask for a fetch whatever
    the files hold. *)
Theorem scan_check_skips_iff {JN : JSNumber} {H : Host}
    (notion : Notion) (fs : FS) (now : Z) :
  (CheckUpdates.main notion fs now = 0%nat \/ CheckUpdates.main notion fs now = 1%nat)
  /\ (CheckUpdates.main notion fs now = 1%nat <->
      exists checkpoint remote response,
        readLastSyncTimestamp fs = Ok (Some checkpoint) /\ checkpoint <> ""
        /\ databases_retrieve notion = Ok remote /\ remote <> ""
        /\ date_lt (start_of_day_of checkpoint) (Date_new (VStr remote)) = false
        /\ databases_query notion
             {| q_filter := VisibleUpcoming; q_sort_by_date := false;
                q_start_cursor := None; q_page_size := Some 10%nat |} = Ok response
        /\ forall pg, In pg (results response) -> date_has_passed now pg = false).
Proof.
  unfold CheckUpdates.main, CheckUpdates.checkIfFetchNeeded.
  destruct (readLastSyncTimestamp fs) as [[checkpoint|]| |] eqn:Hread; cbn [bind];
    try (split; [left; reflexivity|];
         split; [discriminate | intros (cp & rm & rs & Hbad & _); discriminate]).
  pose proof (nonempty_Some checkpoint) as Hcp.
  destruct (nonempty (Some checkpoint)); cbn [negb];
    [|split; [left; reflexivity|];
      split; [discriminate|];
      intros (cp & rm & rs & [= <-] & Hne & _);
      destruct Hcp as [_ Hcp]; specialize (Hcp Hne); discriminate].
  pose proof (getDatabaseLastEditedTime_Some notion) as Hdb.
  destruct (getDatabaseLastEditedTime notion) as [remote|]; cbn [negb nonempty].
  - assert (Hremote : databases_retrieve notion = Ok remote) by (apply Hdb; reflexivity).
    destruct (remote =? "") eqn:Hr; cbn [negb].
    + apply String.eqb_eq in Hr. split; [left; reflexivity|].
      split; [discriminate|].
      intros (cp & rm & rs & _ & _ & Hrm & Hne & _). congruence.
    + apply String.eqb_neq in Hr.
      pose proof (checkForDateBasedStatusChanges_false notion now) as Hscan.
      destruct (date_lt (start_of_day_of checkpoint) (Date_new (VStr remote))) eqn:Hlt;
        cbn [negb andb].
      * split; [left; reflexivity|]. split; [discriminate|].
        intros (cp & rm & rs & [= <-] & _ & Hrm & _ & Hlt' & _).
        assert (rm = remote) by congruence. subst rm. congruence.
      * destruct (CheckUpdates.checkForDateBasedStatusChanges notion now); cbn [negb].
        -- split; [left; reflexivity|]. split; [discriminate|].
           intros (cp & rm & rs & _ & _ & _ & _ & _ & Hq & Hall).
           assert (Hfalse : true = false) by (apply Hscan; exists rs; split; assumption).
           discriminate.
        -- split; [right; reflexivity|]. split; [|reflexivity].
           intros _. destruct (proj1 Hscan eq_refl) as [response [Hq Hall]].
           exists checkpoint, remote, response.
           repeat (split; [first [reflexivity | assumption | apply Hcp; reflexivity]|]).
           exact Hall.
  - split; [left; reflexivity|]. split; [discriminate|].
    intros (cp & rm & rs & _ & _ & Hrm & _).
    apply Hdb in Hrm. discriminate.
Qed.

(** X13.  A checkpoint file whose text is not a valid date is treated in
    opposite ways: the checker without the scan asks for a fetch, while
    the checker with the scan no longer sees any edit of the database and
    skips, unless its scan finds a passed event. *)
Theorem unreadable_checkpoint_hides_edits {JN : JSNumber} {H : Host}
    (notion : Notion) (fs : FS) (now : Z)
    (checkpoint remote : string) (response : query_response) :
  readLastSyncTimestamp fs = Ok (Some checkpoint) ->
  checkpoint <> "" ->
  Date_new (VStr checkpoint) = None ->
  databases_retrieve notion = Ok remote ->
  remote <> "" ->
  databases_query notion
    {| q_filter := VisibleUpcoming; q_sort_by_date := false;
       q_start_cursor := None; q_page_size := Some 10%nat |} = Ok response ->
  (forall pg, In pg (results response) -> date_has_passed now pg = false) ->
  CheckUpdates.main notion fs now = 1%nat
  /\ CheckUpdatesPlain.main notion fs = 0%nat.
Proof.
  intros Hread Hcp Hinvalid Hdb Hremote Hq Hall.
  assert (Hscan : CheckUpdates.checkForDateBasedStatusChanges notion now = false)
    by (apply checkForDateBasedStatusChanges_false; exists response; split; assumption).
  apply nonempty_Some in Hcp. apply nonempty_Some in Hremote.
  apply getDatabaseLastEditedTime_Some in Hdb.
  split.
  - unfold CheckUpdates.main, CheckUpdates.checkIfFetchNeeded.
    rewrite Hread. cbn [bind]. rewrite Hcp, Hdb, Hremote. cbn [negb].
    unfold start_of_day_of. rewrite Hinvalid, Hscan. reflexivity.
  - unfold CheckUpdatesPlain.main, CheckUpdatesPlain.checkIfFetchNeeded.
    rewrite Hread. cbn [bind]. rewrite Hcp, Hdb, Hremote. cbn [negb].
    rewrite Hinvalid. unfold date_le.
    destruct (Date_new (VStr remote)); reflexivity.
Qed.

(** X14.  The scan of the checker and the status updater apply the same
    test.  When the scan asks for a fetch because of a page it saw, and
    that page is among those the updater retrieves, the updater sends
    that page its update: the checker never wakes the fetch for a date
    the updater would then leave alone. *)
Theorem date_scan_agrees_with_updater {JN : JSNumber} {H : Host}
    (fuel : nat) (notion : Notion) (now : Z)
    (response : query_response) (allPages : list page) :
  databases_query notion
    {| q_filter := VisibleUpcoming; q_sort_by_date := false;
       q_start_cursor := None; q_page_size := Some 10%nat |} = Ok response ->
  FetchEventsWithStatus.query_all fuel notion None [] = Ok allPages ->
  incl (results response) allPages ->
  CheckUpdates.checkForDateBasedStatusChanges notion now = true ->
  exists r pg,
    FetchEventsWithStatus.updateEventStatusesInNotion fuel notion now = Ok r
    /\ In pg (results response)
    /\ In (page_id pg, "Past") (FetchEventsWithStatus.calls r).
Proof.
  intros Hq Hall Hincl Hscan.
  unfold CheckUpdates.checkForDateBasedStatusChanges in Hscan. rewrite Hq in Hscan.
  apply existsb_exists in Hscan as [pg [Hin Hpassed]].
  eexists. exists pg.
  split; [apply updateEventStatuses_calls, Hall|].
  split; [exact Hin|].
  cbn [FetchEventsWithStatus.calls].
  apply in_map_iff. exists pg. split; [reflexivity|].
  unfold FetchEventsWithStatus.pages_to_update.
  apply filter_In. split; [apply Hincl, Hin | exact Hpassed].
Qed.

(** X15.  Fetching and then checking: once a fetch has succeeded against
    a database whose [last_edited_time] is a valid date, written in ASCII
    without white space, the checkpoint reads back as that timestamp and
    the checker without the scan skips for as long as the timestamp stays
    the same.  The checkpoint is a file the scripts can read, or was not
    there: one they may write and not read makes the checker fetch every
    time. *)
Theorem synced_database_is_skipped {JN : JSNumber} {H : Host}
    (mapEvent : page -> result object) (notion : Notion)
    (fs fs' : FS) (paths : list string) (code : nat) (timestamp : string) (t : Z) :
  fetch_and_write mapEvent notion fs = Ok (fs', paths, code) ->
  databases_retrieve notion = Ok timestamp ->
  timestamp <> "" ->
  all_chars (fun c => negb (is_js_space c) && (N_of_ascii c <? 128)%N) timestamp = true ->
  Date_new (VStr timestamp) = Some t ->
  (readable_or_missing (last_sync fs) = true ->
   readLastSyncTimestamp fs' = Ok (Some timestamp)
   /\ CheckUpdatesPlain.main notion fs' = 1%nat)
  /\ (forall denied,
        last_sync fs = Unreadable denied ->
        (denied =? "ENOENT") = false ->
        last_sync fs' = Unreadable denied
        /\ CheckUpdatesPlain.main notion fs' = 0%nat).
Proof.
  intros Hrun Hdb Hne Hplain Hdate.
  assert (Htrim : trim timestamp = timestamp) by (apply trim_plain, Hplain).
  assert (Hfile : last_sync fs' = written_over (last_sync fs) timestamp).
  { destruct (fetch_and_write_code mapEvent notion fs fs' paths code Hrun)
      as [_ [[fs0 paths0] [Hst [Hlast _]]]].
    apply record_checkpoint_done in Hst.
    unfold getDatabaseLastEditedTime in Hst. rewrite Hdb in Hst.
    apply String.eqb_neq in Hne. rewrite Hne in Hst.
    injection Hst as -> _. cbn [last_sync fst] in *. rewrite Hlast. reflexivity. }
  split.
  - intros Hreadable.
    rewrite (written_over_readable _ timestamp Hreadable) in Hfile.
    assert (Hread : readLastSyncTimestamp fs' = Ok (Some timestamp)).
    { unfold readLastSyncTimestamp. rewrite Hfile. cbn [readFile]. rewrite Htrim.
      reflexivity. }
    split; [exact Hread|].
    unfold CheckUpdatesPlain.main, CheckUpdatesPlain.checkIfFetchNeeded.
    rewrite Hread. cbn [bind].
    rewrite (proj2 (getDatabaseLastEditedTime_Some notion timestamp) Hdb).
    rewrite (proj2 (nonempty_Some timestamp) Hne). cbn [negb].
    rewrite Hdate. unfold date_le. rewrite Z.leb_refl. reflexivity.
  - intros denied Hdenied Hcode.
    rewrite Hdenied in Hfile. cbn [written_over] in Hfile. rewrite Hcode in Hfile.
    split; [exact Hfile|].
    unfold CheckUpdatesPlain.main, CheckUpdatesPlain.checkIfFetchNeeded,
      readLastSyncTimestamp.
    rewrite Hfile. cbn [readFile is_ENOENT]. rewrite Hcode. reflexivity.
Qed.

(** X16.  A checkpoint file that is empty, or holds nothing but white
    space, is read as no checkpoint at all: both checkers ask for a fetch.
    White space is what [String.prototype.trim] strips: the ASCII blanks,
    the no-break space, the byte order mark, the line and paragraph
    separators and the other space separators of Unicode. *)
Theorem blank_checkpoint_counts_as_none {JN : JSNumber} {H : Host}
    (notion : Notion) (fs : FS) (now : Z) (cps : list N) :
  last_sync fs = File (utf8_text cps) ->
  Forall (fun cp => In cp white_space_code_points) cps ->
  readLastSyncTimestamp fs = Ok (Some "")
  /\ CheckUpdates.main notion fs now = 0%nat
  /\ CheckUpdatesPlain.main notion fs = 0%nat.
Proof.
  intros Hfile Hblank.
  assert (Hread : readLastSyncTimestamp fs = Ok (Some "")).
  { unfold readLastSyncTimestamp. rewrite Hfile. cbn [readFile].
    rewrite (trim_blank cps Hblank). reflexivity. }
  split; [exact Hread|].
  unfold CheckUpdates.main, CheckUpdates.checkIfFetchNeeded,
    CheckUpdatesPlain.main, CheckUpdatesPlain.checkIfFetchNeeded.
  rewrite Hread. split; reflexivity.
Qed.

(** ** The rehearsal of the workflow *)

Section RehearsalFacts.
Context {JN : JSNumber} {H : Host}.

(** The rehearsal over the two scripts, by the exit code of the checker. *)
Lemma rehearse_by_check (notion : Notion) (now : Z) (fs : FS) :
  TestSync.rehearse notion now fs
  = match CheckUpdates.main notion fs now with
    | 0%nat =>
        match FetchEvents.fetchAndWriteEvents notion fs with
        | Ok o =>
            Ok {| TestSync.exit := match exit_code o with 0%nat => 0 | _ => 1 end;
                  TestSync.after := files o;
                  TestSync.started := [TestSync.check_script; TestSync.fetch_script] |}
        | Throw _ =>
            Ok {| TestSync.exit := 1; TestSync.after := fs;
                  TestSync.started := [TestSync.check_script; TestSync.fetch_script] |}
        | Diverge => Diverge
        end
    | 1%nat =>
        Ok {| TestSync.exit := 0; TestSync.after := fs;
              TestSync.started := [TestSync.check_script] |}
    | _ =>
        Ok {| TestSync.exit := 1; TestSync.after := fs;
              TestSync.started := [TestSync.check_script] |}
    end.
Proof.
  unfold TestSync.rehearse, TestSync.main.
  change (TestSync.node notion now TestSync.check_script fs)
    with (Ok (Some (CheckUpdates.main notion fs now), fs)
          : result (option nat * FS)).
  destruct (CheckUpdates.main notion fs now) as [|[|code]]; [|reflexivity|reflexivity].
  change (TestSync.node notion now TestSync.fetch_script fs)
    with (o <- FetchEvents.fetchAndWriteEvents notion fs ;;
          (Ok (Some (exit_code o), files o) : result (option nat * FS))).
  destruct (FetchEvents.fetchAndWriteEvents notion fs) as [o| |]; cbn [bind];
    [|reflexivity|reflexivity].
  destruct (exit_code o); reflexivity.
Qed.

Lemma scan_main_binary (notion : Notion) (fs : FS) (now : Z) :
  CheckUpdates.main notion fs now = 0%nat \/ CheckUpdates.main notion fs now = 1%nat.
Proof.
  unfold CheckUpdates.main.
  destruct (CheckUpdates.checkIfFetchNeeded notion fs now) as [[|]| |]; auto.
Qed.

Lemma fetchAndWriteEvents_by_run (notion : Notion) (fs : FS) (o : outcome) :
  FetchEvents.fetchAndWriteEvents notion fs = Ok o ->
  (exit_code o = 0%nat
   /\ fetch_and_write FetchEvents.mapEvent notion fs = Ok (files o, written o, 0%nat))
  \/ (exit_code o = 1%nat
      /\ exists e,
           fetch_and_write_try FetchEvents.mapEvent notion fs
           = ((files o, written o), Throw e)).
Proof.
  unfold FetchEvents.fetchAndWriteEvents, end_of_run.
  destruct (fetch_and_write_try FetchEvents.mapEvent notion fs)
    as [[fs' paths] [code|e|]] eqn:Hrun; [| |discriminate].
  - assert (Hcode : code = 0%nat).
    { apply (fetch_and_write_code FetchEvents.mapEvent notion fs fs' paths code).
      unfold fetch_and_write. rewrite Hrun. reflexivity. }
    subst code. intros [= <-]. left. split; [reflexivity|].
    unfold fetch_and_write. rewrite Hrun. reflexivity.
  - intros [= <-]. right. split; [reflexivity|]. exists e. reflexivity.
Qed.

Lemma getExistingEventsHash_same_file (fs fs' : FS) :
  events_json fs' = events_json fs ->
  getExistingEventsHash fs' = getExistingEventsHash fs.
Proof.
  intros Hsame. unfold getExistingEventsHash. rewrite Hsame. reflexivity.
Qed.

(** Recording the checkpoint a second time changes no file. *)
Lemma record_checkpoint_again (d : option string) (st : FS * list string)
    (paths : list string) :
  snd (record_checkpoint d st) = Ok tt ->
  fst (fst (record_checkpoint d (fst (fst (record_checkpoint d st)), paths)))
  = fst (fst (record_checkpoint d st)).
Proof.
  unfold record_checkpoint, writeLastSyncTimestamp, writeFile.
  destruct (nonempty d); [|reflexivity].
  destruct d as [ts|]; [|reflexivity].
  destruct (writeFile_rejected path_last_sync); [discriminate|].
  intros _. cbn [fst snd last_sync events_json]. f_equal.
  unfold written_over.
  destruct (last_sync (fst st)) as [|code|content]; [reflexivity | | reflexivity].
  destruct (code =? "ENOENT") eqn:Hcode; [reflexivity | rewrite Hcode; reflexivity].
Qed.

(** A second fetch over the same answers of the store leaves both files
    as the first one left them. *)
Lemma second_fetch_changes_nothing (notion : Notion) (fs fs' : FS)
    (paths : list string) (response : query_response) :
  databases_query notion main_query = Ok response ->
  (forall pg, In pg (results response) -> page_numbers_print_back pg = true) ->
  fetch_and_write FetchEvents.mapEvent notion fs = Ok (fs', paths, 0%nat) ->
  exists paths', fetch_and_write FetchEvents.mapEvent notion fs' = Ok (fs', paths', 0%nat).
Proof.
  intros Hq Hnum Hrun.
  assert (Hm : exists events,
             map_result FetchEvents.mapEvent (results response) = Ok events).
  { unfold fetch_and_write, fetch_and_write_try in Hrun.
    rewrite Hq in Hrun. cbn [bind] in Hrun.
    destruct (map_result FetchEvents.mapEvent (results response)) as [events| |];
      try discriminate.
    exists events. reflexivity. }
  destruct Hm as [events Hm].
  destruct (fetch_and_write_ended FetchEvents.mapEvent notion fs fs' paths 0
              response events Hq Hm Hrun)
    as [content [text [existingHash [Hc [Ht [Hex [_ Hcase]]]]]]].
  destruct (fetch_and_write_reached FetchEvents.mapEvent notion fs' response events Hq Hm)
    as [content' [text' [Hc' [_ Heq']]]].
  rewrite Hc in Hc'. injection Hc' as <-.
  pose proof (unchanged_true_iff (SHA256.digest_hex content)) as Hun.
  assert (Hfirst : exists st,
             record_checkpoint (getDatabaseLastEditedTime notion) st = ((fs', paths), Ok tt)
             /\ getExistingEventsHash fs' = Ok (Some (SHA256.digest_hex content))).
  { destruct Hcase as [[Hsame Hst] | [Hdiff Hst]].
    - exists (fs, []). split; [exact Hst|].
      pose proof (record_checkpoint_events (getDatabaseLastEditedTime notion) (fs, []))
        as [Hev _].
      rewrite Hst in Hev. cbn [fst] in Hev.
      rewrite (getExistingEventsHash_same_file fs fs' Hev), Hex.
      f_equal. apply Hun; [apply digest_hex_nonempty | exact Hsame].
    - eexists. split; [exact Hst|].
      pose proof (record_checkpoint_events (getDatabaseLastEditedTime notion)
                    ({| last_sync := last_sync fs; events_json := File text |},
                     [path_events_json])) as [Hev _].
      rewrite Hst in Hev. cbn [fst] in Hev.
      assert (Hsafe : json_safe (events_value (filter is_valid_event events)) = true).
      { apply filter_json_safe.
        apply (map_result_json_safe FetchEvents.mapEvent (results response)); [|exact Hm].
        intros pg event Hin Hmap.
        apply (mapEvent_json_safe pg); [apply Hnum, Hin | left; exact Hmap]. }
      rewrite (getExistingEventsHash_same_file
                 {| last_sync := last_sync fs; events_json := File text |} fs')
        by (rewrite Hev; reflexivity).
      apply (existing_hash_after_write (events_value (filter is_valid_event events)));
        [exact Hsafe | exact Ht |].
      unfold computeEventsHash. rewrite Hc. reflexivity. }
  destruct Hfirst as [st [Hst Hread]].
  unfold fetch_and_write. rewrite Heq', Hread.
  rewrite (proj2 (Hun (Some (SHA256.digest_hex content)) (digest_hex_nonempty content))
             eq_refl).
  rewrite finish_by_checkpoint.
  assert (Hend : snd (record_checkpoint (getDatabaseLastEditedTime notion) (fs', []))
                 = Ok tt).
  { apply (record_checkpoint_again_ends _ st). rewrite Hst. reflexivity. }
  assert (Hfs : fst (fst (record_checkpoint (getDatabaseLastEditedTime notion) (fs', [])))
                = fs').
  { replace fs' with (fst (fst (record_checkpoint (getDatabaseLastEditedTime notion) st)))
      at 1 by (rewrite Hst; reflexivity).
    rewrite record_checkpoint_again by (rewrite Hst; reflexivity).
    rewrite Hst. reflexivity. }
  rewrite Hend.
  destruct (record_checkpoint (getDatabaseLastEditedTime notion) (fs', []))
    as [[fs'' paths''] end_].
  cbn [fst snd bind] in *. subst fs''.
  exists paths''. reflexivity.
Qed.

End RehearsalFacts.

(** X17.  In the rehearsal over the two scripts of [scripts/], the exit
    code of the checker alone decides whether the fetch script is started:
    with 1 nothing else runs and the files stay as they are, with 0 the
    fetch script runs and its exit code and files become those of the
    rehearsal.  The checker never ends with another code, so the branch
    for a failed check is never taken.  A rehearsal that ends with 1 has
    left the files untouched, unless the host refused the fetch script a
    write. *)
Theorem rehearsal_follows_the_checker {JN : JSNumber} {H : Host}
    (notion : Notion) (now : Z) (fs : FS) :
  databases_query notion main_query <> Diverge ->
  exists r,
    TestSync.rehearse notion now fs = Ok r
    /\ (CheckUpdates.main notion fs now = 1%nat ->
        r = {| TestSync.exit := 0; TestSync.after := fs;
               TestSync.started := [TestSync.check_script] |})
    /\ (CheckUpdates.main notion fs now = 0%nat ->
        exists o,
          FetchEvents.fetchAndWriteEvents notion fs = Ok o
          /\ r = {| TestSync.exit := exit_code o; TestSync.after := files o;
                    TestSync.started :=
                      [TestSync.check_script; TestSync.fetch_script] |})
    /\ (In TestSync.fetch_script (TestSync.started r) <->
        CheckUpdates.main notion fs now = 0%nat)
    /\ (TestSync.exit r = 1%nat ->
        TestSync.after r = fs
        \/ exists code,
             writeFile_rejected path_events_json = Some code
             \/ writeFile_rejected path_last_sync = Some code)
    /\ (writes_accepted -> TestSync.exit r = 1%nat -> TestSync.after r = fs).
Proof.
  intros Hq.
  rewrite rehearse_by_check.
  pose proof (fetch_and_write_try_returns FetchEvents.mapEvent notion fs Hq
                (fun pg => proj1 (mapEvent_returns pg))) as Hret.
  destruct (scan_main_binary notion fs now) as [Hcheck | Hcheck]; rewrite Hcheck.
  - destruct (FetchEvents.fetchAndWriteEvents notion fs) as [o| |] eqn:Hfetch.
    + destruct (fetchAndWriteEvents_by_run notion fs o Hfetch)
        as [[Hcode Hrun] | [Hcode [e Hrun]]].
      * eexists. split; [reflexivity|]. rewrite Hcode.
        split; [discriminate|].
        split; [intros _; exists o; split; [reflexivity | rewrite Hcode; reflexivity]|].
        split; [|split; discriminate].
        cbn [TestSync.started]. split; [reflexivity|].
        intros _. right. left. reflexivity.
      * eexists. split; [reflexivity|]. rewrite Hcode.
        split; [discriminate|].
        split; [intros _; exists o; split; [reflexivity | rewrite Hcode; reflexivity]|].
        split.
        { cbn [TestSync.started]. split; [reflexivity|].
          intros _. right. left. reflexivity. }
        cbn [TestSync.exit TestSync.after].
        destruct (fetch_and_write_try_failed _ _ _ _ _ Hrun)
          as [Hst | [code [text [response [events
                      [_ [_ [_ [_ [[Hcode' _] | [ts [Hcode' _]]]]]]]]]]]].
        -- injection Hst as Hfiles _.
           split; [intros _; left; exact Hfiles | intros _ _; exact Hfiles].
        -- split; [intros _; right; exists code; left; exact Hcode'|].
           intros [_ [Hw _]]. congruence.
        -- split; [intros _; right; exists code; right; exact Hcode'|].
           intros [_ [_ Hl]]. congruence.
    + exfalso. unfold FetchEvents.fetchAndWriteEvents, end_of_run in Hfetch.
      destruct (fetch_and_write_try FetchEvents.mapEvent notion fs) as [? [?|?|]];
        discriminate.
    + exfalso. unfold FetchEvents.fetchAndWriteEvents, end_of_run in Hfetch.
      destruct (fetch_and_write_try FetchEvents.mapEvent notion fs) as [? [?|?|]];
        [discriminate | discriminate | apply Hret; reflexivity].
  - eexists. split; [reflexivity|].
    split; [reflexivity|]. split; [discriminate|].
    split; [|split; discriminate].
    cbn [TestSync.started]. split; [|discriminate].
    intros [Hbad | []]. discriminate Hbad.
Qed.

(** X18.  Rehearsing again right after a rehearsal that fetched with
    success changes nothing: whether or not the checker asks for another
    fetch, the second rehearsal ends with 0 and leaves [public/events.json]
    and [.last-sync] exactly as the first one left them, as long as the
    store gives the same answers. *)
Theorem second_rehearsal_changes_nothing {JN : JSNumber} {H : Host}
    (notion : Notion) (now now' : Z) (fs : FS) (response : query_response)
    (r : TestSync.rehearsal FS) :
  databases_query notion main_query = Ok response ->
  (forall pg, In pg (results response) -> page_numbers_print_back pg = true) ->
  TestSync.rehearse notion now fs = Ok r ->
  TestSync.exit r = 0%nat ->
  In TestSync.fetch_script (TestSync.started r) ->
  exists r',
    TestSync.rehearse notion now' (TestSync.after r) = Ok r'
    /\ TestSync.exit r' = 0%nat
    /\ TestSync.after r' = TestSync.after r.
Proof.
  intros Hq Hnum Hfirst Hexit Hran.
  rewrite rehearse_by_check in Hfirst.
  assert (Hrun : exists paths,
             fetch_and_write FetchEvents.mapEvent notion fs
             = Ok (TestSync.after r, paths, 0%nat)).
  { destruct (CheckUpdates.main notion fs now) as [|[|code]].
    - destruct (FetchEvents.fetchAndWriteEvents notion fs) as [o| |] eqn:Hfetch;
        try discriminate.
      + injection Hfirst as <-. cbn [TestSync.exit TestSync.after] in *.
        destruct (fetchAndWriteEvents_by_run notion fs o Hfetch)
          as [[Hcode Hrun] | [Hcode _]].
        * exists (written o). exact Hrun.
        * rewrite Hcode in Hexit. discriminate.
      + injection Hfirst as <-. discriminate Hexit.
    - injection Hfirst as <-. cbn [TestSync.started] in Hran.
      destruct Hran as [Hbad | []]. discriminate Hbad.
    - injection Hfirst as <-. discriminate Hexit. }
  destruct Hrun as [paths Hrun].
  destruct (second_fetch_changes_nothing notion fs (TestSync.after r) paths response
              Hq Hnum Hrun) as [paths' Hagain].
  rewrite rehearse_by_check.
  destruct (scan_main_binary notion (TestSync.after r) now') as [Hcheck | Hcheck];
    rewrite Hcheck.
  - assert (Hfetch : FetchEvents.fetchAndWriteEvents notion (TestSync.after r)
                     = Ok {| exit_code := 0; files := TestSync.after r;
                             written := paths'; updates := []; waited := false |}).
    { unfold FetchEvents.fetchAndWriteEvents, end_of_run.
      unfold fetch_and_write in Hagain.
      destruct (fetch_and_write_try FetchEvents.mapEvent notion (TestSync.after r))
        as [[fs2 paths2] [code|e|]]; cbn [bind] in Hagain; try discriminate Hagain.
      injection Hagain as -> -> ->. reflexivity. }
    rewrite Hfetch.
    eexists. split; [reflexivity|]. split; reflexivity.
  - eexists. split; [reflexivity|]. split; reflexivity.
Qed.

(** ** The page script: reading the published file *)

Section ReadingFacts.
Context {JN : JSNumber} {H : Host} {C : Calendar}.

Lemma js_or_default (a d : value) : js_or a d = d \/ truthy (js_or a d) = true.
Proof.
  unfold js_or. destruct (truthy a) eqn:Ha; [right; exact Ha | left; reflexivity].
Qed.

Lemma js_or_string (a : value) (s : string) :
  s <> "" -> (js_or a (VStr "") = VStr s <-> a = VStr s).
Proof.
  intros Hs. unfold js_or. split.
  - destruct (truthy a); [auto|]. intros [= <-]. congruence.
  - intros ->. cbn [truthy].
    destruct (s =? "") eqn:Heq; [apply String.eqb_eq in Heq; congruence | reflexivity].
Qed.

Lemma formatEvent_returns (event : value) : EventsJS.formatEvent event <> Diverge.
Proof.
  unfold EventsJS.formatEvent. destruct (is_nullish event); discriminate.
Qed.

Lemma map_result_each {X Y : Type} (f : X -> result Y) (l : list X) (ys : list Y) :
  map_result f l = Ok ys -> forall x, In x l -> exists y, f x = Ok y.
Proof.
  revert ys. induction l as [|x0 l IH]; cbn [map_result]; intros ys Hmap x Hin.
  - contradiction.
  - destruct (f x0) as [y0| |] eqn:Hx0; cbn [bind] in Hmap; try discriminate.
    destruct (map_result f l) as [rest| |]; cbn [bind] in Hmap; try discriminate.
    destruct Hin as [<- | Hin]; [exists y0; exact Hx0 | exact (IH rest eq_refl x Hin)].
Qed.

(** Entries other than [null] and [undefined] are all formatted. *)
Lemma map_result_formatEvent (data : list value) :
  (forall entry, In entry data -> is_nullish entry = false) ->
  exists events, map_result EventsJS.formatEvent data = Ok events.
Proof.
  induction data as [|entry data IH]; intros Hall; [exists []; reflexivity|].
  destruct IH as [events Hevents]; [intros e He; apply Hall; right; exact He|].
  cbn [map_result]. unfold EventsJS.formatEvent at 1.
  rewrite (Hall entry (or_introl eq_refl)). cbn [bind]. rewrite Hevents. cbn [bind].
  eexists. reflexivity.
Qed.

End ReadingFacts.

(** X19.  [fetchEvents] always answers with a list.  The list is empty
    unless the response was [ok], its body parsed as a JSON array, and no
    entry of the array was [null]: then it holds one formatted event for
    every entry, in order.  A single [null] in the published file leaves
    the page without events. *)
Theorem fetchEvents_answers_with_a_list {JN : JSNumber} {H : Host} {C : Calendar}
    (fetched : result EventsJS.Response) :
  fetched <> Diverge ->
  exists events,
    EventsJS.fetchEvents fetched = Ok events
    /\ (events <> [] ->
        exists response data,
          fetched = Ok response
          /\ EventsJS.ok response = true
          /\ JSON_parse (EventsJS.body response) = Ok (VArr data)
          /\ map_result EventsJS.formatEvent data = Ok events
          /\ List.length events = List.length data
          /\ forall entry, In entry data -> is_nullish entry = false)
    /\ (forall response data,
          fetched = Ok response ->
          EventsJS.ok response = true ->
          JSON_parse (EventsJS.body response) = Ok (VArr data) ->
          (forall entry, In entry data -> is_nullish entry = false) ->
          map_result EventsJS.formatEvent data = Ok events
          /\ List.length events = List.length data).
Proof.
  intros Hfetched. unfold EventsJS.fetchEvents.
  destruct fetched as [response|e|]; [| |congruence];
    [|exists []; split; [reflexivity|]; split; [congruence | discriminate]].
  destruct (EventsJS.ok response) eqn:Hok; cbn [negb].
  2:{ exists []. split; [reflexivity|]. split; [congruence|].
      intros response' data [= <-] Hok'. congruence. }
  pose proof (JSON_parse_total (EventsJS.body response)) as Hparse.
  destruct (JSON_parse (EventsJS.body response)) as [data|e|] eqn:Hjson;
    [| |congruence].
  2:{ exists []. split; [reflexivity|]. split; [congruence|].
      intros response' data [= <-] _ Hjson'. congruence. }
  destruct data as [| | b | n | s | data | members];
    try (exists []; split; [reflexivity|]; split; [congruence|];
         intros response' data' [= <-] _ Hjson'; congruence).
  pose proof (map_result_returns EventsJS.formatEvent data
                (fun entry _ => formatEvent_returns entry)) as Hmap.
  destruct (map_result EventsJS.formatEvent data) as [events|e|] eqn:Hevents;
    [| |congruence].
  2:{ exists []. split; [reflexivity|]. split; [congruence|].
      intros response' data' [= <-] _ Hjson' Hall.
      rewrite Hjson in Hjson'. injection Hjson' as <-.
      destruct (map_result_formatEvent data Hall) as [events' Hevents'].
      congruence. }
  exists events. split; [reflexivity|].
  split.
  - intros _. exists response, data.
    split; [reflexivity|]. split; [exact Hok|]. split; [exact Hjson|].
    split; [exact Hevents|]. split; [apply (map_result_length _ _ _ Hevents)|].
    intros entry Hin.
    destruct (map_result_each _ _ _ Hevents entry Hin) as [f Hf].
    unfold EventsJS.formatEvent in Hf.
    destruct (is_nullish entry); [discriminate | reflexivity].
  - intros response' data' [= <-] _ Hjson' _.
    rewrite Hjson in Hjson'. injection Hjson' as <-.
    split; [exact Hevents | apply (map_result_length _ _ _ Hevents)].
Qed.

(** X20.  A formatted event has no hole: its name, type, status, date and
    pretty date are the empty string unless the entry gave a truthy
    value, its languages are always a list, its link is [null] unless
    truthy.  It counts as upcoming, or as past, exactly when the [Status]
    of the entry is that very string. *)
Theorem formatEvent_fills_blanks {JN : JSNumber} {H : Host} {C : Calendar}
    (entry : value) (e : EventsJS.formatted) :
  EventsJS.formatEvent entry = Ok e ->
  (forall field,
      In field [EventsJS.name e; EventsJS.type e; EventsJS.status e;
                EventsJS.dateISO e; EventsJS.datePretty e] ->
      field = VStr "" \/ truthy field = true)
  /\ (EventsJS.link e = VNull \/ truthy (EventsJS.link e) = true)
  /\ (EventsJS.has_status "Upcoming" e = true <->
      EventsJS.member entry "Status" = VStr "Upcoming")
  /\ (EventsJS.has_status "Past" e = true <->
      EventsJS.member entry "Status" = VStr "Past").
Proof.
  unfold EventsJS.formatEvent.
  destruct (is_nullish entry); [discriminate|].
  intros [= <-].
  cbn [EventsJS.name EventsJS.type EventsJS.status EventsJS.dateISO
         EventsJS.datePretty EventsJS.link].
  split.
  { intros field Hin. cbn [In] in Hin.
    destruct Hin as [<- | [<- | [<- | [<- | [<- | []]]]]]; apply js_or_default. }
  split; [apply js_or_default|].
  assert (Hstatus : forall s, s <> "" ->
            (EventsJS.has_status s
               {| EventsJS.name := js_or (EventsJS.member entry "Name") (VStr "");
                  EventsJS.type := js_or (EventsJS.member entry "Type") (VStr "");
                  EventsJS.status := js_or (EventsJS.member entry "Status") (VStr "");
                  EventsJS.dateISO := js_or (EventsJS.member entry "Date") (VStr "");
                  EventsJS.datePretty :=
                    js_or (EventsJS.member entry "datePretty") (VStr "");
                  EventsJS.lang :=
                    match EventsJS.member entry "Language" with
                    | VArr items => items
                    | _ => []
                    end;
                  EventsJS.link := js_or (EventsJS.member entry "Link") VNull |} = true
             <-> EventsJS.member entry "Status" = VStr s)).
  { intros s Hs. unfold EventsJS.has_status. cbn [EventsJS.status].
    rewrite <- (js_or_string (EventsJS.member entry "Status") s Hs).
    destruct (js_or (EventsJS.member entry "Status") (VStr "")) as [| | b | n | t | l | m];
      try (split; discriminate).
    split.
    - intros Heq. apply String.eqb_eq in Heq. congruence.
    - intros [= ->]. apply String.eqb_refl. }
  split; apply Hstatus; discriminate.
Qed.

(** ** Sorting by insertion *)

Section SortFacts.
Context {A : Type} (le : A -> A -> bool).

Lemma insert_sorted_perm (x : A) (l : list A) :
  Permutation (insert_sorted le x l) (x :: l).
Proof.
  induction l as [|y l IH]; cbn [insert_sorted].
  - apply Permutation_refl.
  - destruct (le x y).
    + apply Permutation_refl.
    + apply perm_trans with (y :: x :: l).
      * apply perm_skip, IH.
      * apply perm_swap.
Qed.

Lemma stable_sort_perm (l : list A) : Permutation (stable_sort le l) l.
Proof.
  induction l as [|x l IH]; cbn [stable_sort fold_right].
  - apply perm_nil.
  - apply perm_trans with (x :: stable_sort le l).
    + apply insert_sorted_perm.
    + apply perm_skip, IH.
Qed.

Lemma stable_sort_In (l : list A) (x : A) : In x (stable_sort le l) <-> In x l.
Proof.
  split; apply Permutation_in; [|apply Permutation_sym]; apply stable_sort_perm.
Qed.

Lemma orders_incl (l l' : list A) : incl l' l -> orders le l -> orders le l'.
Proof.
  intros Hincl [Htotal Htrans]. split.
  - intros a b Ha Hb. apply Htotal; apply Hincl; assumption.
  - intros a b c Ha Hb Hc. apply Htrans; apply Hincl; assumption.
Qed.

Lemma insert_sorted_sorted (x : A) (l : list A) :
  orders le (x :: l) ->
  StronglySorted (fun a b => le a b = true) l ->
  StronglySorted (fun a b => le a b = true) (insert_sorted le x l).
Proof.
  induction l as [|y l IH]; intros Horders Hsorted; cbn [insert_sorted].
  - constructor; constructor.
  - inversion Hsorted as [|? ? Hrest Hall]; subst.
    destruct Horders as [Htotal Htrans].
    destruct (le x y) eqn:Hxy.
    + constructor; [exact Hsorted|].
      constructor; [exact Hxy|].
      rewrite Forall_forall in *. intros z Hz.
      apply (Htrans x y z); cbn [In]; auto.
    + assert (Hyx : le y x = true).
      { destruct (Htotal x y) as [Hbad | Hok]; cbn [In]; auto. congruence. }
      constructor.
      * apply IH; [|exact Hrest].
        apply (orders_incl (x :: y :: l)); [|split; assumption].
        intros z [<- | Hz]; cbn [In]; auto.
      * rewrite Forall_forall in *. intros z Hz.
        apply (Permutation_in _ (insert_sorted_perm x l)) in Hz.
        destruct Hz as [<- | Hz]; [exact Hyx | apply Hall, Hz].
Qed.

Lemma stable_sort_sorted (l : list A) :
  orders le l -> StronglySorted (fun a b => le a b = true) (stable_sort le l).
Proof.
  induction l as [|x l IH]; intros Horders; cbn [stable_sort fold_right].
  - constructor.
  - apply insert_sorted_sorted.
    + apply (orders_incl (x :: l)); [|exact Horders].
      intros z [<- | Hz]; [left; reflexivity|].
      right. apply stable_sort_In, Hz.
    + apply IH. apply (orders_incl (x :: l)); [|exact Horders].
      intros z Hz. right. exact Hz.
Qed.

End SortFacts.

Section OrderFacts.
Context {A : Type}.

Lemma StronglySorted_within (R R' : A -> A -> Prop) (l : list A) :
  (forall a b, In a l -> In b l -> R a b -> R' a b) ->
  StronglySorted R l -> StronglySorted R' l.
Proof.
  induction l as [|x l IH]; intros Himp Hsorted.
  - constructor.
  - inversion Hsorted as [|? ? Hrest Hall]; subst.
    constructor.
    + apply IH; [|exact Hrest].
      intros a b Ha Hb. apply Himp; right; assumption.
    + rewrite Forall_forall in *. intros z Hz.
      apply Himp; [left; reflexivity | right; exact Hz | apply Hall, Hz].
Qed.

Lemma StronglySorted_across (R : A -> A -> Prop) (l1 l2 : list A) :
  StronglySorted R (l1 ++ l2) ->
  forall a b, In a l1 -> In b l2 -> R a b.
Proof.
  induction l1 as [|x l1 IH]; cbn [app]; intros Hsorted a b Ha Hb.
  - contradiction.
  - inversion Hsorted as [|? ? Hrest Hall]; subst.
    destruct Ha as [<- | Ha].
    + rewrite Forall_forall in Hall. apply Hall, in_or_app. right. exact Hb.
    + exact (IH Hrest a b Ha Hb).
Qed.

End OrderFacts.

(** ** The list of the home page *)

Section HomeFacts.
Context {JN : JSNumber} {H : Host} {C : Calendar}.

Lemma ascending_orders (l : list EventsJS.formatted) :
  forallb EventsJS.has_time l = true -> orders EventsJS.ascending l.
Proof.
  intros Hall. rewrite forallb_forall in Hall.
  assert (Htime : forall e, In e l -> exists t, EventsJS.time_of e = Some t).
  { intros e He. specialize (Hall e He). unfold EventsJS.has_time in Hall.
    destruct (EventsJS.time_of e) as [t|]; [exists t; reflexivity | discriminate]. }
  split.
  - intros a b Ha Hb.
    destruct (Htime a Ha) as [x Hx], (Htime b Hb) as [y Hy].
    unfold EventsJS.ascending. rewrite Hx, Hy.
    destruct (Z.le_ge_cases x y); [left | right]; apply Z.leb_le; lia.
  - intros a b c Ha Hb Hc.
    destruct (Htime a Ha) as [x Hx], (Htime b Hb) as [y Hy], (Htime c Hc) as [z Hz].
    unfold EventsJS.ascending. rewrite Hx, Hy, Hz.
    rewrite !Z.leb_le. lia.
Qed.

Lemma ascending_starts_no_later (a b : EventsJS.formatted) :
  EventsJS.has_time a = true -> EventsJS.has_time b = true ->
  EventsJS.ascending a b = true -> starts_no_later a b.
Proof.
  unfold EventsJS.has_time, EventsJS.ascending, starts_no_later.
  destruct (EventsJS.time_of a) as [x|]; [|discriminate].
  destruct (EventsJS.time_of b) as [y|]; [|discriminate].
  intros _ _ Hle. apply Z.leb_le in Hle. lia.
Qed.

End HomeFacts.

(** X21.  When every upcoming event has a valid date, the home page shows
    at most three events, all of them upcoming, in the order of their
    dates, earliest first; and they are the earliest ones: no upcoming
    event left out starts before one that is shown. *)
Theorem home_page_shows_the_next_three {JN : JSNumber} {H : Host} {C : Calendar}
    (events : list EventsJS.formatted) :
  (forall e, In e events -> EventsJS.has_status "Upcoming" e = true ->
             EventsJS.has_time e = true) ->
  exists sorted,
    EventsJS.upcoming events = Some sorted
    /\ Permutation sorted (filter (EventsJS.has_status "Upcoming") events)
    /\ EventsJS.homeEvents events = Some (firstn 3 sorted)
    /\ (List.length (firstn 3 sorted) <= 3)%nat
    /\ (forall e, In e (firstn 3 sorted) ->
                  In e events /\ EventsJS.has_status "Upcoming" e = true)
    /\ StronglySorted starts_no_later (firstn 3 sorted)
    /\ (forall shown left_out,
           In shown (firstn 3 sorted) -> In left_out (skipn 3 sorted) ->
           starts_no_later shown left_out).
Proof.
  intros Hvalid.
  set (candidates := filter (EventsJS.has_status "Upcoming") events).
  assert (Hall : forallb EventsJS.has_time candidates = true).
  { apply forallb_forall. intros e He. apply filter_In in He as [Hin Hstatus].
    apply Hvalid; assumption. }
  set (sorted := stable_sort EventsJS.ascending candidates).
  assert (Hperm : Permutation sorted candidates) by apply stable_sort_perm.
  assert (Htimes : forall e, In e sorted -> EventsJS.has_time e = true).
  { intros e He. rewrite forallb_forall in Hall. apply Hall.
    apply (Permutation_in _ Hperm), He. }
  assert (Hsorted : StronglySorted starts_no_later sorted).
  { apply (StronglySorted_within (fun a b => EventsJS.ascending a b = true)).
    - intros a b Ha Hb. apply ascending_starts_no_later; apply Htimes; assumption.
    - apply stable_sort_sorted, ascending_orders, Hall. }
  exists sorted.
  split.
  { unfold EventsJS.upcoming, EventsJS.Array_sort. fold candidates.
    rewrite Hall. reflexivity. }
  split; [exact Hperm|].
  split.
  { unfold EventsJS.homeEvents, EventsJS.upcoming, EventsJS.Array_sort. fold candidates.
    rewrite Hall. reflexivity. }
  split; [apply firstn_le_length|].
  split.
  { intros e He.
    assert (Hin : In e candidates).
    { apply (Permutation_in _ Hperm).
      rewrite <- (firstn_skipn 3 sorted). apply in_or_app. left. exact He. }
    apply filter_In in Hin. exact Hin. }
  rewrite <- (firstn_skipn 3 sorted) in Hsorted.
  split.
  - clear -Hsorted. revert Hsorted.
    generalize (firstn 3 sorted) as l1. generalize (skipn 3 sorted) as l2.
    intros l2 l1. induction l1 as [|x l1 IH]; cbn [app]; intros Hsorted.
    + constructor.
    + inversion Hsorted as [|? ? Hrest Hall]; subst.
      constructor; [apply IH, Hrest|].
      rewrite Forall_forall in *. intros z Hz. apply Hall, in_or_app. left. exact Hz.
  - apply StronglySorted_across, Hsorted.
Qed.

(** ** The order of texts *)

Lemma ascii_compare_refl (c : ascii) : Ascii.compare c c = Eq.
Proof. unfold Ascii.compare. apply N.compare_refl. Qed.

Lemma string_compare_lt_trans (a b c : string) :
  String.compare a b = Lt -> String.compare b c = Lt -> String.compare a c = Lt.
Proof.
  revert b c. induction a as [|x a IH]; intros [|y b] [|z c]; cbn [String.compare];
    try discriminate; try reflexivity.
  unfold Ascii.compare.
  destruct (N.compare (N_of_ascii x) (N_of_ascii y)) eqn:Hxy; try discriminate.
  - apply N.compare_eq_iff in Hxy. rewrite Hxy.
    destruct (N.compare (N_of_ascii y) (N_of_ascii z)) eqn:Hyz; try discriminate.
    + apply IH.
    + reflexivity.
  - intros _.
    destruct (N.compare (N_of_ascii y) (N_of_ascii z)) eqn:Hyz; try discriminate.
    + apply N.compare_eq_iff in Hyz. rewrite <- Hyz, Hxy. reflexivity.
    + intros _. apply N.compare_lt_iff in Hxy. apply N.compare_lt_iff in Hyz.
      assert (Hxz : (N_of_ascii x < N_of_ascii z)%N)
        by (apply N.lt_trans with (N_of_ascii y); assumption).
      apply N.compare_lt_iff in Hxz. rewrite Hxz. reflexivity.
Qed.

Lemma string_leb_cases (a b : string) :
  String.leb a b = true <-> a = b \/ String.compare a b = Lt.
Proof.
  unfold String.leb. destruct (String.compare a b) eqn:Hcmp.
  - apply String.compare_eq_iff in Hcmp. split; auto.
  - split; auto.
  - split; [discriminate|]. intros [-> | Hbad]; [|discriminate].
    assert (Hrefl : String.compare b b = Eq).
    { clear. induction b as [|c b IH]; cbn [String.compare]; [reflexivity|].
      rewrite ascii_compare_refl. exact IH. }
    congruence.
Qed.

Lemma string_leb_trans (a b c : string) :
  String.leb a b = true -> String.leb b c = true -> String.leb a c = true.
Proof.
  rewrite !string_leb_cases.
  intros [-> | Hab] [-> | Hbc]; auto.
  right. exact (string_compare_lt_trans a b c Hab Hbc).
Qed.

Lemma string_leb_orders (l : list string) : orders String.leb l.
Proof.
  split.
  - intros a b _ _. apply String.leb_total.
  - intros a b c _ _ _. apply string_leb_trans.
Qed.

Lemma string_ltb_of_leb (a b : string) :
  String.leb a b = true -> a <> b -> String.ltb a b = true.
Proof.
  rewrite string_leb_cases. intros [-> | Hlt] Hne; [congruence|].
  unfold String.ltb. rewrite Hlt. reflexivity.
Qed.

Section ReverseFacts.
Context {A : Type}.

Lemma StronglySorted_snoc (R : A -> A -> Prop) (l : list A) (x : A) :
  StronglySorted R l -> Forall (fun y => R y x) l -> StronglySorted R (l ++ [x]).
Proof.
  induction l as [|y l IH]; cbn [app]; intros Hsorted Hall.
  - constructor; constructor.
  - inversion Hsorted as [|? ? Hrest Hy]; subst.
    inversion Hall as [|? ? Hyx Hall']; subst.
    constructor; [apply IH; assumption|].
    apply Forall_app. split; [exact Hy | constructor; [exact Hyx | constructor]].
Qed.

Lemma StronglySorted_rev (R : A -> A -> Prop) (l : list A) :
  StronglySorted R l -> StronglySorted (fun a b => R b a) (rev l).
Proof.
  induction l as [|x l IH]; cbn [rev]; intros Hsorted.
  - constructor.
  - inversion Hsorted as [|? ? Hrest Hall]; subst.
    apply StronglySorted_snoc; [apply IH, Hrest|].
    rewrite Forall_forall in *. intros y Hy. apply Hall, in_rev, Hy.
Qed.

Lemma NoDup_snoc (l : list A) (x : A) : NoDup l -> ~ In x l -> NoDup (l ++ [x]).
Proof.
  induction l as [|y l IH]; cbn [app]; intros Hnodup Hfresh.
  - constructor; [intros [] | constructor].
  - inversion Hnodup as [|? ? Hy Hrest]; subst.
    constructor.
    + intros Hin. apply in_app_or in Hin as [Hin | [<- | []]].
      * exact (Hy Hin).
      * apply Hfresh. left. reflexivity.
    + apply IH; [exact Hrest|]. intros Hin. apply Hfresh. right. exact Hin.
Qed.

Lemma StronglySorted_map {B : Type} (f : A -> B) (R : B -> B -> Prop) (l : list A) :
  StronglySorted (fun a b => R (f a) (f b)) l -> StronglySorted R (map f l).
Proof.
  induction l as [|x l IH]; cbn [map]; intros Hsorted.
  - constructor.
  - inversion Hsorted as [|? ? Hrest Hall]; subst.
    constructor; [apply IH, Hrest|].
    rewrite Forall_forall in *. intros y Hy.
    apply in_map_iff in Hy as [z [<- Hz]]. apply Hall, Hz.
Qed.

End ReverseFacts.

(** ** The groups of the archive *)

Section GroupFacts.
Context {JN : JSNumber} {H : Host} {C : Calendar}.

Lemma group_key_has_space (dateISO : value) :
  all_chars no_space (EventsJS.group_key dateISO) = false.
Proof.
  unfold EventsJS.group_key.
  destruct (Date_new dateISO) as [t|]; [|reflexivity].
  rewrite all_chars_app. cbn [append all_chars no_space].
  change (Ascii.eqb " " " ") with true. cbn [negb andb].
  apply andb_false_r.
Qed.

Lemma group_key_plain (dateISO : value) :
  (EventsJS.group_key dateISO =? "__proto__") = false
  /\ array_index (EventsJS.group_key dateISO) = None.
Proof.
  pose proof (group_key_has_space dateISO) as Hspace.
  split.
  - destruct (EventsJS.group_key dateISO =? "__proto__") eqn:Hk; [|reflexivity].
    apply String.eqb_eq in Hk. rewrite Hk in Hspace. discriminate Hspace.
  - unfold array_index.
    destruct (EventsJS.group_key dateISO) as [|c rest] eqn:Hk; [reflexivity|].
    destruct (all_chars is_digit (String c rest)) eqn:Hdigits; [|reflexivity].
    assert (Hno : all_chars no_space (String c rest) = true).
    { apply (all_chars_weaken is_digit); [|exact Hdigits].
      intros d Hd. unfold no_space.
      destruct (Ascii.eqb d " ") eqn:Hsp; [|reflexivity].
      apply Ascii.eqb_eq in Hsp. subst d. discriminate Hd. }
    congruence.
Qed.

Lemma obj_keys_assign_fresh {A : Type} (o : list (string * A)) (k : string) (v : A) :
  (k =? "__proto__") = false -> array_index k = None -> obj_get o k = None ->
  obj_keys (js_assign o k v) = (obj_keys o ++ [k])%list.
Proof.
  intros Hproto Hindex Hnone. unfold js_assign, obj_set, obj_has.
  rewrite Hproto, Hnone, Hindex. unfold obj_keys. rewrite map_app. reflexivity.
Qed.

Lemma filed_app_other (events : list EventsJS.formatted) (e : EventsJS.formatted)
    (key : string) :
  filed_under key e = false -> filed (events ++ [e]) key = filed events key.
Proof.
  intros He. unfold filed. rewrite filter_app. cbn [filter]. rewrite He, app_nil_r.
  reflexivity.
Qed.

Lemma filed_app_same (events : list EventsJS.formatted) (e : EventsJS.formatted)
    (key : string) :
  filed_under key e = true ->
  filed (events ++ [e]) key
  = Some (match filed events key with Some items => items | None => [] end ++ [e])%list.
Proof.
  intros He. unfold filed. rewrite filter_app. cbn [filter]. rewrite He.
  destruct (filter (filed_under key) events) as [|x items]; reflexivity.
Qed.

Lemma groupByYearMonth_steps (rest : list EventsJS.formatted) :
  forall (seen : list EventsJS.formatted) (groups : list (string * list EventsJS.formatted)),
    (forall key, obj_get groups key = filed seen key) ->
    NoDup (obj_keys groups) ->
    exists groups',
      fold_left
        (fun acc event =>
           groups <- acc ;;
           if negb (truthy (EventsJS.dateISO event)) then Ok groups
           else
             let key := EventsJS.group_key (EventsJS.dateISO event) in
             let groups :=
               match obj_get groups key with
               | Some _ => groups
               | None => js_assign groups key []
               end in
             match obj_get groups key with
             | Some items => Ok (obj_replace groups key (items ++ [event])%list)
             | None => Throw TypeError
             end)
        rest (Ok groups) = Ok groups'
      /\ (forall key, obj_get groups' key = filed (seen ++ rest) key)
      /\ NoDup (obj_keys groups').
Proof.
  induction rest as [|e rest IH]; intros seen groups Hget Hnodup; cbn [fold_left].
  - exists groups. rewrite app_nil_r. repeat split; assumption.
  - cbn [bind].
    replace (seen ++ e :: rest)%list with ((seen ++ [e]) ++ rest)%list
      by (rewrite <- app_assoc; reflexivity).
    destruct (truthy (EventsJS.dateISO e)) eqn:Hdated; cbn [negb].
    + cbv zeta.
      set (key := EventsJS.group_key (EventsJS.dateISO e)).
      destruct (group_key_plain (EventsJS.dateISO e)) as [Hproto Hindex].
      fold key in Hproto, Hindex.
      assert (Hself : filed_under key e = true).
      { unfold filed_under. rewrite Hdated. fold key. rewrite String.eqb_refl.
        reflexivity. }
      assert (Hother : forall k, (k =? key) = false -> filed_under k e = false).
      { intros k Hk. unfold filed_under. fold key.
        rewrite String.eqb_sym, Hk. apply andb_false_r. }
      destruct (obj_get groups key) as [items|] eqn:Hkey.
      * rewrite Hkey. apply IH.
        -- intros k. destruct (k =? key) eqn:Hk.
           ++ apply String.eqb_eq in Hk. subst k.
              rewrite obj_get_replace_same
                by (unfold obj_has; rewrite Hkey; reflexivity).
              rewrite (filed_app_same seen e key Hself), <- Hget, Hkey. reflexivity.
           ++ rewrite obj_get_replace_other by exact Hk.
              rewrite (filed_app_other seen e k (Hother k Hk)). apply Hget.
        -- unfold obj_keys in *. rewrite obj_replace_keys. exact Hnodup.
      * rewrite (obj_get_assign_same groups key [] Hproto).
        apply IH.
        -- intros k. destruct (k =? key) eqn:Hk.
           ++ apply String.eqb_eq in Hk. subst k.
              rewrite obj_get_replace_same
                by (unfold obj_has; rewrite (obj_get_assign_same groups key [] Hproto);
                    reflexivity).
              rewrite (filed_app_same seen e key Hself), <- Hget, Hkey. reflexivity.
           ++ rewrite obj_get_replace_other by exact Hk.
              rewrite obj_get_assign_other by exact Hk.
              rewrite (filed_app_other seen e k (Hother k Hk)). apply Hget.
        -- unfold obj_keys at 1. rewrite obj_replace_keys.
           fold (obj_keys (js_assign groups key (@nil EventsJS.formatted))).
           rewrite (obj_keys_assign_fresh groups key [] Hproto Hindex Hkey).
           apply NoDup_snoc; [exact Hnodup|].
           intros Hin. apply obj_get_keys in Hin. congruence.
    + apply IH; [|exact Hnodup].
      intros k. rewrite filed_app_other; [apply Hget|].
      unfold filed_under. rewrite Hdated. reflexivity.
Qed.

Lemma groupByYearMonth_filed (events : list EventsJS.formatted) :
  exists groups,
    EventsJS.groupByYearMonth events = Ok groups
    /\ (forall key, obj_get groups key = filed events key)
    /\ NoDup (obj_keys groups).
Proof.
  exact (groupByYearMonth_steps events [] [] (fun key => eq_refl) (NoDup_nil _)).
Qed.

(** The archive, group by group. *)
Lemma archive_by_key (pastEvents : list EventsJS.formatted) :
  exists byKey,
    (forall key, obj_get byKey key = filed pastEvents key)
    /\ NoDup (obj_keys byKey)
    /\ EventsJS.archive pastEvents
       = Ok (map (fun groupKey =>
                    (groupKey,
                     match obj_get byKey groupKey with
                     | Some items => items
                     | None => []
                     end))
               (EventsJS.archive_order byKey)).
Proof.
  destruct (groupByYearMonth_filed pastEvents) as [byKey [Hrun [Hget Hnodup]]].
  exists byKey. split; [exact Hget|]. split; [exact Hnodup|].
  unfold EventsJS.archive. rewrite Hrun. reflexivity.
Qed.

Lemma archive_order_In (byKey : list (string * list EventsJS.formatted)) (key : string) :
  In key (EventsJS.archive_order byKey) <-> obj_get byKey key <> None.
Proof.
  unfold EventsJS.archive_order. rewrite <- in_rev, <- obj_get_keys.
  split; apply Permutation_in;
    [apply stable_sort_perm | apply Permutation_sym, stable_sort_perm].
Qed.

Lemma archive_membership (pastEvents : list EventsJS.formatted)
    (groups : list (string * list EventsJS.formatted)) :
  EventsJS.archive pastEvents = Ok groups ->
  forall key items,
    In (key, items) groups <->
    items <> [] /\ items = filter (filed_under key) pastEvents.
Proof.
  destruct (archive_by_key pastEvents) as [byKey [Hget [_ Harchive]]].
  rewrite Harchive. intros [= <-] key items.
  rewrite in_map_iff. split.
  - intros [k [[= <- <-] Hk]].
    apply archive_order_In in Hk. rewrite Hget in *. unfold filed in *.
    destruct (filter (filed_under k) pastEvents) as [|x rest]; [congruence|].
    split; [discriminate | reflexivity].
  - intros [Hne ->]. exists key.
    assert (Hfiled : obj_get byKey key = Some (filter (filed_under key) pastEvents)).
    { rewrite Hget. unfold filed.
      destruct (filter (filed_under key) pastEvents); [congruence | reflexivity]. }
    split; [rewrite Hfiled; reflexivity|].
    apply archive_order_In. congruence.
Qed.

End GroupFacts.

(** X22.  [groupByYearMonth] never throws.  Under each key it holds
    exactly the events that have a date and that key, in the order they
    came in; a key without such an event is absent, so no group is empty
    and an event without a date is in no group.  No key appears twice. *)
Theorem groupByYearMonth_files_dated_events {JN : JSNumber} {H : Host} {C : Calendar}
    (events : list EventsJS.formatted) :
  exists groups,
    EventsJS.groupByYearMonth events = Ok groups
    /\ NoDup (obj_keys groups)
    /\ forall key,
         obj_get groups key
         = match filter (filed_under key) events with
           | [] => None
           | items => Some items
           end.
Proof.
  destruct (groupByYearMonth_filed events) as [groups [Hrun [Hget Hnodup]]].
  exists groups. split; [exact Hrun|]. split; [exact Hnodup|].
  intros key. rewrite Hget. reflexivity.
Qed.

(** X23.  The archive shows one group for every key under which a past
    event with a date is filed, and no other; the group holds exactly
    those events, in the order of the sorted list.  The groups come in
    strictly descending order of the text of their keys: years descend,
    and within a year the months follow the alphabet backwards. *)
Theorem archive_groups_descend_by_key {JN : JSNumber} {H : Host} {C : Calendar}
    (pastEvents : list EventsJS.formatted) :
  exists groups,
    EventsJS.archive pastEvents = Ok groups
    /\ StronglySorted (fun g g' => String.ltb (fst g') (fst g) = true) groups
    /\ forall key items,
         In (key, items) groups <->
         items <> [] /\ items = filter (filed_under key) pastEvents.
Proof.
  destruct (archive_by_key pastEvents) as [byKey [Hget [Hnodup Harchive]]].
  eexists. split; [exact Harchive|].
  split; [|apply archive_membership, Harchive].
  apply StronglySorted_map. cbn [fst].
  unfold EventsJS.archive_order.
  apply (StronglySorted_rev (fun a b => String.ltb a b = true)).
  assert (Hnd : NoDup (stable_sort String.leb (obj_keys byKey))).
  { apply (Permutation_NoDup (Permutation_sym (stable_sort_perm String.leb _))), Hnodup. }
  pose proof (stable_sort_sorted String.leb (obj_keys byKey)
                (string_leb_orders _)) as Hsorted.
  revert Hnd Hsorted.
  generalize (stable_sort String.leb (obj_keys byKey)) as keys.
  induction keys as [|k keys IH]; intros Hnd Hsorted; [constructor|].
  inversion Hnd as [|? ? Hfresh Hnd']; subst.
  inversion Hsorted as [|? ? Hrest Hall]; subst.
  constructor; [apply IH; assumption|].
  rewrite Forall_forall in *. intros k' Hk'.
  apply string_ltb_of_leb; [apply Hall, Hk'|].
  intros ->. contradiction.
Qed.

(** ** What the events page shows *)

Section PageFacts.
Context {JN : JSNumber} {H : Host} {C : Calendar}.




Lemma map_result_image {X Y : Type} (f : X -> result Y) (l : list X) (ys : list Y) :
  map_result f l = Ok ys -> forall y, In y ys -> exists x, In x l /\ f x = Ok y.
Proof.
  revert ys. induction l as [|x0 l IH]; cbn [map_result]; intros ys Hmap y Hin.
  - injection Hmap as <-. contradiction.
  - destruct (f x0) as [y0| |] eqn:Hx0; cbn [bind] in Hmap; try discriminate.
    destruct (map_result f l) as [rest| |]; cbn [bind] in Hmap; try discriminate.
    injection Hmap as <-.
    destruct Hin as [<- | Hin].
    + exists x0. split; [left; reflexivity | exact Hx0].
    + destruct (IH rest eq_refl y Hin) as [x [Hx Hfx]].
      exists x. split; [right; exact Hx | exact Hfx].
Qed.

(** [d || undefined || ""] is [d] when [d] is the empty string or truthy. *)
Lemma startDate_is_dateISO (d : value) :
  d = VStr "" \/ truthy d = true ->
  js_or (js_or d VUndefined) (VStr "") = d.
Proof.
  intros [-> | Ht]; [reflexivity|].
  unfold js_or. rewrite Ht, Ht. reflexivity.
Qed.

End PageFacts.


(** X25.  The JSON-LD block has one entry for every event fetched,
    whatever its status: the entry carries the name and the date of the
    event as formatted (the fall-back to [ev.date] never applies) and
    always says [EventScheduled].  For an empty list nothing is injected;
    otherwise one script is appended after those the head already holds. *)
Theorem jsonld_lists_every_event {JN : JSNumber} {H : Host} {C : Calendar}
    (data : list value) (events : list EventsJS.formatted) (head : list string) :
  map_result EventsJS.formatEvent data = Ok events ->
  (events = [] -> EventsJS.injectEventJsonLd events head = head)
  /\ (events <> [] ->
      exists text,
        JSON_stringify (VArr (map EventsJS.jsonld events)) = Some text
        /\ EventsJS.injectEventJsonLd events head = (head ++ [text])%list)
  /\ List.length (map EventsJS.jsonld events) = List.length data
  /\ forall ev, In ev events ->
       EventsJS.member (EventsJS.jsonld ev) "name" = EventsJS.name ev
       /\ EventsJS.member (EventsJS.jsonld ev) "startDate" = EventsJS.dateISO ev
       /\ EventsJS.member (EventsJS.jsonld ev) "eventStatus"
          = VStr "https://schema.org/EventScheduled".
Proof.
  intros Hmap.
  split; [intros ->; reflexivity|].
  split.
  { intros Hne.
    destruct (stringify_array_Some "" "" (map EventsJS.jsonld events)) as [text Htext].
    exists text. unfold JSON_stringify. split; [exact Htext|].
    unfold EventsJS.injectEventJsonLd.
    destruct events as [|ev rest]; [congruence|].
    unfold JSON_stringify. rewrite Htext. reflexivity. }
  split; [rewrite length_map; apply (map_result_length _ _ _ Hmap)|].
  intros ev Hin.
  split; [reflexivity|]. split; [|reflexivity].
  destruct (map_result_image _ _ _ Hmap ev Hin) as [entry [_ Hentry]].
  unfold EventsJS.formatEvent in Hentry.
  destruct (is_nullish entry); [discriminate|].
  injection Hentry as <-.
  cbn [EventsJS.jsonld EventsJS.member js_get obj_get EventsJS.dateISO].
  cbn [String.eqb Ascii.eqb Bool.eqb].
  apply startDate_is_dateISO, js_or_default.
Qed.

(** ** The checkpoint and the fetch; titles and dates *)

Section IgnoreFacts.
Context {JN : JSNumber} {H : Host}.

Lemma record_checkpoint_same_files (d : option string) (fs1 fs2 : FS)
    (paths : list string) :
  events_json fs1 = events_json fs2 ->
  events_json (fst (fst (record_checkpoint d (fs1, paths))))
  = events_json (fst (fst (record_checkpoint d (fs2, paths))))
  /\ snd (fst (record_checkpoint d (fs1, paths)))
     = snd (fst (record_checkpoint d (fs2, paths)))
  /\ snd (record_checkpoint d (fs1, paths)) = snd (record_checkpoint d (fs2, paths)).
Proof.
  intros Hsame. unfold record_checkpoint, writeLastSyncTimestamp, writeFile.
  destruct (nonempty d); [|repeat split; [exact Hsame | reflexivity ..]].
  destruct d as [ts|]; [|repeat split; [exact Hsame | reflexivity ..]].
  destruct (writeFile_rejected path_last_sync);
    cbn [fst snd events_json]; repeat split; try reflexivity; exact Hsame.
Qed.

(** The last step of two runs that differ in the checkpoint only. *)
Lemma finish_same_files (d : option string) (fs1 fs2 : FS) (paths : list string) :
  events_json fs1 = events_json fs2 ->
  match (let (st, r) := finish d (fs1, paths) in code <- r ;; Ok (st, code)),
        (let (st, r) := finish d (fs2, paths) in code <- r ;; Ok (st, code)) with
  | Ok (after1, paths1, code1), Ok (after2, paths2, code2) =>
      events_json after1 = events_json after2 /\ paths1 = paths2 /\ code1 = code2
  | Throw e1, Throw e2 => e1 = e2
  | Diverge, Diverge => True
  | _, _ => False
  end.
Proof.
  intros Hsame. rewrite !finish_by_checkpoint.
  destruct (record_checkpoint_same_files d fs1 fs2 paths Hsame) as [Hfiles [Hpaths Hend]].
  rewrite Hend.
  destruct (record_checkpoint d (fs1, paths)) as [[after1 paths1] end1].
  destruct (record_checkpoint d (fs2, paths)) as [[after2 paths2] end2].
  cbn [fst snd] in *.
  destruct end2 as [[]|e|]; cbn [bind]; [repeat split; assumption | reflexivity | exact I].
Qed.

(** What an event of either mapper reads under a key that is neither
    excluded nor [datePretty]. *)
Lemma mapped_value (pg : page) (event : object) (k : string) :
  FetchEvents.mapEvent pg = Ok event \/ FetchEventsWithStatus.mapEvent pg = Ok event ->
  (k =? "datePretty") = false ->
  (k =? "__proto__") = false ->
  existsb (String.eqb k)
    ["Location"; "Place Name"; "Place Link"; "Visible on site"; "Place"] = false ->
  js_get event k
  = match obj_get (page_properties pg) k with
    | Some p => if is_nullish (extractPropertyValue p) then VUndefined
                else extractPropertyValue p
    | None => VUndefined
    end.
Proof.
  intros Hmap Hpretty Hproto Hex.
  cbn [existsb] in Hex.
  apply orb_false_iff in Hex as [Hloc Hex].
  apply orb_false_iff in Hex as [Hpn Hex].
  apply orb_false_iff in Hex as [Hpl Hex].
  apply orb_false_iff in Hex as [Hvis Hex].
  apply orb_false_iff in Hex as [Hplace _].
  unfold js_get.
  destruct Hmap as [Hmap | Hmap].
  - unfold FetchEvents.mapEvent in Hmap.
    rewrite (add_datePretty_other _ _ _ Hmap Hpretty).
    rewrite (extract_all_get _ _ _ Hproto). unfold kept.
    destruct (obj_get (page_properties pg) k) as [p|]; [|reflexivity].
    cbn [existsb FetchEvents.excludedProperties]. rewrite Hloc, Hvis. cbn [orb].
    destruct (is_nullish _); reflexivity.
  - unfold FetchEventsWithStatus.mapEvent in Hmap.
    rewrite (add_datePretty_other _ _ _ Hmap Hpretty).
    rewrite !obj_get_delete.
    rewrite (String.eqb_sym "Place" k), (String.eqb_sym "Place Link" k),
      (String.eqb_sym "Place Name" k), Hplace, Hpl, Hpn.
    rewrite (extract_all_get _ _ _ Hproto). unfold kept.
    destruct (obj_get (page_properties pg) k) as [p|]; [|reflexivity].
    cbn [existsb FetchEventsWithStatus.excludedProperties].
    rewrite Hloc, Hpn, Hpl, Hvis. cbn [orb].
    destruct (is_nullish _); reflexivity.
Qed.

End IgnoreFacts.

(** X26.  The fetch script never reads the checkpoint.  Two runs that
    start from the same published file end alike whatever [.last-sync]
    held: the same exit code, the same files written, the same published
    file, the same exception if it fails.  And a checkpoint that cannot be
    read makes both checkers ask for that fetch. *)
Theorem fetch_ignores_the_checkpoint {JN : JSNumber} {H : Host}
    (mapEvent : page -> result object) (notion : Notion) (fs1 fs2 : FS) :
  events_json fs1 = events_json fs2 ->
  match fetch_and_write mapEvent notion fs1, fetch_and_write mapEvent notion fs2 with
  | Ok (after1, paths1, code1), Ok (after2, paths2, code2) =>
      events_json after1 = events_json after2 /\ paths1 = paths2 /\ code1 = code2
  | Throw e1, Throw e2 => e1 = e2
  | Diverge, Diverge => True
  | _, _ => False
  end
  /\ forall code now,
       last_sync fs1 = Unreadable code -> (code =? "ENOENT") = false ->
       CheckUpdates.main notion fs1 now = 0%nat
       /\ CheckUpdatesPlain.main notion fs1 = 0%nat.
Proof.
  intros Hsame. split.
  - unfold fetch_and_write, fetch_and_write_try.
    destruct (databases_query notion main_query) as [response|e|]; cbn [bind];
      [|reflexivity | exact I].
    destruct (map_result mapEvent (results response)) as [events|e|]; cbn [bind];
      [|reflexivity | exact I].
    destruct (computeEventsHash _) as [newHash|e|]; cbn [bind]; [|reflexivity | exact I].
    assert (Hex : getExistingEventsHash fs1 = getExistingEventsHash fs2).
    { unfold getExistingEventsHash. rewrite Hsame. reflexivity. }
    rewrite Hex.
    destruct (getExistingEventsHash fs2) as [existingHash|e|]; cbn [bind];
      [|reflexivity | exact I].
    destruct (unchanged newHash existingHash).
    + apply finish_same_files, Hsame.
    + unfold publish, writeFile.
      destruct mkdir_public as [[]|e|]; cbn [bind]; [|reflexivity | exact I].
      destruct (JSON_stringify_pretty _) as [text|]; [|reflexivity].
      destruct (writeFile_rejected path_events_json); [reflexivity|].
      apply (finish_same_files (getDatabaseLastEditedTime notion)
               {| last_sync := last_sync fs1;
                  events_json := written_over (events_json fs1) text |}
               {| last_sync := last_sync fs2;
                  events_json := written_over (events_json fs2) text |}).
      cbn [events_json]. rewrite Hsame. reflexivity.
  - intros code now Hfile Hcode.
    unfold CheckUpdates.main, CheckUpdates.checkIfFetchNeeded,
      CheckUpdatesPlain.main, CheckUpdatesPlain.checkIfFetchNeeded,
      readLastSyncTimestamp.
    rewrite Hfile. cbn [readFile is_ENOENT]. rewrite Hcode. split; reflexivity.
Qed.

(** X27.  For a page whose [Name] is a title and whose [Date] is a date,
    with no lower-case twin of either, the event the script maps it to
    passes the filter exactly when the title has some text and the date
    has a start: an untitled or undated page is never published. *)
Theorem titled_dated_page_is_published_iff {JN : JSNumber} {H : Host}
    (pg : page) (event : object)
    (title : option (list string)) (date : option date_value) :
  obj_get (page_properties pg) "Name" = Some (PTitle title) ->
  obj_get (page_properties pg) "Date" = Some (PDate date) ->
  obj_get (page_properties pg) "name" = None ->
  obj_get (page_properties pg) "date" = None ->
  FetchEvents.mapEvent pg = Ok event \/ FetchEventsWithStatus.mapEvent pg = Ok event ->
  (is_valid_event event = true <->
   (exists spans, title = Some spans /\ String.concat "" spans <> "")
   /\ (exists start, date = Some start /\ date_start start <> "")).
Proof.
  intros Hname Hdate Hlname Hldate Hmap.
  pose proof (fun k => mapped_value pg event k Hmap) as Hget.
  unfold is_valid_event.
  rewrite (Hget "Name" eq_refl eq_refl eq_refl), (Hget "name" eq_refl eq_refl eq_refl),
    (Hget "Date" eq_refl eq_refl eq_refl), (Hget "date" eq_refl eq_refl eq_refl).
  rewrite Hname, Hdate, Hlname, Hldate.
  cbn [extractPropertyValue].
  assert (Hstr : forall s,
            truthy (js_or (if is_nullish (str_or_null s) then VUndefined
                           else str_or_null s) VUndefined) = true <-> s <> "").
  { intros s. unfold str_or_null.
    destruct (s =? "") eqn:Hs; cbn [is_nullish]; unfold js_or; cbn [truthy].
    - apply String.eqb_eq in Hs. split; [discriminate | congruence].
    - rewrite Hs. cbn [negb truthy]. rewrite Hs.
      apply String.eqb_neq in Hs. split; auto. }
  rewrite andb_true_iff.
  destruct title as [spans|], date as [start|];
    cbn [plain_text_or_null date_start_or_null].
  - rewrite !Hstr. split.
    + intros [Hn Hd]. split; [exists spans | exists start]; auto.
    + intros [[spans' [[= <-] Hn]] [start' [[= <-] Hd]]]. auto.
  - rewrite Hstr. cbn [is_nullish js_or truthy]. split.
    + intros [_ Hbad]. discriminate.
    + intros [_ [start' [Hbad _]]]. discriminate.
  - rewrite Hstr. cbn [is_nullish js_or truthy]. split.
    + intros [Hbad _]. discriminate.
    + intros [[spans' [Hbad _]] _]. discriminate.
  - cbn [is_nullish js_or truthy]. split.
    + intros [Hbad _]. discriminate.
    + intros [[spans' [Hbad _]] _]. discriminate.
Qed.

(** ** The scenarios, evaluated *)

Module ScenarioFacts.
Import UTC Scenario.

(** The digest function on the test vectors of FIPS 180-4 and on a text
    longer than one block. *)
Example digest_hex_abc :
  SHA256.digest_hex "abc"
  = "ba7816bf8f01cfea414140de5dae2223b00361a396177a9cb410ff61f20015ad".
Proof. vm_compute. reflexivity. Qed.

Example digest_hex_empty :
  SHA256.digest_hex ""
  = "e3b0c44298fc1c149afbf4c8996fb92427ae41e4649b934ca495991b7852b855".
Proof. vm_compute. reflexivity. Qed.

Example digest_hex_two_blocks :
  SHA256.digest_hex
    "aaaaaaaaaaaaaaaaaaaaaaaaaaaaaaaaaaaaaaaaaaaaaaaaaaaaaaaaaaaaaaaaaaaaaa"
  = "6bd5e5034855a11241f0dee8fc72850ffd9955b28347a86428b5fa19119f6ad0".
Proof. vm_compute. reflexivity. Qed.

Example formatDatePretty_evening :
  formatDatePretty (VStr "2025-11-12T19:00:00.000+00:00") = Ok (VStr "12 Nov 2025 19:00").
Proof. vm_compute. reflexivity. Qed.

Example JSON_parse_nested :
  JSON_parse " [1, [true, null], {}] "
  = Ok (VArr [VNum 1%Z; VArr [VBool true; VNull]; VObj []]).
Proof. vm_compute. reflexivity. Qed.

Example JSON_parse_unclosed : JSON_parse "[[[[" = Throw SyntaxError.
Proof. vm_compute. reflexivity. Qed.

(** Keys that are array indices come first, whatever the order of the
    assignments. *)
Example assignment_order :
  obj_keys (js_assign (js_assign (js_assign [] "b" 1%Z) "10" 2%Z) "9" 3%Z)
  = ["9"; "10"; "b"].
Proof. vm_compute. reflexivity. Qed.

(** A record whose only fields are the four excluded keys and a title is
    mapped to its name alone, and is then dropped for want of a date. *)
Example only_excluded_keys :
  FetchEventsWithStatus.mapEvent
    {| page_id := "page-x";
       page_properties :=
         [("Name", PTitle (Some ["Quiz"; " night"]));
          ("Location", PRelation (Some ["place-1"]));
          ("Place Name", PRollup (Some [PTitle (Some ["Secret Bar"])]) None);
          ("Place Link", PUrl (Some "https://maps.example/bar"));
          ("Visible on site", PCheckbox true)] |}
  = Ok [("Name", VStr "Quiz night")]
  /\ is_valid_event [("Name", VStr "Quiz night")] = false.
Proof. split; vm_compute; reflexivity. Qed.

(** An upcoming event in 2099 gets no update and keeps its status; one in
    2000 gets one update to [Past]. *)
Example future_event_left_alone :
  FetchEventsWithStatus.updateEventStatusesInNotion 1 (store_rejecting [future_c] [])
    morning_after
  = Ok {| FetchEventsWithStatus.returned := false;
          FetchEventsWithStatus.calls := [];
          FetchEventsWithStatus.updatedCount := 0 |}
  /\ exists event,
       FetchEventsWithStatus.mapEvent future_c = Ok event
       /\ obj_get event "Status" = Some (VStr "Upcoming").
Proof.
  split; [vm_compute; reflexivity|].
  eexists. split; [vm_compute; reflexivity|]. vm_compute. reflexivity.
Qed.

Example past_event_updated :
  FetchEventsWithStatus.updateEventStatusesInNotion 1 (store_rejecting [past_a] [])
    morning_after
  = Ok {| FetchEventsWithStatus.returned := true;
          FetchEventsWithStatus.calls := [("page-a", "Past")];
          FetchEventsWithStatus.updatedCount := 1 |}.
Proof. vm_compute. reflexivity. Qed.

(** C10 fails as stated: rollup arrays nested as deep as the call stack
    has room for activations make the extractor throw.  On a stack with
    room for 3000 activations of [extractPropertyValue], a checkbox under
    2999 rollup arrays is extracted and one under 3000 is not. *)
Lemma deep_rollup_overflows_the_stack :
  extractPropertyValue_on 3000 (nested_rollup 3000 (PCheckbox true)) = Throw RangeError
  /\ extractPropertyValue_on 3000 (nested_rollup 2999 (PCheckbox true))
     = Ok (extractPropertyValue (nested_rollup 2999 (PCheckbox true))).
Proof. split; vm_compute; reflexivity. Qed.

(** C1.  [mapEvent] of [scripts/fetch-events-from-notion.mjs] excludes only
    [Location] and [Visible on site]: the venue name and the venue link of
    a page stay in the event, the event passes the filter, and the run
    writes them to the published file. *)
Theorem mapEvent_plain_publishes_venue :
  exists (event : object) (text : string),
    FetchEvents.mapEvent venue_page = Ok event
    /\ obj_get event "Place Name" = Some (VArr [VStr "Secret Bar"])
    /\ obj_get event "Place Link" = Some (VArr [VStr "https://maps.example/bar"])
    /\ is_valid_event event = true
    /\ FetchEvents.fetchAndWriteEvents (single_page_store [venue_page]) no_files
       = Ok {| exit_code := 0;
               files := {| last_sync := File "2025-11-10T08:00:00.000Z";
                           events_json := File text |};
               written := [path_events_json; path_last_sync];
               updates := [];
               waited := false |}
    /\ JSON_parse text = Ok (events_value [event]).
Proof.
  eexists. eexists.
  split; [vm_compute; reflexivity|].
  split; [vm_compute; reflexivity|].
  split; [vm_compute; reflexivity|].
  split; [vm_compute; reflexivity|].
  split; [vm_compute; reflexivity|].
  vm_compute. reflexivity.
Qed.


(** C2 fails as stated: an event can have both fields and still be left
    out.  The page has a checkbox called [Name]; the mapped event has a
    [Name] field holding [false] and a [Date] field, and the filter drops
    it. *)
Lemma unticked_name_is_dropped :
  exists event : object,
    FetchEventsWithStatus.mapEvent unticked_page = Ok event
    /\ has_name_field event = true
    /\ has_date_field event = true
    /\ ~ In event (filter is_valid_event [event]).
Proof.
  eexists. split; [vm_compute; reflexivity|].
  split; [reflexivity|]. split; [reflexivity|].
  vm_compute. intros [].
Qed.

Lemma published_iff_truthy_witness :
  databases_query (single_page_store [venue_page; unticked_page]) main_query
  = Ok {| results := [venue_page; unticked_page]; has_more := false; next_cursor := None |}
  /\ exists events fs' paths text,
       map_result FetchEventsWithStatus.mapEvent [venue_page; unticked_page] = Ok events
       /\ fetch_and_write FetchEventsWithStatus.mapEvent
            (single_page_store [venue_page; unticked_page]) no_files
          = Ok (fs', paths, 0%nat)
       /\ In path_events_json paths
       /\ events_json fs' = File text
       /\ JSON_stringify_pretty (events_value (filter is_valid_event events)) = Some text.
Proof.
  split; [reflexivity|].
  eexists. eexists. eexists.
  assert (Hm : map_result FetchEventsWithStatus.mapEvent [venue_page; unticked_page]
               = Ok _) by (vm_compute; reflexivity).
  assert (Hrun : fetch_and_write FetchEventsWithStatus.mapEvent
                   (single_page_store [venue_page; unticked_page]) no_files
                 = Ok (_, _, 0%nat)) by (vm_compute; reflexivity).
  assert (Hin : In path_events_json [path_events_json; path_last_sync])
    by (left; reflexivity).
  destruct (published_iff_truthy FetchEventsWithStatus.mapEvent
              (single_page_store [venue_page; unticked_page]) no_files
              _ _ _ _ eq_refl Hm Hrun Hin) as [text [Hfile [Htext _]]].
  exists text.
  split; [exact Hm|]. split; [exact Hrun|]. split; [exact Hin|].
  split; [exact Hfile | exact Htext].
Defined.

Lemma publish_iff_digest_differs_witness :
  databases_query (single_page_store [venue_page]) main_query
  = Ok {| results := [venue_page]; has_more := false; next_cursor := None |}
  /\ exists events existingHash,
       map_result FetchEvents.mapEvent [venue_page] = Ok events
       /\ getExistingEventsHash published_files = Ok (Some existingHash)
       /\ getExistingEventsHash no_files = Ok None
       /\ (exists after paths,
             computeEventsHash (events_value (filter is_valid_event events))
             = Ok existingHash
             /\ fetch_and_write FetchEvents.mapEvent (single_page_store [venue_page])
                  published_files = Ok (after, paths, 0%nat)
             /\ events_json after = events_json published_files
             /\ ~ In path_events_json paths)
       /\ (exists text after paths,
             JSON_stringify_pretty (events_value (filter is_valid_event events))
             = Some text
             /\ fetch_and_write FetchEvents.mapEvent (single_page_store [venue_page])
                  no_files = Ok (after, paths, 0%nat)
             /\ events_json after = File text
             /\ In path_events_json paths).
Proof.
  split; [reflexivity|].
  eexists. eexists.
  assert (Hm : map_result FetchEvents.mapEvent [venue_page] = Ok _)
    by (vm_compute; reflexivity).
  assert (Hex : getExistingEventsHash published_files = Ok (Some _))
    by (vm_compute; reflexivity).
  assert (Hnone : getExistingEventsHash no_files = Ok None) by reflexivity.
  assert (Hacc : writes_accepted) by (repeat split; reflexivity).
  split; [exact Hm|]. split; [exact Hex|]. split; [exact Hnone|].
  split.
  - destruct (publish_iff_digest_differs FetchEvents.mapEvent
                (single_page_store [venue_page]) published_files _ _ _ eq_refl Hm Hex)
      as [newHash [text [after [paths [r [Hh [_ [_ [Hsame [_ [_ [_ [_ Hok]]]]]]]]]]]]].
    destruct (Hok Hacc) as [_ [Hrun _]].
    vm_compute in Hh. injection Hh as <-.
    destruct (Hsame eq_refl) as [Hfile Hout].
    exists after, paths.
    split; [vm_compute; reflexivity|]. split; [exact Hrun|].
    split; assumption.
  - destruct (publish_iff_digest_differs FetchEvents.mapEvent
                (single_page_store [venue_page]) no_files _ _ _ eq_refl Hm Hnone)
      as [newHash [text [after [paths [r [_ [Ht [_ [_ [_ [_ [_ [_ Hok]]]]]]]]]]]]].
    destruct (Hok Hacc) as [_ [Hrun [_ Hnew]]].
    destruct (Hnew eq_refl) as [Hfile Hin].
    exists text, after, paths.
    split; [exact Ht|]. split; [exact Hrun|]. split; assumption.
Defined.

(** C4 fails as stated: with the output file cut short, the digest of the
    published file is not taken to be missing; [JSON.parse] throws, and the
    run ends with code 1 and writes nothing. *)
Lemma broken_file_aborts_run :
  getExistingEventsHash broken_files = Throw SyntaxError
  /\ FetchEvents.fetchAndWriteEvents (single_page_store [venue_page]) broken_files
     = Ok {| exit_code := 1; files := broken_files; written := [];
             updates := []; waited := false |}
  /\ FetchEventsWithStatus.fetchAndWriteEvents 1 (single_page_store [venue_page]) broken_files
       morning_after
     = Ok {| exit_code := 1; files := broken_files; written := [];
             updates := [("page-1", "Past")]; waited := true |}.
Proof.
  split; [vm_compute; reflexivity|].
  split; [vm_compute; reflexivity|].
  vm_compute. reflexivity.
Qed.

Lemma existing_hash_missing_or_broken_witness :
  databases_query (single_page_store [venue_page]) main_query
  = Ok {| results := [venue_page]; has_more := false; next_cursor := None |}
  /\ exists events,
       map_result FetchEvents.mapEvent [venue_page] = Ok events
       /\ getExistingEventsHash no_files = Ok None
       /\ (exists fs' paths,
             fetch_and_write FetchEvents.mapEvent (single_page_store [venue_page]) no_files
             = Ok (fs', paths, 0%nat)
             /\ In path_events_json paths)
       /\ getExistingEventsHash broken_files = Throw SyntaxError
       /\ fetch_and_write FetchEvents.mapEvent (single_page_store [venue_page]) broken_files
          = Throw SyntaxError.
Proof.
  split; [reflexivity|].
  eexists.
  assert (Hm : map_result FetchEvents.mapEvent [venue_page] = Ok _)
    by (vm_compute; reflexivity).
  assert (Hacc : writes_accepted) by (repeat split; reflexivity).
  split; [exact Hm|].
  destruct (existing_hash_missing_or_broken FetchEvents.mapEvent
              (single_page_store [venue_page]) no_files _ _ eq_refl Hm)
    as [Hmissing _].
  destruct (existing_hash_missing_or_broken FetchEvents.mapEvent
              (single_page_store [venue_page]) broken_files _ _ eq_refl Hm)
    as [_ [Hbroken _]].
  destruct (Hmissing eq_refl) as [Hnone [_ Hwrites]].
  split; [exact Hnone|]. split; [exact (Hwrites Hacc)|].
  assert (Hparse : JSON_parse "[" = Throw SyntaxError) by (vm_compute; reflexivity).
  destruct (Hbroken "[" eq_refl Hparse) as [Hread [Hrun _]].
  split; assumption.
Defined.

(** C5.  The checkpoint holds the time of the last edit of the database,
    nothing was edited since and no upcoming event has passed, so the
    specification skips; the script with the scan compares the last edit
    with the midnight before the checkpoint, finds it later and asks for a
    fetch (exit code 0).  The script without the scan skips (exit code 1). *)
Theorem checkpoint_midnight_forces_fetch :
  readLastSyncTimestamp synced_files = Ok (Some "2025-11-12T19:00:00.000Z")
  /\ getDatabaseLastEditedTime quiet_store = Some "2025-11-12T19:00:00.000Z"
  /\ CheckUpdates.checkForDateBasedStatusChanges quiet_store morning_after = false
  /\ needsSync (Some "2025-11-12T19:00:00.000Z") (Some "2025-11-12T19:00:00.000Z") false
     = false
  /\ CheckUpdates.checkIfFetchNeeded quiet_store synced_files morning_after = Ok true
  /\ CheckUpdates.main quiet_store synced_files morning_after = 0%nat
  /\ CheckUpdatesPlain.main quiet_store synced_files = 1%nat.
Proof.
  split; [vm_compute; reflexivity|].
  split; [vm_compute; reflexivity|].
  split; [vm_compute; reflexivity|].
  split; [vm_compute; reflexivity|].
  split; [vm_compute; reflexivity|].
  split; [vm_compute; reflexivity|].
  vm_compute. reflexivity.
Qed.

Lemma one_update_per_past_record_witness :
  FetchEventsWithStatus.query_all 2 two_page_store None [] = Ok [past_a; future_c]
  /\ NoDup (map page_id [past_a; future_c])
  /\ In past_a [past_a; future_c]
  /\ date_property past_a
     = Some (PDate (Some {| date_start := "2000-01-01"; date_end := None |}))
  /\ Date_new (VStr "2000-01-01") = Some 946684800000%Z
  /\ exists r,
       FetchEventsWithStatus.updateEventStatusesInNotion 2 two_page_store morning_after = Ok r
       /\ calls_to "page-a" (FetchEventsWithStatus.calls r) = [("page-a", "Past")].
Proof.
  assert (Hq : FetchEventsWithStatus.query_all 2 two_page_store None [] = Ok [past_a; future_c])
    by reflexivity.
  assert (Hnd : NoDup (map page_id [past_a; future_c])).
  { repeat constructor; simpl; intuition discriminate. }
  assert (Hin : In past_a [past_a; future_c]) by (left; reflexivity).
  assert (Hprop : date_property past_a
                  = Some (PDate (Some {| date_start := "2000-01-01"; date_end := None |})))
    by reflexivity.
  assert (Hdate : Date_new (VStr "2000-01-01") = Some 946684800000%Z)
    by (vm_compute; reflexivity).
  repeat (split; [assumption|]).
  destruct (one_update_per_past_record 2 two_page_store morning_after
              [past_a; future_c] past_a _ _ Hq Hnd Hin Hprop Hdate)
    as [r [Hrun [Hpast _]]].
  exists r. split; [exact Hrun|].
  apply Hpast. vm_compute. reflexivity.
Defined.

(** C7 fails as stated: the value returned is not the count.  Of two past
    events, both updates go through in one store and only one in the
    other; the counts are 2 and 1 and the function returns [true] both
    times, so nothing read off the returned value gives the count. *)
Lemma returned_value_is_not_the_count :
  (exists r2 r1,
     FetchEventsWithStatus.updateEventStatusesInNotion 1
       (store_rejecting [past_a; past_b] []) morning_after = Ok r2
     /\ FetchEventsWithStatus.updateEventStatusesInNotion 1
          (store_rejecting [past_a; past_b] ["page-b"]) morning_after = Ok r1
     /\ FetchEventsWithStatus.updatedCount r2 = 2%nat
     /\ FetchEventsWithStatus.updatedCount r1 = 1%nat
     /\ FetchEventsWithStatus.returned r2 = true
     /\ FetchEventsWithStatus.returned r1 = true)
  /\ ~ (exists count_of : bool -> nat,
          forall fuel (notion : Notion) now r,
            FetchEventsWithStatus.updateEventStatusesInNotion fuel notion now = Ok r ->
            count_of (FetchEventsWithStatus.returned r) = FetchEventsWithStatus.updatedCount r).
Proof.
  assert (H2 : FetchEventsWithStatus.updateEventStatusesInNotion 1
                 (store_rejecting [past_a; past_b] []) morning_after
               = Ok {| FetchEventsWithStatus.returned := true;
                       FetchEventsWithStatus.calls := [("page-a", "Past"); ("page-b", "Past")];
                       FetchEventsWithStatus.updatedCount := 2 |})
    by (vm_compute; reflexivity).
  assert (H1 : FetchEventsWithStatus.updateEventStatusesInNotion 1
                 (store_rejecting [past_a; past_b] ["page-b"]) morning_after
               = Ok {| FetchEventsWithStatus.returned := true;
                       FetchEventsWithStatus.calls := [("page-a", "Past"); ("page-b", "Past")];
                       FetchEventsWithStatus.updatedCount := 1 |})
    by (vm_compute; reflexivity).
  split.
  - eexists. eexists. split; [exact H2|]. split; [exact H1|].
    repeat split.
  - intros [count_of Hcount].
    pose proof (Hcount _ _ _ _ H2) as E2.
    pose proof (Hcount _ _ _ _ H1) as E1.
    simpl in E1, E2. congruence.
Qed.

Lemma status_update_tolerates_failures_witness :
  FetchEventsWithStatus.query_all 1 (store_rejecting [past_a; past_b; future_c] ["page-a"]) None []
  = Ok [past_a; past_b; future_c]
  /\ exists r,
       FetchEventsWithStatus.updateEventStatusesInNotion 1
         (store_rejecting [past_a; past_b; future_c] ["page-a"]) morning_after = Ok r
       /\ FetchEventsWithStatus.calls r = [("page-a", "Past"); ("page-b", "Past")]
       /\ FetchEventsWithStatus.updatedCount r = 1%nat
       /\ FetchEventsWithStatus.returned r = true.
Proof.
  assert (Hq : FetchEventsWithStatus.query_all 1
                 (store_rejecting [past_a; past_b; future_c] ["page-a"]) None []
               = Ok [past_a; past_b; future_c]) by reflexivity.
  split; [exact Hq|].
  destruct (status_update_tolerates_failures 1
              (store_rejecting [past_a; past_b; future_c] ["page-a"])
              no_files morning_after _ Hq)
    as [r [Hrun [Hret [Hcalls [Hcount _]]]]].
  exists r. split; [exact Hrun|].
  assert (Hc : FetchEventsWithStatus.calls r = [("page-a", "Past"); ("page-b", "Past")]).
  { rewrite Hcalls. vm_compute. reflexivity. }
  assert (Hn : FetchEventsWithStatus.updatedCount r = 1%nat).
  { rewrite Hcount, Hc. vm_compute. reflexivity. }
  split; [exact Hc|]. split; [exact Hn|].
  rewrite Hret, Hn. reflexivity.
Defined.

(** C8.  The store holds two visible events and answers in two pages of
    results.  The loop of the status updater follows the cursor and sees
    both; the query that feeds the published file is sent once, without a
    cursor, and only the event of the first page is published. *)
Theorem main_query_reads_first_page_only :
  FetchEventsWithStatus.query_all 2 two_page_store None [] = Ok [past_a; future_c]
  /\ exists (event_a event_c : object) (text : string),
       FetchEventsWithStatus.mapEvent past_a = Ok event_a
       /\ FetchEventsWithStatus.mapEvent future_c = Ok event_c
       /\ is_valid_event event_a = true
       /\ is_valid_event event_c = true
       /\ FetchEventsWithStatus.fetchAndWriteEvents 2 two_page_store no_files morning_after
          = Ok {| exit_code := 0;
                  files := {| last_sync := File "2025-11-12T19:00:00.000Z";
                              events_json := File text |};
                  written := [path_events_json; path_last_sync];
                  updates := [("page-a", "Past")];
                  waited := true |}
       /\ JSON_parse text = Ok (events_value [event_a])
       /\ exists text',
            FetchEvents.fetchAndWriteEvents two_page_store no_files
            = Ok {| exit_code := 0;
                    files := {| last_sync := File "2025-11-12T19:00:00.000Z";
                                events_json := File text' |};
                    written := [path_events_json; path_last_sync];
                    updates := [];
                    waited := false |}
            /\ JSON_parse text' = Ok (events_value [event_a]).
Proof.
  split; [reflexivity|].
  eexists. eexists. eexists.
  split; [vm_compute; reflexivity|].
  split; [vm_compute; reflexivity|].
  split; [vm_compute; reflexivity|].
  split; [vm_compute; reflexivity|].
  split; [vm_compute; reflexivity|].
  split; [vm_compute; reflexivity|].
  eexists.
  split; [vm_compute; reflexivity|].
  vm_compute. reflexivity.
Qed.

Lemma digest_survives_publication_witness :
  json_safe (events_value [venue_event]) = true
  /\ exists text hash,
       JSON_stringify_pretty (events_value [venue_event]) = Some text
       /\ computeEventsHash (events_value [venue_event]) = Ok hash
       /\ getExistingEventsHash {| last_sync := NoFile; events_json := File text |}
          = Ok (Some hash).
Proof.
  assert (Hsafe : json_safe (events_value [venue_event]) = true)
    by (vm_compute; reflexivity).
  split; [exact Hsafe|].
  exact (digest_survives_publication [venue_event] no_files Hsafe).
Defined.

End ScenarioFacts.

(** ** More scenarios, evaluated *)

Module CaseFacts.
Import UTC Scenario UTCCalendar Cases.

(** The archive of the programme: the group of January stands above the
    group of February, the later month. *)
Example archive_of_programme :
  exists pastEvents,
    EventsJS.past programme = Some pastEvents
    /\ EventsJS.archive pastEvents
       = Ok [("2025 / Jan", [listed "Last January" "Past" "2025-01-15"]);
             ("2025 / Feb", [listed "Last February" "Past" "2025-02-20"])].
Proof.
  eexists. split; [vm_compute; reflexivity|]. vm_compute. reflexivity.
Qed.

(** A list where one date is valid and one is not gets no order from the
    model: the comparison is not consistent there. *)
Example mixed_dates_have_no_order :
  EventsJS.upcoming [listed "A" "Upcoming" "2026-01-01"; listed "B" "Upcoming" "soon"]
  = None.
Proof. vm_compute. reflexivity. Qed.

Lemma mapEvent_keeps_extracted_values_witness :
  "Capacity" <> "datePretty"
  /\ "Capacity" <> "__proto__"
  /\ FetchEvents.mapEvent venue_page = Ok venue_event
  /\ obj_get venue_event "Capacity" = Some (VNum 40%Z)
  /\ obj_get venue_event "Location" = None.
Proof.
  assert (H1 : "Capacity" <> "datePretty") by discriminate.
  assert (H2 : "Capacity" <> "__proto__") by discriminate.
  assert (H3 : "Location" <> "datePretty") by discriminate.
  assert (H4 : "Location" <> "__proto__") by discriminate.
  assert (Hm : FetchEvents.mapEvent venue_page = Ok venue_event)
    by (vm_compute; reflexivity).
  split; [exact H1|]. split; [exact H2|]. split; [exact Hm|].
  split.
  - exact (proj1 (mapEvent_keeps_extracted_values venue_page venue_event "Capacity" H1 H2)
             Hm).
  - exact (proj1 (mapEvent_keeps_extracted_values venue_page venue_event "Location" H3 H4)
             Hm).
Defined.

Lemma mapEvent_adds_datePretty_witness :
  FetchEvents.mapEvent venue_page = Ok venue_event
  /\ truthy (js_get venue_event "Date") = true
  /\ truthy (js_get venue_event "date") = false
  /\ exists t,
       Date_new (js_get venue_event "Date") = Some t
       /\ js_get venue_event "datePretty"
          = VStr (remove_first_comma (DateTimeFormat_format t)).
Proof.
  assert (Hm : FetchEvents.mapEvent venue_page = Ok venue_event)
    by (vm_compute; reflexivity).
  assert (Hd : truthy (js_get venue_event "Date") = true) by reflexivity.
  assert (Hl : truthy (js_get venue_event "date") = false) by reflexivity.
  split; [exact Hm|]. split; [exact Hd|]. split; [exact Hl|].
  destruct (mapEvent_adds_datePretty venue_page venue_event (or_introl Hm) Hd)
    as [t [Ht Hpretty]].
  exists t. split; [exact Ht | exact (Hpretty Hl)].
Defined.

Lemma unparseable_date_aborts_run_witness :
  databases_query (single_page_store [venue_page; rumour_page]) main_query
  = Ok {| results := [venue_page; rumour_page]; has_more := false; next_cursor := None |}
  /\ In rumour_page [venue_page; rumour_page]
  /\ obj_get (page_properties rumour_page) "Date" = Some (PRichText (Some ["soon"]))
  /\ truthy (extractPropertyValue (PRichText (Some ["soon"]))) = true
  /\ Date_new (extractPropertyValue (PRichText (Some ["soon"]))) = None
  /\ FetchEvents.mapEvent rumour_page = Throw RangeError
  /\ FetchEvents.fetchAndWriteEvents (single_page_store [venue_page; rumour_page]) no_files
     = Ok {| exit_code := 1; files := no_files; written := [];
             updates := []; waited := false |}.
Proof.
  assert (Hin : In rumour_page [venue_page; rumour_page]) by (right; left; reflexivity).
  assert (Ht : truthy (extractPropertyValue (PRichText (Some ["soon"]))) = true)
    by reflexivity.
  assert (Hn : Date_new (extractPropertyValue (PRichText (Some ["soon"]))) = None)
    by (vm_compute; reflexivity).
  split; [reflexivity|]. split; [exact Hin|]. split; [reflexivity|].
  split; [exact Ht|]. split; [exact Hn|].
  exact (unparseable_date_aborts_run (single_page_store [venue_page; rumour_page]) no_files
           _ rumour_page _ eq_refl Hin eq_refl Ht Hn).
Defined.

Lemma checkpoint_follows_metadata_witness :
  fetch_and_write FetchEvents.mapEvent (single_page_store [venue_page]) no_files
  = Ok (published_files, [path_events_json; path_last_sync], 0%nat)
  /\ last_sync published_files = File "2025-11-10T08:00:00.000Z"
  /\ exists before,
       [path_events_json; path_last_sync] = (before ++ [path_last_sync])%list
       /\ ~ In path_last_sync before.
Proof.
  assert (Hrun : fetch_and_write FetchEvents.mapEvent (single_page_store [venue_page])
                   no_files
                 = Ok (published_files, [path_events_json; path_last_sync], 0%nat))
    by (vm_compute; reflexivity).
  split; [exact Hrun|].
  destruct (checkpoint_follows_metadata FetchEvents.mapEvent
              (single_page_store [venue_page]) no_files published_files
              [path_events_json; path_last_sync] 0%nat Hrun)
    as [_ [_ [Hfile Hlast]]].
  split; [exact (Hfile eq_refl) | exact Hlast].
Defined.

Lemma failed_fetch_wrote_nothing_or_lost_checkpoint_witness :
  databases_query (single_page_store [venue_page]) main_query <> Diverge
  /\ databases_query (single_page_store [venue_page; rumour_page]) main_query <> Diverge
  /\ (exists o,
        @FetchEvents.fetchAndWriteEvents _ checkpoint_refused
          (single_page_store [venue_page]) no_files = Ok o
        /\ exit_code o = 1%nat
        /\ files o = {| last_sync := NoFile; events_json := File published_text |}
        /\ written o = [path_events_json]
        /\ updates o = [])
  /\ (exists o,
        FetchEvents.fetchAndWriteEvents (single_page_store [venue_page; rumour_page])
          published_files = Ok o
        /\ exit_code o = 1%nat
        /\ files o = published_files
        /\ written o = []
        /\ updates o = []).
Proof.
  assert (Hq : databases_query (single_page_store [venue_page]) main_query <> Diverge)
    by discriminate.
  assert (Hq' : databases_query (single_page_store [venue_page; rumour_page]) main_query
                <> Diverge) by discriminate.
  split; [exact Hq|]. split; [exact Hq'|]. split.
  - destruct (@failed_fetch_wrote_nothing_or_lost_checkpoint _ checkpoint_refused
                (single_page_store [venue_page]) no_files Hq)
      as [o [Hrun [_ [Hupdates _]]]].
    exists o. split; [exact Hrun|].
    vm_compute in Hrun. injection Hrun as <-.
    repeat split; reflexivity.
  - destruct (failed_fetch_wrote_nothing_or_lost_checkpoint
                (single_page_store [venue_page; rumour_page]) published_files Hq')
      as [o [Hrun [_ [Hupdates [_ Hnothing]]]]].
    assert (Hacc : writes_accepted) by (repeat split; reflexivity).
    assert (Hcode : exit_code o = 1%nat).
    { vm_compute in Hrun. injection Hrun as <-. reflexivity. }
    destruct (Hnothing Hacc Hcode) as [Hfiles Hwritten].
    exists o. repeat split; assumption.
Defined.

Lemma failed_page_request_drops_all_updates_witness :
  databases_query half_served_store (upcoming_query None)
  = Ok {| results := [past_a]; has_more := true; next_cursor := Some "cursor-2" |}
  /\ databases_query half_served_store (upcoming_query (Some "cursor-2"))
     = Throw (APIError "rate_limited")
  /\ date_has_passed morning_after past_a = true
  /\ FetchEventsWithStatus.updateEventStatusesInNotion 5 half_served_store morning_after
     = Ok {| FetchEventsWithStatus.returned := false;
             FetchEventsWithStatus.calls := [];
             FetchEventsWithStatus.updatedCount := 0 |}.
Proof.
  split; [reflexivity|]. split; [reflexivity|].
  split; [vm_compute; reflexivity|].
  assert (Hfuel : (2 <= 5)%nat) by lia.
  exact (proj1 (failed_page_request_drops_all_updates 5 half_served_store no_files
                  morning_after [past_a] (Some "cursor-2") (APIError "rate_limited")
                  eq_refl eq_refl Hfuel)).
Defined.

Lemma undated_pages_are_left_alone_witness :
  FetchEventsWithStatus.query_all 1 (single_page_store [past_a; rumour_page]) None []
  = Ok [past_a; rumour_page]
  /\ NoDup (map page_id [past_a; rumour_page])
  /\ In rumour_page [past_a; rumour_page]
  /\ date_property rumour_page = Some (PRichText (Some ["soon"]))
  /\ exists r,
       FetchEventsWithStatus.updateEventStatusesInNotion 1
         (single_page_store [past_a; rumour_page]) morning_after = Ok r
       /\ calls_to "page-r" (FetchEventsWithStatus.calls r) = [].
Proof.
  assert (Hq : FetchEventsWithStatus.query_all 1 (single_page_store [past_a; rumour_page])
                 None [] = Ok [past_a; rumour_page]) by reflexivity.
  assert (Hnd : NoDup (map page_id [past_a; rumour_page])).
  { cbn [map page_id past_a rumour_page dated_page].
    constructor; [intros [Hbad | []]; discriminate Hbad|].
    constructor; [intros []|]. constructor. }
  assert (Hin : In rumour_page [past_a; rumour_page]) by (right; left; reflexivity).
  split; [exact Hq|]. split; [exact Hnd|]. split; [exact Hin|]. split; [reflexivity|].
  exact (undated_pages_are_left_alone 1 (single_page_store [past_a; rumour_page])
           morning_after [past_a; rumour_page] rumour_page Hq Hnd Hin I).
Defined.

Lemma status_updater_reads_every_page_witness :
  serves two_page_store None [[past_a]; [future_c]]
  /\ FetchEventsWithStatus.query_all 2 two_page_store None [] = Ok [past_a; future_c]
  /\ exists r,
       FetchEventsWithStatus.updateEventStatusesInNotion 2 two_page_store morning_after
       = Ok r
       /\ FetchEventsWithStatus.calls r
          = map (fun pg => (page_id pg, "Past"))
              (filter (date_has_passed morning_after) [past_a; future_c]).
Proof.
  assert (Hserves : serves two_page_store None [[past_a]; [future_c]]).
  { apply (serves_more two_page_store None [past_a] (Some "cursor-2") [[future_c]]).
    - reflexivity.
    - apply (serves_last two_page_store (Some "cursor-2") [future_c] None). reflexivity. }
  assert (Hfuel : (List.length [[past_a]; [future_c]] <= 2)%nat) by (cbn; lia).
  split; [exact Hserves|].
  exact (status_updater_reads_every_page 2 two_page_store morning_after
           [[past_a]; [future_c]] Hserves Hfuel).
Defined.

Lemma status_query_never_ends_on_endless_store_witness :
  (forall q, exists response,
      databases_query endless_store q = Ok response /\ has_more response = true)
  /\ FetchEventsWithStatus.query_all 1000 endless_store None [] = Diverge.
Proof.
  assert (Hendless : forall q, exists response,
             databases_query endless_store q = Ok response /\ has_more response = true).
  { intros q. eexists. split; reflexivity. }
  split; [exact Hendless|].
  exact (status_query_never_ends_on_endless_store endless_store Hendless 1000%nat None []).
Defined.

Lemma unreadable_checkpoint_hides_edits_witness :
  readLastSyncTimestamp unreadable_checkpoint = Ok (Some "yesterday")
  /\ Date_new (VStr "yesterday") = None
  /\ databases_retrieve quiet_store = Ok "2025-11-12T19:00:00.000Z"
  /\ (forall pg, In pg [future_c] -> date_has_passed morning_after pg = false)
  /\ CheckUpdates.main quiet_store unreadable_checkpoint morning_after = 1%nat
  /\ CheckUpdatesPlain.main quiet_store unreadable_checkpoint = 0%nat.
Proof.
  assert (Hread : readLastSyncTimestamp unreadable_checkpoint = Ok (Some "yesterday"))
    by reflexivity.
  assert (Hne : "yesterday" <> "") by discriminate.
  assert (Hdate : Date_new (VStr "yesterday") = None) by (vm_compute; reflexivity).
  assert (Hremote : "2025-11-12T19:00:00.000Z" <> "") by discriminate.
  assert (Hall : forall pg, In pg [future_c] -> date_has_passed morning_after pg = false).
  { intros pg [<- | []]. vm_compute. reflexivity. }
  split; [exact Hread|]. split; [exact Hdate|]. split; [reflexivity|].
  split; [exact Hall|].
  exact (unreadable_checkpoint_hides_edits quiet_store unreadable_checkpoint morning_after
           "yesterday" "2025-11-12T19:00:00.000Z"
           {| results := [future_c]; has_more := false; next_cursor := None |}
           Hread Hne Hdate eq_refl Hremote eq_refl Hall).
Defined.

Lemma date_scan_agrees_with_updater_witness :
  CheckUpdates.checkForDateBasedStatusChanges (single_page_store [past_a; future_c])
    morning_after = true
  /\ FetchEventsWithStatus.query_all 1 (single_page_store [past_a; future_c]) None []
     = Ok [past_a; future_c]
  /\ exists r pg,
       FetchEventsWithStatus.updateEventStatusesInNotion 1
         (single_page_store [past_a; future_c]) morning_after = Ok r
       /\ In pg [past_a; future_c]
       /\ In (page_id pg, "Past") (FetchEventsWithStatus.calls r).
Proof.
  assert (Hscan : CheckUpdates.checkForDateBasedStatusChanges
                    (single_page_store [past_a; future_c]) morning_after = true)
    by (vm_compute; reflexivity).
  assert (Hq : FetchEventsWithStatus.query_all 1 (single_page_store [past_a; future_c])
                 None [] = Ok [past_a; future_c]) by reflexivity.
  split; [exact Hscan|]. split; [exact Hq|].
  exact (date_scan_agrees_with_updater 1 (single_page_store [past_a; future_c])
           morning_after
           {| results := [past_a; future_c]; has_more := false; next_cursor := None |}
           [past_a; future_c] eq_refl Hq (incl_refl _) Hscan).
Defined.

Lemma synced_database_is_skipped_witness :
  fetch_and_write FetchEvents.mapEvent (single_page_store [venue_page]) no_files
  = Ok (published_files, [path_events_json; path_last_sync], 0%nat)
  /\ databases_retrieve (single_page_store [venue_page]) = Ok "2025-11-10T08:00:00.000Z"
  /\ all_chars (fun c => negb (is_js_space c) && (N_of_ascii c <? 128)%N)
       "2025-11-10T08:00:00.000Z" = true
  /\ Date_new (VStr "2025-11-10T08:00:00.000Z") = Some 1762761600000%Z
  /\ readable_or_missing (last_sync no_files) = true
  /\ readLastSyncTimestamp published_files = Ok (Some "2025-11-10T08:00:00.000Z")
  /\ CheckUpdatesPlain.main (single_page_store [venue_page]) published_files = 1%nat.
Proof.
  assert (Hrun : fetch_and_write FetchEvents.mapEvent (single_page_store [venue_page])
                   no_files
                 = Ok (published_files, [path_events_json; path_last_sync], 0%nat))
    by (vm_compute; reflexivity).
  assert (Hne : "2025-11-10T08:00:00.000Z" <> "") by discriminate.
  assert (Htrim : all_chars (fun c => negb (is_js_space c) && (N_of_ascii c <? 128)%N)
                    "2025-11-10T08:00:00.000Z" = true)
    by (vm_compute; reflexivity).
  assert (Hdate : Date_new (VStr "2025-11-10T08:00:00.000Z") = Some 1762761600000%Z)
    by (vm_compute; reflexivity).
  split; [exact Hrun|]. split; [reflexivity|]. split; [exact Htrim|].
  split; [exact Hdate|]. split; [reflexivity|].
  exact (proj1 (synced_database_is_skipped FetchEvents.mapEvent
                  (single_page_store [venue_page])
                  no_files published_files [path_events_json; path_last_sync] 0%nat
                  "2025-11-10T08:00:00.000Z" 1762761600000%Z Hrun eq_refl Hne Htrim Hdate)
           eq_refl).
Defined.

(** A checkpoint the scripts may write and not read (mode 0200): the
    fetch succeeds and writes it, and still the checker cannot read it and
    asks for a fetch. *)
Example write_only_checkpoint_is_not_read_back :
  exists after paths,
    fetch_and_write FetchEvents.mapEvent (single_page_store [venue_page])
      {| last_sync := Unreadable "EACCES"; events_json := NoFile |}
    = Ok (after, paths, 0%nat)
    /\ paths = [path_events_json; path_last_sync]
    /\ last_sync after = Unreadable "EACCES"
    /\ CheckUpdatesPlain.main (single_page_store [venue_page]) after = 0%nat.
Proof.
  eexists. eexists.
  split; [vm_compute; reflexivity|].
  split; [reflexivity|]. split; reflexivity.
Qed.

Lemma blank_checkpoint_counts_as_none_witness :
  last_sync blank_checkpoint = File (utf8_text [32; 160; 65279; 8232; 10]%N)
  /\ Forall (fun cp => In cp white_space_code_points) [32; 160; 65279; 8232; 10]%N
  /\ readLastSyncTimestamp blank_checkpoint = Ok (Some "")
  /\ CheckUpdates.main quiet_store blank_checkpoint morning_after = 0%nat
  /\ CheckUpdatesPlain.main quiet_store blank_checkpoint = 0%nat.
Proof.
  assert (Hblank : Forall (fun cp => In cp white_space_code_points)
                     [32; 160; 65279; 8232; 10]%N).
  { repeat (apply Forall_cons;
            [unfold white_space_code_points;
             repeat (first [left; reflexivity | right])|]).
    apply Forall_nil. }
  split; [reflexivity|]. split; [exact Hblank|].
  exact (blank_checkpoint_counts_as_none quiet_store blank_checkpoint morning_after
           [32; 160; 65279; 8232; 10]%N eq_refl Hblank).
Defined.

Lemma rehearsal_follows_the_checker_witness :
  databases_query (single_page_store [venue_page]) main_query <> Diverge
  /\ CheckUpdates.main (single_page_store [venue_page]) no_files morning_after = 0%nat
  /\ exists r o,
       TestSync.rehearse (single_page_store [venue_page]) morning_after no_files = Ok r
       /\ FetchEvents.fetchAndWriteEvents (single_page_store [venue_page]) no_files = Ok o
       /\ r = {| TestSync.exit := exit_code o; TestSync.after := files o;
                 TestSync.started := [TestSync.check_script; TestSync.fetch_script] |}.
Proof.
  assert (Hq : databases_query (single_page_store [venue_page]) main_query <> Diverge)
    by discriminate.
  assert (Hcheck : CheckUpdates.main (single_page_store [venue_page]) no_files
                     morning_after = 0%nat) by reflexivity.
  split; [exact Hq|]. split; [exact Hcheck|].
  destruct (rehearsal_follows_the_checker (single_page_store [venue_page]) morning_after
              no_files Hq) as [r [Hrun [_ [Hfetch _]]]].
  destruct (Hfetch Hcheck) as [o [Ho Hr]].
  exists r, o. split; [exact Hrun|]. split; [exact Ho | exact Hr].
Defined.

Lemma second_rehearsal_changes_nothing_witness :
  page_numbers_print_back venue_page = true
  /\ TestSync.rehearse (single_page_store [venue_page]) morning_after no_files
     = Ok {| TestSync.exit := 0; TestSync.after := published_files;
             TestSync.started := [TestSync.check_script; TestSync.fetch_script] |}
  /\ exists r',
       TestSync.rehearse (single_page_store [venue_page]) morning_after published_files
       = Ok r'
       /\ TestSync.exit r' = 0%nat
       /\ TestSync.after r' = published_files.
Proof.
  assert (Hnum : page_numbers_print_back venue_page = true) by (vm_compute; reflexivity).
  assert (Hall : forall pg, In pg [venue_page] -> page_numbers_print_back pg = true).
  { intros pg [<- | []]. exact Hnum. }
  assert (Hfirst : TestSync.rehearse (single_page_store [venue_page]) morning_after
                     no_files
                   = Ok {| TestSync.exit := 0; TestSync.after := published_files;
                           TestSync.started :=
                             [TestSync.check_script; TestSync.fetch_script] |})
    by (vm_compute; reflexivity).
  assert (Hran : In TestSync.fetch_script [TestSync.check_script; TestSync.fetch_script])
    by (right; left; reflexivity).
  split; [exact Hnum|]. split; [exact Hfirst|].
  exact (second_rehearsal_changes_nothing (single_page_store [venue_page])
           morning_after morning_after no_files
           {| results := [venue_page]; has_more := false; next_cursor := None |}
           _ eq_refl Hall Hfirst eq_refl Hran).
Defined.

Lemma fetchEvents_answers_with_a_list_witness :
  served <> Diverge
  /\ EventsJS.fetchEvents served = Ok [venue_row]
  /\ exists data,
       JSON_parse published_text = Ok (VArr data)
       /\ map_result EventsJS.formatEvent data = Ok [venue_row]
       /\ List.length [venue_row] = List.length data.
Proof.
  assert (Hserved : served <> Diverge) by discriminate.
  assert (Hrun : EventsJS.fetchEvents served = Ok [venue_row])
    by (vm_compute; reflexivity).
  split; [exact Hserved|]. split; [exact Hrun|].
  destruct (fetchEvents_answers_with_a_list served Hserved)
    as [events [Hevents [Hfull _]]].
  rewrite Hrun in Hevents. injection Hevents as <-.
  assert (Hne : [venue_row] <> []) by discriminate.
  destruct (Hfull Hne) as [response [data [Hresp [_ [Hparse [Hmap [Hlen _]]]]]]].
  injection Hresp as <-.
  exists data. split; [exact Hparse|]. split; [exact Hmap | exact Hlen].
Defined.

Lemma formatEvent_fills_blanks_witness :
  EventsJS.formatEvent (VObj venue_event) = Ok venue_row
  /\ EventsJS.member (VObj venue_event) "Status" = VStr "Upcoming"
  /\ EventsJS.has_status "Upcoming" venue_row = true
  /\ (EventsJS.type venue_row = VStr "" \/ truthy (EventsJS.type venue_row) = true)
  /\ (EventsJS.link venue_row = VNull \/ truthy (EventsJS.link venue_row) = true).
Proof.
  assert (Hf : EventsJS.formatEvent (VObj venue_event) = Ok venue_row) by reflexivity.
  assert (Hs : EventsJS.member (VObj venue_event) "Status" = VStr "Upcoming")
    by reflexivity.
  destruct (formatEvent_fills_blanks (VObj venue_event) venue_row Hf)
    as [Hfields [Hlink [Hup _]]].
  split; [exact Hf|]. split; [exact Hs|].
  split; [exact (proj2 Hup Hs)|].
  split; [|exact Hlink].
  apply Hfields. right. left. reflexivity.
Defined.

Lemma home_page_shows_the_next_three_witness :
  (forall e, In e programme -> EventsJS.has_status "Upcoming" e = true ->
             EventsJS.has_time e = true)
  /\ EventsJS.homeEvents programme
     = Some [listed "January" "Upcoming" "2026-01-01";
             listed "February" "Upcoming" "2026-02-01";
             listed "March" "Upcoming" "2026-03-01"]
  /\ exists sorted,
       EventsJS.upcoming programme = Some sorted
       /\ EventsJS.homeEvents programme = Some (firstn 3 sorted)
       /\ StronglySorted starts_no_later (firstn 3 sorted)
       /\ forall shown left_out,
            In shown (firstn 3 sorted) -> In left_out (skipn 3 sorted) ->
            starts_no_later shown left_out.
Proof.
  assert (Hvalid : forall e, In e programme -> EventsJS.has_status "Upcoming" e = true ->
                             EventsJS.has_time e = true).
  { intros e Hin _. cbn [programme In] in Hin.
    destruct Hin as [<- | [<- | [<- | [<- | [<- | [<- | [<- | []]]]]]]];
      vm_compute; reflexivity. }
  split; [exact Hvalid|]. split; [vm_compute; reflexivity|].
  destruct (home_page_shows_the_next_three programme Hvalid)
    as [sorted [Hup [_ [Hhome [_ [_ [Hsorted Hrest]]]]]]].
  exists sorted.
  split; [exact Hup|]. split; [exact Hhome|]. split; [exact Hsorted | exact Hrest].
Defined.


Lemma jsonld_lists_every_event_witness :
  map_result EventsJS.formatEvent [VObj venue_event] = Ok [venue_row]
  /\ (exists text,
         JSON_stringify (VArr (map EventsJS.jsonld [venue_row])) = Some text
         /\ EventsJS.injectEventJsonLd [venue_row] [] = [text])
  /\ EventsJS.member (EventsJS.jsonld venue_row) "startDate"
     = VStr "2025-11-12T19:00:00.000+00:00".
Proof.
  assert (Hm : map_result EventsJS.formatEvent [VObj venue_event] = Ok [venue_row])
    by reflexivity.
  assert (Hne : [venue_row] <> []) by discriminate.
  destruct (jsonld_lists_every_event [VObj venue_event] [venue_row] [] Hm)
    as [_ [Hinject [_ Hentries]]].
  split; [exact Hm|]. split; [exact (Hinject Hne)|].
  destruct (Hentries venue_row (or_introl eq_refl)) as [_ [Hstart _]].
  exact Hstart.
Defined.

Lemma fetch_ignores_the_checkpoint_witness :
  events_json {| last_sync := Unreadable "EACCES"; events_json := NoFile |}
  = events_json no_files
  /\ (exists after paths,
         fetch_and_write FetchEvents.mapEvent (single_page_store [venue_page])
           {| last_sync := Unreadable "EACCES"; events_json := NoFile |}
         = Ok (after, paths, 0%nat)
         /\ events_json after = events_json published_files
         /\ paths = [path_events_json; path_last_sync])
  /\ CheckUpdates.main (single_page_store [venue_page])
       {| last_sync := Unreadable "EACCES"; events_json := NoFile |} morning_after = 0%nat
  /\ CheckUpdatesPlain.main (single_page_store [venue_page])
       {| last_sync := Unreadable "EACCES"; events_json := NoFile |} = 0%nat.
Proof.
  assert (Hsame : events_json {| last_sync := Unreadable "EACCES"; events_json := NoFile |}
                  = events_json no_files) by reflexivity.
  assert (Hrun : fetch_and_write FetchEvents.mapEvent (single_page_store [venue_page])
                   no_files
                 = Ok (published_files, [path_events_json; path_last_sync], 0%nat))
    by (vm_compute; reflexivity).
  destruct (fetch_ignores_the_checkpoint FetchEvents.mapEvent
              (single_page_store [venue_page])
              {| last_sync := Unreadable "EACCES"; events_json := NoFile |} no_files Hsame)
    as [Halike Hcheck].
  split; [exact Hsame|].
  split; [|exact (Hcheck "EACCES" morning_after eq_refl eq_refl)].
  rewrite Hrun in Halike.
  destruct (fetch_and_write FetchEvents.mapEvent (single_page_store [venue_page])
              {| last_sync := Unreadable "EACCES"; events_json := NoFile |})
    as [[[after paths] code]| |]; try contradiction.
  destruct Halike as [Hfiles [Hpaths Hcode]].
  exists after, paths. rewrite Hcode.
  split; [reflexivity|]. split; [exact Hfiles | exact Hpaths].
Defined.

Lemma titled_dated_page_is_published_iff_witness :
  obj_get (page_properties venue_page) "Name" = Some (PTitle (Some ["Afterhours"]))
  /\ obj_get (page_properties venue_page) "Date" = Some (PDate (Some evening))
  /\ obj_get (page_properties venue_page) "name" = None
  /\ obj_get (page_properties venue_page) "date" = None
  /\ FetchEvents.mapEvent venue_page = Ok venue_event
  /\ is_valid_event venue_event = true.
Proof.
  assert (Hm : FetchEvents.mapEvent venue_page = Ok venue_event)
    by (vm_compute; reflexivity).
  split; [reflexivity|]. split; [reflexivity|]. split; [reflexivity|].
  split; [reflexivity|]. split; [exact Hm|].
  apply (proj2 (titled_dated_page_is_published_iff venue_page venue_event
                  (Some ["Afterhours"]) (Some evening)
                  eq_refl eq_refl eq_refl eq_refl (or_introl Hm))).
  split.
  - exists ["Afterhours"]. split; [reflexivity | discriminate].
  - exists evening. split; [reflexivity | discriminate].
Defined.

End CaseFacts.
